(** * Meep: history store, tool-call thread and message assembly

    A shallow embedding of
      - [graphs/_data.py]       (messages, channels, [History], the reducers),
      - [graphs/_mcp.py]        ([MCPThread.current_responses]),
      - [graphs/_formatting.py] ([assemble_messages]),
    followed by the properties established about them.

    Conventions.
      - A [datetime] is an absolute instant, a [Z].
      - A Python [dict] is an association list in insertion order whose keys
        are pairwise distinct; [dict_set] overwrites in place or appends.
      - Every evaluation of [datetime.datetime.now()] is a reading of a
        clock, indexed by the place of the call ([ClockSite]); no order
        between readings is assumed.  A [Clock] holds the readings of one
        call of a function: two calls of the reducer take two clocks.
      - An [InternalUpdates] is given by its values ([Updates]: every
        message is an object of its own) or with its message objects
        named ([SharedUpdates], [history_reducer_shared]: two entries may
        be the same Python object, and what the reducer writes onto it
        for one is read for the other). *)

From Stdlib Require Import ZArith List String Bool Lia.
From Stdlib Require Import Sorting.Sorted Sorting.Permutation.
From stdpp Require Import base option list sorting gmap.
Import ListNotations.
Local Open Scope string_scope.
Local Open Scope list_scope.
Local Open Scope Z_scope.

(* ===================================================================== *)
(** ** Python values *)

Inductive PyError : Type :=
  | ValueError_out_of_bounds (message_id : Z) (channel_id : string) (len : nat)
  | IndexError
  | KeyError (key : string)
  | ValueError_not_AIMessage
  | AttributeError
  | ValueError_no_location
  | ValueError_no_index.

(** The result of running a piece of code: a value, a raised exception, or
    no answer within the allotted number of loop iterations. *)
Inductive outcome (A : Type) : Type :=
  | Ok (a : A)
  | Raise (e : PyError)
  | OutOfFuel.
Arguments Ok {A} a.
Arguments Raise {A} e.
Arguments OutOfFuel {A}.

Definition bind {A B : Type} (x : outcome A) (f : A -> outcome B) : outcome B :=
  match x with
  | Ok a => f a
  | Raise e => Raise e
  | OutOfFuel => OutOfFuel
  end.

Notation "'do' x <- c1 ; c2" := (bind c1 (fun x => c2))
  (at level 10, x pattern, c1 at level 100, c2 at level 200).

Definition is_index_error (e : PyError) : bool :=
  match e with
  | ValueError_out_of_bounds _ _ _ | IndexError => true
  | _ => false
  end.

(** [l[i]] for a Python list: the position addressed by [i], counting from
    the end when [i] is negative; [None] where Python raises [IndexError]. *)
Definition py_index {A : Type} (l : list A) (i : Z) : option nat :=
  let n := Z.of_nat (length l) in
  if (0 <=? i) && (i <? n) then Some (Z.to_nat i)
  else if (i <? 0) && (- n <=? i) then Some (Z.to_nat (n + i))
  else None.

(** [l.insert(i, x)] for [0 <= i]. *)
Definition py_insert {A : Type} (i : nat) (x : A) (l : list A) : list A :=
  take i l ++ x :: drop i l.

(** Truthiness of an [Optional[str]]. *)
Definition truthy (o : option string) : bool :=
  match o with
  | Some s => negb (String.eqb s "")
  | None => false
  end.

Definition len (s : string) : Z := Z.of_nat (String.length s).

(** *** Insertion-ordered dictionaries *)

Section Dict.
Context {K : Type} `{EqDecision K} {V : Type}.

Fixpoint dict_get (k : K) (d : list (K * V)) : option V :=
  match d with
  | [] => None
  | (k', v) :: d' => if decide (k = k') then Some v else dict_get k d'
  end.

Fixpoint dict_set (k : K) (v : V) (d : list (K * V)) : list (K * V) :=
  match d with
  | [] => [(k, v)]
  | (k', v') :: d' =>
      if decide (k = k') then (k', v) :: d' else (k', v') :: dict_set k v d'
  end.

Definition dict_keys (d : list (K * V)) : list K := map fst d.

(** [d.update(other)] *)
Definition dict_update (d other : list (K * V)) : list (K * V) :=
  fold_left (fun acc kv => dict_set (fst kv) (snd kv) acc) other d.
End Dict.

(** *** [list.sort(key=...)] and [sorted]: the stable sort *)

Section StableSort.
Context {A : Type} (key : A -> Z).

Fixpoint sort_insert (x : A) (l : list A) : list A :=
  match l with
  | [] => [x]
  | y :: l' => if key x <=? key y then x :: y :: l' else y :: sort_insert x l'
  end.

Fixpoint py_sort (l : list A) : list A :=
  match l with
  | [] => []
  | x :: l' => sort_insert x (py_sort l')
  end.
End StableSort.

(** [sorted(l, reverse=True)] on integers. *)
Definition sorted_reverse (l : list Z) : list Z := py_sort Z.opp l.

(** [max(...)] and [min(...)] of a non-empty sequence given as head and tail. *)
Definition py_max (d : Z) (ds : list Z) : Z := fold_left Z.max ds d.
Definition py_min (d : Z) (ds : list Z) : Z := fold_left Z.min ds d.

(* ===================================================================== *)
(** ** Messages ([graphs/_data.py]) *)

Inductive ToolCallStatus : Type :=
  | Unconfirmed | Confirmed | Canceled | Rejected
  | Processing | Completed | Failed.

Inductive ExternalStatus : Type := Error | Success.

Definition EXTERNAL_STATUS_MAPPING (s : ToolCallStatus) : ExternalStatus :=
  match s with
  | Completed => Success
  | _ => Error
  end.

Record InternalToolMessage : Type := {
  tool_call_id : string;
  internal_status : ToolCallStatus;
  status : ExternalStatus;
  content : option string
}.

Definition set_status (self : InternalToolMessage)
    (new_status : ToolCallStatus) (new_content : option string)
    : InternalToolMessage :=
  {| tool_call_id := tool_call_id self;
     internal_status := new_status;
     status := EXTERNAL_STATUS_MAPPING new_status;
     content := match new_content with
                | Some c => Some c
                | None => content self
                end |}.

Record ToolCall : Type := {
  tc_id : string;
  tc_name : string;
  tc_args : list (string * string)
}.

Record HumanMessage_ : Type := {
  h_content : string;
  h_date : Z;
  h_summary : option string;
  h_author : option string;
  h_message_id : option Z
}.

Record AIMessage_ : Type := {
  ai_content : string;
  ai_date : Z;
  ai_summary : option string;
  activity : string;
  tool_calls : list ToolCall;
  internal_tool_messages : list (string * InternalToolMessage)
}.

Record SystemMessage_ : Type := {
  s_content : string;
  s_date : Z;
  s_summary : option string;
  s_author : option string;
  lifespan : option Z
}.

Inductive StructuredMessage : Type :=
  | Human (m : HumanMessage_)
  | AI (m : AIMessage_)
  | System (m : SystemMessage_).

Definition date (m : StructuredMessage) : Z :=
  match m with
  | Human h => h_date h
  | AI a => ai_date a
  | System s => s_date s
  end.

(** [message.date = d] *)
Definition set_date (m : StructuredMessage) (d : Z) : StructuredMessage :=
  match m with
  | Human h =>
      Human {| h_content := h_content h; h_date := d; h_summary := h_summary h;
               h_author := h_author h; h_message_id := h_message_id h |}
  | AI a =>
      AI {| ai_content := ai_content a; ai_date := d; ai_summary := ai_summary a;
            activity := activity a; tool_calls := tool_calls a;
            internal_tool_messages := internal_tool_messages a |}
  | System s =>
      System {| s_content := s_content s; s_date := d; s_summary := s_summary s;
                s_author := s_author s; lifespan := lifespan s |}
  end.

Definition msg_content (m : StructuredMessage) : string :=
  match m with
  | Human h => h_content h
  | AI a => ai_content a
  | System s => s_content s
  end.

Definition msg_summary (m : StructuredMessage) : option string :=
  match m with
  | Human h => h_summary h
  | AI a => ai_summary a
  | System s => s_summary s
  end.

(** [message.internal_tool_messages[tid] = tm] *)
Definition set_tool_message (a : AIMessage_) (tid : string)
    (tm : InternalToolMessage) : AIMessage_ :=
  {| ai_content := ai_content a; ai_date := ai_date a;
     ai_summary := ai_summary a; activity := activity a;
     tool_calls := tool_calls a;
     internal_tool_messages := dict_set tid tm (internal_tool_messages a) |}.

Record Summary : Type := {
  max_date : Z;
  min_date : Z;
  summary : string
}.

(* ===================================================================== *)
(** ** Updates *)

Record InternalChannelUpdates : Type := {
  upd_name : option string;
  upd_channel_type : option string;
  upd_wakeup_url : option string;
  delete_before : option Z;
  upd_no_reactive_tool_call_before : option Z;
  upd_no_temporary_message_before : option Z;
  new_messages : list StructuredMessage;
  message_updates : list (Z * StructuredMessage);
  message_deletes : list Z;
  message_append_left : list StructuredMessage;
  new_summaries : list Summary
}.

(** [InternalChannelUpdates()] *)
Definition empty_channel_updates : InternalChannelUpdates :=
  {| upd_name := None; upd_channel_type := None; upd_wakeup_url := None;
     delete_before := None; upd_no_reactive_tool_call_before := None;
     upd_no_temporary_message_before := None; new_messages := [];
     message_updates := []; message_deletes := []; message_append_left := [];
     new_summaries := [] |}.

Definition or_else {A : Type} (new old : option A) : option A :=
  match new with Some x => Some x | None => old end.

(** [InternalChannelUpdates.merge] *)
Definition merge (self other : InternalChannelUpdates) : InternalChannelUpdates :=
  {| upd_name := or_else (upd_name other) (upd_name self);
     upd_channel_type := or_else (upd_channel_type other) (upd_channel_type self);
     upd_wakeup_url := or_else (upd_wakeup_url other) (upd_wakeup_url self);
     delete_before := or_else (delete_before other) (delete_before self);
     upd_no_reactive_tool_call_before :=
       or_else (upd_no_reactive_tool_call_before other)
               (upd_no_reactive_tool_call_before self);
     upd_no_temporary_message_before :=
       or_else (upd_no_temporary_message_before other)
               (upd_no_temporary_message_before self);
     new_messages := new_messages self ++ new_messages other;
     message_updates := dict_update (message_updates self) (message_updates other);
     message_deletes := message_deletes self ++ message_deletes other;
     message_append_left := message_append_left self ++ message_append_left other;
     new_summaries := new_summaries self ++ new_summaries other |}.

Record InternalUpdates : Type := {
  channel_updates : list (string * InternalChannelUpdates);
  upd_current_channel : option string;
  tool_updates : list InternalToolMessage
}.

(** [InternalUpdates()] *)
Definition empty_updates : InternalUpdates :=
  {| channel_updates := []; upd_current_channel := None; tool_updates := [] |}.

(** [internal_updates_reducer], on an [InternalUpdates] right operand. *)
Definition internal_updates_reducer (left right : InternalUpdates)
    : InternalUpdates :=
  {| tool_updates := tool_updates left ++ tool_updates right;
     upd_current_channel :=
       or_else (upd_current_channel right) (upd_current_channel left);
     channel_updates :=
       fold_left
         (fun acc kv =>
            let existing :=
              match dict_get (fst kv) acc with
              | Some u => u
              | None => empty_channel_updates
              end in
            dict_set (fst kv) (merge existing (snd kv)) acc)
         (channel_updates right) (channel_updates left) |}.

(* ===================================================================== *)
(** ** Channels and the history *)

Record Channel : Type := {
  ch_id : string;
  ch_name : string;
  channel_type : string;
  wakeup_url : option string;
  messages : list StructuredMessage;
  summaries : list (Z * list Summary);
  last_activity : Z;
  max_summary_date : Z;
  no_reactive_tool_call_before : option Z;
  no_temporary_message_before : option Z
}.

Record History : Type := {
  current_channel : option string;
  channels : list (string * Channel)
}.

(** [History()] *)
Definition empty_history : History :=
  {| current_channel := None; channels := [] |}.

Definition is_empty (h : History) : bool :=
  match current_channel h, channels h with
  | None, [] => true
  | _, _ => false
  end.

(** The places where [datetime.datetime.now()] is evaluated. *)
Inductive ClockSite : Type :=
  | ChannelLastActivity (channel_id : string)
  | ChannelMaxSummaryDate (channel_id : string)
  | SummariesEmptied (channel_id : string)
  | ToolUpdatedDate (n : nat)
  | McpToolUpdatedDate (n : nat).

Definition Clock : Type := ClockSite -> Z.

(** [Channel(id=id, name=name)] *)
Definition new_Channel (clk : Clock) (id name : string) : Channel :=
  {| ch_id := id; ch_name := name; channel_type := "basic"; wakeup_url := None;
     messages := []; summaries := [];
     last_activity := clk (ChannelLastActivity id);
     max_summary_date := clk (ChannelMaxSummaryDate id);
     no_reactive_tool_call_before := None;
     no_temporary_message_before := None |}.

Definition set_messages (c : Channel) (ms : list StructuredMessage) : Channel :=
  {| ch_id := ch_id c; ch_name := ch_name c; channel_type := channel_type c;
     wakeup_url := wakeup_url c; messages := ms; summaries := summaries c;
     last_activity := last_activity c; max_summary_date := max_summary_date c;
     no_reactive_tool_call_before := no_reactive_tool_call_before c;
     no_temporary_message_before := no_temporary_message_before c |}.

Definition set_channels (h : History) (cs : list (string * Channel)) : History :=
  {| current_channel := current_channel h; channels := cs |}.

(** [History.get_current_channel] *)
Definition get_current_channel (clk : Clock) (self : History) : Channel :=
  match current_channel self with
  | None => new_Channel clk "unregistered" "Unregistered Channel"
  | Some cid =>
      match dict_get cid (channels self) with
      | Some c => c
      | None => new_Channel clk cid cid
      end
  end.

(* ===================================================================== *)
(** ** [History.locate_tool_calls] *)

Definition Location : Type := (string * nat)%type.

(** [id_queue.remove(tid)]: the first occurrence goes. *)
Fixpoint remove_first (tid : string) (q : list string) : list string :=
  match q with
  | [] => []
  | x :: q' => if decide (tid = x) then q' else x :: remove_first tid q'
  end.

Definition in_queue (tid : string) (q : list string) : bool :=
  bool_decide (tid ∈ q).

Definition LocateState : Type :=
  (list string * list (string * option Location))%type.

(** The body of [for tid in message.internal_tool_messages.keys()]. *)
Definition scan_key (channel_id : string) (index : nat)
    (st : LocateState) (tid : string) : LocateState :=
  if in_queue tid (fst st)
  then (remove_first tid (fst st),
        dict_set tid (Some (channel_id, index)) (snd st))
  else st.

Definition scan_message (channel_id : string) (index : nat)
    (st : LocateState) (message : StructuredMessage) : LocateState :=
  match message with
  | AI a =>
      match tool_calls a with
      | [] => st
      | _ :: _ =>
          fold_left (scan_key channel_id index)
                    (dict_keys (internal_tool_messages a)) st
      end
  | _ => st
  end.

(** [for index, message in enumerate(current_channel.messages)], from
    position [index] on. *)
Fixpoint scan_messages (channel_id : string) (index : nat)
    (msgs : list StructuredMessage) (st : LocateState) : LocateState :=
  match msgs with
  | [] => st
  | m :: msgs' =>
      scan_messages channel_id (S index) msgs'
                    (scan_message channel_id index st m)
  end.

(** The search for the next channel: the first one, in the order of the
    dictionary, of greatest [last_activity] among those not yet checked. *)
Definition next_channel (chans : list (string * Channel))
    (checked_channels : list string) : option Channel :=
  fold_left
    (fun cur kv =>
       if bool_decide (fst kv ∈ checked_channels) then cur
       else match cur with
            | None => Some (snd kv)
            | Some c =>
                if last_activity c <? last_activity (snd kv)
                then Some (snd kv) else cur
            end)
    chans None.

(** [while current_channel: ...], one unit of fuel per iteration. *)
Fixpoint locate_loop (fuel : nat) (self : History) (cur : Channel)
    (checked_channels : list string) (st : LocateState)
    : outcome (list (string * option Location)) :=
  match fuel with
  | O => OutOfFuel
  | S fuel' =>
      let checked' := checked_channels ++ [ch_id cur] in
      let st' := scan_messages (ch_id cur) 0 (messages cur) st in
      match fst st' with
      | [] => Ok (snd st')
      | _ :: _ =>
          match next_channel (channels self) checked' with
          | None => Ok (snd st')
          | Some c => locate_loop fuel' self c checked' st'
          end
      end
  end.

Definition locate_tool_calls (clk : Clock) (fuel : nat) (self : History)
    (tool_call_ids : list string)
    : outcome (list (string * option Location)) :=
  let results :=
    fold_left (fun acc tid => dict_set tid None acc) tool_call_ids [] in
  locate_loop fuel self (get_current_channel clk self) [] (tool_call_ids, results).

(* ===================================================================== *)
(** ** [history_reducer] *)

(** *** Per channel *)

(** The messages of an [InternalUpdates] are Python objects, and the
    reducer puts these very objects into the channels of the copy of
    [left]: steps 2 and 4 write the date onto the operand's object before
    they store it, and a tool update writes onto the message that it
    finds.  An object that the operand holds under two entries is then
    one object at two positions of the channels, and what is written at
    one is read at the other. *)

(** The objects of the operand, by number. *)
Definition Objects : Type := nat -> StructuredMessage.

(** [o.attribute = ...]: the object [o] becomes [m]. *)
Definition write (objs : Objects) (o : nat) (m : StructuredMessage) : Objects :=
  fun o' => if decide (o' = o) then m else objs o'.

(** An item of [channel.messages]: a message of the copy of [left] (or
    one that the reducer creates), which nothing else refers to, or an
    object of the operand. *)
Inductive MessageRef : Type :=
  | Copied (m : StructuredMessage)
  | Operand (o : nat).

Definition value (objs : Objects) (r : MessageRef) : StructuredMessage :=
  match r with
  | Copied m => m
  | Operand o => objs o
  end.

(** Step 2, one entry of [message_updates]:
    [message_update.date = channel.messages[message_id].date] is written
    onto the operand's object, and
    [channel.messages[message_id] = message_update] stores that object. *)
Definition apply_message_update (channel_id : string)
    (st : Objects * list MessageRef) (upd : Z * nat)
    : outcome (Objects * list MessageRef) :=
  let objs := fst st in
  let msgs := snd st in
  let message_id := fst upd in
  let message_update := snd upd in
  if message_id <? Z.of_nat (length msgs) then
    match py_index msgs message_id with
    | Some i =>
        match msgs !! i with
        | Some old =>
            Ok (write objs message_update
                  (set_date (objs message_update) (date (value objs old))),
                <[i := Operand message_update]> msgs)
        | None => Raise IndexError
        end
    | None => Raise IndexError
    end
  else Raise (ValueError_out_of_bounds message_id channel_id (length msgs)).

(** Step 2 for an entry whose message is an object that nothing else
    refers to: the step runs on that object alone, and the messages are
    read back. *)
Definition apply_message_update_value (channel_id : string)
    (msgs : list StructuredMessage) (upd : Z * StructuredMessage)
    : outcome (list StructuredMessage) :=
  do st <- apply_message_update channel_id
             (fun _ => snd upd, map Copied msgs) (fst upd, 0%nat);
  Ok (map (value (fst st)) (snd st)).

(** Step 2 for a diff every message of which is an object of its own (the
    loop on objects is [apply_message_updates_shared] below). *)
Fixpoint apply_message_updates (channel_id : string)
    (msgs : list StructuredMessage) (upds : list (Z * StructuredMessage))
    : outcome (list StructuredMessage) :=
  match upds with
  | [] => Ok msgs
  | u :: upds' =>
      do msgs' <- apply_message_update_value channel_id msgs u;
      apply_message_updates channel_id msgs' upds'
  end.

(** Step 3, one index of [message_deletes]. *)
Definition delete_message {A : Type} (msgs : list A) (message_index : Z)
    : outcome (list A) :=
  if message_index <? Z.of_nat (length msgs) then
    match py_index msgs message_index with
    | Some i => Ok (delete i msgs)
    | None => Raise IndexError
    end
  else Ok msgs.

Fixpoint delete_messages {A : Type} (msgs : list A) (indices : list Z)
    : outcome (list A) :=
  match indices with
  | [] => Ok msgs
  | i :: indices' =>
      do msgs' <- delete_message msgs i;
      delete_messages msgs' indices'
  end.

(** Step 3, [delete_before]: what is left of the summaries, and the
    recomputed [max_summary_date]. *)
Definition prune_summaries (t : Z) (sums : list (Z * list Summary))
    : list (Z * list Summary) :=
  List.filter (fun kv => t <=? fst kv) sums.

Definition pruned_max_summary_date (clk : Clock) (channel_id : string)
    (kept : list (Z * list Summary)) (old : Z) : Z :=
  match kept with
  | [] => clk (SummariesEmptied channel_id)
  | _ :: _ =>
      match flat_map (fun kv => map min_date (snd kv)) kept with
      | [] => old
      | d :: ds => py_min d ds
      end
  end.

(** Step 4, one message of [message_append_left]:
    [new_message.date = channel.messages[0].date] is written onto the
    operand's object, and [channel.messages.insert(0, new_message)] stores
    that object. *)
Definition append_left (st : Objects * list MessageRef) (new_message : nat)
    : Objects * list MessageRef :=
  let objs := fst st in
  (match snd st with
   | m0 :: _ =>
       if date (value objs m0) <? date (objs new_message)
       then write objs new_message
              (set_date (objs new_message) (date (value objs m0)))
       else objs
   | [] => objs
   end,
   Operand new_message :: snd st).

(** Step 4 for a message that is an object that nothing else refers to. *)
Definition append_left_value (msgs : list StructuredMessage)
    (new_message : StructuredMessage) : list StructuredMessage :=
  let st := append_left (fun _ => new_message, map Copied msgs) 0%nat in
  map (value (fst st)) (snd st).

(** Step 5. *)
Definition append_new (st : list StructuredMessage * bool)
    (new_message : StructuredMessage) : list StructuredMessage * bool :=
  (fst st ++ [new_message],
   match last (fst st) with
   | Some l => if date new_message <? date l then true else snd st
   | None => snd st
   end).

Definition add_new_messages (msgs news : list StructuredMessage)
    : list StructuredMessage :=
  let st := fold_left append_new news (msgs, false) in
  if snd st then py_sort date (fst st) else fst st.

(** Step 7, one summary of [new_summaries]. *)
Definition add_summary (sums : list (Z * list Summary)) (new_summary : Summary)
    : list (Z * list Summary) :=
  match dict_get (max_date new_summary) sums with
  | None => dict_set (max_date new_summary) [new_summary] sums
  | Some l =>
      dict_set (max_date new_summary) (py_sort min_date (l ++ [new_summary])) sums
  end.

(** The body of the channel loop, steps 1.5 to 8, for a diff every
    message of which is an object of its own (on objects:
    [process_channel_shared] below). *)
Definition process_channel (clk : Clock) (channel_id : string)
    (channel : Channel) (u : InternalChannelUpdates) : outcome Channel :=
  (* 1.5 channel metadata *)
  let name1 := default (ch_name channel) (upd_name u) in
  let type1 := default (channel_type channel) (upd_channel_type u) in
  let url1 := or_else (upd_wakeup_url u) (wakeup_url channel) in
  let reactive1 :=
    or_else (upd_no_reactive_tool_call_before u)
            (no_reactive_tool_call_before channel) in
  let temporary1 :=
    or_else (upd_no_temporary_message_before u)
            (no_temporary_message_before channel) in
  (* 2. positional updates *)
  do msgs2 <- apply_message_updates channel_id (messages channel)
                                    (message_updates u);
  (* 3. deletes *)
  do msgs3 <- delete_messages msgs2 (sorted_reverse (message_deletes u));
  let msgs3' :=
    match delete_before u with
    | Some t => List.filter (fun m => t <=? date m) msgs3
    | None => msgs3
    end in
  let sums3 :=
    match delete_before u with
    | Some t => prune_summaries t (summaries channel)
    | None => summaries channel
    end in
  let msd3 :=
    match delete_before u with
    | Some t =>
        pruned_max_summary_date clk channel_id sums3 (max_summary_date channel)
    | None => max_summary_date channel
    end in
  (* 4. left appends *)
  let msgs4 := fold_left append_left_value (message_append_left u) msgs3' in
  (* 5. new messages *)
  let msgs5 := add_new_messages msgs4 (new_messages u) in
  (* 6. last_activity *)
  let activity6 :=
    match new_messages u with
    | [] => last_activity channel
    | m :: ms => py_max (date m) (map date ms)
    end in
  (* 7. summaries *)
  let sums7 := fold_left add_summary (new_summaries u) sums3 in
  let msd7 :=
    match new_summaries u with
    | [] => msd3
    | s :: ss =>
        let newest := py_max (max_date s) (map max_date ss) in
        if msd3 <? newest then newest else msd3
    end in
  (* 8. general channel metadata *)
  Ok {| ch_id := ch_id channel;
        ch_name := if truthy (upd_name u)
                   then default name1 (upd_name u) else name1;
        channel_type := if truthy (upd_channel_type u)
                        then default type1 (upd_channel_type u) else type1;
        wakeup_url := if truthy (upd_wakeup_url u)
                      then upd_wakeup_url u else url1;
        messages := msgs5;
        summaries := sums7;
        last_activity := activity6;
        max_summary_date := msd7;
        no_reactive_tool_call_before :=
          or_else (upd_no_reactive_tool_call_before u) reactive1;
        no_temporary_message_before :=
          or_else (upd_no_temporary_message_before u) temporary1 |}.

(** The body of [for channel_id, channel_updates in ...items()]: the
    channel is created at the end of the dictionary when missing, then
    updated in place. *)
Definition apply_channel_updates (clk : Clock) (left : History)
    (entry : string * InternalChannelUpdates) : outcome History :=
  let channel_id := fst entry in
  let channel :=
    match dict_get channel_id (channels left) with
    | Some c => c
    | None => new_Channel clk channel_id channel_id
    end in
  do channel' <- process_channel clk channel_id channel (snd entry);
  Ok (set_channels left (dict_set channel_id channel' (channels left))).

Fixpoint apply_all_channel_updates (clk : Clock) (left : History)
    (entries : list (string * InternalChannelUpdates)) : outcome History :=
  match entries with
  | [] => Ok left
  | e :: entries' =>
      do left' <- apply_channel_updates clk left e;
      apply_all_channel_updates clk left' entries'
  end.

(** *** Tool updates *)

(** [SystemMessage_(content=f"#toolupdated#{tid}", lifespan=1)] dated [d]. *)
Definition toolupdated_message (tid : string) (d : Z) : StructuredMessage :=
  System {| s_content := String.append "#toolupdated#" tid; s_date := d;
            s_summary := None; s_author := None; lifespan := Some 1 |}.

(** The transient message, its date pushed up to the last message's. *)
Definition clamped_toolupdated (tid : string) (now : Z)
    (msgs : list StructuredMessage) : StructuredMessage :=
  match last msgs with
  | Some l => toolupdated_message tid (if now <? date l then date l else now)
  | None => toolupdated_message tid now
  end.

(** The body of [for tool_update in right.tool_updates], for the [n]-th
    update. *)
Definition apply_tool_update (clk : Clock)
    (positions : list (string * option Location)) (n : nat) (left : History)
    (tool_update : InternalToolMessage) : outcome History :=
  let tid := tool_call_id tool_update in
  match dict_get tid positions with
  | None => Raise (KeyError tid)
  | Some None => Ok left
  | Some (Some (channel_id, message_index)) =>
      match dict_get channel_id (channels left) with
      | None => Raise (KeyError channel_id)
      | Some channel =>
          match messages channel !! message_index with
          | None => Raise IndexError
          | Some (AI message) =>
              match dict_get tid (internal_tool_messages message) with
              | None => Raise (KeyError tid)
              | Some tool_message =>
                  let tool_message' :=
                    set_status tool_message (internal_status tool_update)
                      (if truthy (content tool_update)
                       then content tool_update else None) in
                  let msgs :=
                    <[message_index :=
                        AI (set_tool_message message tid tool_message')]>
                      (messages channel) in
                  let msgs' :=
                    if Z.of_nat message_index <? Z.of_nat (length msgs) - 1
                    then msgs ++ [clamped_toolupdated tid
                                    (clk (ToolUpdatedDate n)) msgs]
                    else msgs in
                  Ok (set_channels left
                        (dict_set channel_id (set_messages channel msgs')
                                  (channels left)))
              end
          | Some _ => Raise ValueError_not_AIMessage
          end
      end
  end.

Fixpoint apply_tool_updates (clk : Clock)
    (positions : list (string * option Location)) (n : nat) (left : History)
    (updates : list InternalToolMessage) : outcome History :=
  match updates with
  | [] => Ok left
  | tu :: updates' =>
      do left' <- apply_tool_update clk positions n left tu;
      apply_tool_updates clk positions (S n) left' updates'
  end.

(** *** The reducer *)

(** Case 4 of [history_reducer]: an [InternalUpdates] applied to (a copy
    of) [left]. *)
Definition apply_internal_updates (clk : Clock) (fuel : nat) (left : History)
    (right : InternalUpdates) : outcome History :=
  do left1 <- apply_all_channel_updates clk left (channel_updates right);
  (* 9. general history updates *)
  let left2 :=
    {| current_channel :=
         or_else (upd_current_channel right) (current_channel left1);
       channels := channels left1 |} in
  match tool_updates right with
  | [] => Ok left2
  | _ :: _ =>
      do positions <- locate_tool_calls clk fuel left2
                        (map tool_call_id (tool_updates right));
      apply_tool_updates clk positions 0 left2 (tool_updates right)
  end.

(** The right operand: the ["reset"] command, a whole [History], or an
    [InternalUpdates] (a raw document stands for the [InternalUpdates] it
    is parsed into, to which the reducer then applies itself).  The left
    operand is a [History]; a missing one is [empty_history].  An
    [InternalUpdates] given by its values is one in which every message
    is an object of its own; [history_reducer_shared] below takes an
    operand in which objects may be shared. *)
Inductive ReducerInput : Type :=
  | Reset
  | Replace (h : History)
  | Updates (u : InternalUpdates).

Definition history_reducer (clk : Clock) (fuel : nat) (left : History)
    (right : ReducerInput) : outcome History :=
  match right with
  | Reset => Ok empty_history
  | Replace h => Ok (if is_empty left then h else left)
  | Updates u => apply_internal_updates clk fuel left u
  end.

(** *** The reducer on objects

    [history_reducer] receives a reference to the stored [History].  Case 4
    starts with [left = left.model_copy(deep=True)]: a fresh object is
    allocated and every later write goes to it.  When an exception leaves
    the function nothing refers to the copy any more, and it is dropped. *)

Abbreviation loc := nat (only parsing).
Abbreviation Store := (gmap nat History) (only parsing).

Definition apply_internal_updates_obj (clk : Clock) (fuel : nat)
    (st : Store) (left : loc) (right : InternalUpdates)
    : outcome loc * Store :=
  match st !! left with
  | None => (Raise (KeyError "left"), st)
  | Some left_value =>
      let copy := fresh (dom st) in
      match apply_internal_updates clk fuel left_value right with
      | Ok h => (Ok copy, <[copy := h]> st)
      | Raise e => (Raise e, st)
      | OutOfFuel => (OutOfFuel, st)
      end
  end.

(** *** The reducer on an operand whose messages are shared objects

    The operand names its objects, the channels hold references
    ([MessageRef]), steps 2 and 4 are [apply_message_update] and
    [append_left], and the history is read off at the end.  (The tool
    states of a message are taken to be the message's own.) *)

(** [InternalChannelUpdates], its messages by reference. *)
Record SharedChannelUpdates : Type := {
  sh_name : option string;
  sh_channel_type : option string;
  sh_wakeup_url : option string;
  sh_delete_before : option Z;
  sh_no_reactive_tool_call_before : option Z;
  sh_no_temporary_message_before : option Z;
  sh_new_messages : list nat;
  sh_message_updates : list (Z * nat);
  sh_message_deletes : list Z;
  sh_message_append_left : list nat;
  sh_new_summaries : list Summary
}.

(** [InternalUpdates], with the objects that its diffs refer to. *)
Record SharedUpdates : Type := {
  objects : Objects;
  sh_channel_updates : list (string * SharedChannelUpdates);
  sh_current_channel : option string;
  sh_tool_updates : list InternalToolMessage
}.

(** [Channel], its messages by reference. *)
Record SharedChannel : Type := {
  sc_id : string;
  sc_name : string;
  sc_channel_type : string;
  sc_wakeup_url : option string;
  sc_messages : list MessageRef;
  sc_summaries : list (Z * list Summary);
  sc_last_activity : Z;
  sc_max_summary_date : Z;
  sc_no_reactive_tool_call_before : option Z;
  sc_no_temporary_message_before : option Z
}.

(** A channel of [left.model_copy(deep=True)]: its messages are copies. *)
Definition copy_channel (c : Channel) : SharedChannel :=
  {| sc_id := ch_id c; sc_name := ch_name c;
     sc_channel_type := channel_type c; sc_wakeup_url := wakeup_url c;
     sc_messages := map Copied (messages c); sc_summaries := summaries c;
     sc_last_activity := last_activity c;
     sc_max_summary_date := max_summary_date c;
     sc_no_reactive_tool_call_before := no_reactive_tool_call_before c;
     sc_no_temporary_message_before := no_temporary_message_before c |}.

(** The channel as it reads with the objects in their present state. *)
Definition channel_of (objs : Objects) (c : SharedChannel) : Channel :=
  {| ch_id := sc_id c; ch_name := sc_name c;
     channel_type := sc_channel_type c; wakeup_url := sc_wakeup_url c;
     messages := map (value objs) (sc_messages c);
     summaries := sc_summaries c;
     last_activity := sc_last_activity c;
     max_summary_date := sc_max_summary_date c;
     no_reactive_tool_call_before := sc_no_reactive_tool_call_before c;
     no_temporary_message_before := sc_no_temporary_message_before c |}.

Definition channels_of (objs : Objects) (chans : list (string * SharedChannel))
    : list (string * Channel) :=
  map (fun kv => (fst kv, channel_of objs (snd kv))) chans.

Definition history_of (objs : Objects) (current : option string)
    (chans : list (string * SharedChannel)) : History :=
  {| current_channel := current; channels := channels_of objs chans |}.

Definition set_refs (c : SharedChannel) (ms : list MessageRef) : SharedChannel :=
  {| sc_id := sc_id c; sc_name := sc_name c;
     sc_channel_type := sc_channel_type c; sc_wakeup_url := sc_wakeup_url c;
     sc_messages := ms; sc_summaries := sc_summaries c;
     sc_last_activity := sc_last_activity c;
     sc_max_summary_date := sc_max_summary_date c;
     sc_no_reactive_tool_call_before := sc_no_reactive_tool_call_before c;
     sc_no_temporary_message_before := sc_no_temporary_message_before c |}.

Fixpoint apply_message_updates_shared (channel_id : string)
    (st : Objects * list MessageRef) (upds : list (Z * nat))
    : outcome (Objects * list MessageRef) :=
  match upds with
  | [] => Ok st
  | u :: upds' =>
      do st' <- apply_message_update channel_id st u;
      apply_message_updates_shared channel_id st' upds'
  end.

(** Step 5. *)
Definition append_new_shared (objs : Objects) (st : list MessageRef * bool)
    (new_message : nat) : list MessageRef * bool :=
  (fst st ++ [Operand new_message],
   match last (fst st) with
   | Some l => if date (objs new_message) <? date (value objs l)
               then true else snd st
   | None => snd st
   end).

Definition add_new_messages_shared (objs : Objects) (msgs : list MessageRef)
    (news : list nat) : list MessageRef :=
  let st := fold_left (append_new_shared objs) news (msgs, false) in
  if snd st then py_sort (fun r => date (value objs r)) (fst st) else fst st.

Definition process_channel_shared (clk : Clock) (channel_id : string)
    (st : Objects * SharedChannel) (u : SharedChannelUpdates)
    : outcome (Objects * SharedChannel) :=
  let channel := snd st in
  (* 1.5 channel metadata *)
  let name1 := default (sc_name channel) (sh_name u) in
  let type1 := default (sc_channel_type channel) (sh_channel_type u) in
  let url1 := or_else (sh_wakeup_url u) (sc_wakeup_url channel) in
  let reactive1 :=
    or_else (sh_no_reactive_tool_call_before u)
            (sc_no_reactive_tool_call_before channel) in
  let temporary1 :=
    or_else (sh_no_temporary_message_before u)
            (sc_no_temporary_message_before channel) in
  (* 2. positional updates *)
  do st2 <- apply_message_updates_shared channel_id
              (fst st, sc_messages channel) (sh_message_updates u);
  let objs2 := fst st2 in
  (* 3. deletes *)
  do msgs3 <- delete_messages (snd st2) (sorted_reverse (sh_message_deletes u));
  let msgs3' :=
    match sh_delete_before u with
    | Some t => List.filter (fun r => t <=? date (value objs2 r)) msgs3
    | None => msgs3
    end in
  let sums3 :=
    match sh_delete_before u with
    | Some t => prune_summaries t (sc_summaries channel)
    | None => sc_summaries channel
    end in
  let msd3 :=
    match sh_delete_before u with
    | Some t =>
        pruned_max_summary_date clk channel_id sums3
                                (sc_max_summary_date channel)
    | None => sc_max_summary_date channel
    end in
  (* 4. left appends *)
  let st4 := fold_left append_left (sh_message_append_left u) (objs2, msgs3') in
  let objs4 := fst st4 in
  (* 5. new messages *)
  let msgs5 := add_new_messages_shared objs4 (snd st4) (sh_new_messages u) in
  (* 6. last_activity *)
  let activity6 :=
    match sh_new_messages u with
    | [] => sc_last_activity channel
    | m :: ms => py_max (date (objs4 m)) (map (fun o => date (objs4 o)) ms)
    end in
  (* 7. summaries *)
  let sums7 := fold_left add_summary (sh_new_summaries u) sums3 in
  let msd7 :=
    match sh_new_summaries u with
    | [] => msd3
    | s :: ss =>
        let newest := py_max (max_date s) (map max_date ss) in
        if msd3 <? newest then newest else msd3
    end in
  (* 8. general channel metadata *)
  Ok (objs4,
      {| sc_id := sc_id channel;
         sc_name := if truthy (sh_name u)
                    then default name1 (sh_name u) else name1;
         sc_channel_type := if truthy (sh_channel_type u)
                            then default type1 (sh_channel_type u) else type1;
         sc_wakeup_url := if truthy (sh_wakeup_url u)
                          then sh_wakeup_url u else url1;
         sc_messages := msgs5;
         sc_summaries := sums7;
         sc_last_activity := activity6;
         sc_max_summary_date := msd7;
         sc_no_reactive_tool_call_before :=
           or_else (sh_no_reactive_tool_call_before u) reactive1;
         sc_no_temporary_message_before :=
           or_else (sh_no_temporary_message_before u) temporary1 |}).

Definition apply_channel_updates_shared (clk : Clock)
    (st : Objects * list (string * SharedChannel))
    (entry : string * SharedChannelUpdates)
    : outcome (Objects * list (string * SharedChannel)) :=
  let channel_id := fst entry in
  let channel :=
    match dict_get channel_id (snd st) with
    | Some c => c
    | None => copy_channel (new_Channel clk channel_id channel_id)
    end in
  do st' <- process_channel_shared clk channel_id (fst st, channel) (snd entry);
  Ok (fst st', dict_set channel_id (snd st') (snd st)).

Fixpoint apply_all_channel_updates_shared (clk : Clock)
    (st : Objects * list (string * SharedChannel))
    (entries : list (string * SharedChannelUpdates))
    : outcome (Objects * list (string * SharedChannel)) :=
  match entries with
  | [] => Ok st
  | e :: entries' =>
      do st' <- apply_channel_updates_shared clk st e;
      apply_all_channel_updates_shared clk st' entries'
  end.

(** The body of [for tool_update in right.tool_updates]:
    [tool_message.set_status(...)] writes onto the message found, an
    object of the operand when the channel loop has put one there. *)
Definition apply_tool_update_shared (clk : Clock)
    (positions : list (string * option Location)) (n : nat)
    (st : Objects * list (string * SharedChannel))
    (tool_update : InternalToolMessage)
    : outcome (Objects * list (string * SharedChannel)) :=
  let objs := fst st in
  let tid := tool_call_id tool_update in
  match dict_get tid positions with
  | None => Raise (KeyError tid)
  | Some None => Ok st
  | Some (Some (channel_id, message_index)) =>
      match dict_get channel_id (snd st) with
      | None => Raise (KeyError channel_id)
      | Some channel =>
          match sc_messages channel !! message_index with
          | None => Raise IndexError
          | Some r =>
              match value objs r with
              | AI message =>
                  match dict_get tid (internal_tool_messages message) with
                  | None => Raise (KeyError tid)
                  | Some tool_message =>
                      let tool_message' :=
                        set_status tool_message (internal_status tool_update)
                          (if truthy (content tool_update)
                           then content tool_update else None) in
                      let message' :=
                        AI (set_tool_message message tid tool_message') in
                      let objs' :=
                        match r with
                        | Copied _ => objs
                        | Operand o => write objs o message'
                        end in
                      let msgs :=
                        match r with
                        | Copied _ =>
                            <[message_index := Copied message']>
                              (sc_messages channel)
                        | Operand _ => sc_messages channel
                        end in
                      let msgs' :=
                        if Z.of_nat message_index
                           <? Z.of_nat (length msgs) - 1
                        then msgs
                             ++ [Copied
                                   (clamped_toolupdated tid
                                      (clk (ToolUpdatedDate n))
                                      (map (value objs') msgs))]
                        else msgs in
                      Ok (objs',
                          dict_set channel_id (set_refs channel msgs') (snd st))
                  end
              | _ => Raise ValueError_not_AIMessage
              end
          end
      end
  end.

Fixpoint apply_tool_updates_shared (clk : Clock)
    (positions : list (string * option Location)) (n : nat)
    (st : Objects * list (string * SharedChannel))
    (updates : list InternalToolMessage)
    : outcome (Objects * list (string * SharedChannel)) :=
  match updates with
  | [] => Ok st
  | tu :: updates' =>
      do st' <- apply_tool_update_shared clk positions n st tu;
      apply_tool_updates_shared clk positions (S n) st' updates'
  end.

(** Case 4 of [history_reducer] on such an operand: [left] is copied, the
    diffs and the tool updates are applied to the copy, and the copy is
    returned, read here with the objects as the reducer leaves them. *)
Definition history_reducer_shared (clk : Clock) (fuel : nat) (left : History)
    (right : SharedUpdates) : outcome History :=
  let copied := map (fun kv => (fst kv, copy_channel (snd kv))) (channels left) in
  do st1 <- apply_all_channel_updates_shared clk (objects right, copied)
              (sh_channel_updates right);
  (* 9. general history updates *)
  let current := or_else (sh_current_channel right) (current_channel left) in
  match sh_tool_updates right with
  | [] => Ok (history_of (fst st1) current (snd st1))
  | _ :: _ =>
      do positions <- locate_tool_calls clk fuel
                        (history_of (fst st1) current (snd st1))
                        (map tool_call_id (sh_tool_updates right));
      do st2 <- apply_tool_updates_shared clk positions 0 st1
                  (sh_tool_updates right);
      Ok (history_of (fst st2) current (snd st2))
  end.

(** The operand read as values: every entry as the message that its
    object is when the reducer is called. *)
Definition channel_updates_of (objs : Objects) (u : SharedChannelUpdates)
    : InternalChannelUpdates :=
  {| upd_name := sh_name u; upd_channel_type := sh_channel_type u;
     upd_wakeup_url := sh_wakeup_url u; delete_before := sh_delete_before u;
     upd_no_reactive_tool_call_before := sh_no_reactive_tool_call_before u;
     upd_no_temporary_message_before := sh_no_temporary_message_before u;
     new_messages := map objs (sh_new_messages u);
     message_updates :=
       map (fun kv => (fst kv, objs (snd kv))) (sh_message_updates u);
     message_deletes := sh_message_deletes u;
     message_append_left := map objs (sh_message_append_left u);
     new_summaries := sh_new_summaries u |}.

Definition entries_of (objs : Objects)
    (entries : list (string * SharedChannelUpdates))
    : list (string * InternalChannelUpdates) :=
  map (fun kv => (fst kv, channel_updates_of objs (snd kv))) entries.

Definition updates_of (right : SharedUpdates) : InternalUpdates :=
  {| channel_updates := entries_of (objects right) (sh_channel_updates right);
     upd_current_channel := sh_current_channel right;
     tool_updates := sh_tool_updates right |}.

(** The objects that a list of references, a diff, the diffs refer to. *)
Definition operand_refs (msgs : list MessageRef) : list nat :=
  flat_map (fun r => match r with Operand o => [o] | Copied _ => [] end) msgs.

Definition diff_objects (u : SharedChannelUpdates) : list nat :=
  map snd (sh_message_updates u) ++ sh_message_append_left u
  ++ sh_new_messages u.

Definition entries_objects (entries : list (string * SharedChannelUpdates))
    : list nat :=
  flat_map (fun kv => diff_objects (snd kv)) entries.

Definition placed (chans : list (string * SharedChannel)) : list nat :=
  flat_map (fun kv => operand_refs (sc_messages (snd kv))) chans.

(** No object of the operand is referred to by two entries of its diffs. *)
Definition distinct_objects (right : SharedUpdates) : Prop :=
  NoDup (entries_objects (sh_channel_updates right)).

(** The operand that [Updates u] stands for: every message of [u] is an
    object of its own, the objects numbered in the order of the diffs
    (positional updates, left appends, new messages). *)
Definition diff_messages (u : InternalChannelUpdates) : list StructuredMessage :=
  map snd (message_updates u) ++ message_append_left u ++ new_messages u.

Definition name_objects (n : nat) (u : InternalChannelUpdates)
    : SharedChannelUpdates :=
  let updates := length (message_updates u) in
  let lefts := length (message_append_left u) in
  {| sh_name := upd_name u; sh_channel_type := upd_channel_type u;
     sh_wakeup_url := upd_wakeup_url u; sh_delete_before := delete_before u;
     sh_no_reactive_tool_call_before := upd_no_reactive_tool_call_before u;
     sh_no_temporary_message_before := upd_no_temporary_message_before u;
     sh_new_messages :=
       seq (n + updates + lefts) (length (new_messages u));
     sh_message_updates :=
       combine (map fst (message_updates u)) (seq n updates);
     sh_message_deletes := message_deletes u;
     sh_message_append_left := seq (n + updates) lefts;
     sh_new_summaries := new_summaries u |}.

Fixpoint name_entries (n : nat)
    (entries : list (string * InternalChannelUpdates))
    : list (string * SharedChannelUpdates) :=
  match entries with
  | [] => []
  | entry :: entries' =>
      (fst entry, name_objects n (snd entry))
      :: name_entries (n + length (diff_messages (snd entry))) entries'
  end.

Definition own_objects (u : InternalUpdates) : SharedUpdates :=
  let all := flat_map (fun kv => diff_messages (snd kv)) (channel_updates u) in
  {| objects :=
       fun o =>
         default (System {| s_content := ""; s_date := 0; s_summary := None;
                            s_author := None; lifespan := None |})
                 (all !! o);
     sh_channel_updates := name_entries 0 (channel_updates u);
     sh_current_channel := upd_current_channel u;
     sh_tool_updates := tool_updates u |}.

(* ===================================================================== *)
(** ** Tool responses ([graphs/_mcp.py]) *)

Record ToolMessage : Type := {
  tm_tool_call_id : string;
  tm_status : ExternalStatus;
  tm_content : string
}.

Inductive MCPStatus : Type := MCP_processing | MCP_completed | MCP_failed.

Record MCPRequest : Type := {
  tool_call : ToolCall;
  ignore_webhook_on_quick_completion : bool;
  webhook : option string;
  created_at : Z
}.

Record MCPResponse : Type := {
  tool_message : ToolMessage;
  response_time : Z;
  updates : option InternalUpdates;
  resp_status : MCPStatus
}.

(** The state of an [MCPThread]: the keys of [pending_requests] in the
    order of insertion (requests are equal when their tool-call ids are),
    and [terminal_responses]. *)
Record MCPThread : Type := {
  pending_requests : list MCPRequest;
  terminal_responses : list MCPResponse
}.

Definition same_request (r1 r2 : MCPRequest) : bool :=
  String.eqb (tc_id (tool_call r1)) (tc_id (tool_call r2)).

(** [self.pending_requests[request] = task] *)
Definition add_request (self : MCPThread) (request : MCPRequest) : MCPThread :=
  {| pending_requests :=
       if existsb (same_request request) (pending_requests self)
       then pending_requests self
       else pending_requests self ++ [request];
     terminal_responses := terminal_responses self |}.

(** The [finally] block of [_process_request], once the task of [request]
    has produced [response]. *)
Definition finish_request (self : MCPThread) (request : MCPRequest)
    (response : MCPResponse) : MCPThread :=
  {| pending_requests :=
       List.filter (fun r => negb (same_request request r))
                   (pending_requests self);
     terminal_responses := terminal_responses self ++ [response] |}.

(** The response built by [_process_request] from the tool's message. *)
Definition completed_response (result : ToolMessage) (elapsed : Z)
    (artifact_updates : option InternalUpdates) : MCPResponse :=
  {| tool_message := result;
     response_time := elapsed;
     updates := artifact_updates;
     resp_status := match tm_status result with
                    | Success => MCP_completed
                    | Error => MCP_failed
                    end |}.

(** The response built by [_process_request] when the tool raised. *)
Definition exception_response (request : MCPRequest) (elapsed : Z)
    (text : string) : MCPResponse :=
  {| tool_message :=
       {| tm_tool_call_id := tc_id (tool_call request);
          tm_status := Error;
          tm_content := String.append "MCP Failed to execute the tool: " text |};
     response_time := elapsed;
     updates := None;
     resp_status := MCP_failed |}.

(** The response synthesized for a request that is still pending;
    [monotonic] is the reading of [time.monotonic()]. *)
Definition processing_response (monotonic : Z) (request : MCPRequest)
    : MCPResponse :=
  {| tool_message :=
       {| tm_tool_call_id := tc_id (tool_call request);
          tm_status := Success;
          tm_content := "Tool is being executed on the MCP server, this message will be updated once done." |};
     response_time := monotonic - created_at request;
     updates := None;
     resp_status := MCP_processing |}.

(** [MCPThread.current_responses]: the responses returned and the thread
    afterwards.  [monotonic n] is the reading taken for the [n]-th pending
    request. *)
Fixpoint processing_responses (monotonic : nat -> Z) (n : nat)
    (pending : list MCPRequest) : list MCPResponse :=
  match pending with
  | [] => []
  | request :: pending' =>
      processing_response (monotonic n) request
        :: processing_responses monotonic (S n) pending'
  end.

Definition current_responses (monotonic : nat -> Z) (self : MCPThread)
    : list MCPResponse * MCPThread :=
  let responses := terminal_responses self in
  let pending := pending_requests self in
  (responses ++ processing_responses monotonic 0 pending,
   {| pending_requests := pending_requests self; terminal_responses := [] |}).

(* ===================================================================== *)
(** ** [History.generate_updates_from_mcp_responses] *)

Definition mcp_internal_status (s : MCPStatus) : ToolCallStatus :=
  match s with
  | MCP_processing => Processing
  | MCP_completed => Completed
  | MCP_failed => Failed
  end.

(** [updates.channel_updates[channel_id].new_messages.append(m)], the
    entry being created when missing. *)
Definition push_new_message (u : InternalUpdates) (channel_id : string)
    (m : StructuredMessage) : InternalUpdates :=
  let cu :=
    match dict_get channel_id (channel_updates u) with
    | Some cu => cu
    | None => empty_channel_updates
    end in
  {| channel_updates :=
       dict_set channel_id
         {| upd_name := upd_name cu; upd_channel_type := upd_channel_type cu;
            upd_wakeup_url := upd_wakeup_url cu;
            delete_before := delete_before cu;
            upd_no_reactive_tool_call_before :=
              upd_no_reactive_tool_call_before cu;
            upd_no_temporary_message_before :=
              upd_no_temporary_message_before cu;
            new_messages := new_messages cu ++ [m];
            message_updates := message_updates cu;
            message_deletes := message_deletes cu;
            message_append_left := message_append_left cu;
            new_summaries := new_summaries cu |}
         (channel_updates u);
     upd_current_channel := upd_current_channel u;
     tool_updates := tool_updates u |}.

(** [updates.channel_updates[channel_id].message_updates[index] = message] *)
Definition push_message_update (u : InternalUpdates) (entry : Location * AIMessage_)
    : InternalUpdates :=
  let channel_id := fst (fst entry) in
  let cu :=
    match dict_get channel_id (channel_updates u) with
    | Some cu => cu
    | None => empty_channel_updates
    end in
  {| channel_updates :=
       dict_set channel_id
         {| upd_name := upd_name cu; upd_channel_type := upd_channel_type cu;
            upd_wakeup_url := upd_wakeup_url cu;
            delete_before := delete_before cu;
            upd_no_reactive_tool_call_before :=
              upd_no_reactive_tool_call_before cu;
            upd_no_temporary_message_before :=
              upd_no_temporary_message_before cu;
            new_messages := new_messages cu;
            message_updates :=
              dict_set (Z.of_nat (snd (fst entry))) (AI (snd entry))
                       (message_updates cu);
            message_deletes := message_deletes cu;
            message_append_left := message_append_left cu;
            new_summaries := new_summaries cu |}
         (channel_updates u);
     upd_current_channel := upd_current_channel u;
     tool_updates := tool_updates u |}.

(** The body of [for mcpresp in responses], for the [n]-th response.  The
    state is [self], mutated in place, and [updates].  [cached_messages] is
    read here and written nowhere. *)
Definition generate_step (clk : Clock)
    (update_locations : list (string * option Location))
    (cached_messages : list (Location * AIMessage_)) (n : nat)
    (st : History * InternalUpdates) (mcpresp : MCPResponse)
    : outcome (History * InternalUpdates) :=
  let self := fst st in
  let tid := tm_tool_call_id (tool_message mcpresp) in
  match dict_get tid update_locations with
  | None => Raise (KeyError tid)
  | Some None => Raise ValueError_no_location
  | Some (Some location) =>
      let channel_id := fst location in
      let index := snd location in
      match dict_get channel_id (channels self) with
      | None => Raise (KeyError channel_id)
      | Some channel =>
          do message <-
            match dict_get location cached_messages with
            | Some message => Ok message
            | None =>
                match messages channel !! index with
                | Some (AI message) => Ok message
                | Some _ => Raise AttributeError
                | None => Raise IndexError
                end
            end;
          match dict_get tid (internal_tool_messages message) with
          | None => Raise (KeyError tid)
          | Some tm =>
              let tm' :=
                set_status tm (mcp_internal_status (resp_status mcpresp))
                           (Some (tm_content (tool_message mcpresp))) in
              let msgs :=
                <[index := AI (set_tool_message message tid tm')]>
                  (messages channel) in
              let self' :=
                set_channels self
                  (dict_set channel_id (set_messages channel msgs)
                            (channels self)) in
              Ok (self',
                  if Z.of_nat index <? Z.of_nat (length msgs) - 1
                  then push_new_message (snd st) channel_id
                         (toolupdated_message tid (clk (McpToolUpdatedDate n)))
                  else snd st)
          end
      end
  end.

(** The loop; when a step raises, [self] is returned as the steps before
    left it. *)
Fixpoint generate_loop (clk : Clock)
    (update_locations : list (string * option Location))
    (cached_messages : list (Location * AIMessage_)) (n : nat)
    (st : History * InternalUpdates) (responses : list MCPResponse)
    : outcome InternalUpdates * History :=
  match responses with
  | [] => (Ok (snd st), fst st)
  | mcpresp :: responses' =>
      match generate_step clk update_locations cached_messages n st mcpresp with
      | Ok st' =>
          generate_loop clk update_locations cached_messages (S n) st' responses'
      | Raise e => (Raise e, fst st)
      | OutOfFuel => (OutOfFuel, fst st)
      end
  end.

Definition generate_updates_from_mcp_responses (clk : Clock) (fuel : nat)
    (self : History) (responses : list MCPResponse)
    : outcome InternalUpdates * History :=
  let tool_call_ids :=
    map (fun r => tm_tool_call_id (tool_message r)) responses in
  match locate_tool_calls clk fuel self tool_call_ids with
  | Raise e => (Raise e, self)
  | OutOfFuel => (OutOfFuel, self)
  | Ok update_locations =>
      let cached_messages : list (Location * AIMessage_) := [] in
      match generate_loop clk update_locations cached_messages 0
                          (self, empty_updates) responses with
      | (Ok updates1, self') =>
          (* register message updates *)
          let updates2 := fold_left push_message_update cached_messages updates1 in
          (* register updates from the responses *)
          (Ok (fold_left
                 (fun acc r =>
                    match updates r with
                    | Some u => internal_updates_reducer acc u
                    | None => acc
                    end)
                 responses updates2),
           self')
      | failed => failed
      end
  end.

(* ===================================================================== *)
(** ** [assemble_messages] ([graphs/_formatting.py]) *)

(** What the assembled list holds: messages and summaries. *)
Inductive Item : Type :=
  | Msg (m : StructuredMessage)
  | Sum (s : Summary).

Definition tool_contents_size (tms : list (string * InternalToolMessage)) : Z :=
  fold_right (fun kv acc => len (default "" (content (snd kv))) + acc) 0 tms.

Definition _count_message_size (message : Item) (use_summary : bool) : Z :=
  match message with
  | Sum s => len (summary s)
  | Msg m =>
      let count :=
        if truthy (msg_summary m) && use_summary
        then len (default "" (msg_summary m))
        else len (msg_content m) in
      match m with
      | AI a => count + tool_contents_size (internal_tool_messages a)
      | _ => count
      end
  end.

Definition item_end (item : Item) : Z :=
  match item with
  | Sum s => max_date s
  | Msg m => date m
  end.

Definition item_start (item : Item) : Z :=
  match item with
  | Sum s => min_date s
  | Msg m => date m
  end.

Definition in_timeframe (candidate : Summary) (sub_item : Item) : bool :=
  (min_date candidate <=? item_end sub_item)
  && (item_end sub_item <=? max_date candidate).

(** [for sub_index, sub_item in reversed(list(enumerate(assembled.copy())))]:
    the size removed, what is left of [assembled], and [insert_index].  The
    tail is visited before the head, as the loop visits high indices
    first. *)
Fixpoint remove_timeframe (use_summary : bool) (candidate : Summary)
    (assembled : list Item) : Z * list Item * option nat :=
  match assembled with
  | [] => (0, [], None)
  | sub_item :: rest =>
      let r := remove_timeframe use_summary candidate rest in
      if in_timeframe candidate sub_item
      then (fst (fst r) + _count_message_size sub_item use_summary,
            snd (fst r), Some 0%nat)
      else (fst (fst r), sub_item :: snd (fst r), option_map S (snd r))
  end.

(** [character_count], [assembled], [found_something]. *)
Definition SweepState : Type := (Z * list Item * bool)%type.

(** The body of [for i, item in enumerate(list(reversed(assembled)))]. *)
Definition sweep_item (use_summary : bool) (sums : list (Z * list Summary))
    (st : SweepState) (item : Item) : outcome SweepState :=
  match dict_get (item_end item) sums with
  | None => Ok st
  | Some candidate_summaries =>
      match List.find (fun c => min_date c <? item_start item)
                      candidate_summaries with
      | None => Ok st
      | Some candidate_summary =>
          let r := remove_timeframe use_summary candidate_summary
                                    (snd (fst st)) in
          match snd r with
          | None => Raise ValueError_no_index
          | Some insert_index =>
              Ok (fst (fst st) - fst (fst r)
                    + _count_message_size (Sum candidate_summary) use_summary,
                  py_insert insert_index (Sum candidate_summary) (snd (fst r)),
                  true)
          end
      end
  end.

Fixpoint sweep (use_summary : bool) (sums : list (Z * list Summary))
    (snapshot : list Item) (st : SweepState) : outcome SweepState :=
  match snapshot with
  | [] => Ok st
  | item :: snapshot' =>
      do st' <- sweep_item use_summary sums st item;
      sweep use_summary sums snapshot' st'
  end.

(** [while character_count > max_size and found_something], entered with
    [found_something] true; one unit of fuel per iteration. *)
Fixpoint backtrack (fuel : nat) (use_summary : bool)
    (sums : list (Z * list Summary)) (max_size : Z)
    (character_count : Z) (assembled : list Item)
    : outcome (Z * list Item) :=
  if max_size <? character_count then
    match fuel with
    | O => OutOfFuel
    | S fuel' =>
        do st <- sweep use_summary sums (rev assembled)
                       (character_count, assembled, false);
        if snd st
        then backtrack fuel' use_summary sums max_size (fst (fst st)) (snd (fst st))
        else Ok (fst st)
    end
  else Ok (character_count, assembled).

(** What the head of the loop body decides for a message. *)
Inductive Gate : Type :=
  | Skip                        (* continue *)
  | Stop                        (* break *)
  | Take (min_date : option Z). (* go on, with this [min_date] *)

Definition gate (msg : StructuredMessage) (assembled : list Item)
    (min_message : Z) (max_message min_date max_date : option Z) : Gate :=
  if match max_date with Some d => d <=? date msg | None => false end
  then Skip
  else if match min_date with Some d => date msg <? d | None => false end
  then (if min_message =? 0 then Stop else Take (Some (date msg)))
  else if match max_message with
          | Some n => negb (n =? 0) && (n <=? Z.of_nat (length assembled))
          | None => false
          end
  then Stop
  else Take min_date.

Record AssembleState : Type := {
  character_count : Z;
  assembled : list Item;
  st_min_message : Z;
  st_min_date : option Z
}.

(** The body of the loop after the gate: the item is appended, larger
    summaries are tried, and the last item goes when the size is still
    above [max_size]. *)
Definition assemble_step (fuel : nat) (sums : list (Z * list Summary))
    (summary_rank_threshold : Z) (use_message_summaries : bool) (max_size : Z)
    (st : AssembleState) (min_date' : option Z) (msg : StructuredMessage)
    : outcome AssembleState :=
  do added <-
    match (if st_min_message st =? 0 then dict_get (date msg) sums else None) with
    | Some candidate_summaries =>
        let idx := Z.min summary_rank_threshold
                         (Z.of_nat (length candidate_summaries) - 1) in
        match py_index candidate_summaries idx with
        | Some i =>
            match candidate_summaries !! i with
            | Some s => Ok (Sum s, st_min_message st)
            | None => Raise IndexError
            end
        | None => Raise IndexError
        end
    | None =>
        Ok (Msg msg,
            if 0 <? st_min_message st
            then st_min_message st - 1 else st_min_message st)
    end;
  let count1 :=
    character_count st + _count_message_size (fst added) use_message_summaries in
  do r <- backtrack fuel use_message_summaries sums max_size count1
                    (assembled st ++ [fst added]);
  if max_size <? fst r then
    match snd r with
    | [] => Raise IndexError
    | _ :: _ =>
        Ok {| character_count := fst r; assembled := removelast (snd r);
              st_min_message := snd added; st_min_date := min_date' |}
    end
  else
    Ok {| character_count := fst r; assembled := snd r;
          st_min_message := snd added; st_min_date := min_date' |}.

(** [for i, msg in reversed(list(enumerate(messages)))], on the messages
    still to visit, newest first. *)
Fixpoint assemble_loop (fuel : nat) (sums : list (Z * list Summary))
    (summary_rank_threshold : Z) (use_message_summaries : bool) (max_size : Z)
    (max_message max_date : option Z)
    (todo : list StructuredMessage) (st : AssembleState)
    : outcome (list Item) :=
  match todo with
  | [] => Ok (assembled st)
  | msg :: todo' =>
      match gate msg (assembled st) (st_min_message st) max_message
                 (st_min_date st) max_date with
      | Skip =>
          assemble_loop fuel sums summary_rank_threshold use_message_summaries
                        max_size max_message max_date todo' st
      | Stop => Ok (assembled st)
      | Take min_date' =>
          do st' <- assemble_step fuel sums summary_rank_threshold
                                  use_message_summaries max_size st min_date' msg;
          assemble_loop fuel sums summary_rank_threshold use_message_summaries
                        max_size max_message max_date todo' st'
      end
  end.

Definition assemble_messages (fuel : nat)
    (msgs : list StructuredMessage) (sums : list (Z * list Summary))
    (summary_rank_threshold : Z) (use_message_summaries : bool)
    (max_size min_message : Z) (max_message min_date max_date : option Z)
    : outcome (list Item) :=
  do result <-
    assemble_loop fuel sums summary_rank_threshold use_message_summaries
      max_size max_message max_date (rev msgs)
      {| character_count := 0; assembled := [];
         st_min_message := min_message; st_min_date := min_date |};
  Ok (rev result).

(* ===================================================================== *)
(** * Specification vocabulary and sample data *)

(** ** Threads *)

(** The threads that the operations of [MCPThread] can build: requests are
    added, the task of a pending request ends with the tool's message or
    with an exception, responses are drained. *)
Inductive reachable_thread : MCPThread -> Prop :=
  | reach_init :
      reachable_thread {| pending_requests := []; terminal_responses := [] |}
  | reach_add self request :
      reachable_thread self -> reachable_thread (add_request self request)
  | reach_completed self request result elapsed artifact_updates :
      reachable_thread self ->
      existsb (same_request request) (pending_requests self) = true ->
      reachable_thread
        (finish_request self request
           (completed_response result elapsed artifact_updates))
  | reach_exception self request elapsed text :
      reachable_thread self ->
      existsb (same_request request) (pending_requests self) = true ->
      reachable_thread
        (finish_request self request (exception_response request elapsed text))
  | reach_drain self monotonic :
      reachable_thread self ->
      reachable_thread (snd (current_responses monotonic self)).

Definition is_terminal (r : MCPResponse) : Prop :=
  resp_status r = MCP_completed \/ resp_status r = MCP_failed.

Definition sample_request (id : string) (t : Z) : MCPRequest :=
  {| tool_call := {| tc_id := id; tc_name := "timer"; tc_args := [] |};
     ignore_webhook_on_quick_completion := true; webhook := None;
     created_at := t |}.

Definition sample_thread : MCPThread :=
  finish_request
    (add_request
       (add_request {| pending_requests := []; terminal_responses := [] |}
                    (sample_request "t1" 0))
       (sample_request "t2" 0))
    (sample_request "t1" 0)
    (completed_response
       {| tm_tool_call_id := "t1"; tm_status := Success; tm_content := "ok" |}
       5 None).

(** ** Ordering of messages *)

Definition by_key {A : Type} (key : A -> Z) : relation A :=
  fun a b => key a <= key b.

Definition sorted_by {A : Type} (key : A -> Z) (l : list A) : Prop :=
  StronglySorted (by_key key) l.

(** Invariant 1: the messages of every channel are in non-decreasing order
    of date. *)
Definition history_sorted (h : History) : Prop :=
  Forall (fun kv => sorted_by date (messages (snd kv))) (channels h).


(** The channel the reducer works on for [channel_id]. *)
Definition channel_or_new (clk : Clock) (channel_id : string) (h : History)
    : Channel :=
  match dict_get channel_id (channels h) with
  | Some c => c
  | None => new_Channel clk channel_id channel_id
  end.

(** The outcomes of code whose only failures are index errors. *)
Definition index_failure {A : Type} (x : outcome A) : Prop :=
  match x with
  | Ok _ => True
  | Raise e => is_index_error e = true
  | OutOfFuel => False
  end.

(** ** Sample data *)

Definition human_at (text : string) (d : Z) : StructuredMessage :=
  Human {| h_content := text; h_date := d; h_summary := None;
           h_author := None; h_message_id := None |}.

Definition channel_with (id : string) (ms : list StructuredMessage)
    (activity_date : Z) : Channel :=
  {| ch_id := id; ch_name := id; channel_type := "basic"; wakeup_url := None;
     messages := ms; summaries := []; last_activity := activity_date;
     max_summary_date := 0; no_reactive_tool_call_before := None;
     no_temporary_message_before := None |}.

Definition only_new_messages (ms : list StructuredMessage)
    : InternalChannelUpdates :=
  {| upd_name := None; upd_channel_type := None; upd_wakeup_url := None;
     delete_before := None; upd_no_reactive_tool_call_before := None;
     upd_no_temporary_message_before := None; new_messages := ms;
     message_updates := []; message_deletes := []; message_append_left := [];
     new_summaries := [] |}.

Definition only_message_updates (us : list (Z * StructuredMessage))
    : InternalChannelUpdates :=
  {| upd_name := None; upd_channel_type := None; upd_wakeup_url := None;
     delete_before := None; upd_no_reactive_tool_call_before := None;
     upd_no_temporary_message_before := None; new_messages := [];
     message_updates := us; message_deletes := []; message_append_left := [];
     new_summaries := [] |}.

Definition channel_diffs (entries : list (string * InternalChannelUpdates))
    : InternalUpdates :=
  {| channel_updates := entries; upd_current_channel := None;
     tool_updates := [] |}.

Definition clock0 : Clock := fun _ => 0.

(** Scenario S2. *)
Definition s2_history : History :=
  {| current_channel := Some "c1";
     channels := [("c1", channel_with "c1" [human_at "a" 10; human_at "c" 30] 30)] |}.

Definition s2_updates : InternalUpdates :=
  channel_diffs [("c1", only_new_messages [human_at "b" 20])].

(** ** Equality of histories and disjoint updates *)

(** Python's [==] on two [History] values: the same current channel and
    the same channel under every key, whatever the order of insertion. *)
Definition history_eq (a b : History) : Prop :=
  current_channel a = current_channel b
  /\ forall channel_id,
       dict_get channel_id (channels a) = dict_get channel_id (channels b).

(** Two runs end alike: both return, with equal histories, or both raise. *)
Definition same_outcome (x y : outcome History) : Prop :=
  match x, y with
  | Ok a, Ok b => history_eq a b
  | Raise _, Raise _ => True
  | _, _ => False
  end.

Definition touched (u : InternalUpdates) : list string :=
  dict_keys (channel_updates u).

Definition disjoint_updates (u1 u2 : InternalUpdates) : Prop :=
  forall channel_id, In channel_id (touched u1) -> ~ In channel_id (touched u2).

Definition agree_on (keys : list string) (a b : History) : Prop :=
  forall channel_id,
    In channel_id keys ->
    dict_get channel_id (channels a) = dict_get channel_id (channels b).

(** A diff on another channel, which it creates. *)
Definition c2_updates : InternalUpdates :=
  {| channel_updates := [("c2", only_new_messages [human_at "d" 15])];
     upd_current_channel := Some "c2";
     tool_updates := [] |}.

Definition clock7 : Clock := fun _ => 7.

(** The channel loop evaluates [datetime.datetime.now()] for a channel
    that it creates (the defaults of [last_activity] and
    [max_summary_date]) and under [delete_before] (when no summary is
    left).  It reads no clock when every channel of the diffs is in the
    history and no diff sets [delete_before]. *)
Definition reads_no_clock (left : History) (u : InternalUpdates) : Prop :=
  Forall (fun entry =>
            dict_get (fst entry) (channels left) <> None
            /\ delete_before (snd entry) = None)
         (channel_updates u).

(** S2 with a second channel. *)
Definition s2_two_channels : History :=
  {| current_channel := Some "c1";
     channels :=
       [("c1", channel_with "c1" [human_at "a" 10; human_at "c" 30] 30);
        ("c2", channel_with "c2" [human_at "z" 12] 12)] |}.

(** ** An operand that shares a message object *)

(** The operand that holds one object under two positions: entries 2 and
    0 of [message_updates] are the same message. *)
Definition three_messages : History :=
  {| current_channel := Some "c1";
     channels :=
       [("c1", channel_with "c1"
                 [human_at "a" 10; human_at "b" 20; human_at "c" 30] 30)] |}.


(** The same diff with an object for each entry. *)
Definition two_objects : SharedUpdates :=
  {| objects := fun o => human_at (if decide (o = 0%nat) then "m" else "n") 99;
     sh_channel_updates :=
       [("c1",
         {| sh_name := None; sh_channel_type := None; sh_wakeup_url := None;
            sh_delete_before := None;
            sh_no_reactive_tool_call_before := None;
            sh_no_temporary_message_before := None; sh_new_messages := [];
            sh_message_updates := [(2, 0%nat); (0, 1%nat)];
            sh_message_deletes := []; sh_message_append_left := [];
            sh_new_summaries := [] |})];
     sh_current_channel := None;
     sh_tool_updates := [] |}.

(** ** Tool calls in a history *)

(** Every channel is stored under its own id, and no key occurs twice. *)
Definition wf_history (h : History) : Prop :=
  Forall (fun kv => ch_id (snd kv) = fst kv) (channels h)
  /\ NoDup (dict_keys (channels h)).

(** No Agent message of the messages has a tool state for [tid]. *)
Definition no_tool_state (tid : string) (msgs : list StructuredMessage) : Prop :=
  Forall (fun m => match m with
                   | AI a => dict_get tid (internal_tool_messages a) = None
                   | _ => True
                   end) msgs.

(** [tid] is not present in any channel of the history. *)
Definition absent (tid : string) (h : History) : Prop :=
  Forall (fun kv => no_tool_state tid (messages (snd kv))) (channels h).

(** Every location recorded in [results] is that of an Agent message of
    the history holding a tool state for the id. *)
Definition located_ok (h : History) (results : list (string * option Location))
    : Prop :=
  forall tid channel_id index,
    dict_get tid results = Some (Some (channel_id, index)) ->
    exists channel a,
      dict_get channel_id (channels h) = Some channel
      /\ messages channel !! index = Some (AI a)
      /\ dict_get tid (internal_tool_messages a) <> None.

(** An id that is a key of [res] is one of [res']. *)
Definition keeps_key (tid : string) (res res' : list (string * option Location))
    : Prop :=
  dict_get tid res <> None -> dict_get tid res' <> None.

(** The channels that the search has not visited yet. *)
Definition unchecked (chans : list (string * Channel)) (checked : list string)
    : list (string * Channel) :=
  List.filter (fun kv => negb (bool_decide (fst kv ∈ checked))) chans.

(** The messages of the hosting channel after the update of the tool state
    of [tid] in the Agent message [a] at [index]. *)
Definition updated_messages (clk : Clock) (n : nat)
    (msgs : list StructuredMessage) (index : nat) (a : AIMessage_)
    (tm : InternalToolMessage) (tool_update : InternalToolMessage)
    : list StructuredMessage :=
  let tid := tool_call_id tool_update in
  let msgs1 :=
    <[index :=
        AI (set_tool_message a tid
              (set_status tm (internal_status tool_update)
                 (if truthy (content tool_update)
                  then content tool_update else None)))]> msgs in
  if Z.of_nat index <? Z.of_nat (length msgs1) - 1
  then msgs1 ++ [clamped_toolupdated tid (clk (ToolUpdatedDate n)) msgs1]
  else msgs1.

(** Scenario S1: a request and the Agent message that calls tool [t1]. *)
Definition tool_state (id : string) (s : ToolCallStatus) : InternalToolMessage :=
  {| tool_call_id := id; internal_status := s;
     status := EXTERNAL_STATUS_MAPPING s;
     content := Some "Waiting for user to confirm on the UI before running." |}.

Definition agent_calling (id : string) (d : Z) (s : ToolCallStatus)
    : StructuredMessage :=
  AI {| ai_content := ""; ai_date := d; ai_summary := None;
        activity := "conversing";
        tool_calls := [{| tc_id := id; tc_name := "x"; tc_args := [] |}];
        internal_tool_messages := [(id, tool_state id s)] |}.

Definition s1_history : History :=
  {| current_channel := Some "c1";
     channels :=
       [("c1", channel_with "c1"
                 [human_at "do x" 0; agent_calling "t1" 1 Unconfirmed] 1)] |}.

Definition tool_update_for (id : string) (s : ToolCallStatus)
    (text : option string) : InternalToolMessage :=
  {| tool_call_id := id; internal_status := s; status := Error;
     content := text |}.

Definition only_tool_updates (tus : list InternalToolMessage) : InternalUpdates :=
  {| channel_updates := []; upd_current_channel := None; tool_updates := tus |}.

Definition response_for (id : string) (s : MCPStatus) (text : string)
    : MCPResponse :=
  {| tool_message :=
       {| tm_tool_call_id := id;
          tm_status := match s with MCP_completed => Success | _ => Error end;
          tm_content := text |};
     response_time := 1; updates := None; resp_status := s |}.

Definition response_id (r : MCPResponse) : string :=
  tm_tool_call_id (tool_message r).

(** The claim of C2 about one response: the returned updates hold, under
    the channel of the hosting message, a positional entry at its index. *)
Definition has_message_update (u : InternalUpdates) (location : Location)
    : Prop :=
  exists cu m,
    dict_get (fst location) (channel_updates u) = Some cu
    /\ dict_get (Z.of_nat (snd location)) (message_updates cu) = Some m.

(** The updates built by the loop never hold a positional entry. *)
Definition no_message_updates (u : InternalUpdates) : Prop :=
  Forall (fun kv => message_updates (snd kv) = []) (channel_updates u).

(** The history on which the reducer runs its tool updates: [left1] comes
    out of the channel loop, [right] may set the current channel. *)
Definition after_channels (left1 : History) (right : InternalUpdates) : History :=
  {| current_channel :=
       or_else (upd_current_channel right) (current_channel left1);
     channels := channels left1 |}.

(** S1 after the user's confirmation. *)
Definition s1_confirmed : History :=
  {| current_channel := Some "c1";
     channels :=
       [("c1", channel_with "c1"
                 [human_at "do x" 0; agent_calling "t1" 1 Confirmed] 1)] |}.

(** Two tool updates for S1: one for a call that no channel holds, one
    confirming [t1]. *)
Definition s1_mixed_updates : InternalUpdates :=
  only_tool_updates
    [tool_update_for "t9" Confirmed None; tool_update_for "t1" Confirmed None].

(** S1 with a later message of the user, so that the Agent message is not
    the last one. *)
Definition s1_followed : History :=
  {| current_channel := Some "c1";
     channels :=
       [("c1", channel_with "c1"
                 [human_at "do x" 0; agent_calling "t1" 1 Unconfirmed;
                  human_at "and y" 5] 5)] |}.

(** ** Assembly under a budget of zero *)

Definition all_summaries (sums : list (Z * list Summary)) : list Summary :=
  flat_map snd sums.

(** Every message counts for at least one character. *)
Definition positive_messages (use_summary : bool)
    (msgs : list StructuredMessage) : Prop :=
  Forall (fun m => 0 < _count_message_size (Msg m) use_summary) msgs.

(** Every summary has a text. *)
Definition positive_summaries (sums : list (Z * list Summary)) : Prop :=
  Forall (fun s => 0 < len (summary s)) (all_summaries sums).

(** The summaries are stored as the reducer stores them: no key without a
    summary, every summary under its [max_date], and [min_date <= max_date]. *)
Definition wf_summaries (sums : list (Z * list Summary)) : Prop :=
  Forall (fun kv =>
            snd kv <> []
            /\ Forall (fun s => max_date s = fst kv /\ min_date s <= max_date s)
                      (snd kv))
         sums.

(** The summaries that start before [d]: what the backtracking can still
    move to from an item starting at [d]. *)
Definition below (sums : list (Z * list Summary)) (d : Z) : nat :=
  length (List.filter (fun s => min_date s <? d) (all_summaries sums)).

Definition wf_item (x : Item) : Prop := item_start x <= item_end x.

(** Two messages and a summary of both, stored under the date of the
    second. *)
Definition sample_messages : list StructuredMessage :=
  [human_at "aaaa" 1; human_at "bbbb" 2].

Definition sample_summaries : list (Z * list Summary) :=
  [(2, [{| max_date := 2; min_date := 1; summary := "both" |}])].

(* ===================================================================== *)
(** * Further vocabulary *)

(** ** Tool calls held by a channel *)

(** Channel [c] has an Agent message with tool calls and a tool state for
    [tid]: what the scan of [locate_tool_calls] looks for. *)
Definition holds_tool (tid : string) (c : Channel) : Prop :=
  exists index a,
    messages c !! index = Some (AI a)
    /\ tool_calls a <> []
    /\ In tid (dict_keys (internal_tool_messages a)).

Definition located (tid : string) (res : list (string * option Location))
    : Prop :=
  exists location, dict_get tid res = Some (Some location).

(** A history without current channel whose only tool call sits in the
    channel stored under ["unregistered"]. *)
Definition unregistered_history : History :=
  {| current_channel := None;
     channels :=
       [("unregistered",
         channel_with "unregistered"
           [human_at "do x" 0; agent_calling "t1" 1 Unconfirmed] 1)] |}.

(** The ids of the pending requests of a thread. *)
Definition pending_ids (self : MCPThread) : list string :=
  map (fun q => tc_id (tool_call q)) (pending_requests self).

(** The status of a terminal response tells that of its tool message. *)
Definition status_agrees (r : MCPResponse) : Prop :=
  (resp_status r = MCP_completed /\ tm_status (tool_message r) = Success)
  \/ (resp_status r = MCP_failed /\ tm_status (tool_message r) = Error).

(** [tid] is still searched for, or found already. *)
Definition pending_or_located (tid : string) (st : LocateState) : Prop :=
  In tid (fst st) \/ located tid (snd st).

(** ** Stored summaries *)

(** The summaries of a channel as the reducer stores them: well-formed
    ([wf_summaries]) and, under every key, in ascending order of
    [min_date]. *)
Definition summaries_stored (sums : list (Z * list Summary)) : Prop :=
  wf_summaries sums /\ Forall (fun kv => sorted_by min_date (snd kv)) sums.

Definition history_summaries_stored (h : History) : Prop :=
  Forall (fun kv => summaries_stored (summaries (snd kv))) (channels h).

(** What the invariant asks of the right operand: new summaries span a
    non-empty interval, a whole history satisfies the invariant. *)
Definition summaries_admissible (right : ReducerInput) : Prop :=
  match right with
  | Reset => True
  | Replace h => history_summaries_stored h
  | Updates u =>
      Forall (fun kv => Forall (fun s => min_date s <= max_date s)
                               (new_summaries (snd kv)))
             (channel_updates u)
  end.

Definition only_new_summaries (ss : list Summary) : InternalChannelUpdates :=
  {| upd_name := None; upd_channel_type := None; upd_wakeup_url := None;
     delete_before := None; upd_no_reactive_tool_call_before := None;
     upd_no_temporary_message_before := None; new_messages := [];
     message_updates := []; message_deletes := []; message_append_left := [];
     new_summaries := ss |}.

(** Two summaries ending at 30 and one ending at 10, for channel [c1]. *)
Definition summary_updates : InternalUpdates :=
  channel_diffs
    [("c1", only_new_summaries
              [{| max_date := 30; min_date := 20; summary := "late" |};
               {| max_date := 10; min_date := 10; summary := "first" |};
               {| max_date := 30; min_date := 10; summary := "all" |}])].

(** ** Empty updates *)

Definition is_none {A : Type} (o : option A) : bool :=
  match o with None => true | Some _ => false end.

Definition is_nil {A : Type} (l : list A) : bool :=
  match l with [] => true | _ :: _ => false end.

(** [InternalChannelUpdates.is_empty] *)
Definition channel_updates_is_empty (self : InternalChannelUpdates) : bool :=
  is_none (upd_name self)
  && is_none (upd_channel_type self)
  && is_none (upd_wakeup_url self)
  && is_none (delete_before self)
  && is_none (upd_no_reactive_tool_call_before self)
  && is_none (upd_no_temporary_message_before self)
  && is_nil (new_messages self)
  && is_nil (message_updates self)
  && is_nil (message_deletes self)
  && is_nil (message_append_left self)
  && is_nil (new_summaries self).

(** [InternalUpdates.is_empty] *)
Definition updates_is_empty (self : InternalUpdates) : bool :=
  forallb (fun kv => channel_updates_is_empty (snd kv)) (channel_updates self)
  && is_none (upd_current_channel self)
  && is_nil (tool_updates self).

(** A channel diff that carries positional updates and nothing else. *)
Definition only_positional (u : InternalChannelUpdates) : Prop :=
  u = only_message_updates (message_updates u).

(** One positional update for S2. *)
Definition s2_positional : InternalUpdates :=
  {| channel_updates :=
       [("c1", only_message_updates [(1, human_at "edited" 99)])];
     upd_current_channel := Some "c1";
     tool_updates := [] |}.

(** An empty diff for [c1] and nothing else: an empty update. *)
Definition s2_nothing : InternalUpdates :=
  channel_diffs [("c1", empty_channel_updates)].

(** ** The cleanup stage ([graphs/agents/meep.py]) *)

(** [datetime.timedelta(seconds=1)]: instants count microseconds, the
    resolution of [datetime]. *)
Definition one_second : Z := 1000000.

(** [new_message.lifespan -= 1] on a copy of a [System] message. *)
Definition with_lifespan (s : SystemMessage_) (n : Z) : SystemMessage_ :=
  {| s_content := s_content s; s_date := s_date s; s_summary := s_summary s;
     s_author := s_author s; lifespan := Some n |}.

(** What the scan accumulates: [channel_updates.message_updates],
    [channel_updates.message_deletes] and
    [no_temporary_message_before_this_check]. *)
Definition CleanupState : Type :=
  (list (Z * StructuredMessage) * list Z * Z)%type.

(** The body of [for i, message in enumerate(channel.messages)]. *)
Definition cleanup_message (i : nat) (st : CleanupState)
    (message : StructuredMessage) : CleanupState :=
  match message with
  | System s =>
      match lifespan s with
      | Some n =>
          let watermark := Z.min (snd st) (s_date s - one_second) in
          if 1 <? n
          then (dict_set (Z.of_nat i) (System (with_lifespan s (n - 1)))
                         (fst (fst st)),
                snd (fst st), watermark)
          else (fst (fst st), snd (fst st) ++ [Z.of_nat i], watermark)
      | None => st
      end
  | _ => st
  end.

Fixpoint cleanup_scan (i : nat) (msgs : list StructuredMessage)
    (st : CleanupState) : CleanupState :=
  match msgs with
  | [] => st
  | message :: msgs' => cleanup_scan (S i) msgs' (cleanup_message i st message)
  end.

(** The diff that the stage builds for a channel. *)
Definition cleanup_channel_updates (channel : Channel) : InternalChannelUpdates :=
  let st := cleanup_scan 0 (messages channel) ([], [], last_activity channel) in
  {| upd_name := None; upd_channel_type := None; upd_wakeup_url := None;
     delete_before := None; upd_no_reactive_tool_call_before := None;
     upd_no_temporary_message_before := Some (snd st);
     new_messages := [];
     message_updates := fst (fst st);
     message_deletes := snd (fst st);
     message_append_left := [];
     new_summaries := [] |}.

(** The channels that the stage looks at. *)
Definition needs_cleanup (channel : Channel) : bool :=
  match no_temporary_message_before channel with
  | None => true
  | Some t => t <? last_activity channel
  end.

(** The body of [for channel_id, channel in s["history"].channels.items()]. *)
Definition cleanup_channel (updates : InternalUpdates)
    (entry : string * Channel) : InternalUpdates :=
  if needs_cleanup (snd entry) then
    let channel_updates := cleanup_channel_updates (snd entry) in
    if negb (channel_updates_is_empty channel_updates)
    then internal_updates_reducer updates
           {| channel_updates := [(fst entry, channel_updates)];
              upd_current_channel := None; tool_updates := [] |}
    else updates
  else updates.

(** The updates that the stage hands to [history_reducer]. *)
Definition cleanup (updates : InternalUpdates) (history : History)
    : InternalUpdates :=
  fold_left cleanup_channel (channels history) updates.

(** What becomes of a message: a temporary message loses one unit of
    lifespan, or goes when it has one unit or less. *)
Definition decay (m : StructuredMessage) : list StructuredMessage :=
  match m with
  | System s =>
      match lifespan s with
      | Some n => if 1 <? n then [System (with_lifespan s (n - 1))] else []
      | None => [m]
      end
  | _ => [m]
  end.

(** The message after step 2 of the reducer: decremented when it stays. *)
Definition decremented (m : StructuredMessage) : StructuredMessage :=
  match m with
  | System s =>
      match lifespan s with
      | Some n => if 1 <? n then System (with_lifespan s (n - 1)) else m
      | None => m
      end
  | _ => m
  end.

Definition scan_updates_of (i : nat) (msgs : list StructuredMessage)
    : list (Z * StructuredMessage) :=
  fst (fst (cleanup_scan i msgs ([], [], 0))).

Definition scan_deletes_of (i : nat) (msgs : list StructuredMessage) : list Z :=
  snd (fst (cleanup_scan i msgs ([], [], 0))).

(** A channel with a message about to expire and one with two units left. *)
Definition temporary_at (text : string) (d : Z) (n : Z) : StructuredMessage :=
  System {| s_content := text; s_date := d; s_summary := None;
            s_author := None; lifespan := Some n |}.

Definition temporary_channel : Channel :=
  channel_with "c1"
    [human_at "a" 10000000; temporary_at "#toolupdated#t1" 20000000 1;
     temporary_at "note" 30000000 2; human_at "b" 40000000] 40000000.

(** ** Assembling without summaries *)

(** The size that [assemble_messages] counts for a list of messages. *)
Definition total_size (use_summary : bool) (msgs : list StructuredMessage) : Z :=
  fold_right (fun m acc => _count_message_size (Msg m) use_summary + acc) 0 msgs.

(* ===================================================================== *)
(** * [AIMessage_]'s methods and [History.find_reactive_tool_calls] *)

(** [AIMessage_.has_tool_calls]. *)
Definition has_tool_calls (self : AIMessage_) : bool :=
  match tool_calls self with
  | [] => false
  | _ :: _ => true
  end.

(** [AIMessage_.get_tool_call_info]; a stored [InternalToolMessage] is an
    object, so [if tool_message] holds whenever the key is there. *)
Definition get_tool_call_info (self : AIMessage_) (id : string)
    : option (ToolCall * ToolCallStatus) :=
  match dict_get id (internal_tool_messages self) with
  | Some tool_message =>
      match List.find (fun tool_call => String.eqb (tc_id tool_call) id)
                      (tool_calls self) with
      | Some tool_call => Some (tool_call, internal_status tool_message)
      | None => None
      end
  | None => None
  end.

(** [AIMessage_.all_tool_call_info], run to its end:
    [self.internal_tool_messages[tool_call["id"]]] raises [KeyError] for a
    tool call that has no entry, and its callers let the error through. *)
Fixpoint tool_call_infos (tms : list (string * InternalToolMessage))
    (calls : list ToolCall) : outcome (list (ToolCall * InternalToolMessage)) :=
  match calls with
  | [] => Ok []
  | tool_call :: calls' =>
      match dict_get (tc_id tool_call) tms with
      | None => Raise (KeyError (tc_id tool_call))
      | Some message =>
          do rest <- tool_call_infos tms calls';
          Ok ((tool_call, message) :: rest)
      end
  end.

Definition all_tool_call_info (self : AIMessage_)
    : outcome (list (ToolCall * InternalToolMessage)) :=
  tool_call_infos (internal_tool_messages self) (tool_calls self).

(** The body of the loop of [AIMessage_.from_message]. *)
Definition register_tool_call (tms : list (string * InternalToolMessage))
    (tool_call : ToolCall) : list (string * InternalToolMessage) :=
  let new_tool_message :=
    {| tool_call_id := tc_id tool_call; internal_status := Unconfirmed;
       status := Error;
       content :=
         Some "Waiting for user to confirm on the UI before running." |} in
  dict_set (tc_id tool_call) (set_status new_tool_message Unconfirmed None) tms.

(** [AIMessage_.from_message], from [new_instance] on: the instance that
    [model_validate] builds from the dump of the message. *)
Definition from_message (new_instance : AIMessage_) : AIMessage_ :=
  {| ai_content := ai_content new_instance;
     ai_date := ai_date new_instance;
     ai_summary := ai_summary new_instance;
     activity := activity new_instance;
     tool_calls := tool_calls new_instance;
     internal_tool_messages :=
       fold_left register_tool_call (tool_calls new_instance)
                 (internal_tool_messages new_instance) |}.

(** [tool_message.internal_status in ("confirmed", "unconfirmed")]. *)
Definition is_reactive (tool_message : InternalToolMessage) : bool :=
  match internal_status tool_message with
  | Confirmed | Unconfirmed => true
  | _ => false
  end.

(** [channel.no_reactive_tool_call_before and d <= channel.no_reactive_...]. *)
Definition checked_before (watermark : option Z) (d : Z) : bool :=
  match watermark with
  | Some t => d <=? t
  | None => false
  end.

(** [for message in reversed(channel.messages)], on the messages still to
    visit, newest first; the state is [reactable_tool_calls] and
    [no_reactive_tool_call_before_this_date]. *)
Fixpoint scan_reactive (watermark : option Z)
    (todo : list StructuredMessage)
    (st : list (ToolCall * InternalToolMessage) * Z)
    : outcome (list (ToolCall * InternalToolMessage) * Z) :=
  match todo with
  | [] => Ok st
  | message :: todo' =>
      if checked_before watermark (date message) then Ok st
      else
        match message with
        | AI a =>
            if has_tool_calls a then
              do infos <- all_tool_call_info a;
              let reactive := List.filter (fun p => is_reactive (snd p)) infos in
              scan_reactive watermark todo'
                (fst st ++ reactive,
                 match reactive with
                 | [] => snd st
                 | _ :: _ => date message - one_second
                 end)
            else scan_reactive watermark todo' st
        | _ => scan_reactive watermark todo' st
        end
  end.

(** [InternalChannelUpdates(no_reactive_tool_call_before=d)]. *)
Definition reactive_checked (d : Z) : InternalChannelUpdates :=
  {| upd_name := None; upd_channel_type := None; upd_wakeup_url := None;
     delete_before := None; upd_no_reactive_tool_call_before := Some d;
     upd_no_temporary_message_before := None; new_messages := [];
     message_updates := []; message_deletes := []; message_append_left := [];
     new_summaries := [] |}.

(** The body of [for channel in self.channels.values()]. *)
Definition find_reactive_in_channel
    (st : list (ToolCall * InternalToolMessage) * InternalUpdates)
    (channel : Channel)
    : outcome (list (ToolCall * InternalToolMessage) * InternalUpdates) :=
  match last (messages channel) with
  | None => Ok st
  | Some newest =>
      if checked_before (no_reactive_tool_call_before channel) (date newest)
      then Ok st
      else
        do r <- scan_reactive (no_reactive_tool_call_before channel)
                              (rev (messages channel)) (fst st, date newest);
        Ok (fst r,
            {| channel_updates :=
                 dict_set (ch_id channel) (reactive_checked (snd r))
                          (channel_updates (snd st));
               upd_current_channel := upd_current_channel (snd st);
               tool_updates := tool_updates (snd st) |})
  end.

Fixpoint find_reactive_loop (todo : list Channel)
    (st : list (ToolCall * InternalToolMessage) * InternalUpdates)
    : outcome (list (ToolCall * InternalToolMessage) * InternalUpdates) :=
  match todo with
  | [] => Ok st
  | channel :: todo' =>
      do st' <- find_reactive_in_channel st channel;
      find_reactive_loop todo' st'
  end.

Definition find_reactive_tool_calls (self : History)
    : outcome (list (ToolCall * InternalToolMessage) * InternalUpdates) :=
  find_reactive_loop (map snd (channels self)) ([], empty_updates).

(** Every tool call of every Agent message has its entry in
    [internal_tool_messages]. *)
Definition registered (m : StructuredMessage) : Prop :=
  match m with
  | AI a =>
      Forall (fun tool_call =>
                dict_get (tc_id tool_call) (internal_tool_messages a) <> None)
             (tool_calls a)
  | _ => True
  end.

Definition history_registered (h : History) : Prop :=
  Forall (fun kv => Forall registered (messages (snd kv))) (channels h).

(** The pair is a tool call of an Agent message of the channel with the
    state stored for it. *)
Definition reported_from (c : Channel) (p : ToolCall * InternalToolMessage)
    : Prop :=
  exists a,
    In (AI a) (messages c)
    /\ In (fst p) (tool_calls a)
    /\ dict_get (tc_id (fst p)) (internal_tool_messages a) = Some (snd p)
    /\ checked_before (no_reactive_tool_call_before c) (ai_date a) = false.

(** ** Positions *)

(** The messages whose position, counted from [i], is not among [ids]. *)
Fixpoint without_indices (i : Z) (ids : list Z) (msgs : list StructuredMessage)
    : list StructuredMessage :=
  match msgs with
  | [] => []
  | m :: msgs' =>
      if existsb (Z.eqb i) ids then without_indices (i + 1) ids msgs'
      else m :: without_indices (i + 1) ids msgs'
  end.

Definition only_message_deletes (ids : list Z) : InternalChannelUpdates :=
  {| upd_name := None; upd_channel_type := None; upd_wakeup_url := None;
     delete_before := None; upd_no_reactive_tool_call_before := None;
     upd_no_temporary_message_before := None; new_messages := [];
     message_updates := []; message_deletes := ids; message_append_left := [];
     new_summaries := [] |}.

(* ===================================================================== *)
(** * Grouping ([graphs/_formatting.py], [group_messages]) *)

(** The exceptions of [group_messages]: [max()] of an empty sequence, the
    attribute [date] asked of a [Summary], a key that a dictionary does
    not have. *)
Inductive GroupingError : Type :=
  | ValueError_max_empty
  | AttributeError_date
  | KeyError_threshold (key : Z).

Inductive grouping (A : Type) : Type :=
  | Grouped (a : A)
  | GroupingRaise (e : GroupingError)
  | GroupingOutOfFuel.
Arguments Grouped {A} a.
Arguments GroupingRaise {A} e.
Arguments GroupingOutOfFuel {A}.

(** [del d[k]] for a key that is there. *)
Fixpoint dict_del {V : Type} (k : Z) (d : list (Z * V)) : list (Z * V) :=
  match d with
  | [] => []
  | (k', v) :: d' => if decide (k = k') then d' else (k', v) :: dict_del k d'
  end.

(** [max_threshold = max(thr for thr in time_gap_reference.keys())],
    [max_time_gap = time_gap_reference[max_threshold]],
    [del time_gap_reference[max_threshold]]. *)
Definition pop_max_threshold (time_gap_reference : list (Z * Z))
    : grouping (Z * Z * list (Z * Z)) :=
  match dict_keys time_gap_reference with
  | [] => GroupingRaise ValueError_max_empty
  | thr :: thrs =>
      let max_threshold := py_max thr thrs in
      match dict_get max_threshold time_gap_reference with
      | Some max_time_gap =>
          Grouped (max_threshold, max_time_gap,
                   dict_del max_threshold time_gap_reference)
      | None => GroupingRaise (KeyError_threshold max_threshold)
      end
  end.

Record GroupState : Type := {
  groups : list (list Item);
  current_group : list Item;
  last_message_date : option Z;
  time_gap_reference : list (Z * Z);
  max_threshold : Z;
  max_time_gap : Z
}.

(** The head of the loop body: the next threshold is taken when some are
    left and the message is older than the current one; [message.date] is
    evaluated only when some are left. *)
Definition next_threshold (st : GroupState) (message : Item)
    : grouping GroupState :=
  match time_gap_reference st with
  | [] => Grouped st
  | _ :: _ =>
      match message with
      | Sum _ => GroupingRaise AttributeError_date
      | Msg m =>
          if date m <? max_threshold st then
            match pop_max_threshold (time_gap_reference st) with
            | Grouped next =>
                Grouped {| groups := groups st;
                           current_group := current_group st;
                           last_message_date := last_message_date st;
                           time_gap_reference := snd next;
                           max_threshold := fst (fst next);
                           max_time_gap := snd (fst next) |}
            | GroupingRaise e => GroupingRaise e
            | GroupingOutOfFuel => GroupingOutOfFuel
            end
          else Grouped st
      end
  end.

(** The test that keeps the message in the current group;
    [last_message_date] is read only when the group has a message, and it
    has then been set. *)
Definition joins_group (st : GroupState) (message : Item) : bool :=
  match current_group st with
  | [] => true
  | _ :: _ =>
      match last_message_date st with
      | Some last => item_start message - last <=? max_time_gap st
      | None => false
      end
  end.

(** The body of [for message in messages]. *)
Definition group_step (st : GroupState) (message : Item)
    : grouping GroupState :=
  match next_threshold st message with
  | Grouped st1 =>
      Grouped
        {| groups := if joins_group st1 message then groups st1
                     else groups st1 ++ [current_group st1];
           current_group := if joins_group st1 message
                            then current_group st1 ++ [message]
                            else [message];
           last_message_date := Some (item_end message);
           time_gap_reference := time_gap_reference st1;
           max_threshold := max_threshold st1;
           max_time_gap := max_time_gap st1 |}
  | GroupingRaise e => GroupingRaise e
  | GroupingOutOfFuel => GroupingOutOfFuel
  end.

Fixpoint group_loop (messages : list Item) (st : GroupState)
    : grouping GroupState :=
  match messages with
  | [] => Grouped st
  | message :: messages' =>
      match group_step st message with
      | Grouped st' => group_loop messages' st'
      | GroupingRaise e => GroupingRaise e
      | GroupingOutOfFuel => GroupingOutOfFuel
      end
  end.

(** The first part of [group_messages]: the groups by time gap. *)
Definition group_by_gap (messages : list Item)
    (time_gap_reference : list (Z * Z)) : grouping (list (list Item)) :=
  match pop_max_threshold time_gap_reference with
  | Grouped first =>
      match group_loop messages
              {| groups := []; current_group := [];
                 last_message_date := None;
                 time_gap_reference := snd first;
                 max_threshold := fst (fst first);
                 max_time_gap := snd (fst first) |} with
      | Grouped st =>
          Grouped (match current_group st with
                   | [] => groups st
                   | _ :: _ => groups st ++ [current_group st]
                   end)
      | GroupingRaise e => GroupingRaise e
      | GroupingOutOfFuel => GroupingOutOfFuel
      end
  | GroupingRaise e => GroupingRaise e
  | GroupingOutOfFuel => GroupingOutOfFuel
  end.

(** [s[:k]]. *)
Definition py_prefix (s : string) (k : Z) : string :=
  if 0 <=? k then String.substring 0 (Z.to_nat k) s
  else String.substring 0 (Z.to_nat (len s + k)) s.

(** [s[:int(1.5 * max_group_size)] if len(s) > 1.5 * max_group_size else s],
    for sizes that a float holds exactly. *)
Definition truncate_text (s : string) (max_group_size : Z) : string :=
  if 3 * max_group_size <? 2 * len s
  then py_prefix s (Z.quot (3 * max_group_size) 2)
  else s.

(** [message.content = c] *)
Definition set_content (m : StructuredMessage) (c : string) : StructuredMessage :=
  match m with
  | Human h =>
      Human {| h_content := c; h_date := h_date h; h_summary := h_summary h;
               h_author := h_author h; h_message_id := h_message_id h |}
  | AI a =>
      AI {| ai_content := c; ai_date := ai_date a; ai_summary := ai_summary a;
            activity := activity a; tool_calls := tool_calls a;
            internal_tool_messages := internal_tool_messages a |}
  | System s =>
      System {| s_content := c; s_date := s_date s; s_summary := s_summary s;
                s_author := s_author s; lifespan := lifespan s |}
  end.

(** The copy that stands for a group of one message. *)
Definition truncated (msg : Item) (max_group_size : Z) : Item :=
  match msg with
  | Sum s =>
      Sum {| max_date := max_date s; min_date := min_date s;
             summary := truncate_text (summary s) max_group_size |}
  | Msg m =>
      let text := if truthy (msg_summary m)
                  then default "" (msg_summary m) else msg_content m in
      Msg (set_content m (truncate_text text max_group_size))
  end.

(** [next((key for key in reversed(size_thresholds) if max_date >= key), None)] *)
Definition size_reference (max_group_size_reference : list (Z * option Z))
    (max_date : Z) : option Z :=
  List.find (fun key => key <=? max_date)
            (rev (py_sort (fun key => key)
                          (dict_keys max_group_size_reference))).

(** The search for the largest gap: [split_index], [max_gap],
    [previous_message_date]. *)
Fixpoint largest_gap (i : nat) (group : list Item)
    (st : nat * option Z * option Z) : nat * option Z * option Z :=
  match group with
  | [] => st
  | message :: group' =>
      let message_date := item_end message in
      let st' :=
        match snd st with
        | Some previous_message_date =>
            let gap := message_date - previous_message_date in
            if match snd (fst st) with
               | None => true
               | Some max_gap => max_gap <? gap
               end
            then (i, Some gap, Some message_date)
            else (fst (fst st), snd (fst st), Some message_date)
        | None => (fst (fst st), snd (fst st), Some message_date)
        end in
      largest_gap (S i) group' st'
  end.

Definition split_index_of (group : list Item) : nat :=
  let split_index := fst (fst (largest_gap 0 group (1%nat, None, None))) in
  match split_index with
  | O => 1%nat
  | S _ => split_index
  end.

Definition cumulated_size (group : list Item) : Z :=
  fold_left (fun acc message => acc + _count_message_size message true) group 0.

(** [while group_queue], one unit of fuel per iteration. *)
Fixpoint check_sizes (fuel : nat)
    (max_group_size_reference : list (Z * option Z))
    (group_queue final_groups : list (list Item))
    : grouping (list (list Item)) :=
  match group_queue with
  | [] => Grouped final_groups
  | group :: group_queue' =>
      match fuel with
      | O => GroupingOutOfFuel
      | S fuel' =>
          match group with
          | [] => GroupingRaise ValueError_max_empty
          | msg :: others =>
              let max_date := py_max (item_end msg) (map item_end others) in
              match size_reference max_group_size_reference max_date with
              | None =>
                  check_sizes fuel' max_group_size_reference group_queue'
                              (final_groups ++ [group])
              | Some reference =>
                  match dict_get reference max_group_size_reference with
                  | None => GroupingRaise (KeyError_threshold reference)
                  | Some None =>
                      check_sizes fuel' max_group_size_reference group_queue'
                                  (final_groups ++ [group])
                  | Some (Some max_group_size) =>
                      match others with
                      | [] =>
                          check_sizes fuel' max_group_size_reference
                            group_queue'
                            (final_groups ++ [[truncated msg max_group_size]])
                      | _ :: _ =>
                          if max_group_size <? cumulated_size group then
                            let split_index := split_index_of group in
                            check_sizes fuel' max_group_size_reference
                              (take split_index group
                               :: drop split_index group :: group_queue')
                              final_groups
                          else
                            check_sizes fuel' max_group_size_reference
                              group_queue' (final_groups ++ [group])
                      end
                  end
              end
          end
      end
  end.

Definition group_messages (fuel : nat) (messages : list Item)
    (time_gap_reference : list (Z * Z))
    (max_group_size_reference : list (Z * option Z))
    : grouping (list (list Item)) :=
  match group_by_gap messages time_gap_reference with
  | Grouped groups =>
      match max_group_size_reference with
      | [] => Grouped groups
      | _ :: _ => check_sizes fuel max_group_size_reference groups []
      end
  | GroupingRaise e => GroupingRaise e
  | GroupingOutOfFuel => GroupingOutOfFuel
  end.

(** The item is a message, not a summary. *)
Definition is_message (item : Item) : Prop :=
  match item with
  | Msg _ => True
  | Sum _ => False
  end.

(** [out] stands for [item]: the item itself or its copy cut to some
    size. *)
Definition stands_for (out item : Item) : Prop :=
  out = item \/ exists max_group_size, out = truncated item max_group_size.

(** The group [out] stands for the run [segment] of the items given: the
    run itself, or, for a run of one item to which a size limit applies
    (the limit under the greatest key that its date reaches), the copy of
    that item cut to this limit, alone in its group. *)
Definition group_stands_for (max_group_size_reference : list (Z * option Z))
    (out segment : list Item) : Prop :=
  out = segment
  \/ exists item reference max_group_size,
       segment = [item]
       /\ size_reference max_group_size_reference (item_end item)
          = Some reference
       /\ dict_get reference max_group_size_reference
          = Some (Some max_group_size)
       /\ out = [truncated item max_group_size].

(** An upper bound on the iterations of the size check that are left. *)
Definition queue_measure (queue : list (list Item)) : nat :=
  fold_right (fun group acc => (2 * length group - 1 + acc)%nat) 0%nat queue.

(** ** What an assembled list is made of *)

(** The item is one of the messages or one of the stored summaries, and it
    ends before [max_date] when one is given. *)
Definition assembled_from (msgs : list StructuredMessage)
    (sums : list (Z * list Summary)) (max_date : option Z) (item : Item)
    : Prop :=
  match item with
  | Msg m => In m msgs
  | Sum s => In s (all_summaries sums)
  end
  /\ match max_date with
     | Some d => item_end item < d
     | None => True
     end.

(** ** What the updates built from MCP responses hold *)

(** The updates hold nothing but [#toolupdated#] notices for tool calls
    among [ids], as new messages. *)
Definition notices_only (ids : list string) (u : InternalUpdates) : Prop :=
  upd_current_channel u = None
  /\ tool_updates u = []
  /\ Forall (fun kv =>
               snd kv = only_new_messages (new_messages (snd kv))
               /\ Forall (fun m => exists tid d,
                                     In tid ids /\ m = toolupdated_message tid d)
                         (new_messages (snd kv)))
            (channel_updates u).

(** The channel diffs of a cleanup that starts from empty updates. *)
Definition cleanup_entries (chans : list (string * Channel))
    : list (string * InternalChannelUpdates) :=
  flat_map (fun entry =>
              if needs_cleanup (snd entry)
              then [(fst entry, cleanup_channel_updates (snd entry))]
              else []) chans.

(** A history with a channel to clean and one that has been cleaned. *)
Definition temporary_history : History :=
  {| current_channel := Some "c1";
     channels :=
       [("c1", temporary_channel);
        ("c2", {| ch_id := "c2"; ch_name := "c2"; channel_type := "basic";
                  wakeup_url := None;
                  messages := [temporary_at "kept" 5 1];
                  summaries := []; last_activity := 5; max_summary_date := 0;
                  no_reactive_tool_call_before := None;
                  no_temporary_message_before := Some 5 |})] |}.

(** What the invariant asks of the right operand: the messages it brings
    have their tool calls registered. *)
Definition registered_diff (u : InternalChannelUpdates) : Prop :=
  Forall registered (new_messages u)
  /\ Forall (fun upd => registered (snd upd)) (message_updates u)
  /\ Forall registered (message_append_left u).

Definition updates_registered (right : ReducerInput) : Prop :=
  match right with
  | Reset => True
  | Replace h => history_registered h
  | Updates u => Forall (fun kv => registered_diff (snd kv)) (channel_updates u)
  end.

(* ===================================================================== *)
(** * Properties *)

(** ** The tool-call thread *)

Section Thread.
Implicit Types (self : MCPThread) (monotonic : nat -> Z).

Lemma processing_responses_map monotonic n pending :
  map (fun r => tm_tool_call_id (tool_message r))
      (processing_responses monotonic n pending)
  = map (fun q => tc_id (tool_call q)) pending.
Proof.
  revert n; induction pending as [|q pending IH]; intros n; simpl.
  - reflexivity.
  - now rewrite IH.
Qed.

Lemma length_processing_responses monotonic n pending :
  length (processing_responses monotonic n pending) = length pending.
Proof.
  revert n; induction pending as [|q pending IH]; intros n; simpl; auto.
Qed.

Lemma processing_responses_status monotonic n pending :
  Forall (fun r => resp_status r = MCP_processing
                   /\ tm_status (tool_message r) = Success)
         (processing_responses monotonic n pending).
Proof.
  revert n; induction pending as [|q pending IH]; intros n; simpl.
  - constructor.
  - constructor; [split; reflexivity | apply IH].
Qed.

Lemma terminal_responses_terminal self :
  reachable_thread self -> Forall is_terminal (terminal_responses self).
Proof.
  induction 1; simpl; auto.
  - apply Forall_app; split; auto.
    constructor; [|constructor].
    unfold is_terminal; simpl. destruct (tm_status result); auto.
  - apply Forall_app; split; auto.
    constructor; [|constructor]. right; reflexivity.
Qed.
End Thread.

(** C8. [current_responses] returns the accumulated terminal responses (all
    of them completed or failed) followed by one synthesized [processing]
    response per pending request, in the order of the requests, and leaves
    a thread without terminal responses and with the same pending
    requests; called again at once, it returns exactly one synthesized
    [processing] response per pending request and nothing else. *)
Theorem current_responses_drains :
  forall (monotonic monotonic' : nat -> Z) (self : MCPThread),
    reachable_thread self ->
    let first := current_responses monotonic self in
    let second := current_responses monotonic' (snd first) in
    fst first
      = terminal_responses self
        ++ processing_responses monotonic 0 (pending_requests self)
    /\ Forall is_terminal (terminal_responses self)
    /\ map (fun r => tm_tool_call_id (tool_message r))
           (processing_responses monotonic 0 (pending_requests self))
       = map (fun q => tc_id (tool_call q)) (pending_requests self)
    /\ Forall (fun r => resp_status r = MCP_processing)
              (processing_responses monotonic 0 (pending_requests self))
    /\ terminal_responses (snd first) = []
    /\ pending_requests (snd first) = pending_requests self
    /\ fst second
       = processing_responses monotonic' 0 (pending_requests self)
    /\ Forall (fun r => ~ is_terminal r) (fst second).
Proof.
  intros monotonic monotonic' self Hreach first second.
  split; [reflexivity|].
  split; [now apply terminal_responses_terminal|].
  split; [apply processing_responses_map|].
  split.
  { eapply Forall_impl; [apply processing_responses_status|].
    intros r [H _]; exact H. }
  split; [reflexivity|]. split; [reflexivity|]. split; [reflexivity|].
  subst second first; simpl.
  eapply Forall_impl; [apply processing_responses_status|].
  intros r [H _] [H'|H']; congruence.
Qed.

Lemma sample_thread_reachable : reachable_thread sample_thread.
Proof.
  unfold sample_thread. apply reach_completed; [|reflexivity].
  repeat constructor.
Qed.

(** S6 on [sample_thread]: one terminal and one synthesized response, then
    the synthesized one alone. *)
Lemma current_responses_drains_witness :
  reachable_thread sample_thread
  /\ fst (current_responses (fun _ => 7) sample_thread)
     = terminal_responses sample_thread
       ++ processing_responses (fun _ => 7) 0 (pending_requests sample_thread)
  /\ fst (current_responses (fun _ => 9)
            (snd (current_responses (fun _ => 7) sample_thread)))
     = processing_responses (fun _ => 9) 0 (pending_requests sample_thread).
Proof.
  split; [exact sample_thread_reachable|].
  pose proof (current_responses_drains (fun _ => 7) (fun _ => 9) sample_thread
                sample_thread_reachable) as H.
  cbv zeta in H. destruct H as (H1 & _ & _ & _ & _ & _ & H7 & _).
  split; [exact H1 | exact H7].
Defined.

Example sample_thread_statuses :
  map resp_status (fst (current_responses (fun _ => 7) sample_thread))
    = [MCP_completed; MCP_processing]
  /\ map resp_status
       (fst (current_responses (fun _ => 9)
               (snd (current_responses (fun _ => 7) sample_thread))))
     = [MCP_processing].
Proof. split; reflexivity. Qed.

(** C10. Every response synthesized by [current_responses] for a pending
    request has [tool_message.status = "success"] while its own status is
    ["processing"]; the responses past the terminal ones are exactly
    these. *)
Theorem processing_response_reports_success :
  forall (monotonic : nat -> Z) (self : MCPThread) (i : nat) (r : MCPResponse),
    fst (current_responses monotonic self)
      !! (length (terminal_responses self) + i)%nat = Some r ->
    tm_status (tool_message r) = Success
    /\ resp_status r = MCP_processing
    /\ exists request,
         pending_requests self !! i = Some request
         /\ tm_tool_call_id (tool_message r) = tc_id (tool_call request).
Proof.
  intros monotonic self i r H. simpl in H.
  rewrite lookup_app_r in H by lia.
  replace (length (terminal_responses self) + i
           - length (terminal_responses self))%nat with i in H by lia.
  assert (Hgen : forall pending n j,
             processing_responses monotonic n pending !! j = Some r ->
             exists request, pending !! j = Some request
                             /\ r = processing_response (monotonic (n + j)%nat) request).
  { induction pending as [|q pending IH]; intros n j Hj; simpl in Hj.
    - destruct j; discriminate.
    - destruct j as [|j]; simpl in Hj.
      + inversion Hj; subst. exists q. split; [reflexivity|].
        now rewrite Nat.add_0_r.
      + destruct (IH _ _ Hj) as (q' & Hq' & Hr). exists q'. split; [exact Hq'|].
        rewrite Hr. f_equal. f_equal. lia. }
  destruct (Hgen _ _ _ H) as (request & Hreq & Hr).
  subst r. simpl. repeat split. exists request. split; auto.
Qed.

Lemma processing_response_reports_success_witness :
  fst (current_responses (fun _ => 7) sample_thread) !! 1%nat
    = Some (processing_response 7 (sample_request "t2" 0))
  /\ tm_status (tool_message (processing_response 7 (sample_request "t2" 0)))
     = Success.
Proof.
  split; [reflexivity|].
  apply (processing_response_reports_success (fun _ => 7) sample_thread 0
           (processing_response 7 (sample_request "t2" 0))).
  reflexivity.
Defined.

(** ** Dictionaries *)

Section DictFacts.
Context {K : Type} `{EqDecision K} {V : Type}.
Implicit Types (k : K) (v : V) (d : list (K * V)).

Lemma dict_get_set_eq k v d : dict_get k (dict_set k v d) = Some v.
Proof.
  induction d as [|[k' v'] d IH]; simpl.
  - now rewrite decide_True.
  - destruct (decide (k = k')) as [->|Hne]; simpl.
    + now rewrite decide_True.
    + now rewrite decide_False.
Qed.

Lemma dict_get_set_ne k k' v d :
  k <> k' -> dict_get k' (dict_set k v d) = dict_get k' d.
Proof.
  intros Hne. induction d as [|[k0 v0] d IH]; simpl.
  - rewrite decide_False; congruence.
  - destruct (decide (k = k0)) as [->|Hk]; simpl.
    + rewrite !decide_False; congruence.
    + destruct (decide (k' = k0)); auto.
Qed.

Lemma dict_get_set k k' v d :
  dict_get k' (dict_set k v d)
  = if decide (k = k') then Some v else dict_get k' d.
Proof.
  destruct (decide (k = k')) as [->|Hne].
  - apply dict_get_set_eq.
  - now apply dict_get_set_ne.
Qed.

Lemma dict_get_In k v d : dict_get k d = Some v -> In (k, v) d.
Proof.
  induction d as [|[k' v'] d IH]; simpl; [discriminate|].
  destruct (decide (k = k')) as [->|Hne].
  - intros [= ->]. now left.
  - intros H'. right. auto.
Qed.

Lemma dict_get_None_keys k d : dict_get k d = None <-> ~ In k (dict_keys d).
Proof.
  induction d as [|[k' v'] d IH]; simpl.
  - tauto.
  - destruct (decide (k = k')) as [->|Hne].
    + split; [discriminate | intros Hn; exfalso; apply Hn; now left].
    + rewrite IH. split; [intros Hn [He|Hi]; congruence | tauto].
Qed.

Lemma Forall_dict_set (P : K * V -> Prop) k v d :
  Forall P d -> P (k, v) -> Forall P (dict_set k v d).
Proof.
  intros Hd Hkv. induction d as [|[k' v'] d IH]; simpl.
  - repeat constructor; auto.
  - inversion Hd; subst.
    destruct (decide (k = k')) as [->|Hne]; constructor; auto.
Qed.

Lemma dict_keys_set_present k v d :
  dict_get k d <> None -> dict_keys (dict_set k v d) = dict_keys d.
Proof.
  induction d as [|[k' v'] d IH]; simpl; [congruence|].
  destruct (decide (k = k')) as [->|Hne]; simpl; [reflexivity|].
  intros Hd. now rewrite IH.
Qed.

Lemma dict_keys_set_absent k v d :
  dict_get k d = None -> dict_keys (dict_set k v d) = dict_keys d ++ [k].
Proof.
  induction d as [|[k' v'] d IH]; simpl; [reflexivity|].
  destruct (decide (k = k')) as [->|Hne]; simpl; [discriminate|].
  intros Hd. now rewrite IH.
Qed.

End DictFacts.

(** ** The stable sort *)

Section SortFacts.
Context {A : Type} (key : A -> Z).
Implicit Types (x : A) (l : list A).

Lemma sort_insert_perm x l : Permutation (sort_insert key x l) (x :: l).
Proof.
  induction l as [|y l IH]; simpl.
  - reflexivity.
  - destruct (key x <=? key y); [reflexivity|].
    rewrite IH. apply perm_swap.
Qed.

Lemma py_sort_perm l : Permutation (py_sort key l) l.
Proof.
  induction l as [|x l IH]; simpl; [reflexivity|].
  rewrite sort_insert_perm. now constructor.
Qed.

Lemma Forall_sort_insert (P : A -> Prop) x l :
  P x -> Forall P l -> Forall P (sort_insert key x l).
Proof.
  intros Hx Hl. induction Hl as [|y l Hy Hl IH]; simpl.
  - repeat constructor; auto.
  - destruct (key x <=? key y); repeat constructor; auto.
Qed.

Lemma sort_insert_sorted x l :
  sorted_by key l -> sorted_by key (sort_insert key x l).
Proof.
  unfold sorted_by. induction l as [|y l IH]; simpl; intros Hs.
  - repeat constructor.
  - apply StronglySorted_cons in Hs as [Hall Hs].
    destruct (key x <=? key y) eqn:Hxy.
    + apply Z.leb_le in Hxy. constructor.
      * constructor; auto.
      * constructor; [exact Hxy|].
        eapply Forall_impl; [exact Hall|].
        unfold by_key; intros; lia.
    + apply Z.leb_gt in Hxy. constructor; [auto|].
      apply Forall_sort_insert; [unfold by_key; lia | exact Hall].
Qed.

Lemma py_sort_sorted l : sorted_by key (py_sort key l).
Proof.
  induction l as [|x l IH]; simpl.
  - constructor.
  - now apply sort_insert_sorted.
Qed.




Lemma sorted_by_below_last l z :
  sorted_by key l -> last l = Some z -> Forall (fun x => key x <= key z) l.
Proof.
  unfold sorted_by. intros Hs Hl.
  apply last_Some in Hl as [l' ->].
  apply StronglySorted_app in Hs as (Hle & _ & _).
  apply Forall_app; split.
  - rewrite Forall_forall. intros x Hx. apply (Hle x z Hx).
    apply list_elem_of_singleton. reflexivity.
  - repeat constructor. lia.
Qed.

End SortFacts.

(** ** [max] *)


Lemma py_max_attained d ds : py_max d ds = d \/ In (py_max d ds) ds.
Proof.
  unfold py_max. revert d. induction ds as [|x ds IH]; intros d; simpl.
  - now left.
  - destruct (IH (Z.max d x)) as [H|H]; [|right; now right].
    rewrite H. destruct (Z.max_spec d x) as [[_ ->]|[_ ->]]; auto.
Qed.

(** ** Objects and references *)

Lemma write_same (objs : Objects) o m : write objs o m o = m.
Proof. unfold write. now rewrite decide_True. Qed.

Lemma write_other (objs : Objects) o m o' :
  o' <> o -> write objs o m o' = objs o'.
Proof. intros H. unfold write. now rewrite decide_False. Qed.

Lemma elem_of_operand_refs o refs :
  o ∈ operand_refs refs <-> Operand o ∈ refs.
Proof.
  unfold operand_refs. induction refs as [|[m|o'] refs IH]; simpl.
  - split; intros H; inversion H.
  - rewrite IH, elem_of_cons. split; [auto|].
    intros [H|H]; [discriminate | exact H].
  - rewrite !elem_of_cons, IH. split; intros [H|H]; auto; left; congruence.
Qed.

(** Messages read alike from two states of the objects that agree on the
    objects referred to. *)
Lemma values_agree (objs objs' : Objects) refs :
  (forall o, o ∈ operand_refs refs -> objs' o = objs o) ->
  map (value objs') refs = map (value objs) refs.
Proof.
  intros H. apply map_ext_in. intros [m|o] Hin; simpl; [reflexivity|].
  apply H, elem_of_operand_refs. now apply list_elem_of_In.
Qed.

Lemma values_copied objs msgs : map (value objs) (map Copied msgs) = msgs.
Proof. rewrite map_map. simpl. apply map_id. Qed.

Lemma operand_refs_copied msgs : operand_refs (map Copied msgs) = [].
Proof. induction msgs; simpl; auto. Qed.

Lemma py_index_map {A B : Type} (f : A -> B) (l : list A) i :
  py_index (map f l) i = py_index l i.
Proof. unfold py_index. now rewrite length_map. Qed.

Lemma lookup_map_list {A B : Type} (f : A -> B) (l : list A) (i : nat) :
  map f l !! i = option_map f (l !! i).
Proof. revert i. induction l as [|x l IH]; intros [|i]; simpl; auto. Qed.

Lemma map_list_insert {A B : Type} (f : A -> B) (l : list A) (i : nat) x :
  map f (<[i := x]> l) = <[i := f x]> (map f l).
Proof.
  revert i. induction l as [|y l IH]; intros [|i]; simpl; auto.
  now rewrite IH.
Qed.

Lemma map_list_delete {A B : Type} (f : A -> B) (l : list A) (i : nat) :
  map f (delete i l) = delete i (map f l).
Proof.
  revert i. induction l as [|y l IH]; intros [|i]; simpl; auto.
  now rewrite IH.
Qed.

Lemma filter_map_list {A B : Type} (f : A -> B) (p : B -> bool) (l : list A) :
  List.filter p (map f l) = map f (List.filter (fun x => p (f x)) l).
Proof.
  induction l as [|x l IH]; simpl; [reflexivity|].
  destruct (p (f x)); simpl; now rewrite IH.
Qed.

Lemma elem_of_insert_inv {A : Type} (l : list A) (i : nat) x y :
  x ∈ <[i := y]> l -> x = y \/ x ∈ l.
Proof.
  revert i. induction l as [|z l IH]; intros [|i]; simpl; intros H.
  - inversion H.
  - inversion H.
  - apply elem_of_cons in H as [->|H]; [now left|].
    right. now apply list_elem_of_further.
  - apply elem_of_cons in H as [->|H]; [right; apply list_elem_of_here|].
    destruct (IH _ H) as [->|Hin]; [now left|].
    right. now apply list_elem_of_further.
Qed.

(** Steps 2 and 4 on a message that is an object of its own, in closed
    form: the message is stored with the date of the one it replaces, or
    with the date of the first message when it is later. *)
Lemma apply_message_update_value_eq channel_id msgs upd :
  apply_message_update_value channel_id msgs upd
  = if fst upd <? Z.of_nat (length msgs) then
      match py_index msgs (fst upd) with
      | Some i =>
          match msgs !! i with
          | Some old => Ok (<[i := set_date (snd upd) (date old)]> msgs)
          | None => Raise IndexError
          end
      | None => Raise IndexError
      end
    else Raise (ValueError_out_of_bounds (fst upd) channel_id (length msgs)).
Proof.
  unfold apply_message_update_value, apply_message_update. cbn [fst snd].
  rewrite length_map, py_index_map.
  destruct (fst upd <? Z.of_nat (length msgs)); [|reflexivity].
  destruct (py_index msgs (fst upd)) as [i|]; [|reflexivity].
  rewrite lookup_map_list.
  destruct (msgs !! i) as [old|]; [|reflexivity].
  cbn [option_map bind fst snd value]. f_equal.
  rewrite map_list_insert. cbn [value]. rewrite write_same. f_equal.
  apply values_copied.
Qed.

Lemma append_left_value_eq msgs new_message :
  append_left_value msgs new_message
  = match msgs with
    | m0 :: _ =>
        (if date m0 <? date new_message
         then set_date new_message (date m0) else new_message) :: msgs
    | [] => [new_message]
    end.
Proof.
  unfold append_left_value, append_left. cbn [fst snd].
  destruct msgs as [|m0 msgs]; [reflexivity|].
  cbn [map value]. destruct (date m0 <? date new_message).
  - rewrite write_same. do 2 f_equal. apply values_copied.
  - do 2 f_equal. apply values_copied.
Qed.

(** ** The per-channel steps of the reducer *)

Lemma date_set_date m d : date (set_date m d) = d.
Proof. destruct m; reflexivity. Qed.

Lemma apply_message_update_value_spec channel_id msgs upd msgs' :
  apply_message_update_value channel_id msgs upd = Ok msgs' ->
  exists (i : nat) old,
    msgs !! i = Some old
    /\ msgs' = <[i := set_date (snd upd) (date old)]> msgs.
Proof.
  rewrite apply_message_update_value_eq.
  destruct (fst upd <? Z.of_nat (length msgs)); [|discriminate].
  destruct (py_index msgs (fst upd)) as [i|]; [|discriminate].
  destruct (msgs !! i) as [old|] eqn:Hi; [|discriminate].
  intros [= <-]. eauto.
Qed.





Lemma fold_append_new_fst news msgs b :
  fst (fold_left append_new news (msgs, b)) = msgs ++ news.
Proof.
  revert msgs b. induction news as [|n news IH]; intros msgs b; simpl.
  - now rewrite app_nil_r.
  - unfold append_new at 2. simpl. rewrite IH. now rewrite <- app_assoc.
Qed.




Lemma add_new_messages_perm msgs news :
  Permutation (add_new_messages msgs news) (msgs ++ news).
Proof.
  unfold add_new_messages.
  destruct (snd (fold_left append_new news (msgs, false)));
    rewrite ?py_sort_perm, fold_append_new_fst; reflexivity.
Qed.

(** What [process_channel] does to the messages and to [last_activity]. *)
Lemma process_channel_spec clk channel_id channel u channel' :
  process_channel clk channel_id channel u = Ok channel' ->
  exists msgs2 msgs3,
    apply_message_updates channel_id (messages channel) (message_updates u)
      = Ok msgs2
    /\ delete_messages msgs2 (sorted_reverse (message_deletes u)) = Ok msgs3
    /\ messages channel'
       = add_new_messages
           (fold_left append_left_value (message_append_left u)
              (match delete_before u with
               | Some t => List.filter (fun m => t <=? date m) msgs3
               | None => msgs3
               end))
           (new_messages u)
    /\ last_activity channel'
       = match new_messages u with
         | [] => last_activity channel
         | m :: ms => py_max (date m) (map date ms)
         end
    /\ ch_id channel' = ch_id channel.
Proof.
  unfold process_channel.
  destruct (apply_message_updates _ _ _) as [msgs2| |] eqn:H2;
    simpl; try discriminate.
  destruct (delete_messages _ _) as [msgs3| |] eqn:H3; simpl; try discriminate.
  intros [= <-]. simpl. exists msgs2, msgs3.
  split; [reflexivity|]. split; [exact H3|]. split; [reflexivity|].
  split; reflexivity.
Qed.


(** ** The loop over the channels *)

Lemma apply_channel_updates_spec clk left entry left' :
  apply_channel_updates clk left entry = Ok left' ->
  exists channel',
    process_channel clk (fst entry) (channel_or_new clk (fst entry) left)
                    (snd entry) = Ok channel'
    /\ channels left' = dict_set (fst entry) channel' (channels left)
    /\ current_channel left' = current_channel left.
Proof.
  unfold apply_channel_updates, channel_or_new.
  destruct (process_channel _ _ _ _) as [c| |]; simpl; try discriminate.
  intros [= <-]. eauto.
Qed.

Lemma apply_all_channel_updates_frame clk entries left left' channel_id :
  apply_all_channel_updates clk left entries = Ok left' ->
  ~ In channel_id (dict_keys entries) ->
  dict_get channel_id (channels left') = dict_get channel_id (channels left).
Proof.
  revert left. induction entries as [|e entries IH]; intros left; simpl.
  - intros [= <-]. auto.
  - destruct (apply_channel_updates clk left e) as [l1| |] eqn:He;
      simpl; try discriminate.
    intros Hrest Hnot. rewrite (IH _ Hrest) by tauto.
    apply apply_channel_updates_spec in He as (c & _ & -> & _).
    apply dict_get_set_ne. intros Heq. apply Hnot. now left.
Qed.

Lemma apply_all_channel_updates_current clk entries left left' :
  apply_all_channel_updates clk left entries = Ok left' ->
  current_channel left' = current_channel left.
Proof.
  revert left. induction entries as [|e entries IH]; intros left; simpl.
  - intros [= <-]. auto.
  - destruct (apply_channel_updates clk left e) as [l1| |] eqn:He;
      simpl; try discriminate.
    intros Hrest. rewrite (IH _ Hrest).
    now apply apply_channel_updates_spec in He as (c & _ & _ & ->).
Qed.

(** With distinct keys, the channel of an entry ends as [process_channel]
    leaves it. *)
Lemma apply_all_channel_updates_at clk entries left left' channel_id u :
  apply_all_channel_updates clk left entries = Ok left' ->
  NoDup (dict_keys entries) ->
  In (channel_id, u) entries ->
  exists channel',
    process_channel clk channel_id (channel_or_new clk channel_id left) u
      = Ok channel'
    /\ dict_get channel_id (channels left') = Some channel'.
Proof.
  revert left. induction entries as [|e entries IH]; intros left; simpl.
  - intros _ _ [].
  - destruct (apply_channel_updates clk left e) as [l1| |] eqn:He;
      simpl; try discriminate.
    intros Hrest Hnd Hin. apply NoDup_cons in Hnd as [Hfresh Hnd].
    pose proof He as Hspec.
    apply apply_channel_updates_spec in Hspec as (c & Hc & Hch & _).
    destruct Hin as [->|Hin]; simpl in *.
    + exists c. split; [exact Hc|].
      rewrite (apply_all_channel_updates_frame _ _ _ _ _ Hrest).
      * rewrite Hch. apply dict_get_set_eq.
      * intros Hi. apply Hfresh. now apply list_elem_of_In.
    + assert (Hne : fst e <> channel_id).
      { intros Heq. apply Hfresh. apply list_elem_of_In.
        rewrite Heq. unfold dict_keys. apply in_map_iff.
        exists (channel_id, u). auto. }
      destruct (IH _ Hrest Hnd Hin) as (c' & Hc' & Hget).
      exists c'. split; [|exact Hget].
      unfold channel_or_new in *. rewrite Hch in Hc'.
      now rewrite dict_get_set_ne in Hc'.
Qed.




(** ** [last_activity] *)




(** ** Tool updates keep the order *)






(** ** Step 2 on objects and on values *)

Lemma apply_message_update_values channel_id (objs : Objects) refs i o :
  o ∉ operand_refs refs ->
  match apply_message_update_value channel_id (map (value objs) refs)
          (i, objs o) with
  | Ok msgs =>
      exists objs' refs',
        apply_message_update channel_id (objs, refs) (i, o) = Ok (objs', refs')
        /\ map (value objs') refs' = msgs
        /\ (forall o', o' <> o -> objs' o' = objs o')
        /\ (forall o', o' ∈ operand_refs refs' ->
                       o' ∈ operand_refs refs \/ o' = o)
  | Raise e => apply_message_update channel_id (objs, refs) (i, o) = Raise e
  | OutOfFuel => apply_message_update channel_id (objs, refs) (i, o) = OutOfFuel
  end.
Proof.
  intros Hfresh. rewrite apply_message_update_value_eq. unfold apply_message_update.
  cbn [fst snd]. rewrite length_map, py_index_map.
  destruct (i <? Z.of_nat (length refs)); [|reflexivity].
  destruct (py_index refs i) as [n|]; [|reflexivity].
  rewrite lookup_map_list. destruct (refs !! n) as [old|] eqn:Hold; simpl;
    [|reflexivity].
  eexists _, _. split; [reflexivity|]. split; [|split].
  - rewrite map_list_insert. simpl. rewrite write_same. f_equal.
    apply values_agree. intros o' Ho'. apply write_other.
    intros ->. contradiction.
  - intros o' Hne. now apply write_other.
  - intros o' Ho'. apply elem_of_operand_refs in Ho'.
    apply elem_of_insert_inv in Ho' as [[= ->]|Ho']; [now right|].
    left. now apply elem_of_operand_refs.
Qed.

Lemma apply_message_updates_values channel_id upds :
  forall (objs : Objects) refs,
    NoDup (map snd upds) ->
    (forall o, o ∈ map snd upds -> o ∉ operand_refs refs) ->
    match apply_message_updates channel_id (map (value objs) refs)
            (map (fun kv => (fst kv, objs (snd kv))) upds) with
    | Ok msgs =>
        exists objs' refs',
          apply_message_updates_shared channel_id (objs, refs) upds
          = Ok (objs', refs')
          /\ map (value objs') refs' = msgs
          /\ (forall o, o ∉ map snd upds -> objs' o = objs o)
          /\ (forall o, o ∈ operand_refs refs' ->
                        o ∈ operand_refs refs \/ o ∈ map snd upds)
    | Raise e =>
        apply_message_updates_shared channel_id (objs, refs) upds = Raise e
    | OutOfFuel =>
        apply_message_updates_shared channel_id (objs, refs) upds = OutOfFuel
    end.
Proof.
  induction upds as [|[i o] upds IH]; intros objs refs Hnd Hfresh.
  - simpl. eexists _, _. split; [reflexivity|]. repeat split; auto.
  - cbn [map fst snd] in *. apply NoDup_cons in Hnd as [Ho Hnd].
    cbn [apply_message_updates apply_message_updates_shared].
    pose proof (apply_message_update_values channel_id objs refs i o
                  (Hfresh o (list_elem_of_here _ _))) as Hstep.
    destruct (apply_message_update_value channel_id (map (value objs) refs)
                (i, objs o)) as [msgs1|e|]; cbn [bind].
    + destruct Hstep as (objs1 & refs1 & -> & Hval & Hobjs & Hrefs).
      cbn [bind].
      assert (Hsame : map (fun kv => (fst kv, objs (snd kv))) upds
                      = map (fun kv => (fst kv, objs1 (snd kv))) upds).
      { apply map_ext_in. intros [j o'] Hin. cbn [fst snd]. f_equal.
        symmetry. apply Hobjs. intros ->. apply Ho.
        apply list_elem_of_In, in_map_iff. now exists (j, o). }
      rewrite Hsame, <- Hval.
      assert (Hfresh1 : forall o', o' ∈ map snd upds ->
                                   o' ∉ operand_refs refs1).
      { intros o' Ho' Hin. destruct (Hrefs _ Hin) as [Hin'| ->].
        - exact (Hfresh o' (list_elem_of_further _ _ _ Ho') Hin').
        - contradiction. }
      specialize (IH objs1 refs1 Hnd Hfresh1).
      destruct (apply_message_updates channel_id (map (value objs1) refs1) _)
        as [msgs|e|]; [|exact IH|exact IH].
      destruct IH as (objs' & refs' & Hrun & Hval' & Hobjs' & Hrefs').
      exists objs', refs'. split; [exact Hrun|]. split; [exact Hval'|]. split.
      * intros o' Ho'. apply not_elem_of_cons in Ho' as [Hne Ho'].
        rewrite (Hobjs' _ Ho'). now apply Hobjs.
      * intros o' Ho'. destruct (Hrefs' _ Ho') as [Hin|Hin].
        -- destruct (Hrefs _ Hin) as [Hin'| ->]; [now left|].
           right. apply list_elem_of_here.
        -- right. now apply list_elem_of_further.
    + now rewrite Hstep.
    + now rewrite Hstep.
Qed.

(** ** Steps 3 to 5 on objects and on values *)

Lemma delete_message_map {A B : Type} (f : A -> B) (l : list A) i :
  delete_message (map f l) i
  = (do l' <- delete_message l i; Ok (map f l')).
Proof.
  unfold delete_message. rewrite length_map, py_index_map.
  destruct (i <? Z.of_nat (length l)); [|reflexivity].
  destruct (py_index l i); [|reflexivity].
  simpl. now rewrite map_list_delete.
Qed.

Lemma delete_messages_map {A B : Type} (f : A -> B) indices :
  forall l : list A,
    delete_messages (map f l) indices
    = (do l' <- delete_messages l indices; Ok (map f l')).
Proof.
  induction indices as [|i indices IH]; intros l; [reflexivity|].
  cbn [delete_messages]. rewrite delete_message_map.
  destruct (delete_message l i) as [l1| |]; cbn [bind]; auto.
Qed.

Lemma delete_messages_elem {A : Type} indices :
  forall (l l' : list A) x,
    delete_messages l indices = Ok l' -> x ∈ l' -> x ∈ l.
Proof.
  induction indices as [|i indices IH]; intros l l' x; cbn [delete_messages].
  - now intros [= <-].
  - destruct (delete_message l i) as [l1| |] eqn:Hd; cbn [bind];
      try discriminate.
    intros Hrest Hx. specialize (IH _ _ _ Hrest Hx).
    unfold delete_message in Hd.
    destruct (i <? Z.of_nat (length l)); [|now injection Hd as <-].
    destruct (py_index l i); [|discriminate]. injection Hd as <-.
    eapply list_elem_of_delete_inv; eauto.
Qed.

Lemma append_left_values (objs : Objects) refs o :
  o ∉ operand_refs refs ->
  map (value (fst (append_left (objs, refs) o)))
      (snd (append_left (objs, refs) o))
  = append_left_value (map (value objs) refs) (objs o)
  /\ (forall o', o' <> o -> fst (append_left (objs, refs) o) o' = objs o')
  /\ (forall o', o' ∈ operand_refs (snd (append_left (objs, refs) o)) ->
                 o' ∈ operand_refs refs \/ o' = o).
Proof.
  intros Hfresh. rewrite append_left_value_eq. unfold append_left. cbn [fst snd].
  split; [|split].
  - destruct refs as [|m0 refs]; [reflexivity|]. cbn [map].
    destruct (date (value objs m0) <? date (objs o)).
    + cbn [value]. rewrite write_same. f_equal.
      change (map (value (write objs o (set_date (objs o) (date (value objs m0)))))
                  (m0 :: refs) = map (value objs) (m0 :: refs)).
      apply values_agree. intros o' Ho'. apply write_other.
      intros ->. contradiction.
    + reflexivity.
  - intros o' Hne. destruct refs as [|m0 refs]; [reflexivity|].
    destruct (_ <? _); [now apply write_other | reflexivity].
  - intros o' Ho'. apply elem_of_operand_refs, elem_of_cons in Ho'
      as [[= ->]|Ho']; [now right|].
    left. now apply elem_of_operand_refs.
Qed.

Lemma fold_append_left_values news :
  forall (objs : Objects) refs,
    NoDup news ->
    (forall o, o ∈ news -> o ∉ operand_refs refs) ->
    map (value (fst (fold_left append_left news (objs, refs))))
        (snd (fold_left append_left news (objs, refs)))
    = fold_left append_left_value (map objs news) (map (value objs) refs)
    /\ (forall o, o ∉ news ->
                  fst (fold_left append_left news (objs, refs)) o = objs o)
    /\ (forall o,
          o ∈ operand_refs (snd (fold_left append_left news (objs, refs))) ->
          o ∈ operand_refs refs \/ o ∈ news).
Proof.
  induction news as [|o news IH]; intros objs refs Hnd Hfresh.
  - simpl. auto.
  - apply NoDup_cons in Hnd as [Ho Hnd]. cbn [fold_left map].
    destruct (append_left_values objs refs o
                (Hfresh o (list_elem_of_here _ _))) as (Hval & Hobjs & Hrefs).
    destruct (append_left (objs, refs) o) as [objs1 refs1] eqn:Hstep.
    cbn [fst snd] in *.
    assert (Hfresh1 : forall o', o' ∈ news -> o' ∉ operand_refs refs1).
    { intros o' Ho' Hin. destruct (Hrefs _ Hin) as [Hin'| ->].
      - exact (Hfresh o' (list_elem_of_further _ _ _ Ho') Hin').
      - contradiction. }
    destruct (IH objs1 refs1 Hnd Hfresh1) as (Hval' & Hobjs' & Hrefs').
    assert (Hsame : map objs1 news = map objs news).
    { apply map_ext_in. intros o' Hin. apply Hobjs. intros ->.
      apply Ho. now apply list_elem_of_In. }
    split; [|split].
    + rewrite Hval', Hsame, Hval. reflexivity.
    + intros o' Ho'. apply not_elem_of_cons in Ho' as [Hne Ho'].
      rewrite (Hobjs' _ Ho'). now apply Hobjs.
    + intros o' Ho'. destruct (Hrefs' _ Ho') as [Hin|Hin].
      * destruct (Hrefs _ Hin) as [Hin'| ->]; [now left|].
        right. apply list_elem_of_here.
      * right. now apply list_elem_of_further.
Qed.

Lemma last_map_list {A B : Type} (f : A -> B) (l : list A) :
  last (map f l) = option_map f (last l).
Proof.
  induction l as [|x l IH]; [reflexivity|].
  destruct l as [|y l]; [reflexivity|].
  change (last (map f (x :: y :: l))) with (last (map f (y :: l))).
  change (last (x :: y :: l)) with (last (y :: l)). exact IH.
Qed.

Lemma fold_append_new_shared_values (objs : Objects) news :
  forall refs b,
    (map (value objs) (fst (fold_left (append_new_shared objs) news (refs, b))),
     snd (fold_left (append_new_shared objs) news (refs, b)))
    = fold_left append_new (map objs news) (map (value objs) refs, b)
    /\ fst (fold_left (append_new_shared objs) news (refs, b))
       = refs ++ map Operand news.
Proof.
  induction news as [|o news IH]; intros refs b.
  - simpl. now rewrite app_nil_r.
  - cbn [fold_left map].
    change (append_new_shared objs (refs, b) o)
      with (refs ++ [Operand o],
            match last refs with
            | Some l => if date (objs o) <? date (value objs l)
                        then true else b
            | None => b
            end).
    destruct (IH (refs ++ [Operand o])
                 (match last refs with
                  | Some l => if date (objs o) <? date (value objs l)
                              then true else b
                  | None => b
                  end)) as [Hval Hfst].
    split.
    + rewrite Hval. f_equal. unfold append_new. cbn [fst snd].
      rewrite map_app, last_map_list. cbn [map value].
      destruct (last refs); reflexivity.
    + rewrite Hfst, <- app_assoc. reflexivity.
Qed.

Lemma sort_insert_map {A B : Type} (f : A -> B) (key : B -> Z) x (l : list A) :
  map f (sort_insert (fun a => key (f a)) x l)
  = sort_insert key (f x) (map f l).
Proof.
  induction l as [|y l IH]; [reflexivity|]. simpl.
  destruct (key (f x) <=? key (f y)); simpl; [reflexivity|].
  now rewrite IH.
Qed.

Lemma py_sort_map {A B : Type} (f : A -> B) (key : B -> Z) (l : list A) :
  map f (py_sort (fun a => key (f a)) l) = py_sort key (map f l).
Proof.
  induction l as [|x l IH]; [reflexivity|]. simpl.
  now rewrite sort_insert_map, IH.
Qed.

Lemma add_new_messages_shared_values (objs : Objects) refs news :
  map (value objs) (add_new_messages_shared objs refs news)
  = add_new_messages (map (value objs) refs) (map objs news)
  /\ (forall o, o ∈ operand_refs (add_new_messages_shared objs refs news) ->
                o ∈ operand_refs refs \/ o ∈ news).
Proof.
  unfold add_new_messages_shared, add_new_messages.
  destruct (fold_append_new_shared_values objs news refs false)
    as [Hval Hfst].
  destruct (fold_left (append_new_shared objs) news (refs, false))
    as [refs' flag] eqn:Hfold.
  cbn [fst snd] in *. rewrite <- Hval. cbn [fst snd].
  assert (Hin : forall o, Operand o ∈ refs' ->
                          o ∈ operand_refs refs \/ o ∈ news).
  { intros o Ho. rewrite Hfst in Ho. apply elem_of_app in Ho as [Ho|Ho].
    - left. now apply elem_of_operand_refs.
    - right. apply list_elem_of_In, in_map_iff in Ho as (o' & [= ->] & Ho).
      now apply list_elem_of_In. }
  destruct flag.
  - split; [apply py_sort_map|].
    intros o Ho. apply Hin. apply elem_of_operand_refs in Ho.
    now rewrite py_sort_perm in Ho.
  - split; [reflexivity|].
    intros o Ho. apply Hin. now apply elem_of_operand_refs.
Qed.

(** ** A channel diff on objects and on values *)

Lemma process_channel_shared_values clk channel_id (objs : Objects) channel u :
  NoDup (diff_objects u) ->
  (forall o, o ∈ diff_objects u -> o ∉ operand_refs (sc_messages channel)) ->
  match process_channel clk channel_id (channel_of objs channel)
          (channel_updates_of objs u) with
  | Ok c' =>
      exists objs' channel',
        process_channel_shared clk channel_id (objs, channel) u
        = Ok (objs', channel')
        /\ channel_of objs' channel' = c'
        /\ (forall o, o ∉ diff_objects u -> objs' o = objs o)
        /\ (forall o, o ∈ operand_refs (sc_messages channel') ->
                      o ∈ operand_refs (sc_messages channel)
                      \/ o ∈ diff_objects u)
  | Raise e =>
      process_channel_shared clk channel_id (objs, channel) u = Raise e
  | OutOfFuel =>
      process_channel_shared clk channel_id (objs, channel) u = OutOfFuel
  end.
Proof.
  intros Hnd Hfresh. unfold diff_objects in *.
  apply NoDup_app in Hnd as (HndU & HUrest & Hnd).
  apply NoDup_app in Hnd as (HndL & HLN & HndN).
  pose proof (apply_message_updates_values channel_id (sh_message_updates u)
                objs (sc_messages channel) HndU) as H2.
  unfold process_channel, process_channel_shared.
  cbn [fst snd messages channel_of message_updates channel_updates_of].
  destruct (apply_message_updates channel_id
              (map (value objs) (sc_messages channel))
              (map (fun kv => (fst kv, objs (snd kv))) (sh_message_updates u)))
    as [msgs2|e|]; cbn [bind].
  2: { rewrite H2; [reflexivity|]. intros o Ho. apply Hfresh.
       apply elem_of_app. now left. }
  2: { rewrite H2; [reflexivity|]. intros o Ho. apply Hfresh.
       apply elem_of_app. now left. }
  destruct H2 as (objs2 & refs2 & Hrun2 & Hval2 & Hobjs2 & Hrefs2).
  { intros o Ho. apply Hfresh. apply elem_of_app. now left. }
  rewrite Hrun2. cbn [bind fst snd]. subst msgs2.
  cbn [message_deletes channel_updates_of].
  rewrite delete_messages_map.
  destruct (delete_messages refs2 (sorted_reverse (sh_message_deletes u)))
    as [refs3|e|] eqn:Hdel; cbn [bind]; [|reflexivity|reflexivity].
  set (refs3' := match sh_delete_before u with
                 | Some t =>
                     List.filter (fun r => t <=? date (value objs2 r)) refs3
                 | None => refs3
                 end).
  assert (Hrefs3 : forall r, r ∈ refs3' -> r ∈ refs2).
  { intros r Hr. eapply delete_messages_elem; [exact Hdel|]. subst refs3'.
    destruct (sh_delete_before u); [|exact Hr].
    apply list_elem_of_In, filter_In in Hr as [Hr _].
    now apply list_elem_of_In. }
  assert (Hval3 : map (value objs2) refs3'
                  = match sh_delete_before u with
                    | Some t =>
                        List.filter (fun m => t <=? date m)
                                    (map (value objs2) refs3)
                    | None => map (value objs2) refs3
                    end).
  { subst refs3'. destruct (sh_delete_before u); [|reflexivity].
    now rewrite filter_map_list. }
  assert (HfreshL : forall o, o ∈ sh_message_append_left u ->
                              o ∉ operand_refs refs3').
  { intros o Ho Hin. apply elem_of_operand_refs in Hin. apply Hrefs3 in Hin.
    apply elem_of_operand_refs in Hin. destruct (Hrefs2 _ Hin) as [H|H].
    - revert H. apply Hfresh. rewrite !elem_of_app. auto.
    - apply (HUrest _ H). apply elem_of_app. now left. }
  destruct (fold_append_left_values (sh_message_append_left u) objs2 refs3'
              HndL HfreshL) as (Hval4 & Hobjs4 & Hrefs4).
  destruct (fold_left append_left (sh_message_append_left u) (objs2, refs3'))
    as [objs4 refs4] eqn:Hfold.
  cbn [fst snd] in *.
  destruct (add_new_messages_shared_values objs4 refs4 (sh_new_messages u))
    as [Hval5 Hrefs5].
  assert (HL : map objs2 (sh_message_append_left u)
               = map objs (sh_message_append_left u)).
  { apply map_ext_in. intros o Ho. apply Hobjs2. intros H.
    apply (HUrest _ H). apply elem_of_app. left. now apply list_elem_of_In. }
  assert (HN : forall o, o ∈ sh_new_messages u -> objs4 o = objs o).
  { intros o Ho. rewrite Hobjs4.
    - apply Hobjs2. intros H. apply (HUrest _ H), elem_of_app. now right.
    - intros H. exact (HLN _ H Ho). }
  assert (HN' : map objs4 (sh_new_messages u) = map objs (sh_new_messages u)).
  { apply map_ext_in. intros o Ho. apply HN. now apply list_elem_of_In. }
  eexists objs4, _. split; [reflexivity|]. split; [|split].
  - unfold channel_of.
    cbn [ch_id ch_name channel_type wakeup_url messages summaries
         last_activity max_summary_date no_reactive_tool_call_before
         no_temporary_message_before upd_name upd_channel_type upd_wakeup_url
         delete_before upd_no_reactive_tool_call_before
         upd_no_temporary_message_before new_messages message_updates
         message_deletes message_append_left new_summaries channel_updates_of
         sc_id sc_name sc_channel_type sc_wakeup_url sc_messages sc_summaries
         sc_last_activity sc_max_summary_date sc_no_reactive_tool_call_before
         sc_no_temporary_message_before].
    f_equal.
    + rewrite Hval5, Hval4, Hval3, HL, HN'. reflexivity.
    + destruct (sh_new_messages u) as [|m ms]; [reflexivity|].
      cbn [map]. rewrite (HN m) by apply list_elem_of_here.
      f_equal. rewrite map_map. apply map_ext_in. intros o Ho.
      rewrite HN; [reflexivity|].
      apply list_elem_of_further. now apply list_elem_of_In.
  - intros o Ho. rewrite !not_elem_of_app in Ho. destruct Ho as (HU & HL' & _).
    rewrite (Hobjs4 _ HL'). now apply Hobjs2.
  - cbn [sc_messages]. intros o Ho. rewrite !elem_of_app.
    destruct (Hrefs5 _ Ho) as [H|H]; [|auto].
    destruct (Hrefs4 _ H) as [H'|H']; [|auto].
    apply elem_of_operand_refs, Hrefs3, elem_of_operand_refs in H'.
    destruct (Hrefs2 _ H') as [H''|H'']; auto.
Qed.

(** ** The channel loop on objects and on values *)

Lemma channel_of_copy objs c : channel_of objs (copy_channel c) = c.
Proof.
  destruct c. unfold channel_of, copy_channel. simpl.
  now rewrite values_copied.
Qed.

Lemma channels_of_copy objs (chans : list (string * Channel)) :
  channels_of objs (map (fun kv => (fst kv, copy_channel (snd kv))) chans)
  = chans.
Proof.
  unfold channels_of. rewrite map_map. simpl.
  induction chans as [|[k c] chans IH]; simpl; [reflexivity|].
  now rewrite channel_of_copy, IH.
Qed.

Lemma placed_copy (chans : list (string * Channel)) :
  placed (map (fun kv => (fst kv, copy_channel (snd kv))) chans) = [].
Proof.
  unfold placed. induction chans as [|[k c] chans IH]; simpl; [reflexivity|].
  now rewrite operand_refs_copied, IH.
Qed.

Lemma channels_of_get objs chans (k : string) :
  dict_get k (channels_of objs chans)
  = option_map (channel_of objs) (dict_get k chans).
Proof.
  induction chans as [|[k' c] chans IH]; simpl; [reflexivity|].
  destruct (decide (k = k')); [reflexivity | exact IH].
Qed.

Lemma channels_of_set objs chans (k : string) sc :
  channels_of objs (dict_set k sc chans)
  = dict_set k (channel_of objs sc) (channels_of objs chans).
Proof.
  induction chans as [|[k' c] chans IH]; simpl; [reflexivity|].
  destruct (decide (k = k')); simpl; [reflexivity|].
  f_equal. exact IH.
Qed.

Lemma placed_get chans (k : string) sc o :
  dict_get k chans = Some sc ->
  o ∈ operand_refs (sc_messages sc) -> o ∈ placed chans.
Proof.
  unfold placed. induction chans as [|[k' c] chans IH]; simpl; [discriminate|].
  destruct (decide (k = k')).
  - intros [= ->] Ho. apply elem_of_app. now left.
  - intros Hget Ho. apply elem_of_app. right. now apply IH.
Qed.

Lemma placed_set chans (k : string) sc o :
  o ∈ placed (dict_set k sc chans) ->
  o ∈ placed chans \/ o ∈ operand_refs (sc_messages sc).
Proof.
  unfold placed. induction chans as [|[k' c] chans IH]; simpl.
  - rewrite app_nil_r. now right.
  - destruct (decide (k = k')); simpl; rewrite !elem_of_app.
    + intros [H|H]; auto.
    + intros [H|H]; [auto|]. destruct (IH H); auto.
Qed.

Lemma channels_of_agree (objs objs' : Objects) chans :
  (forall o, o ∈ placed chans -> objs' o = objs o) ->
  channels_of objs' chans = channels_of objs chans.
Proof.
  unfold placed, channels_of.
  induction chans as [|[k c] chans IH]; simpl; intros H; [reflexivity|].
  f_equal.
  - unfold channel_of. f_equal. f_equal. apply values_agree.
    intros o Ho. apply H, elem_of_app. now left.
  - apply IH. intros o Ho. apply H, elem_of_app. now right.
Qed.

Lemma channel_updates_of_agree (objs objs' : Objects) u :
  (forall o, o ∈ diff_objects u -> objs' o = objs o) ->
  channel_updates_of objs' u = channel_updates_of objs u.
Proof.
  unfold diff_objects. intros H. unfold channel_updates_of. f_equal.
  - apply map_ext_in. intros o Ho. apply H. rewrite !elem_of_app.
    right. right. now apply list_elem_of_In.
  - apply map_ext_in. intros [i o] Ho. cbn [fst snd]. f_equal. apply H.
    rewrite !elem_of_app. left. apply list_elem_of_In, in_map_iff.
    now exists (i, o).
  - apply map_ext_in. intros o Ho. apply H. rewrite !elem_of_app.
    right. left. now apply list_elem_of_In.
Qed.

Lemma apply_channel_updates_shared_values clk (objs : Objects) chans current
    entry :
  NoDup (diff_objects (snd entry)) ->
  (forall o, o ∈ diff_objects (snd entry) -> o ∉ placed chans) ->
  match apply_channel_updates clk (history_of objs current chans)
          (fst entry, channel_updates_of objs (snd entry)) with
  | Ok left' =>
      exists objs' chans',
        apply_channel_updates_shared clk (objs, chans) entry
        = Ok (objs', chans')
        /\ history_of objs' current chans' = left'
        /\ (forall o, o ∉ diff_objects (snd entry) -> objs' o = objs o)
        /\ (forall o, o ∈ placed chans' ->
                      o ∈ placed chans \/ o ∈ diff_objects (snd entry))
  | Raise e => apply_channel_updates_shared clk (objs, chans) entry = Raise e
  | OutOfFuel => apply_channel_updates_shared clk (objs, chans) entry = OutOfFuel
  end.
Proof.
  intros Hnd Hfresh. destruct entry as [k u]. cbn [fst snd] in *.
  unfold apply_channel_updates, apply_channel_updates_shared.
  cbn [fst snd channels history_of]. rewrite channels_of_get.
  set (channel := match dict_get k chans with
                  | Some c => c
                  | None => copy_channel (new_Channel clk k k)
                  end).
  assert (Hchannel : match option_map (channel_of objs) (dict_get k chans) with
                     | Some c => c
                     | None => new_Channel clk k k
                     end = channel_of objs channel).
  { subst channel. destruct (dict_get k chans); simpl; [reflexivity|].
    now rewrite channel_of_copy. }
  rewrite Hchannel.
  assert (Hfresh' : forall o, o ∈ diff_objects u ->
                              o ∉ operand_refs (sc_messages channel)).
  { intros o Ho Hin. subst channel.
    destruct (dict_get k chans) as [c|] eqn:Hget.
    - exact (Hfresh o Ho (placed_get _ _ _ _ Hget Hin)).
    - cbn [sc_messages copy_channel] in Hin.
      rewrite operand_refs_copied in Hin. inversion Hin. }
  pose proof (process_channel_shared_values clk k objs channel u Hnd Hfresh')
    as Hstep.
  destruct (process_channel clk k (channel_of objs channel)
              (channel_updates_of objs u)) as [c'|e|]; cbn [bind].
  - destruct Hstep as (objs' & channel' & -> & Hval & Hobjs & Hrefs).
    cbn [bind fst snd]. eexists _, _. split; [reflexivity|].
    split; [|split].
    + unfold history_of, set_channels. cbn [current_channel channels]. f_equal.
      rewrite channels_of_set, Hval. f_equal.
      apply channels_of_agree. intros o Ho. apply Hobjs.
      intros Hin. exact (Hfresh o Hin Ho).
    + exact Hobjs.
    + intros o Ho. apply placed_set in Ho as [Ho|Ho]; [now left|].
      destruct (Hrefs _ Ho) as [Hin|Hin]; [|now right].
      subst channel. destruct (dict_get k chans) as [c|] eqn:Hget.
      * left. exact (placed_get _ _ _ _ Hget Hin).
      * cbn [sc_messages copy_channel] in Hin.
        rewrite operand_refs_copied in Hin. inversion Hin.
  - now rewrite Hstep.
  - now rewrite Hstep.
Qed.

Lemma apply_all_channel_updates_shared_values clk current entries :
  forall (objs : Objects) chans,
    NoDup (entries_objects entries) ->
    (forall o, o ∈ entries_objects entries -> o ∉ placed chans) ->
    match apply_all_channel_updates clk (history_of objs current chans)
            (entries_of objs entries) with
    | Ok left' =>
        exists objs' chans',
          apply_all_channel_updates_shared clk (objs, chans) entries
          = Ok (objs', chans')
          /\ history_of objs' current chans' = left'
    | Raise e =>
        apply_all_channel_updates_shared clk (objs, chans) entries = Raise e
    | OutOfFuel =>
        apply_all_channel_updates_shared clk (objs, chans) entries = OutOfFuel
    end.
Proof.
  induction entries as [|entry entries IH]; intros objs chans Hnd Hfresh.
  - simpl. eauto.
  - unfold entries_objects in Hnd, Hfresh. cbn [flat_map] in Hnd, Hfresh.
    fold (entries_objects entries) in Hnd, Hfresh.
    apply NoDup_app in Hnd as (Hnd1 & Hdis & Hnd2).
    cbn [entries_of map apply_all_channel_updates
         apply_all_channel_updates_shared].
    fold (entries_of objs entries).
    pose proof (apply_channel_updates_shared_values clk objs chans current
                  entry Hnd1) as Hstep.
    destruct (apply_channel_updates clk (history_of objs current chans)
                (fst entry, channel_updates_of objs (snd entry)))
      as [left1|e|]; cbn [bind].
    + destruct Hstep as (objs1 & chans1 & -> & <- & Hobjs & Hrefs).
      { intros o Ho. apply Hfresh, elem_of_app. now left. }
      cbn [bind].
      assert (Hsame : entries_of objs entries = entries_of objs1 entries).
      { unfold entries_of. apply map_ext_in. intros [k u] Hin. cbn [fst snd].
        f_equal. symmetry. apply channel_updates_of_agree.
        intros o Ho. apply Hobjs. intros Hin1. apply (Hdis _ Hin1).
        unfold entries_objects. apply list_elem_of_In, in_flat_map.
        exists (k, u). split; [exact Hin | now apply list_elem_of_In]. }
      rewrite Hsame. apply IH; [exact Hnd2|].
      intros o Ho Hin. destruct (Hrefs _ Hin) as [Hin'|Hin'].
      * revert Hin'. apply Hfresh, elem_of_app. now right.
      * exact (Hdis _ Hin' Ho).
    + rewrite Hstep; [reflexivity|].
      intros o Ho. apply Hfresh, elem_of_app. now left.
    + rewrite Hstep; [reflexivity|].
      intros o Ho. apply Hfresh, elem_of_app. now left.
Qed.

(** The channel loop of [history_reducer_shared], on an operand no object
    of which is referred to twice, is the channel loop of
    [history_reducer] on the values of the operand. *)
Lemma shared_channel_loop_values clk left right :
  distinct_objects right ->
  match apply_all_channel_updates clk left (channel_updates (updates_of right))
  with
  | Ok left1 =>
      exists objs1 chans1,
        apply_all_channel_updates_shared clk
          (objects right,
           map (fun kv => (fst kv, copy_channel (snd kv))) (channels left))
          (sh_channel_updates right)
        = Ok (objs1, chans1)
        /\ history_of objs1 (current_channel left) chans1 = left1
  | Raise e =>
      apply_all_channel_updates_shared clk
        (objects right,
         map (fun kv => (fst kv, copy_channel (snd kv))) (channels left))
        (sh_channel_updates right)
      = Raise e
  | OutOfFuel =>
      apply_all_channel_updates_shared clk
        (objects right,
         map (fun kv => (fst kv, copy_channel (snd kv))) (channels left))
        (sh_channel_updates right)
      = OutOfFuel
  end.
Proof.
  intros Hnd.
  pose proof (apply_all_channel_updates_shared_values clk (current_channel left)
                (sh_channel_updates right) (objects right)
                (map (fun kv => (fst kv, copy_channel (snd kv))) (channels left))
                Hnd) as H.
  unfold history_of in H at 1. rewrite channels_of_copy in H.
  replace {| current_channel := current_channel left;
             channels := channels left |} with left in H
    by now destruct left.
  apply H. intros o _. rewrite placed_copy. intros Hin. inversion Hin.
Qed.

(** ** Where the objects of the operand end up *)

Lemma operand_refs_app a b :
  operand_refs (a ++ b) = operand_refs a ++ operand_refs b.
Proof. unfold operand_refs. apply flat_map_app. Qed.

Lemma operand_refs_cons r refs :
  operand_refs (r :: refs) = operand_refs [r] ++ operand_refs refs.
Proof. exact (operand_refs_app [r] refs). Qed.

Lemma operand_refs_operands news : operand_refs (map Operand news) = news.
Proof. induction news as [|o news IH]; simpl; [reflexivity|]. now rewrite IH. Qed.

Lemma submseteq_NoDup {A : Type} (l k : list A) :
  l ⊆+ k -> NoDup k -> NoDup l.
Proof.
  intros Hsub Hk. apply submseteq_Permutation in Hsub as [k' Hperm].
  rewrite Hperm in Hk. now apply NoDup_app in Hk as [H _].
Qed.

Lemma operand_refs_insert refs (i : nat) o :
  operand_refs (<[i := Operand o]> refs) ⊆+ o :: operand_refs refs.
Proof.
  revert i. induction refs as [|r refs IH]; intros i.
  - destruct i; simpl; apply submseteq_cons; reflexivity.
  - destruct i as [|i].
    + change (<[0%nat := Operand o]> (r :: refs)) with (Operand o :: refs).
      change (operand_refs (Operand o :: refs)) with (o :: operand_refs refs).
      apply submseteq_skip.
      rewrite (operand_refs_cons r (refs)).
      now apply submseteq_inserts_l.
    + change (<[S i := Operand o]> (r :: refs))
        with (r :: <[i := Operand o]> refs).
      rewrite (operand_refs_cons r (<[i := Operand o]> refs)).
      rewrite (operand_refs_cons r (refs)).
      change (o :: operand_refs [r] ++ operand_refs refs)
        with ([o] ++ operand_refs [r] ++ operand_refs refs).
      rewrite (app_assoc [o]), (Permutation_app_comm [o]), <- app_assoc.
      apply submseteq_skips_l. exact (IH i).
Qed.

Lemma operand_refs_delete refs (i : nat) :
  operand_refs (delete i refs) ⊆+ operand_refs refs.
Proof.
  revert i. induction refs as [|r refs IH]; intros i; [destruct i; reflexivity|].
  rewrite (operand_refs_cons r (refs)).
  destruct i as [|i].
  - change (delete 0%nat (r :: refs)) with refs. now apply submseteq_inserts_l.
  - change (delete (S i) (r :: refs)) with (r :: delete i refs).
    rewrite (operand_refs_cons r (delete i refs)).
    apply submseteq_skips_l. exact (IH i).
Qed.

Lemma operand_refs_filter (p : MessageRef -> bool) refs :
  operand_refs (List.filter p refs) ⊆+ operand_refs refs.
Proof.
  induction refs as [|r refs IH]; [reflexivity|].
  rewrite (operand_refs_cons r (refs)).
  cbn [List.filter]. destruct (p r).
  - rewrite (operand_refs_cons r (List.filter p refs)).
    now apply submseteq_skips_l.
  - now apply submseteq_inserts_l.
Qed.

Lemma apply_message_updates_shared_refs channel_id upds :
  forall objs refs objs' refs',
    apply_message_updates_shared channel_id (objs, refs) upds
    = Ok (objs', refs') ->
    operand_refs refs' ⊆+ operand_refs refs ++ map snd upds.
Proof.
  induction upds as [|[i o] upds IH]; intros objs refs objs' refs'.
  - simpl. intros [= <- <-]. now rewrite app_nil_r.
  - cbn [apply_message_updates_shared]. unfold apply_message_update at 1.
    cbn [fst snd].
    destruct (i <? Z.of_nat (length refs)); [|discriminate].
    destruct (py_index refs i) as [n|]; [|discriminate].
    destruct (refs !! n); [|discriminate]. cbn [bind]. intros Hrest.
    apply IH in Hrest. etransitivity; [exact Hrest|].
    cbn [map snd].
    change (operand_refs refs ++ o :: map snd upds)
      with (operand_refs refs ++ [o] ++ map snd upds).
    rewrite app_assoc. apply submseteq_skips_r.
    rewrite (Permutation_app_comm _ [o]). apply operand_refs_insert.
Qed.

Lemma delete_messages_refs indices :
  forall refs refs',
    delete_messages refs indices = Ok refs' ->
    operand_refs refs' ⊆+ operand_refs refs.
Proof.
  induction indices as [|i indices IH]; intros refs refs';
    cbn [delete_messages].
  - now intros [= <-].
  - unfold delete_message at 1.
    destruct (i <? Z.of_nat (length refs)).
    + destruct (py_index refs i) as [n|]; [|discriminate]. cbn [bind].
      intros Hrest. etransitivity; [exact (IH _ _ Hrest)|].
      apply operand_refs_delete.
    + cbn [bind]. apply IH.
Qed.

Lemma fold_append_left_refs news :
  forall objs refs,
    operand_refs (snd (fold_left append_left news (objs, refs)))
    ≡ₚ operand_refs refs ++ news.
Proof.
  induction news as [|o news IH]; intros objs refs.
  - simpl. now rewrite app_nil_r.
  - cbn [fold_left]. unfold append_left at 2. cbn [fst snd].
    rewrite IH.
    change (operand_refs (Operand o :: refs)) with ([o] ++ operand_refs refs).
    change (o :: news) with ([o] ++ news).
    rewrite (Permutation_app_comm [o]), <- app_assoc. reflexivity.
Qed.

Lemma add_new_messages_shared_refs objs refs news :
  operand_refs (add_new_messages_shared objs refs news)
  ≡ₚ operand_refs refs ++ news.
Proof.
  unfold add_new_messages_shared.
  destruct (fold_append_new_shared_values objs news refs false) as [_ Hfst].
  destruct (fold_left (append_new_shared objs) news (refs, false))
    as [refs' flag].
  cbn [fst snd] in *. subst refs'.
  assert (H : operand_refs (refs ++ map Operand news)
              = operand_refs refs ++ news)
    by now rewrite operand_refs_app, operand_refs_operands.
  destruct flag; [|now rewrite H].
  rewrite <- H. unfold operand_refs.
  apply Permutation_flat_map, py_sort_perm.
Qed.

Lemma process_channel_shared_refs clk channel_id objs channel u objs' channel' :
  process_channel_shared clk channel_id (objs, channel) u
  = Ok (objs', channel') ->
  operand_refs (sc_messages channel')
  ⊆+ operand_refs (sc_messages channel) ++ diff_objects u.
Proof.
  unfold process_channel_shared. cbn [fst snd].
  destruct (apply_message_updates_shared channel_id (objs, sc_messages channel)
              (sh_message_updates u)) as [[objs2 refs2]| |] eqn:H2;
    cbn [bind fst snd]; try discriminate.
  destruct (delete_messages refs2 (sorted_reverse (sh_message_deletes u)))
    as [refs3| |] eqn:H3; cbn [bind]; try discriminate.
  intros [= _ <-]. cbn [sc_messages].
  rewrite add_new_messages_shared_refs, fold_append_left_refs.
  unfold diff_objects. rewrite !app_assoc. do 2 apply submseteq_skips_r.
  apply apply_message_updates_shared_refs in H2.
  apply delete_messages_refs in H3.
  etransitivity; [|exact H2]. etransitivity; [|exact H3].
  destruct (sh_delete_before u); [apply operand_refs_filter | reflexivity].
Qed.

Lemma placed_set_refs chans (k : string) channel' refs (objects_in : list nat) :
  match dict_get k chans with
  | Some channel => operand_refs (sc_messages channel)
  | None => []
  end = refs ->
  operand_refs (sc_messages channel') ⊆+ refs ++ objects_in ->
  placed (dict_set k channel' chans) ⊆+ placed chans ++ objects_in.
Proof.
  unfold placed. revert refs.
  induction chans as [|[k' c] chans IH]; intros refs Hrefs Hsub; simpl in *.
  - subst refs. now rewrite app_nil_r.
  - destruct (decide (k = k')); simpl.
    + subst refs. rewrite <- app_assoc.
      rewrite (Permutation_app_comm (flat_map _ chans) objects_in), app_assoc.
      now apply submseteq_skips_r.
    + rewrite <- app_assoc. apply submseteq_skips_l. eapply IH; eauto.
Qed.

Lemma apply_all_channel_updates_shared_refs clk entries :
  forall objs chans objs' chans',
    apply_all_channel_updates_shared clk (objs, chans) entries
    = Ok (objs', chans') ->
    placed chans' ⊆+ placed chans ++ entries_objects entries.
Proof.
  induction entries as [|[k u] entries IH]; intros objs chans objs' chans'.
  - simpl. intros [= <- <-]. now rewrite app_nil_r.
  - cbn [apply_all_channel_updates_shared].
    unfold apply_channel_updates_shared at 1. cbn [fst snd].
    destruct (process_channel_shared clk k _ u) as [[objs1 channel1]| |] eqn:H1;
      cbn [bind fst snd]; try discriminate.
    intros Hrest. apply IH in Hrest. etransitivity; [exact Hrest|].
    unfold entries_objects. cbn [flat_map snd].
    rewrite app_assoc. apply submseteq_skips_r.
    apply process_channel_shared_refs in H1.
    eapply placed_set_refs; [reflexivity|].
    destruct (dict_get k chans); [exact H1|].
    cbn [sc_messages copy_channel] in H1.
    now rewrite operand_refs_copied in H1.
Qed.

(** ** Tool updates on objects and on values *)

Lemma values_write objs refs (idx : nat) o m :
  NoDup (operand_refs refs) ->
  refs !! idx = Some (Operand o) ->
  map (value (write objs o m)) refs = <[idx := m]> (map (value objs) refs).
Proof.
  revert idx. induction refs as [|r refs IH]; intros idx Hnd Hidx;
    [discriminate|].
  rewrite operand_refs_cons in Hnd. apply NoDup_app in Hnd as (_ & Hdis & Hnd).
  destruct idx as [|idx]; simpl in Hidx.
  - injection Hidx as ->. cbn [map value]. rewrite write_same.
    change (<[0%nat := m]> (objs o :: map (value objs) refs))
      with (m :: map (value objs) refs).
    f_equal. apply values_agree. intros o' Ho'. apply write_other. intros ->.
    apply (Hdis o); [apply list_elem_of_here | exact Ho'].
  - cbn [map].
    change (<[S idx := m]> (value objs r :: map (value objs) refs))
      with (value objs r :: <[idx := m]> (map (value objs) refs)).
    f_equal; [|now apply IH].
    destruct r as [m'|o']; [reflexivity|]. cbn [value]. apply write_other.
    intros ->. apply (Hdis o); [apply list_elem_of_here|].
    apply elem_of_operand_refs. eapply list_elem_of_lookup_2; eauto.
Qed.

Lemma operand_refs_insert_copied refs (idx : nat) m m' :
  refs !! idx = Some (Copied m) ->
  operand_refs (<[idx := Copied m']> refs) = operand_refs refs.
Proof.
  revert idx. induction refs as [|r refs IH]; intros idx Hidx; [discriminate|].
  destruct idx as [|idx]; simpl in Hidx.
  - injection Hidx as ->. reflexivity.
  - change (<[S idx := Copied m']> (r :: refs))
      with (r :: <[idx := Copied m']> refs).
    rewrite (operand_refs_cons r (<[idx := Copied m']> refs)),
      (operand_refs_cons r refs).
    now rewrite (IH idx).
Qed.

Lemma placed_NoDup_get chans (k : string) c :
  NoDup (placed chans) -> dict_get k chans = Some c ->
  NoDup (operand_refs (sc_messages c)).
Proof.
  unfold placed. induction chans as [|[k' c'] chans IH]; simpl; [discriminate|].
  intros Hnd Hget. apply NoDup_app in Hnd as (Hc' & _ & Hnd).
  destruct (decide (k = k')); [now injection Hget as <- | auto].
Qed.

Lemma channels_of_write_set objs chans (k : string) c o m x :
  NoDup (placed chans) ->
  dict_get k chans = Some c ->
  o ∈ operand_refs (sc_messages c) ->
  dict_set k x (channels_of (write objs o m) chans)
  = dict_set k x (channels_of objs chans).
Proof.
  induction chans as [|[k' c'] chans IH]; [discriminate|].
  change (placed ((k', c') :: chans))
    with (operand_refs (sc_messages c') ++ placed chans).
  simpl. intros Hnd Hget Ho. apply NoDup_app in Hnd as (_ & Hdis & Hnd).
  destruct (decide (k = k')) as [->|Hne].
  - injection Hget as ->. f_equal. apply channels_of_agree.
    intros o' Ho'. apply write_other. intros ->. exact (Hdis _ Ho Ho').
  - f_equal; [|now apply IH].
    f_equal. unfold channel_of. f_equal. apply values_agree.
    intros o' Ho'. apply write_other. intros ->.
    exact (Hdis _ Ho' (placed_get _ _ _ _ Hget Ho)).
Qed.

Lemma placed_set_same chans (k : string) c c' :
  dict_get k chans = Some c ->
  operand_refs (sc_messages c') = operand_refs (sc_messages c) ->
  placed (dict_set k c' chans) = placed chans.
Proof.
  unfold placed. induction chans as [|[k' c0] chans IH]; simpl; [discriminate|].
  intros Hget Hsame. destruct (decide (k = k')); simpl.
  - injection Hget as ->. now rewrite Hsame.
  - f_equal. now apply IH.
Qed.

Lemma apply_tool_update_shared_values clk positions n objs chans current tu :
  NoDup (placed chans) ->
  match apply_tool_update clk positions n (history_of objs current chans) tu
  with
  | Ok h' =>
      exists objs' chans',
        apply_tool_update_shared clk positions n (objs, chans) tu
        = Ok (objs', chans')
        /\ history_of objs' current chans' = h'
        /\ placed chans' = placed chans
  | Raise e =>
      apply_tool_update_shared clk positions n (objs, chans) tu = Raise e
  | OutOfFuel =>
      apply_tool_update_shared clk positions n (objs, chans) tu = OutOfFuel
  end.
Proof.
  intros Hnd. unfold apply_tool_update, apply_tool_update_shared.
  cbn [fst snd channels history_of].
  destruct (dict_get (tool_call_id tu) positions) as [[[cid idx]|]|];
    [| |reflexivity].
  2: { eexists _, _. split; [reflexivity|]. split; reflexivity. }
  rewrite channels_of_get.
  destruct (dict_get cid chans) as [c|] eqn:Hc; cbn [option_map];
    [|reflexivity].
  cbn [messages channel_of]. rewrite lookup_map_list.
  destruct (sc_messages c !! idx) as [r|] eqn:Hidx; cbn [option_map];
    [|reflexivity].
  destruct (value objs r) as [hm|a|sm] eqn:Hr; try reflexivity.
  destruct (dict_get (tool_call_id tu) (internal_tool_messages a)) as [tm|];
    [|reflexivity].
  set (message' := AI (set_tool_message a (tool_call_id tu)
                         (set_status tm (internal_status tu)
                            (if truthy (content tu) then content tu else None)))).
  set (objs1 := match r with
                | Copied _ => objs
                | Operand o => write objs o message'
                end).
  set (refs1 := match r with
                | Copied _ => <[idx := Copied message']> (sc_messages c)
                | Operand _ => sc_messages c
                end).
  assert (Hvalues : map (value objs1) refs1
                    = <[idx := message']> (map (value objs) (sc_messages c))).
  { subst objs1 refs1. destruct r as [m|o].
    - now rewrite map_list_insert.
    - apply values_write; [|exact Hidx].
      eapply placed_NoDup_get; eauto. }
  assert (Hlen : length refs1 = length (sc_messages c)).
  { subst refs1. destruct r; [apply length_insert | reflexivity]. }
  assert (Hrefs : operand_refs refs1 = operand_refs (sc_messages c)).
  { subst refs1. destruct r as [m|o]; [|reflexivity].
    eapply operand_refs_insert_copied; eauto. }
  assert (Hothers : forall x,
             dict_set cid x (channels_of objs1 chans)
             = dict_set cid x (channels_of objs chans)).
  { intros x. subst objs1. destruct r as [m|o]; [reflexivity|].
    eapply channels_of_write_set; eauto.
    apply elem_of_operand_refs. eapply list_elem_of_lookup_2; eauto. }
  rewrite length_insert, length_map, Hlen.
  eexists _, _. split; [reflexivity|]. split.
  - unfold history_of, set_channels. cbn [current_channel channels]. f_equal.
    rewrite channels_of_set, Hothers. f_equal.
    unfold channel_of, set_messages, set_refs.
    cbn [sc_id sc_name sc_channel_type sc_wakeup_url sc_messages sc_summaries
         sc_last_activity sc_max_summary_date sc_no_reactive_tool_call_before
         sc_no_temporary_message_before ch_id ch_name channel_type wakeup_url
         messages summaries last_activity max_summary_date
         no_reactive_tool_call_before no_temporary_message_before].
    f_equal.
    destruct (Z.of_nat idx <? Z.of_nat (length (sc_messages c)) - 1).
    + rewrite map_app, Hvalues. reflexivity.
    + exact Hvalues.
  - eapply placed_set_same; [exact Hc|]. cbn [sc_messages set_refs].
    destruct (Z.of_nat idx <? Z.of_nat (length (sc_messages c)) - 1);
      [|exact Hrefs].
    rewrite operand_refs_app, Hrefs. simpl. now rewrite app_nil_r.
Qed.

Lemma apply_tool_updates_shared_values clk positions current tus :
  forall n objs chans,
    NoDup (placed chans) ->
    match apply_tool_updates clk positions n (history_of objs current chans) tus
    with
    | Ok h' =>
        exists objs' chans',
          apply_tool_updates_shared clk positions n (objs, chans) tus
          = Ok (objs', chans')
          /\ history_of objs' current chans' = h'
    | Raise e =>
        apply_tool_updates_shared clk positions n (objs, chans) tus = Raise e
    | OutOfFuel =>
        apply_tool_updates_shared clk positions n (objs, chans) tus = OutOfFuel
    end.
Proof.
  induction tus as [|tu tus IH]; intros n objs chans Hnd.
  - simpl. eauto.
  - cbn [apply_tool_updates apply_tool_updates_shared].
    pose proof (apply_tool_update_shared_values clk positions n objs chans
                  current tu Hnd) as Hstep.
    destruct (apply_tool_update clk positions n (history_of objs current chans)
                tu) as [h1|e|]; cbn [bind].
    + destruct Hstep as (objs1 & chans1 & -> & <- & Hplaced). cbn [bind].
      apply IH. now rewrite Hplaced.
    + now rewrite Hstep.
    + now rewrite Hstep.
Qed.

(** The reducer on an operand no object of which is referred to twice is
    the reducer on the values of the operand: [Updates] stands for the
    operands in which every message is an object of its own. *)
Lemma history_reducer_shared_values clk fuel left right :
  distinct_objects right ->
  history_reducer_shared clk fuel left right
  = history_reducer clk fuel left (Updates (updates_of right)).
Proof.
  intros Hdistinct. cbn [history_reducer].
  unfold history_reducer_shared, apply_internal_updates.
  pose proof (shared_channel_loop_values clk left right Hdistinct) as Hloop.
  destruct (apply_all_channel_updates clk left
              (channel_updates (updates_of right))) as [left1|e|] eqn:Hvalues;
    cbn [bind].
  2: { now rewrite Hloop. }
  2: { now rewrite Hloop. }
  destruct Hloop as (objs1 & chans1 & Hrun & Hleft1).
  rewrite Hrun. cbn [bind fst snd].
  assert (Hnd : NoDup (placed chans1)).
  { apply apply_all_channel_updates_shared_refs in Hrun.
    rewrite placed_copy in Hrun. exact (submseteq_NoDup _ _ Hrun Hdistinct). }
  cbn [upd_current_channel tool_updates updates_of].
  assert (Hleft2 : {| current_channel :=
                        or_else (sh_current_channel right)
                                (current_channel left1);
                      channels := channels left1 |}
                   = history_of objs1
                       (or_else (sh_current_channel right)
                                (current_channel left))
                       chans1).
  { rewrite <- Hleft1. reflexivity. }
  rewrite Hleft2.
  destruct (sh_tool_updates right) as [|tu tus]; [reflexivity|].
  destruct (locate_tool_calls _ _ _ _) as [positions| |]; cbn [bind];
    try reflexivity.
  pose proof (apply_tool_updates_shared_values clk positions
                (or_else (sh_current_channel right) (current_channel left))
                (tu :: tus) 0%nat objs1 chans1 Hnd) as Htools.
  destruct (apply_tool_updates clk positions 0
              (history_of objs1 _ chans1) (tu :: tus)) as [h'|e|].
  - destruct Htools as (objs2 & chans2 & -> & <-). reflexivity.
  - now rewrite Htools.
  - now rewrite Htools.
Qed.

(** ** An operand given by its values *)

Lemma map_snd_combine {A B : Type} (l : list A) (l' : list B) :
  length l = length l' -> map snd (combine l l') = l'.
Proof.
  revert l'. induction l as [|x l IH]; intros [|y l']; simpl; try discriminate;
    [reflexivity|].
  intros [= H]. now rewrite IH.
Qed.

Lemma read_objects_seq (d : StructuredMessage) l :
  forall pre post,
    map (fun o => default d ((pre ++ l ++ post) !! o))
        (seq (length pre) (length l))
    = l.
Proof.
  induction l as [|x l IH]; intros pre post; [reflexivity|].
  cbn [length seq map]. f_equal.
  - rewrite lookup_app_r by lia. now rewrite Nat.sub_diag.
  - specialize (IH (pre ++ [x]) post).
    rewrite length_app, Nat.add_1_r, <- app_assoc in IH. exact IH.
Qed.

Lemma read_updates_seq (d : StructuredMessage) (upds : list (Z * StructuredMessage)) :
  forall pre post,
    map (fun kv => (fst kv, default d ((pre ++ map snd upds ++ post) !! snd kv)))
        (combine (map fst upds) (seq (length pre) (length upds)))
    = upds.
Proof.
  induction upds as [|[i m] upds IH]; intros pre post; [reflexivity|].
  cbn [length seq map combine fst snd]. f_equal.
  - f_equal. rewrite lookup_app_r by lia. now rewrite Nat.sub_diag.
  - specialize (IH (pre ++ [m]) post).
    rewrite length_app, Nat.add_1_r, <- app_assoc in IH. exact IH.
Qed.

Lemma diff_objects_name n u :
  diff_objects (name_objects n u) = seq n (length (diff_messages u)).
Proof.
  unfold diff_objects, name_objects, diff_messages.
  cbn [sh_message_updates sh_message_append_left sh_new_messages].
  rewrite map_snd_combine by now rewrite length_map, length_seq.
  rewrite !length_app, length_map, !seq_app. reflexivity.
Qed.

Lemma entries_objects_name entries :
  forall n,
    entries_objects (name_entries n entries)
    = seq n (length (flat_map (fun kv => diff_messages (snd kv)) entries)).
Proof.
  unfold entries_objects.
  induction entries as [|[k u] entries IH]; intros n; [reflexivity|].
  cbn [name_entries flat_map fst snd].
  rewrite diff_objects_name, IH, length_app, seq_app. reflexivity.
Qed.

Lemma channel_updates_of_name d u pre post :
  channel_updates_of
    (fun o => default d ((pre ++ diff_messages u ++ post) !! o))
    (name_objects (length pre) u)
  = u.
Proof.
  destruct u as [name type url before reactive temporary news upds deletes
                 lefts sums].
  unfold channel_updates_of, name_objects, diff_messages.
  cbn [sh_name sh_channel_type sh_wakeup_url sh_delete_before
       sh_no_reactive_tool_call_before sh_no_temporary_message_before
       sh_new_messages sh_message_updates sh_message_deletes
       sh_message_append_left sh_new_summaries upd_name upd_channel_type
       upd_wakeup_url delete_before upd_no_reactive_tool_call_before
       upd_no_temporary_message_before new_messages message_updates
       message_deletes message_append_left new_summaries].
  f_equal.
  - pose proof (read_objects_seq d news (pre ++ map snd upds ++ lefts) post)
      as H.
    rewrite !length_app, length_map, Nat.add_assoc in H.
    rewrite <- !app_assoc in H. rewrite <- !app_assoc. exact H.
  - rewrite <- !app_assoc. apply read_updates_seq.
  - pose proof (read_objects_seq d lefts (pre ++ map snd upds) (news ++ post))
      as H.
    rewrite !length_app, length_map in H.
    rewrite <- !app_assoc in H. rewrite <- !app_assoc. exact H.
Qed.

Lemma entries_of_name d entries :
  forall pre,
    entries_of
      (fun o =>
         default d
           ((pre ++ flat_map (fun kv => diff_messages (snd kv)) entries) !! o))
      (name_entries (length pre) entries)
    = entries.
Proof.
  induction entries as [|[k u] entries IH]; intros pre; [reflexivity|].
  cbn [name_entries flat_map fst snd entries_of map]. f_equal.
  - f_equal. apply channel_updates_of_name.
  - specialize (IH (pre ++ diff_messages u)).
    rewrite length_app, <- app_assoc in IH. exact IH.
Qed.

Lemma own_objects_distinct u : distinct_objects (own_objects u).
Proof.
  unfold distinct_objects, own_objects. cbn [sh_channel_updates].
  rewrite entries_objects_name. apply NoDup_seq.
Qed.

Lemma updates_of_own_objects u : updates_of (own_objects u) = u.
Proof.
  destruct u as [entries current tus].
  unfold updates_of, own_objects.
  cbn [objects sh_channel_updates sh_current_channel sh_tool_updates
       channel_updates upd_current_channel tool_updates].
  f_equal. exact (entries_of_name _ entries []).
Qed.

(** The reducer on an [InternalUpdates] given by its values is the reducer
    on the operand in which every one of these messages is an object of
    its own. *)
Lemma history_reducer_own_objects clk fuel left u :
  history_reducer clk fuel left (Updates u)
  = history_reducer_shared clk fuel left (own_objects u).
Proof.
  rewrite (history_reducer_shared_values clk fuel left (own_objects u)
             (own_objects_distinct u)).
  now rewrite updates_of_own_objects.
Qed.


(** With an object for each entry, the channel stays sorted. *)
Example distinct_message_updates_sorted :
  exists left',
    history_reducer_shared clock0 0 three_messages two_objects = Ok left'
    /\ map (fun kv => map date (messages (snd kv))) (channels left')
       = [[10; 20; 30]].
Proof. eexists. split; [vm_compute; reflexivity | reflexivity]. Qed.



(** ** Failures of the channel loop *)

Lemma apply_message_update_value_outcome channel_id msgs upd :
  index_failure (apply_message_update_value channel_id msgs upd).
Proof.
  rewrite apply_message_update_value_eq.
  destruct (fst upd <? Z.of_nat (length msgs)); simpl; auto.
  destruct (py_index msgs (fst upd)); simpl; auto.
  destruct (msgs !! n); simpl; auto.
Qed.

Lemma apply_message_updates_outcome channel_id upds msgs :
  index_failure (apply_message_updates channel_id msgs upds).
Proof.
  revert msgs. induction upds as [|u upds IH]; intros msgs; simpl; auto.
  pose proof (apply_message_update_value_outcome channel_id msgs u) as H.
  destruct (apply_message_update_value channel_id msgs u); simpl; auto.
Qed.

Lemma delete_messages_outcome indices (msgs : list StructuredMessage) :
  index_failure (delete_messages msgs indices).
Proof.
  revert msgs. induction indices as [|i indices IH]; intros msgs; simpl; auto.
  unfold delete_message.
  destruct (i <? Z.of_nat (length msgs)); simpl; auto.
  destruct (py_index msgs i); simpl; auto.
Qed.

Lemma process_channel_outcome clk channel_id channel u :
  index_failure (process_channel clk channel_id channel u).
Proof.
  unfold process_channel.
  pose proof (apply_message_updates_outcome channel_id (message_updates u)
                (messages channel)) as H2.
  destruct (apply_message_updates _ _ _) as [msgs2| |]; simpl; auto.
  pose proof (delete_messages_outcome (sorted_reverse (message_deletes u))
                msgs2) as H3.
  destruct (delete_messages _ _); simpl; auto.
Qed.

Lemma apply_all_channel_updates_outcome clk entries left :
  index_failure (apply_all_channel_updates clk left entries).
Proof.
  revert left. induction entries as [|e entries IH]; intros left; simpl; auto.
  unfold apply_channel_updates.
  pose proof (process_channel_outcome clk (fst e)
                (match dict_get (fst e) (channels left) with
                 | Some c => c
                 | None => new_Channel clk (fst e) (fst e)
                 end) (snd e)) as H.
  destruct (process_channel _ _ _ _); simpl; auto.
Qed.



(** ** The stored history is not written *)




Example out_of_bounds_update_error :
  fst (apply_internal_updates_obj clock0 0%nat {[ 0%nat := s2_history ]} 0%nat
         (channel_diffs [("c1", only_message_updates [(2, human_at "x" 5)])]))
  = Raise (ValueError_out_of_bounds 2 "c1" 2).
Proof. vm_compute. reflexivity. Qed.

(** ** Updates of disjoint channels *)

(** The channel loop reads and writes the channels of its entries only. *)
Lemma apply_all_channel_updates_agree clk entries a b :
  agree_on (dict_keys entries) a b ->
  match apply_all_channel_updates clk a entries,
        apply_all_channel_updates clk b entries with
  | Ok a', Ok b' => agree_on (dict_keys entries) a' b'
  | Raise e, Raise e' => e = e'
  | _, _ => False
  end.
Proof.
  revert a b. induction entries as [|[cid u] entries IH]; intros a b Hag.
  - simpl. exact Hag.
  - simpl. unfold apply_channel_updates. simpl.
    rewrite <- (Hag cid) by now left.
    pose proof (process_channel_outcome clk cid
                  (match dict_get cid (channels a) with
                   | Some c => c
                   | None => new_Channel clk cid cid
                   end) u) as Hout.
    destruct (process_channel _ _ _ _) as [c|e|]; simpl in *;
      [|reflexivity|contradiction].
    set (a1 := set_channels a (dict_set cid c (channels a))).
    set (b1 := set_channels b (dict_set cid c (channels b))).
    assert (Hag1 : agree_on (cid :: dict_keys entries) a1 b1).
    { intros k Hk. subst a1 b1. simpl. rewrite !dict_get_set.
      destruct (decide (cid = k)); [reflexivity|]. now apply Hag. }
    assert (Hrest : agree_on (dict_keys entries) a1 b1)
      by (intros k Hk; apply Hag1; now right).
    specialize (IH a1 b1 Hrest).
    destruct (apply_all_channel_updates clk a1 entries) as [a'| |] eqn:Ha;
      destruct (apply_all_channel_updates clk b1 entries) as [b'| |] eqn:Hb;
      try exact IH.
    intros k [<-|Hk]; [|now apply IH].
    destruct (in_dec string_dec cid (dict_keys entries)) as [Hi|Hn];
      [now apply IH|].
    rewrite (apply_all_channel_updates_frame _ _ _ _ _ Ha Hn).
    rewrite (apply_all_channel_updates_frame _ _ _ _ _ Hb Hn).
    apply Hag1. now left.
Qed.

(** An [InternalUpdates] without tool updates, applied by the reducer. *)
Lemma apply_internal_updates_no_tools clk fuel left u :
  tool_updates u = [] ->
  apply_internal_updates clk fuel left u
  = (do left1 <- apply_all_channel_updates clk left (channel_updates u);
     Ok {| current_channel :=
             or_else (upd_current_channel u) (current_channel left1);
           channels := channels left1 |}).
Proof.
  intros Ht. unfold apply_internal_updates. now rewrite Ht.
Qed.

(** Two [InternalUpdates] that touch disjoint sets of channels, carry no
    tool updates and of which at most one sets the current channel,
    applied one after the other in either order, end alike when each keeps
    its clock readings in both orders: both orders return, with equal
    histories, or both orders raise. *)
Lemma disjoint_updates_commute_readings :
  forall clk1 clk2 fuel left u1 u2,
    disjoint_updates u1 u2 ->
    tool_updates u1 = [] ->
    tool_updates u2 = [] ->
    upd_current_channel u1 = None \/ upd_current_channel u2 = None ->
    same_outcome
      (do h <- history_reducer clk1 fuel left (Updates u1);
       history_reducer clk2 fuel h (Updates u2))
      (do h <- history_reducer clk2 fuel left (Updates u2);
       history_reducer clk1 fuel h (Updates u1)).
Proof.
  intros clk1 clk2 fuel left u1 u2 Hdis Ht1 Ht2 Hcur.
  assert (Hdis' : forall k, In k (touched u2) -> ~ In k (touched u1))
    by (intros k H2 H1; exact (Hdis k H1 H2)).
  pose proof (apply_all_channel_updates_outcome clk1 (channel_updates u1) left)
    as Hout1.
  pose proof (apply_all_channel_updates_outcome clk2 (channel_updates u2) left)
    as Hout2.
  destruct (apply_all_channel_updates clk1 left (channel_updates u1))
    as [l1|e1|] eqn:H1; [|clear Hout1|contradiction];
  destruct (apply_all_channel_updates clk2 left (channel_updates u2))
    as [l2|e2|] eqn:H2; try contradiction; clear Hout2.
  all: cbn [history_reducer].
  all: rewrite (apply_internal_updates_no_tools clk1 fuel left u1 Ht1),
         (apply_internal_updates_no_tools clk2 fuel left u2 Ht2), H1, H2.
  all: cbn [bind].
  all: rewrite ?(apply_internal_updates_no_tools clk2 fuel _ u2 Ht2),
         ?(apply_internal_updates_no_tools clk1 fuel _ u1 Ht1).
  - (* both channel loops succeed on [left] *)
    set (l1' := {| current_channel := _; channels := channels l1 |}).
    set (l2' := {| current_channel := _; channels := channels l2 |}).
    assert (Hag12 : agree_on (touched u2) l1' left).
    { intros k Hk. subst l1'. simpl.
      eapply apply_all_channel_updates_frame; eauto. }
    assert (Hag21 : agree_on (touched u1) l2' left).
    { intros k Hk. subst l2'. simpl.
      eapply apply_all_channel_updates_frame; eauto. }
    pose proof (apply_all_channel_updates_agree clk2 _ _ _ Hag12) as A2.
    pose proof (apply_all_channel_updates_agree clk1 _ _ _ Hag21) as A1.
    rewrite H2 in A2. rewrite H1 in A1.
    destruct (apply_all_channel_updates clk2 l1' (channel_updates u2))
      as [l12| |] eqn:H12; try contradiction.
    destruct (apply_all_channel_updates clk1 l2' (channel_updates u1))
      as [l21| |] eqn:H21; try contradiction.
    unfold same_outcome, bind, history_eq. simpl. split.
    + rewrite (apply_all_channel_updates_current _ _ _ _ H12).
      rewrite (apply_all_channel_updates_current _ _ _ _ H21).
      subst l1' l2'. simpl.
      rewrite (apply_all_channel_updates_current _ _ _ _ H1).
      rewrite (apply_all_channel_updates_current _ _ _ _ H2).
      destruct Hcur as [-> | ->]; simpl;
        [destruct (upd_current_channel u2) | destruct (upd_current_channel u1)];
        reflexivity.
    + intros k.
      destruct (in_dec string_dec k (touched u1)) as [K1|K1];
        destruct (in_dec string_dec k (touched u2)) as [K2|K2].
      * exfalso. exact (Hdis k K1 K2).
      * rewrite (apply_all_channel_updates_frame _ _ _ _ _ H12 K2).
        rewrite (A1 k K1). reflexivity.
      * rewrite (apply_all_channel_updates_frame _ _ _ _ _ H21 K1).
        rewrite (A2 k K2). reflexivity.
      * rewrite (apply_all_channel_updates_frame _ _ _ _ _ H12 K2).
        rewrite (apply_all_channel_updates_frame _ _ _ _ _ H21 K1).
        subst l1' l2'. simpl.
        rewrite (apply_all_channel_updates_frame _ _ _ _ _ H1 K1).
        rewrite (apply_all_channel_updates_frame _ _ _ _ _ H2 K2).
        reflexivity.
  - (* [u2] fails on [left] *)
    set (l1' := {| current_channel := _; channels := channels l1 |}).
    assert (Hag12 : agree_on (touched u2) l1' left).
    { intros k Hk. subst l1'. simpl.
      eapply apply_all_channel_updates_frame; eauto. }
    pose proof (apply_all_channel_updates_agree clk2 _ _ _ Hag12) as A2.
    rewrite H2 in A2.
    destruct (apply_all_channel_updates clk2 l1' (channel_updates u2));
      try contradiction. exact I.
  - (* [u1] fails on [left] *)
    set (l2' := {| current_channel := _; channels := channels l2 |}).
    assert (Hag21 : agree_on (touched u1) l2' left).
    { intros k Hk. subst l2'. simpl.
      eapply apply_all_channel_updates_frame; eauto. }
    pose proof (apply_all_channel_updates_agree clk1 _ _ _ Hag21) as A1.
    rewrite H1 in A1.
    destruct (apply_all_channel_updates clk1 l2' (channel_updates u1));
      try contradiction. exact I.
  - exact I.
Qed.

(** C6, as stated, fails: the clock is read when the reducer is called,
    so a channel that an update creates gets the time of the call that
    applies it, the first call in one order and the second in the other.
    Here [c2] is created by the second update: its [max_summary_date] is
    the second call's reading (7) in one order and the first call's (0) in
    the other. *)
Lemma disjoint_updates_order_matters :
  disjoint_updates s2_updates c2_updates
  /\ tool_updates s2_updates = []
  /\ tool_updates c2_updates = []
  /\ (upd_current_channel s2_updates = None
      \/ upd_current_channel c2_updates = None)
  /\ ~ same_outcome
         (do h <- history_reducer clock0 0 s2_history (Updates s2_updates);
          history_reducer clock7 0 h (Updates c2_updates))
         (do h <- history_reducer clock0 0 s2_history (Updates c2_updates);
          history_reducer clock7 0 h (Updates s2_updates)).
Proof.
  split.
  { intros k H1 H2. simpl in H1, H2.
    destruct H1 as [<-|[]]. destruct H2 as [H2|[]]. discriminate. }
  split; [reflexivity|]. split; [reflexivity|]. split; [now left|].
  intros [_ H]. specialize (H "c2"). vm_compute in H. discriminate.
Qed.

(** The dates of [c2] in the two orders. *)
Example disjoint_updates_order_dates :
  exists h12 h21 c c',
    (do h <- history_reducer clock0 0 s2_history (Updates s2_updates);
     history_reducer clock7 0 h (Updates c2_updates)) = Ok h12
    /\ (do h <- history_reducer clock0 0 s2_history (Updates c2_updates);
        history_reducer clock7 0 h (Updates s2_updates)) = Ok h21
    /\ dict_get "c2" (channels h12) = Some c
    /\ dict_get "c2" (channels h21) = Some c'
    /\ max_summary_date c = 7
    /\ max_summary_date c' = 0.
Proof.
  eexists _, _, _, _.
  split; [vm_compute; reflexivity|]. split; [vm_compute; reflexivity|].
  split; [reflexivity|]. split; [reflexivity|]. split; reflexivity.
Qed.

(** ** Calls that read no clock *)

Lemma process_channel_no_clock clk clk' channel_id channel u :
  delete_before u = None ->
  process_channel clk channel_id channel u
  = process_channel clk' channel_id channel u.
Proof. intros H. unfold process_channel. now rewrite H. Qed.

Lemma apply_all_channel_updates_no_clock clk clk' entries :
  forall left,
    Forall (fun entry =>
              dict_get (fst entry) (channels left) <> None
              /\ delete_before (snd entry) = None) entries ->
    apply_all_channel_updates clk left entries
    = apply_all_channel_updates clk' left entries.
Proof.
  induction entries as [|e entries IH]; intros left Hall; [reflexivity|].
  apply Forall_cons in Hall as [[Hin Hdel] Hall].
  cbn [apply_all_channel_updates]. unfold apply_channel_updates.
  destruct (dict_get (fst e) (channels left)) as [c|] eqn:Hc; [|congruence].
  rewrite (process_channel_no_clock clk clk' (fst e) c (snd e) Hdel).
  destruct (process_channel clk' (fst e) c (snd e)) as [c'| |];
    cbn [bind]; try reflexivity.
  apply IH. eapply Forall_impl; [exact Hall|].
  intros entry [Hk Hd]. split; [|exact Hd].
  cbn [channels set_channels]. rewrite dict_get_set.
  destruct (decide (fst e = fst entry)); [discriminate | exact Hk].
Qed.

Lemma history_reducer_no_clock clk clk' fuel left u :
  tool_updates u = [] ->
  reads_no_clock left u ->
  history_reducer clk fuel left (Updates u)
  = history_reducer clk' fuel left (Updates u).
Proof.
  intros Ht Hno. cbn [history_reducer].
  rewrite !apply_internal_updates_no_tools by exact Ht.
  now rewrite (apply_all_channel_updates_no_clock clk clk' _ left Hno).
Qed.

(** What a diff does not touch is there afterwards as before. *)
Lemma reads_no_clock_after clk fuel left u u' h :
  tool_updates u = [] ->
  (forall channel_id, In channel_id (touched u') -> ~ In channel_id (touched u)) ->
  history_reducer clk fuel left (Updates u) = Ok h ->
  reads_no_clock left u' ->
  reads_no_clock h u'.
Proof.
  intros Ht Hdis Hred Hno. cbn [history_reducer] in Hred.
  rewrite apply_internal_updates_no_tools in Hred by exact Ht.
  destruct (apply_all_channel_updates clk left (channel_updates u))
    as [l1| |] eqn:Hloop; cbn [bind] in Hred; try discriminate.
  injection Hred as <-.
  unfold reads_no_clock in *. rewrite Forall_forall in *.
  intros entry Hentry. destruct (Hno entry Hentry) as [Hk Hd].
  split; [|exact Hd]. cbn [channels].
  rewrite (apply_all_channel_updates_frame clk _ _ _ (fst entry) Hloop);
    [exact Hk|].
  apply Hdis. unfold touched, dict_keys.
  apply list_elem_of_In in Hentry. now apply in_map.
Qed.

(** C6, amended.  The two calls of the reducer read the clock each at its
    own time: [first] is what the first call reads and [second] what the
    second call reads, whichever update comes first.  Two
    [InternalUpdates] (given by their values: every message of the two is
    an object of its own) that touch disjoint sets of channels, carry no
    tool updates, of which at most one sets the current channel, and that
    make the reducer read no clock -- every channel they touch is in the
    history and no diff sets [delete_before] -- end alike in either order:
    both orders return, with equal histories, or both orders raise. *)
Theorem disjoint_updates_commute :
  forall first second fuel left u1 u2,
    disjoint_updates u1 u2 ->
    tool_updates u1 = [] ->
    tool_updates u2 = [] ->
    upd_current_channel u1 = None \/ upd_current_channel u2 = None ->
    reads_no_clock left u1 ->
    reads_no_clock left u2 ->
    same_outcome
      (do h <- history_reducer first fuel left (Updates u1);
       history_reducer second fuel h (Updates u2))
      (do h <- history_reducer first fuel left (Updates u2);
       history_reducer second fuel h (Updates u1)).
Proof.
  intros first second fuel left u1 u2 Hdis Ht1 Ht2 Hcur Hno1 Hno2.
  pose proof (disjoint_updates_commute_readings first second fuel left u1 u2
                Hdis Ht1 Ht2 Hcur) as Hcomm.
  rewrite (history_reducer_no_clock second first fuel left u2 Ht2 Hno2)
    in Hcomm.
  destruct (history_reducer first fuel left (Updates u2)) as [h| |] eqn:H2;
    cbn [bind] in *; try exact Hcomm.
  rewrite (history_reducer_no_clock second first fuel h u1 Ht1).
  - exact Hcomm.
  - eapply reads_no_clock_after; [exact Ht2| |exact H2|exact Hno1].
    exact Hdis.
Qed.

Lemma disjoint_updates_commute_witness :
  disjoint_updates s2_updates c2_updates
  /\ reads_no_clock s2_two_channels s2_updates
  /\ reads_no_clock s2_two_channels c2_updates
  /\ same_outcome
       (do h <- history_reducer clock0 0 s2_two_channels (Updates s2_updates);
        history_reducer clock7 0 h (Updates c2_updates))
       (do h <- history_reducer clock0 0 s2_two_channels (Updates c2_updates);
        history_reducer clock7 0 h (Updates s2_updates)).
Proof.
  assert (Hdis : disjoint_updates s2_updates c2_updates).
  { intros k H1 H2. simpl in H1, H2.
    destruct H1 as [<-|[]]. destruct H2 as [H2|[]]. discriminate. }
  assert (Hno1 : reads_no_clock s2_two_channels s2_updates).
  { constructor; [|constructor]. split; [discriminate | reflexivity]. }
  assert (Hno2 : reads_no_clock s2_two_channels c2_updates).
  { constructor; [|constructor]. split; [discriminate | reflexivity]. }
  split; [exact Hdis|]. split; [exact Hno1|]. split; [exact Hno2|].
  apply (disjoint_updates_commute clock0 clock7 0%nat s2_two_channels
           s2_updates c2_updates).
  - exact Hdis.
  - reflexivity.
  - reflexivity.
  - left. reflexivity.
  - exact Hno1.
  - exact Hno2.
Defined.

(** Both orders return here, and order the channels alike since [c1] was
    there before. *)
Example disjoint_updates_commute_returns :
  exists h,
    (do h <- history_reducer clock0 0 s2_history (Updates s2_updates);
     history_reducer clock7 0 h (Updates c2_updates)) = Ok h
    /\ dict_keys (channels h) = ["c1"; "c2"]
    /\ current_channel h = Some "c2".
Proof. eexists. split; [vm_compute; reflexivity|]. split; reflexivity. Qed.

(** ** [locate_tool_calls] *)

Lemma wf_history_get h channel_id channel :
  wf_history h -> In (channel_id, channel) (channels h) ->
  ch_id channel = channel_id
  /\ dict_get channel_id (channels h) = Some channel.
Proof.
  intros [Hid Hnd] Hin. split.
  - rewrite Forall_forall in Hid. apply list_elem_of_In in Hin.
    apply (Hid _ Hin).
  - clear Hid. induction (channels h) as [|[k c] chans IH]; [destruct Hin|].
    simpl in *. apply NoDup_cons in Hnd as [Hfresh Hnd].
    destruct Hin as [[= -> ->]|Hin].
    + now rewrite decide_True.
    + rewrite decide_False; [auto|].
      intros ->. apply Hfresh. apply list_elem_of_In.
      unfold dict_keys. apply in_map_iff. exists (k, channel). auto.
Qed.

Lemma next_channel_In chans checked c :
  next_channel chans checked = Some c ->
  exists k, In (k, c) chans /\ ~ In k checked.
Proof.
  unfold next_channel.
  assert (Hgen : forall cur,
             fold_left
               (fun cur kv =>
                  if bool_decide (fst kv ∈ checked) then cur
                  else match cur with
                       | None => Some (snd kv)
                       | Some c0 =>
                           if last_activity c0 <? last_activity (snd kv)
                           then Some (snd kv) else cur
                       end) chans cur = Some c ->
             cur = Some c \/ exists k, In (k, c) chans /\ ~ In k checked).
  { induction chans as [|[k c0] chans IH]; intros cur; simpl.
    - auto.
    - intros H. apply IH in H as [H|(k' & Hin & Hk')]; [|right; eauto].
      destruct (bool_decide (k ∈ checked)) eqn:Hk; [auto|].
      apply bool_decide_eq_false in Hk.
      assert (Hhere : exists k', ((k, c0) = (k', c0) \/ In (k', c0) chans)
                                 /\ ~ In k' checked).
      { exists k. split; [now left|]. intros Hi. apply Hk.
        now apply list_elem_of_In. }
      destruct cur as [c1|].
      + destruct (last_activity c1 <? last_activity c0).
        * injection H as <-. right. exact Hhere.
        * now left.
      + injection H as <-. right. exact Hhere. }
  intros H. apply Hgen in H as [H|H]; [discriminate | exact H].
Qed.

(** *** What the scan records *)

Section Scan.
Variable h : History.
Variables (channel_id : string) (channel : Channel).
Hypothesis Hchannel :
  messages channel = [] \/ dict_get channel_id (channels h) = Some channel.

Lemma scan_key_located index a st tid :
  messages channel !! index = Some (AI a) ->
  In tid (dict_keys (internal_tool_messages a)) ->
  located_ok h (snd st) ->
  located_ok h (snd (scan_key channel_id index st tid)).
Proof.
  intros Hidx Hkey Hok. unfold scan_key.
  destruct (in_queue tid (fst st)); [|exact Hok]. simpl.
  intros tid' cid idx. rewrite dict_get_set.
  destruct (decide (tid = tid')) as [<-|Hne]; [|apply Hok].
  intros [= <- <-]. exists channel, a.
  destruct Hchannel as [Hnil|Hget].
  - rewrite Hnil in Hidx. discriminate.
  - split; [exact Hget|]. split; [exact Hidx|].
    intros Hnone. apply dict_get_None_keys in Hnone. auto.
Qed.

Lemma scan_message_located index m st :
  messages channel !! index = Some m ->
  located_ok h (snd st) ->
  located_ok h (snd (scan_message channel_id index st m)).
Proof.
  intros Hidx Hok. unfold scan_message.
  destruct m as [hm|a|sm]; try exact Hok.
  destruct (tool_calls a); [exact Hok|].
  assert (Hgen : forall keys st0,
             (forall k, In k keys ->
                        In k (dict_keys (internal_tool_messages a))) ->
             located_ok h (snd st0) ->
             located_ok h
               (snd (fold_left (scan_key channel_id index) keys st0))).
  { induction keys as [|k keys IH]; intros st0 Hsub Hst0; simpl; auto.
    apply IH; [intros; apply Hsub; now right|].
    apply (scan_key_located index a); auto. apply Hsub. now left. }
  apply Hgen; auto.
Qed.

Lemma scan_messages_located msgs index st :
  (forall j m, msgs !! j = Some m ->
               messages channel !! (index + j)%nat = Some m) ->
  located_ok h (snd st) ->
  located_ok h (snd (scan_messages channel_id index msgs st)).
Proof.
  revert index st. induction msgs as [|m msgs IH]; intros index st Hat Hok;
    simpl; [exact Hok|].
  apply IH.
  - intros j m' Hj. replace (S index + j)%nat with (index + S j)%nat by lia.
    apply Hat. exact Hj.
  - apply scan_message_located; auto.
    specialize (Hat 0%nat m eq_refl). now rewrite Nat.add_0_r in Hat.
Qed.
End Scan.

(** *** Ids are never forgotten, and an absent id stays unlocated *)

Lemma scan_key_keeps channel_id index st tid tid' :
  keeps_key tid' (snd st) (snd (scan_key channel_id index st tid)).
Proof.
  unfold keeps_key, scan_key. destruct (in_queue tid (fst st)); [|tauto].
  simpl. rewrite dict_get_set. destruct (decide (tid = tid')); [|tauto].
  congruence.
Qed.

Lemma scan_key_other channel_id index st tid tid' :
  tid <> tid' ->
  dict_get tid' (snd (scan_key channel_id index st tid)) = dict_get tid' (snd st).
Proof.
  intros Hne. unfold scan_key. destruct (in_queue tid (fst st)); [|reflexivity].
  simpl. now apply dict_get_set_ne.
Qed.

Lemma fold_scan_key_keeps channel_id index keys st tid' :
  keeps_key tid' (snd st) (snd (fold_left (scan_key channel_id index) keys st)).
Proof.
  revert st. induction keys as [|k keys IH]; intros st; simpl.
  - unfold keeps_key. tauto.
  - intros H. apply IH. now apply scan_key_keeps.
Qed.

Lemma fold_scan_key_other channel_id index keys st tid' :
  ~ In tid' keys ->
  dict_get tid' (snd (fold_left (scan_key channel_id index) keys st))
  = dict_get tid' (snd st).
Proof.
  revert st. induction keys as [|k keys IH]; intros st Hnot; simpl; auto.
  rewrite IH by (intros Hi; apply Hnot; now right).
  apply scan_key_other. intros ->. apply Hnot. now left.
Qed.

Lemma scan_messages_keeps channel_id msgs index st tid' :
  keeps_key tid' (snd st) (snd (scan_messages channel_id index msgs st)).
Proof.
  revert index st. induction msgs as [|m msgs IH]; intros index st; simpl.
  - unfold keeps_key. tauto.
  - intros H. apply IH. unfold scan_message.
    destruct m as [hm|a|sm]; auto. destruct (tool_calls a); auto.
    now apply fold_scan_key_keeps.
Qed.

Lemma scan_messages_absent channel_id msgs index st tid' :
  no_tool_state tid' msgs ->
  dict_get tid' (snd (scan_messages channel_id index msgs st))
  = dict_get tid' (snd st).
Proof.
  revert index st. induction msgs as [|m msgs IH]; intros index st Hno;
    simpl; [reflexivity|].
  inversion Hno as [|m' l' Hm Hrest]; subst.
  rewrite IH by exact Hrest. unfold scan_message.
  destruct m as [hm|a|sm]; auto. destruct (tool_calls a); auto.
  apply fold_scan_key_other. now apply dict_get_None_keys.
Qed.

(** *** The search ends *)

Lemma unchecked_le chans checked k :
  (length (unchecked chans (checked ++ [k])) <= length (unchecked chans checked))%nat.
Proof.
  unfold unchecked. induction chans as [|[k0 c0] chans IH]; simpl; [lia|].
  destruct (bool_decide (k0 ∈ checked)) eqn:H1.
  - apply bool_decide_eq_true in H1.
    rewrite bool_decide_eq_true_2 by (apply elem_of_app; now left).
    simpl. exact IH.
  - destruct (bool_decide (k0 ∈ checked ++ [k])); simpl; lia.
Qed.

Lemma unchecked_shrinks chans checked k c :
  In (k, c) chans -> ~ In k checked ->
  (length (unchecked chans (checked ++ [k])) < length (unchecked chans checked))%nat.
Proof.
  intros Hin Hk. induction chans as [|[k0 c0] chans IH]; [destruct Hin|].
  pose proof (unchecked_le chans checked k) as Hle.
  unfold unchecked in *. simpl.
  destruct Hin as [[= -> ->]|Hin].
  - rewrite bool_decide_eq_true_2
      by (apply elem_of_app; right; apply list_elem_of_singleton; reflexivity).
    rewrite bool_decide_eq_false_2
      by (intros Hi; apply Hk; now apply list_elem_of_In).
    simpl. lia.
  - specialize (IH Hin).
    destruct (bool_decide (k0 ∈ checked)) eqn:H1.
    + apply bool_decide_eq_true in H1.
      rewrite bool_decide_eq_true_2 by (apply elem_of_app; now left).
      simpl. exact IH.
    + destruct (bool_decide (k0 ∈ checked ++ [k])); simpl; lia.
Qed.

Lemma unchecked_length chans checked :
  (length (unchecked chans checked) <= length chans)%nat.
Proof. unfold unchecked. apply List.filter_length_le. Qed.

Lemma absent_get tid h channel_id channel :
  absent tid h -> dict_get channel_id (channels h) = Some channel ->
  no_tool_state tid (messages channel).
Proof.
  intros Ha Hget. apply dict_get_In, list_elem_of_In in Hget.
  unfold absent in Ha. rewrite Forall_forall in Ha. apply (Ha _ Hget).
Qed.

Lemma locate_loop_spec h :
  wf_history h ->
  forall fuel cur checked st,
    messages cur = [] \/ dict_get (ch_id cur) (channels h) = Some cur ->
    located_ok h (snd st) ->
    (length (unchecked (channels h) (checked ++ [ch_id cur])) < fuel)%nat ->
    exists res,
      locate_loop fuel h cur checked st = Ok res
      /\ located_ok h res
      /\ (forall tid, keeps_key tid (snd st) res)
      /\ (forall tid, absent tid h -> dict_get tid res = dict_get tid (snd st)).
Proof.
  intros Hwf. induction fuel as [|fuel IH]; intros cur checked st Hcur Hok Hfuel;
    [lia|].
  simpl.
  set (st' := scan_messages (ch_id cur) 0 (messages cur) st).
  assert (Hok' : located_ok h (snd st')).
  { apply (scan_messages_located h (ch_id cur) cur Hcur); auto. }
  assert (Hkeep' : forall tid, keeps_key tid (snd st) (snd st'))
    by (intros; apply scan_messages_keeps).
  assert (Habs' : forall tid, absent tid h ->
                              dict_get tid (snd st') = dict_get tid (snd st)).
  { intros tid Ha. apply scan_messages_absent.
    destruct Hcur as [-> | Hget]; [constructor|].
    eapply absent_get; eauto. }
  destruct (fst st') as [|q0 q]; [exists (snd st'); auto|].
  destruct (next_channel (channels h) (checked ++ [ch_id cur])) as [c|] eqn:Hnext;
    [|exists (snd st'); auto].
  apply next_channel_In in Hnext as (k & Hin & Hk).
  destruct (wf_history_get h k c Hwf Hin) as [Hid Hget].
  destruct (IH c (checked ++ [ch_id cur]) st') as (res & Hres & Hres_ok & Hk1 & Ha1).
  - right. now rewrite Hid.
  - exact Hok'.
  - rewrite Hid.
    pose proof (unchecked_shrinks _ _ _ _ Hin Hk). lia.
  - exists res. split; [exact Hres|]. split; [exact Hres_ok|]. split.
    + intros tid H. apply Hk1. now apply Hkeep'.
    + intros tid Ha. rewrite Ha1 by exact Ha. now apply Habs'.
Qed.

Lemma initial_results_keys (ids : list string) (tid : string)
    (acc : list (string * option Location)) :
  In tid ids \/ dict_get tid acc <> None ->
  dict_get tid (fold_left (fun acc tid => dict_set tid None acc) ids acc)
  <> None.
Proof.
  revert acc. induction ids as [|i ids IH]; intros acc; simpl.
  - intros [[]|H]. exact H.
  - intros H. apply IH.
    destruct (decide (i = tid)) as [->|Hne].
    + right. rewrite dict_get_set_eq. discriminate.
    + destruct H as [[H|H]|H]; [congruence | now left |].
      right. now rewrite dict_get_set_ne.
Qed.

Lemma initial_results_none (ids : list string) (tid : string)
    (acc : list (string * option Location)) :
  (forall v, dict_get tid acc = Some v -> v = None) ->
  forall v,
    dict_get tid (fold_left (fun acc tid => dict_set tid None acc) ids acc)
    = Some v -> v = None.
Proof.
  revert acc. induction ids as [|i ids IH]; intros acc Hacc; simpl; auto.
  apply IH. intros v. rewrite dict_get_set.
  destruct (decide (i = tid)); [congruence | apply Hacc].
Qed.

Lemma get_current_channel_stored clk h :
  wf_history h ->
  messages (get_current_channel clk h) = []
  \/ dict_get (ch_id (get_current_channel clk h)) (channels h)
     = Some (get_current_channel clk h).
Proof.
  intros Hwf. unfold get_current_channel.
  destruct (current_channel h) as [cid|]; [|now left].
  destruct (dict_get cid (channels h)) as [c|] eqn:Hc; [|now left].
  right. apply dict_get_In in Hc.
  destruct (wf_history_get h cid c Hwf Hc) as [-> _].
  destruct (wf_history_get h _ c Hwf Hc) as [_ H]. exact H.
Qed.

(** On a well-formed history the search returns once every channel has had
    its turn: it records sound locations, keeps every requested id as a
    key, and leaves an absent id unlocated. *)
Lemma locate_tool_calls_spec clk fuel h ids :
  wf_history h ->
  (length (channels h) < fuel)%nat ->
  exists results,
    locate_tool_calls clk fuel h ids = Ok results
    /\ located_ok h results
    /\ (forall tid, In tid ids -> dict_get tid results <> None)
    /\ (forall tid, In tid ids -> absent tid h ->
                    dict_get tid results = Some None).
Proof.
  intros Hwf Hfuel. unfold locate_tool_calls.
  set (results0 := fold_left (fun acc tid => dict_set tid None acc) ids []).
  destruct (locate_loop_spec h Hwf fuel (get_current_channel clk h) []
              (ids, results0)) as (res & Hres & Hok & Hkeep & Habs).
  - now apply get_current_channel_stored.
  - intros tid cid idx Hget. simpl in Hget.
    apply (initial_results_none ids tid []) in Hget; [discriminate|].
    simpl. discriminate.
  - pose proof (unchecked_length (channels h)
                  ([] ++ [ch_id (get_current_channel clk h)])). lia.
  - exists res. split; [exact Hres|]. split; [exact Hok|]. split.
    + intros tid Hin. apply Hkeep. simpl.
      apply initial_results_keys. now left.
    + intros tid Hin Ha. rewrite (Habs tid Ha). simpl.
      destruct (dict_get tid results0) as [v|] eqn:Hv.
      * f_equal. apply (initial_results_none ids tid [] ltac:(simpl; discriminate) v Hv).
      * exfalso. revert Hv. apply initial_results_keys. now left.
Qed.

(** ** Well-formedness along the channel loop *)

Lemma wf_history_set h channel_id channel :
  wf_history h -> ch_id channel = channel_id ->
  wf_history (set_channels h (dict_set channel_id channel (channels h))).
Proof.
  intros [Hid Hnd] Hc. split; simpl.
  - apply Forall_dict_set; auto.
  - destruct (dict_get channel_id (channels h)) eqn:Hget.
    + rewrite dict_keys_set_present; [exact Hnd | congruence].
    + rewrite dict_keys_set_absent by exact Hget.
      apply NoDup_app. split; [exact Hnd|]. split.
      * intros x Hx Hx'. apply list_elem_of_singleton in Hx' as ->.
        apply dict_get_None_keys in Hget. apply Hget.
        now apply list_elem_of_In.
      * apply NoDup_singleton.
Qed.

Lemma channel_or_new_id clk channel_id h :
  wf_history h -> ch_id (channel_or_new clk channel_id h) = channel_id.
Proof.
  intros Hwf. unfold channel_or_new.
  destruct (dict_get channel_id (channels h)) as [c|] eqn:Hc; [|reflexivity].
  apply dict_get_In in Hc. now destruct (wf_history_get h _ c Hwf Hc).
Qed.

Lemma length_dict_set {V : Type} (k : string) (v : V) d :
  (length (dict_set k v d) <= S (length d))%nat.
Proof.
  induction d as [|[k' v'] d IH]; simpl; [lia|].
  destruct (decide (k = k')); simpl; lia.
Qed.

Lemma apply_all_channel_updates_wf clk entries left left' :
  apply_all_channel_updates clk left entries = Ok left' ->
  wf_history left ->
  wf_history left'
  /\ (length (channels left') <= length (channels left) + length entries)%nat.
Proof.
  revert left. induction entries as [|e entries IH]; intros left; simpl.
  - intros [= <-] Hwf. split; [exact Hwf | lia].
  - destruct (apply_channel_updates clk left e) as [l1| |] eqn:He;
      simpl; try discriminate.
    intros Hrest Hwf.
    apply apply_channel_updates_spec in He as (c & Hc & Hch & Hcur).
    apply process_channel_spec in Hc as (_ & _ & _ & _ & _ & _ & Hid).
    rewrite channel_or_new_id in Hid by exact Hwf.
    assert (Hwf1 : wf_history l1).
    { pose proof (wf_history_set left (fst e) c Hwf Hid) as [H1 H2].
      split; rewrite Hch; auto. }
    destruct (IH _ Hrest Hwf1) as [Hwf' Hlen]. split; [exact Hwf'|].
    rewrite Hch in Hlen.
    pose proof (length_dict_set (fst e) c (channels left)). lia.
Qed.

(** ** One tool update *)

Lemma apply_tool_update_located clk positions n h tu channel_id index :
  located_ok h positions ->
  dict_get (tool_call_id tu) positions = Some (Some (channel_id, index)) ->
  exists channel a tm,
    dict_get channel_id (channels h) = Some channel
    /\ messages channel !! index = Some (AI a)
    /\ dict_get (tool_call_id tu) (internal_tool_messages a) = Some tm
    /\ apply_tool_update clk positions n h tu
       = Ok (set_channels h
               (dict_set channel_id
                  (set_messages channel
                     (updated_messages clk n (messages channel) index a tm tu))
                  (channels h))).
Proof.
  intros Hok Hpos.
  destruct (Hok _ _ _ Hpos) as (channel & a & Hch & Hidx & Hkey).
  destruct (dict_get (tool_call_id tu) (internal_tool_messages a)) as [tm|]
    eqn:Htm; [|congruence].
  exists channel, a, tm. repeat (split; [assumption|]).
  unfold apply_tool_update. rewrite Hpos, Hch, Hidx, Htm. reflexivity.
Qed.

Lemma located_ok_update clk n h positions channel_id channel index a tm tu :
  located_ok h positions ->
  dict_get channel_id (channels h) = Some channel ->
  messages channel !! index = Some (AI a) ->
  located_ok
    (set_channels h
       (dict_set channel_id
          (set_messages channel
             (updated_messages clk n (messages channel) index a tm tu))
          (channels h)))
    positions.
Proof.
  intros Hok Hch Hidx tid cid idx Hpos.
  destruct (Hok _ _ _ Hpos) as (channel1 & a1 & Hch1 & Hidx1 & Hkey1).
  simpl. rewrite dict_get_set.
  destruct (decide (channel_id = cid)) as [->|Hne]; [|eauto].
  assert (channel1 = channel) by congruence. subst channel1.
  assert (Hlt : (idx < length (messages channel))%nat)
    by (eapply lookup_lt_Some; eauto).
  assert (Hat : exists a2,
             updated_messages clk n (messages channel) index a tm tu !! idx
             = Some (AI a2)
             /\ dict_get tid (internal_tool_messages a2) <> None).
  { unfold updated_messages.
    match goal with
    | |- context [<[index := ?m]> (messages channel)] => set (new := m)
    end.
    assert (Hins : exists a2,
               <[index := new]> (messages channel) !! idx = Some (AI a2)
               /\ dict_get tid (internal_tool_messages a2) <> None).
    { destruct (decide (index = idx)) as [->|Hni].
      - rewrite list_lookup_insert_eq by exact Hlt. subst new.
        eexists. split; [reflexivity|]. simpl. rewrite dict_get_set.
        destruct (decide (tool_call_id tu = tid)); [discriminate|].
        congruence.
      - rewrite list_lookup_insert_ne by exact Hni. eauto. }
    destruct Hins as (a2 & Ha2 & Hk2). exists a2. split; [|exact Hk2].
    destruct (_ <? _); [|exact Ha2].
    rewrite lookup_app_l; [exact Ha2|]. now rewrite length_insert. }
  destruct Hat as (a2 & Ha2 & Hk2).
  eexists _, a2. split; [reflexivity|]. split; [exact Ha2 | exact Hk2].
Qed.

Lemma apply_tool_update_ok clk positions n h tu :
  located_ok h positions ->
  dict_get (tool_call_id tu) positions <> None ->
  exists h',
    apply_tool_update clk positions n h tu = Ok h'
    /\ located_ok h' positions.
Proof.
  intros Hok Hkey.
  destruct (dict_get (tool_call_id tu) positions) as [[[cid idx]|]|] eqn:Hpos;
    [| |congruence].
  - destruct (apply_tool_update_located clk positions n h tu cid idx Hok Hpos)
      as (channel & a & tm & Hch & Hidx & _ & Happ).
    eexists. split; [exact Happ|].
    now apply located_ok_update.
  - exists h. split; [|exact Hok].
    unfold apply_tool_update. now rewrite Hpos.
Qed.

Lemma apply_tool_updates_ok clk positions tus n h :
  located_ok h positions ->
  (forall tu, In tu tus -> dict_get (tool_call_id tu) positions <> None) ->
  exists h', apply_tool_updates clk positions n h tus = Ok h'.
Proof.
  revert n h. induction tus as [|tu tus IH]; intros n h Hok Hkeys; simpl.
  - eauto.
  - destruct (apply_tool_update_ok clk positions n h tu Hok) as (h1 & -> & Hok1).
    + apply Hkeys. now left.
    + simpl. apply IH; [exact Hok1|]. intros tu' Hin. apply Hkeys. now right.
Qed.

(** ** [generate_updates_from_mcp_responses] *)

Lemma generate_step_unlocated clk locations n st r :
  dict_get (response_id r) locations = Some None ->
  generate_step clk locations [] n st r = Raise ValueError_no_location.
Proof.
  intros H. unfold generate_step. fold (response_id r). now rewrite H.
Qed.

Lemma generate_step_located clk locations n st r channel_id index :
  located_ok (fst st) locations ->
  dict_get (response_id r) locations = Some (Some (channel_id, index)) ->
  exists st',
    generate_step clk locations [] n st r = Ok st'
    /\ located_ok (fst st') locations
    /\ (snd st' = snd st
        \/ exists m, snd st' = push_new_message (snd st) channel_id m).
Proof.
  intros Hok Hpos.
  destruct (Hok _ _ _ Hpos) as (channel & a & Hch & Hidx & Hkey).
  destruct (dict_get (response_id r) (internal_tool_messages a)) as [tm|]
    eqn:Htm; [|congruence].
  unfold generate_step. fold (response_id r).
  rewrite Hpos. simpl. rewrite Hch, Hidx. simpl. rewrite Htm.
  eexists. split; [reflexivity|]. simpl. split.
  - intros tid cid idx Hloc.
    destruct (Hok _ _ _ Hloc) as (channel1 & a1 & Hch1 & Hidx1 & Hkey1).
    simpl. rewrite dict_get_set.
    destruct (decide (channel_id = cid)) as [->|Hne]; [|eauto].
    assert (channel1 = channel) by congruence. subst channel1.
    assert (Hlt : (idx < length (messages channel))%nat)
      by (eapply lookup_lt_Some; eauto).
    destruct (decide (index = idx)) as [->|Hni].
    + eexists _, _. split; [reflexivity|]. simpl.
      rewrite list_lookup_insert_eq by exact Hlt.
      split; [reflexivity|]. simpl. rewrite dict_get_set.
      destruct (decide (response_id r = tid)); [discriminate|]. congruence.
    + eexists _, a1. split; [reflexivity|]. simpl.
      rewrite list_lookup_insert_ne by exact Hni. split; assumption.
  - destruct (_ <? _); eauto.
Qed.

Lemma generate_loop_unlocated clk locations responses n st :
  located_ok (fst st) locations ->
  (forall r, In r responses -> dict_get (response_id r) locations <> None) ->
  (exists r, In r responses /\ dict_get (response_id r) locations = Some None) ->
  fst (generate_loop clk locations [] n st responses)
  = Raise ValueError_no_location.
Proof.
  revert n st. induction responses as [|r responses IH]; intros n st Hok Hkeys Hex.
  - destruct Hex as (r & [] & _).
  - simpl.
    destruct (dict_get (response_id r) locations) as [[[cid idx]|]|] eqn:Hpos.
    + destruct (generate_step_located clk locations n st r cid idx Hok Hpos)
        as (st' & -> & Hok' & _).
      apply IH; [exact Hok'| |].
      * intros r' Hr'. apply Hkeys. now right.
      * destruct Hex as (r' & [<-|Hr'] & Hnone); [congruence|]. eauto.
    + now rewrite generate_step_unlocated.
    + exfalso. apply (Hkeys r); [now left | exact Hpos].
Qed.

Lemma push_new_message_no_message_updates u channel_id m :
  no_message_updates u -> no_message_updates (push_new_message u channel_id m).
Proof.
  unfold no_message_updates, push_new_message. simpl. intros H.
  apply Forall_dict_set; [exact H|]. simpl.
  destruct (dict_get channel_id (channel_updates u)) as [cu|] eqn:Hcu;
    [|reflexivity].
  apply dict_get_In, list_elem_of_In in Hcu.
  rewrite Forall_forall in H. apply (H _ Hcu).
Qed.

Lemma generate_step_no_message_updates clk locations n st r st' :
  generate_step clk locations [] n st r = Ok st' ->
  no_message_updates (snd st) -> no_message_updates (snd st').
Proof.
  unfold generate_step. intros H Hno.
  destruct (dict_get _ locations) as [[[cid idx]|]|]; try discriminate.
  simpl in H.
  destruct (dict_get cid (channels (fst st))) as [channel|]; try discriminate.
  simpl in H.
  destruct (messages channel !! idx) as [[hm|a|sm]|]; try discriminate.
  simpl in H.
  destruct (dict_get _ (internal_tool_messages a)); try discriminate.
  injection H as <-. simpl.
  destruct (_ <? _); [|exact Hno].
  now apply push_new_message_no_message_updates.
Qed.

Lemma generate_loop_no_message_updates clk locations responses n st u self' :
  generate_loop clk locations [] n st responses = (Ok u, self') ->
  no_message_updates (snd st) -> no_message_updates u.
Proof.
  revert n st. induction responses as [|r responses IH]; intros n st; simpl.
  - intros [= <- _]. auto.
  - destruct (generate_step clk locations [] n st r) as [st'| |] eqn:Hstep;
      try discriminate.
    intros Hloop Hno. apply (IH _ _ Hloop).
    eapply generate_step_no_message_updates; eauto.
Qed.

Lemma fold_updates_none (responses : list MCPResponse) (u : InternalUpdates) :
  (forall r, In r responses -> updates r = None) ->
  fold_left (fun acc r => match updates r with
                          | Some u' => internal_updates_reducer acc u'
                          | None => acc
                          end) responses u = u.
Proof.
  revert u. induction responses as [|r responses IH]; intros u Hnone; simpl.
  - reflexivity.
  - rewrite (Hnone r) by now left. apply IH. intros r' Hr'. apply Hnone.
    now right.
Qed.

(** Whatever the responses (none of them carrying updates of its own), the
    updates returned hold no positional entry: [cached_messages] is empty
    when the entries are registered. *)
Lemma generate_updates_no_message_updates clk fuel self responses u self' :
  (forall r, In r responses -> updates r = None) ->
  generate_updates_from_mcp_responses clk fuel self responses = (Ok u, self') ->
  no_message_updates u /\ forall location, ~ has_message_update u location.
Proof.
  intros Hnone. unfold generate_updates_from_mcp_responses.
  destruct (locate_tool_calls _ _ _ _) as [locations| |]; try discriminate.
  destruct (generate_loop clk locations [] 0 (self, empty_updates) responses)
    as [[u1| |] self1] eqn:Hloop; try discriminate.
  simpl. rewrite fold_updates_none by exact Hnone. intros [= <- <-].
  assert (Hno : no_message_updates u1).
  { eapply generate_loop_no_message_updates; [exact Hloop|]. constructor. }
  split; [exact Hno|].
  intros location (cu & m & Hcu & Hm).
  apply dict_get_In, list_elem_of_In in Hcu.
  unfold no_message_updates in Hno. rewrite Forall_forall in Hno.
  specialize (Hno _ Hcu). simpl in Hno. rewrite Hno in Hm. discriminate.
Qed.

(** C2, on the code. The tool call [t1] of scenario S1 is located at
    [("c1", 1)] and its response is processed without error, yet the
    updates returned are empty: no [message_updates] entry at [("c1", 1)].
    The tool state is written into [self] only. *)
Theorem generate_updates_misses_message_update :
  locate_tool_calls clock0 2 s1_confirmed ["t1"] = Ok [("t1", Some ("c1", 1%nat))]
  /\ exists self',
       generate_updates_from_mcp_responses clock0 2 s1_confirmed
         [response_for "t1" MCP_completed "ok"]
       = (Ok empty_updates, self')
       /\ ~ has_message_update empty_updates ("c1", 1%nat)
       /\ (exists channel a tm,
             dict_get "c1" (channels self') = Some channel
             /\ messages channel !! 1%nat = Some (AI a)
             /\ dict_get "t1" (internal_tool_messages a) = Some tm
             /\ internal_status tm = Completed
             /\ status tm = Success
             /\ content tm = Some "ok").
Proof.
  split; [vm_compute; reflexivity|].
  eexists. split; [vm_compute; reflexivity|]. split.
  - intros (cu & m & Hcu & _). discriminate.
  - eexists _, _, _. repeat split.
Qed.

(** ** Unlocated tool calls *)

(** C3, as stated, fails for [generate_updates_from_mcp_responses]: the
    response of a tool call that no channel holds makes it raise. *)
Lemma generate_updates_raises_when_unlocated :
  absent "t9" s1_history
  /\ fst (generate_updates_from_mcp_responses clock0 2 s1_history
            [response_for "t9" MCP_completed "ok"])
     = Raise ValueError_no_location.
Proof.
  split; [|vm_compute; reflexivity].
  unfold absent, no_tool_state. simpl. repeat constructor.
Qed.

Lemma wf_after_channels left1 right :
  wf_history left1 -> wf_history (after_channels left1 right).
Proof. intros H. exact H. Qed.

(** C3, amended. On a well-formed history, once the channel loop has
    returned, the reducer returns: the search ends, no tool update raises,
    and a tool update whose id no channel holds is unlocated and leaves
    the history as it is, the other updates being applied in turn.
    [generate_updates_from_mcp_responses], on the contrary, raises the
    [ValueError] "Could not find location for tool call" as soon as one
    response has such an id. *)
Theorem unlocated_tool_update_skipped :
  forall clk fuel left right left1,
    wf_history left ->
    (length (channels left) + length (channel_updates right) < fuel)%nat ->
    apply_all_channel_updates clk left (channel_updates right) = Ok left1 ->
    (exists positions left',
       locate_tool_calls clk fuel (after_channels left1 right)
         (map tool_call_id (tool_updates right)) = Ok positions
       /\ history_reducer clk fuel left (Updates right) = Ok left'
       /\ apply_tool_updates clk positions 0 (after_channels left1 right)
            (tool_updates right) = Ok left'
       /\ forall tu,
            In tu (tool_updates right) ->
            absent (tool_call_id tu) (after_channels left1 right) ->
            dict_get (tool_call_id tu) positions = Some None
            /\ forall n h, apply_tool_update clk positions n h tu = Ok h)
    /\ (forall responses r,
          In r responses ->
          absent (response_id r) (after_channels left1 right) ->
          fst (generate_updates_from_mcp_responses clk fuel
                 (after_channels left1 right) responses)
          = Raise ValueError_no_location).
Proof.
  intros clk fuel left right left1 Hwf Hfuel Hall.
  destruct (apply_all_channel_updates_wf _ _ _ _ Hall Hwf) as [Hwf1 Hlen].
  pose proof (wf_after_channels left1 right Hwf1) as Hwf2.
  assert (Hfuel2 : (length (channels (after_channels left1 right)) < fuel)%nat)
    by (simpl; lia).
  split.
  - destruct (locate_tool_calls_spec clk fuel _
                (map tool_call_id (tool_updates right)) Hwf2 Hfuel2)
      as (positions & Hloc & Hok & Hkeys & Habs).
    destruct (apply_tool_updates_ok clk positions (tool_updates right) 0%nat
                (after_channels left1 right) Hok) as (left' & Htools).
    { intros tu Htu. apply Hkeys. now apply in_map. }
    exists positions, left'. split; [exact Hloc|]. split; [|split].
    + simpl. unfold apply_internal_updates. rewrite Hall. simpl.
      fold (after_channels left1 right).
      destruct (tool_updates right) as [|tu tus] eqn:Htus.
      * simpl in Htools. exact Htools.
      * rewrite Hloc. simpl. exact Htools.
    + exact Htools.
    + intros tu Htu Ha.
      assert (Hnone : dict_get (tool_call_id tu) positions = Some None)
        by (apply Habs; [now apply in_map | exact Ha]).
      split; [exact Hnone|]. intros n h.
      unfold apply_tool_update. now rewrite Hnone.
  - intros responses r Hr Ha.
    unfold generate_updates_from_mcp_responses.
    destruct (locate_tool_calls_spec clk fuel _
                (map (fun r => tm_tool_call_id (tool_message r)) responses)
                Hwf2 Hfuel2)
      as (locations & -> & Hok & Hkeys & Habs).
    assert (Hin : forall r', In r' responses ->
                   In (response_id r')
                      (map (fun r => tm_tool_call_id (tool_message r)) responses))
      by (intros r' Hr'; apply in_map_iff; exists r'; auto).
    assert (Hloop : fst (generate_loop clk locations [] 0
                           (after_channels left1 right, empty_updates) responses)
                    = Raise ValueError_no_location).
    { apply generate_loop_unlocated.
      - exact Hok.
      - intros r' Hr'. apply Hkeys. now apply Hin.
      - exists r. split; [exact Hr|]. apply Habs; [now apply Hin | exact Ha]. }
    destruct (generate_loop clk locations [] 0
                (after_channels left1 right, empty_updates) responses)
      as [[u|e|] self'] eqn:Hg; simpl in Hloop; try discriminate.
    simpl. exact Hloop.
Qed.

Lemma s1_history_wf : wf_history s1_history.
Proof.
  split; simpl.
  - repeat constructor.
  - repeat constructor. intros H. inversion H.
Qed.

Lemma unlocated_tool_update_skipped_witness :
  wf_history s1_history
  /\ (exists positions left',
        locate_tool_calls clock0 2 (after_channels s1_history s1_mixed_updates)
          (map tool_call_id (tool_updates s1_mixed_updates)) = Ok positions
        /\ history_reducer clock0 2 s1_history (Updates s1_mixed_updates)
           = Ok left'
        /\ apply_tool_updates clock0 positions 0
             (after_channels s1_history s1_mixed_updates)
             (tool_updates s1_mixed_updates) = Ok left'
        /\ forall tu,
             In tu (tool_updates s1_mixed_updates) ->
             absent (tool_call_id tu)
                    (after_channels s1_history s1_mixed_updates) ->
             dict_get (tool_call_id tu) positions = Some None
             /\ forall n h, apply_tool_update clock0 positions n h tu = Ok h)
  /\ (forall responses r,
        In r responses ->
        absent (response_id r) (after_channels s1_history s1_mixed_updates) ->
        fst (generate_updates_from_mcp_responses clock0 2
               (after_channels s1_history s1_mixed_updates) responses)
        = Raise ValueError_no_location).
Proof.
  split; [exact s1_history_wf|].
  apply (unlocated_tool_update_skipped clock0 2%nat s1_history
           s1_mixed_updates s1_history).
  - exact s1_history_wf.
  - simpl. lia.
  - reflexivity.
Defined.

(** The update for [t9] is skipped and the one for [t1] applied. *)
Example mixed_updates_applied :
  exists left' channel a tm,
    history_reducer clock0 2 s1_history (Updates s1_mixed_updates) = Ok left'
    /\ dict_get "c1" (channels left') = Some channel
    /\ length (messages channel) = 2%nat
    /\ messages channel !! 1%nat = Some (AI a)
    /\ dict_get "t1" (internal_tool_messages a) = Some tm
    /\ internal_status tm = Confirmed.
Proof.
  eexists _, _, _, _. split; [vm_compute; reflexivity|]. repeat split.
Qed.

(** ** The transient message of a tool update *)

Lemma last_insert_same_date (msgs : list StructuredMessage) (i : nat) x old l :
  msgs !! i = Some old -> date x = date old -> last msgs = Some l ->
  exists l', last (<[i := x]> msgs) = Some l' /\ date l' = date l.
Proof.
  intros Hi Hd Hl. rewrite last_lookup in *. rewrite length_insert.
  assert (Hlt : (i < length msgs)%nat) by (eapply lookup_lt_Some; eauto).
  destruct (decide (i = Nat.pred (length msgs))) as [Heq|Hne].
  - rewrite <- Heq in *. rewrite list_lookup_insert_eq by exact Hlt.
    exists x. split; [reflexivity|]. congruence.
  - rewrite list_lookup_insert_ne by exact Hne. eauto.
Qed.

Lemma apply_tool_updates_app clk positions applied rest :
  forall n h,
    apply_tool_updates clk positions n h (applied ++ rest)
    = do h' <- apply_tool_updates clk positions n h applied;
      apply_tool_updates clk positions (n + length applied) h' rest.
Proof.
  induction applied as [|tu applied IH]; intros n h; simpl.
  - now rewrite Nat.add_0_r.
  - destruct (apply_tool_update clk positions n h tu) as [h1| |]; simpl;
      try reflexivity.
    rewrite IH. now rewrite Nat.add_succ_r.
Qed.

Lemma apply_tool_updates_located clk positions tus :
  forall n h h',
    located_ok h positions ->
    apply_tool_updates clk positions n h tus = Ok h' ->
    located_ok h' positions.
Proof.
  induction tus as [|tu tus IH]; intros n h h' Hok; simpl.
  - now intros [= <-].
  - destruct (dict_get (tool_call_id tu) positions) as [p|] eqn:Hkey.
    + destruct (apply_tool_update_ok clk positions n h tu Hok)
        as (h1 & Hrun & Hok1); [congruence|].
      rewrite Hrun. simpl. now apply IH.
    + unfold apply_tool_update at 1. rewrite Hkey. simpl. discriminate.
Qed.

(** What [updated_messages] holds, position by position. *)
Lemma updated_messages_spec clk n msgs index a tm tu l :
  msgs !! index = Some (AI a) ->
  last msgs = Some l ->
  let tid := tool_call_id tu in
  let msgs' := updated_messages clk n msgs index a tm tu in
  msgs' !! index
  = Some (AI (set_tool_message a tid
                (set_status tm (internal_status tu)
                   (if truthy (content tu) then content tu else None))))
  /\ (forall i, i <> index -> (i < length msgs)%nat -> msgs' !! i = msgs !! i)
  /\ (S index = length msgs -> length msgs' = length msgs)
  /\ ((S index < length msgs)%nat ->
      length msgs' = S (length msgs)
      /\ msgs' !! length msgs
         = Some (System
                   {| s_content := String.append "#toolupdated#" tid;
                      s_date := Z.max (clk (ToolUpdatedDate n)) (date l);
                      s_summary := None; s_author := None;
                      lifespan := Some 1 |})).
Proof.
  intros Hidx Hl tid msgs'.
  assert (Hlt : (index < length msgs)%nat) by (eapply lookup_lt_Some; eauto).
  subst msgs'. unfold updated_messages. fold tid.
  match goal with
  | |- context [<[index := ?m]> msgs] => set (new := m)
  end.
  destruct (last_insert_same_date msgs index new (AI a) l Hidx eq_refl Hl)
    as (l' & Hl' & Hd).
  rewrite length_insert.
  destruct (Z.of_nat index <? Z.of_nat (length msgs) - 1) eqn:Hc;
    [apply Z.ltb_lt in Hc | apply Z.ltb_ge in Hc].
  - split; [|split; [|split]].
    + rewrite lookup_app_l by (rewrite length_insert; exact Hlt).
      now apply list_lookup_insert_eq.
    + intros i Hne Hi.
      rewrite lookup_app_l by (rewrite length_insert; exact Hi).
      now apply list_lookup_insert_ne.
    + intros Hlast. lia.
    + intros _. split.
      * rewrite length_app, length_insert. simpl. lia.
      * rewrite lookup_app_r by (rewrite length_insert; lia).
        rewrite length_insert, Nat.sub_diag. simpl.
        unfold clamped_toolupdated. rewrite Hl'. unfold toolupdated_message.
        rewrite Hd. do 3 f_equal.
        destruct (clk (ToolUpdatedDate n) <? date l) eqn:Hcmp;
          [apply Z.ltb_lt in Hcmp | apply Z.ltb_ge in Hcmp]; lia.
  - split; [|split; [|split]].
    + now apply list_lookup_insert_eq.
    + intros i Hne Hi. now apply list_lookup_insert_ne.
    + intros _. apply length_insert.
    + intros Hmore. lia.
Qed.

(** C7. Let the reducer come to a tool update [tu] of its operand, after
    the channel diffs and the tool updates [applied] before it, and let
    the call be located at [index] of channel [channel_id].  Then the
    message found there is an Agent message holding a state for the call,
    the update returns, and the reducer goes on from the history [after]
    that it leaves, in which: the current channel, the keys and every
    other channel are as before; the hosting channel has all its fields
    but [messages] as before; every message that was there is unchanged
    but the hosting one, which keeps its fields and its other tool states
    and whose state for the call has the update's [internal_status], the
    external status mapped from it, and the update's content when it has
    one (else the content it had); when the hosting message was the last
    of its channel no message is added; otherwise exactly one is, at the
    end: a System message of content ["#toolupdated#<id>"] and lifespan 1,
    dated the later of the clock reading and the date of the channel's
    last message. *)
Theorem tool_update_transient_message :
  forall clk fuel left right left1 positions applied tu rest before
         channel_id index,
    wf_history left ->
    apply_all_channel_updates clk left (channel_updates right) = Ok left1 ->
    (length (channels left1) < fuel)%nat ->
    tool_updates right = applied ++ tu :: rest ->
    locate_tool_calls clk fuel (after_channels left1 right)
      (map tool_call_id (tool_updates right)) = Ok positions ->
    apply_tool_updates clk positions 0 (after_channels left1 right) applied
      = Ok before ->
    dict_get (tool_call_id tu) positions = Some (Some (channel_id, index)) ->
    exists channel a tm l after channel' a',
      dict_get channel_id (channels before) = Some channel
      /\ messages channel !! index = Some (AI a)
      /\ dict_get (tool_call_id tu) (internal_tool_messages a) = Some tm
      /\ last (messages channel) = Some l
      /\ apply_tool_update clk positions (length applied) before tu = Ok after
      /\ history_reducer clk fuel left (Updates right)
         = apply_tool_updates clk positions (S (length applied)) after rest
      /\ current_channel after = current_channel before
      /\ dict_keys (channels after) = dict_keys (channels before)
      /\ (forall other,
            other <> channel_id ->
            dict_get other (channels after) = dict_get other (channels before))
      /\ dict_get channel_id (channels after) = Some channel'
      /\ (ch_id channel' = ch_id channel
          /\ ch_name channel' = ch_name channel
          /\ channel_type channel' = channel_type channel
          /\ wakeup_url channel' = wakeup_url channel
          /\ summaries channel' = summaries channel
          /\ last_activity channel' = last_activity channel
          /\ max_summary_date channel' = max_summary_date channel
          /\ no_reactive_tool_call_before channel'
             = no_reactive_tool_call_before channel
          /\ no_temporary_message_before channel'
             = no_temporary_message_before channel)
      /\ (forall i,
            i <> index -> (i < length (messages channel))%nat ->
            messages channel' !! i = messages channel !! i)
      /\ messages channel' !! index = Some (AI a')
      /\ (ai_content a' = ai_content a
          /\ ai_date a' = ai_date a
          /\ ai_summary a' = ai_summary a
          /\ activity a' = activity a
          /\ tool_calls a' = tool_calls a)
      /\ dict_keys (internal_tool_messages a')
         = dict_keys (internal_tool_messages a)
      /\ (forall other,
            other <> tool_call_id tu ->
            dict_get other (internal_tool_messages a')
            = dict_get other (internal_tool_messages a))
      /\ dict_get (tool_call_id tu) (internal_tool_messages a')
         = Some {| tool_call_id := tool_call_id tm;
                   internal_status := internal_status tu;
                   status := EXTERNAL_STATUS_MAPPING (internal_status tu);
                   content := if truthy (content tu)
                              then content tu else content tm |}
      /\ (S index = length (messages channel) ->
          length (messages channel') = length (messages channel))
      /\ ((S index < length (messages channel))%nat ->
          length (messages channel') = S (length (messages channel))
          /\ messages channel' !! length (messages channel)
             = Some (System
                       {| s_content :=
                            String.append "#toolupdated#" (tool_call_id tu);
                          s_date := Z.max (clk (ToolUpdatedDate (length applied)))
                                          (date l);
                          s_summary := None; s_author := None;
                          lifespan := Some 1 |})).
Proof.
  intros clk fuel left right left1 positions applied tu rest before channel_id
         index Hwf Hchan Hfuel Htus Hloc Happlied Hpos.
  destruct (apply_all_channel_updates_wf clk _ _ _ Hchan Hwf) as [Hwf1 _].
  destruct (locate_tool_calls_spec clk fuel (after_channels left1 right)
              (map tool_call_id (tool_updates right)) Hwf1 Hfuel)
    as (positions' & Hloc' & Hok & _).
  assert (positions' = positions) by congruence. subst positions'.
  pose proof (apply_tool_updates_located clk positions applied 0%nat _ _
                Hok Happlied) as Hok'.
  destruct (apply_tool_update_located clk positions (length applied) before tu
              channel_id index Hok' Hpos)
    as (channel & a & tm & Hch & Hidx & Htm & Happ).
  assert (Hlt : (index < length (messages channel))%nat)
    by (eapply lookup_lt_Some; eauto).
  destruct (last (messages channel)) as [l|] eqn:Hl;
    [|apply last_None in Hl; rewrite Hl in Hlt; simpl in Hlt; lia].
  destruct (updated_messages_spec clk (length applied) (messages channel) index
              a tm tu l Hidx Hl) as (Hat & Hothers & Hlast & Hmore).
  set (msgs' := updated_messages clk (length applied) (messages channel) index
                                 a tm tu) in *.
  assert (Htm' : set_status tm (internal_status tu)
                   (if truthy (content tu) then content tu else None)
                 = {| tool_call_id := tool_call_id tm;
                      internal_status := internal_status tu;
                      status := EXTERNAL_STATUS_MAPPING (internal_status tu);
                      content := if truthy (content tu)
                                 then content tu else content tm |}).
  { unfold set_status. f_equal.
    destruct (content tu) as [c|]; simpl; [|reflexivity].
    destruct (negb (String.eqb c "")); reflexivity. }
  rewrite Htm' in Hat.
  eexists channel, a, tm, l, _, (set_messages channel msgs'), _.
  split; [exact Hch|]. split; [exact Hidx|]. split; [exact Htm|].
  split; [exact Hl|]. split; [exact Happ|]. split.
  { unfold history_reducer, apply_internal_updates. rewrite Hchan.
    cbn [bind]. fold (after_channels left1 right).
    destruct (tool_updates right) as [|x xs] eqn:Hne;
      [now destruct applied|].
    rewrite Hloc. cbn [bind].
    rewrite Htus, apply_tool_updates_app, Happlied.
    cbn [bind]. rewrite Nat.add_0_l. cbn [apply_tool_updates].
    rewrite Happ. reflexivity. }
  split; [reflexivity|]. split.
  { cbn [channels set_channels]. apply dict_keys_set_present. congruence. }
  split.
  { intros other Hne. cbn [channels set_channels].
    now rewrite dict_get_set_ne. }
  split; [cbn [channels set_channels]; apply dict_get_set_eq|].
  split; [repeat split|].
  split; [exact Hothers|]. split; [exact Hat|].
  split; [repeat split|]. split.
  { cbn [internal_tool_messages set_tool_message].
    apply dict_keys_set_present. congruence. }
  split.
  { intros other Hne. cbn [internal_tool_messages set_tool_message].
    now rewrite dict_get_set_ne. }
  split; [cbn [internal_tool_messages set_tool_message]; apply dict_get_set_eq|].
  split; [exact Hlast | exact Hmore].
Qed.

Lemma s1_followed_wf : wf_history s1_followed.
Proof.
  split; simpl.
  - repeat constructor.
  - repeat constructor. intros H. inversion H.
Qed.

(** S1 with a request that follows in the same operand, and two updates
    of the call: confirmed, then running.  The second update finds the
    Agent message at index 1 of four messages, the last one dated 5, while
    its clock reads 7. *)
Lemma tool_update_transient_message_witness :
  let applied := [tool_update_for "t1" Confirmed None] in
  let tu := tool_update_for "t1" Processing (Some "running") in
  let right :=
    {| channel_updates := [("c1", only_new_messages [human_at "and y" 5])];
       upd_current_channel := None;
       tool_updates := applied ++ [tu] |} in
  exists left1 positions before,
    apply_all_channel_updates clock7 s1_history (channel_updates right)
    = Ok left1
    /\ locate_tool_calls clock7 2 (after_channels left1 right)
         (map tool_call_id (tool_updates right)) = Ok positions
    /\ apply_tool_updates clock7 positions 0 (after_channels left1 right)
                          applied = Ok before
    /\ dict_get "t1" positions = Some (Some ("c1", 1%nat))
    /\ exists channel a tm l after channel' a',
         dict_get "c1" (channels before) = Some channel
         /\ messages channel !! 1%nat = Some (AI a)
         /\ dict_get "t1" (internal_tool_messages a) = Some tm
         /\ last (messages channel) = Some l
         /\ apply_tool_update clock7 positions 1 before tu = Ok after
         /\ history_reducer clock7 2 s1_history (Updates right)
            = apply_tool_updates clock7 positions 2 after []
         /\ current_channel after = current_channel before
         /\ dict_keys (channels after) = dict_keys (channels before)
         /\ (forall other,
               other <> "c1" ->
               dict_get other (channels after)
               = dict_get other (channels before))
         /\ dict_get "c1" (channels after) = Some channel'
         /\ (ch_id channel' = ch_id channel
             /\ ch_name channel' = ch_name channel
             /\ channel_type channel' = channel_type channel
             /\ wakeup_url channel' = wakeup_url channel
             /\ summaries channel' = summaries channel
             /\ last_activity channel' = last_activity channel
             /\ max_summary_date channel' = max_summary_date channel
             /\ no_reactive_tool_call_before channel'
                = no_reactive_tool_call_before channel
             /\ no_temporary_message_before channel'
                = no_temporary_message_before channel)
         /\ (forall i,
               i <> 1%nat -> (i < length (messages channel))%nat ->
               messages channel' !! i = messages channel !! i)
         /\ messages channel' !! 1%nat = Some (AI a')
         /\ (ai_content a' = ai_content a
             /\ ai_date a' = ai_date a
             /\ ai_summary a' = ai_summary a
             /\ activity a' = activity a
             /\ tool_calls a' = tool_calls a)
         /\ dict_keys (internal_tool_messages a')
            = dict_keys (internal_tool_messages a)
         /\ (forall other,
               other <> "t1" ->
               dict_get other (internal_tool_messages a')
               = dict_get other (internal_tool_messages a))
         /\ dict_get "t1" (internal_tool_messages a')
            = Some {| tool_call_id := "t1";
                      internal_status := Processing;
                      status := Error;
                      content := Some "running" |}
         /\ (2%nat = length (messages channel) ->
             length (messages channel') = length (messages channel))
         /\ ((2 < length (messages channel))%nat ->
             length (messages channel') = 5%nat
             /\ messages channel' !! 4%nat
                = Some (System
                          {| s_content := "#toolupdated#t1";
                             s_date := 7;
                             s_summary := None; s_author := None;
                             lifespan := Some 1 |})).
Proof.
  intros applied tu right.
  eexists _, _, _.
  split; [vm_compute; reflexivity|].
  split; [vm_compute; reflexivity|].
  split; [vm_compute; reflexivity|].
  split; [reflexivity|].
  destruct (tool_update_transient_message clock7 2%nat s1_history right _ _
              applied tu [] _ "c1" 1%nat s1_history_wf
              ltac:(vm_compute; reflexivity) ltac:(simpl; lia) eq_refl
              ltac:(vm_compute; reflexivity) ltac:(vm_compute; reflexivity)
              eq_refl)
    as (channel & a & tm & l & after & channel' & a' & Hch & Hidx & Htm & Hl
        & Happ & Hred & Hcur & Hkeys & Hother & Hch' & Hfields & Hrest & Hat
        & Hsame & Hstates & Hothers & Hstate & Hlast & Hmore).
  vm_compute in Hch. injection Hch as <-.
  vm_compute in Hidx. injection Hidx as <-.
  vm_compute in Htm. injection Htm as <-.
  vm_compute in Hl. injection Hl as <-.
  vm_compute in Happ. injection Happ as <-.
  vm_compute in Hch'. injection Hch' as <-.
  vm_compute in Hat. injection Hat as <-.
  eexists _, _, _, _, _, _, _.
  split; [reflexivity|]. split; [reflexivity|]. split; [reflexivity|].
  split; [reflexivity|]. split; [reflexivity|]. split; [exact Hred|].
  split; [exact Hcur|]. split; [exact Hkeys|]. split; [exact Hother|].
  split; [reflexivity|]. split; [exact Hfields|]. split; [exact Hrest|].
  split; [reflexivity|]. split; [exact Hsame|]. split; [exact Hstates|].
  split; [exact Hothers|]. split; [exact Hstate|].
  split; [exact Hlast | exact Hmore].
Defined.

(** S1, the confirmation: the Agent message is last and nothing is
    appended; with a later message, the transient message is dated as that
    message although the clock reads 0. *)
Example confirmation_appends_nothing :
  exists left',
    history_reducer clock0 2 s1_history
      (Updates (only_tool_updates [tool_update_for "t1" Confirmed None]))
    = Ok left'
    /\ map (fun kv => map date (messages (snd kv))) (channels left') = [[0; 1]].
Proof. eexists. split; [vm_compute; reflexivity | reflexivity]. Qed.

Example confirmation_appends_transient :
  exists left',
    history_reducer clock0 2 s1_followed
      (Updates (only_tool_updates [tool_update_for "t1" Confirmed None]))
    = Ok left'
    /\ map (fun kv => map date (messages (snd kv))) (channels left')
       = [[0; 1; 5; 5]]
    /\ map (fun kv => last (messages (snd kv))) (channels left')
       = [Some (toolupdated_message "t1" 5)].
Proof. eexists. split; [vm_compute; reflexivity | split; reflexivity]. Qed.

(** ** [assemble_messages] with [max_size = 0] *)

(** C9, as stated, fails: a message without text costs nothing, so it is
    kept under a budget of zero although [min_message] is zero. *)
Lemma assemble_zero_budget_keeps_empty_message :
  assemble_messages 0 [human_at "" 1] [] 0 true 0 0 None None None
  = Ok [Msg (human_at "" 1)]
  /\ ~ (Z.of_nat (length [Msg (human_at "" 1)]) <= 0).
Proof. split; [vm_compute; reflexivity | simpl; lia]. Qed.

(** A message without text is not always kept: the count is not lowered
    when the message that exceeded the budget is taken back, and the empty
    message that comes next is taken back too, although [min_message]
    asks for five. *)
Example assemble_zero_budget_drops_empty_message :
  assemble_messages 1 [human_at "" 1; human_at "x" 2] [] 0 true 0 5
                    None None None
  = Ok [].
Proof. vm_compute. reflexivity. Qed.

Lemma below_le_all sums d : (below sums d <= length (all_summaries sums))%nat.
Proof. unfold below. apply List.filter_length_le. Qed.

Lemma below_lt sums c d :
  In c (all_summaries sums) -> min_date c < d ->
  (below sums (min_date c) < below sums d)%nat.
Proof.
  unfold below. generalize (all_summaries sums) as l.
  intros l Hin Hlt.
  assert (Hle : forall l' : list Summary,
             (length (List.filter (fun s => (min_date s <? min_date c)%Z) l')
              <= length (List.filter (fun s => (min_date s <? d)%Z) l'))%nat).
  { induction l' as [|s l' IH]; simpl; [lia|].
    destruct (min_date s <? min_date c) eqn:H1.
    - apply Z.ltb_lt in H1.
      assert (H2 : (min_date s <? d) = true) by (apply Z.ltb_lt; lia).
      rewrite H2. simpl. lia.
    - destruct (min_date s <? d); simpl; lia. }
  induction l as [|s l IH]; [destruct Hin|]. simpl.
  destruct Hin as [->|Hin].
  - rewrite Z.ltb_irrefl.
    assert (H2 : (min_date c <? d) = true) by (apply Z.ltb_lt; lia).
    rewrite H2. simpl. specialize (Hle l). lia.
  - specialize (IH Hin).
    destruct (min_date s <? min_date c) eqn:H1.
    + apply Z.ltb_lt in H1.
      assert (H2 : (min_date s <? d) = true) by (apply Z.ltb_lt; lia).
      rewrite H2. simpl. lia.
    + destruct (min_date s <? d); simpl; lia.
Qed.

Lemma candidates_in_all (sums : list (Z * list Summary)) k cands c :
  dict_get k sums = Some cands -> In c cands -> In c (all_summaries sums).
Proof.
  intros Hget Hin. apply dict_get_In in Hget.
  unfold all_summaries. apply in_flat_map. exists (k, cands). auto.
Qed.

Lemma wf_summaries_get sums k cands :
  wf_summaries sums -> dict_get k sums = Some cands ->
  cands <> []
  /\ forall c, In c cands -> max_date c = k /\ min_date c <= max_date c.
Proof.
  intros Hwf Hget. apply dict_get_In, list_elem_of_In in Hget.
  unfold wf_summaries in Hwf. rewrite Forall_forall in Hwf.
  destruct (Hwf _ Hget) as [Hne Hall]. simpl in *. split; [exact Hne|].
  intros c Hc. rewrite Forall_forall in Hall. apply Hall.
  now apply list_elem_of_In.
Qed.

(** One pass of the backtracking over a single assembled item. *)
Lemma sweep_singleton use_summary sums count x :
  sweep use_summary sums [x] (count, [x], false)
  = match dict_get (item_end x) sums with
    | None => Ok (count, [x], false)
    | Some cands =>
        match List.find (fun c => min_date c <? item_start x) cands with
        | None => Ok (count, [x], false)
        | Some c =>
            if in_timeframe c x
            then Ok (count - (0 + _count_message_size x use_summary)
                       + len (summary c),
                     [Sum c], true)
            else Raise ValueError_no_index
        end
    end.
Proof.
  simpl. unfold sweep_item.
  destruct (dict_get (item_end x) sums) as [cands|]; [|reflexivity].
  destruct (List.find _ cands) as [c|]; [|reflexivity].
  simpl. destruct (in_timeframe c x); reflexivity.
Qed.

(** With a budget of zero and a single assembled item of positive size,
    the backtracking ends on a single item of positive size, or raises
    when a candidate does not cover the item it is tried for. *)
Lemma backtrack_singleton use_summary sums :
  positive_summaries sums ->
  forall fuel x base,
    0 <= base ->
    0 < _count_message_size x use_summary ->
    (below sums (item_start x) < fuel)%nat ->
    match backtrack fuel use_summary sums 0
                    (base + _count_message_size x use_summary) [x] with
    | Ok r =>
        exists y, snd r = [y]
                  /\ fst r = base + _count_message_size y use_summary
                  /\ 0 < _count_message_size y use_summary
    | Raise e => ~ (wf_summaries sums /\ wf_item x)
    | OutOfFuel => False
    end.
Proof.
  intros Hpos. induction fuel as [|fuel IH]; intros x base Hbase Hx Hfuel;
    [lia|].
  cbn [backtrack rev app].
  assert (Hgt : (0 <? base + _count_message_size x use_summary) = true)
    by (apply Z.ltb_lt; lia).
  rewrite Hgt. rewrite sweep_singleton.
  destruct (dict_get (item_end x) sums) as [cands|] eqn:Hget;
    [|simpl; eauto].
  destruct (List.find _ cands) as [c|] eqn:Hfind; [|simpl; eauto].
  apply List.find_some in Hfind as [Hc Hlt]. apply Z.ltb_lt in Hlt.
  pose proof (candidates_in_all sums _ _ _ Hget Hc) as Hall.
  destruct (in_timeframe c x) eqn:Hin.
  - simpl.
    assert (Hc_pos : 0 < _count_message_size (Sum c) use_summary).
    { unfold positive_summaries in Hpos. rewrite Forall_forall in Hpos.
      apply (Hpos c). now apply list_elem_of_In. }
    replace (base + _count_message_size x use_summary
             - (0 + _count_message_size x use_summary) + len (summary c))
      with (base + _count_message_size (Sum c) use_summary)
      by (simpl; lia).
    specialize (IH (Sum c) base Hbase Hc_pos).
    pose proof (below_lt sums c (item_start x) Hall Hlt) as Hdec.
    simpl item_start in IH. specialize (IH ltac:(lia)).
    destruct (backtrack fuel use_summary sums 0
                (base + _count_message_size (Sum c) use_summary) [Sum c])
      as [r|e|]; auto.
    intros [Hwf Hitem]. apply IH. split; [exact Hwf|].
    destruct (wf_summaries_get sums _ _ Hwf Hget) as [_ Hcands].
    unfold wf_item. simpl. apply (Hcands c Hc).
  - simpl. intros [Hwf Hitem].
    destruct (wf_summaries_get sums _ _ Hwf Hget) as [_ Hcands].
    destruct (Hcands c Hc) as [Hmax Hmin].
    unfold in_timeframe in Hin. unfold wf_item in Hitem.
    apply andb_false_iff in Hin as [Hin|Hin]; apply Z.leb_gt in Hin; lia.
Qed.

Lemma py_index_lt {A : Type} (l : list A) i n :
  py_index l i = Some n -> (n < length l)%nat.
Proof.
  unfold py_index.
  destruct ((0 <=? i) && (i <? Z.of_nat (length l))) eqn:H1.
  - intros [= <-]. apply andb_true_iff in H1 as [Ha Hb].
    apply Z.leb_le in Ha. apply Z.ltb_lt in Hb. lia.
  - destruct ((i <? 0) && (- Z.of_nat (length l) <=? i)) eqn:H2; [|discriminate].
    intros [= <-]. apply andb_true_iff in H2 as [Ha Hb].
    apply Z.ltb_lt in Ha. apply Z.leb_le in Hb. lia.
Qed.

Lemma py_index_in_range {A : Type} (l : list A) i :
  0 <= i < Z.of_nat (length l) -> py_index l i = Some (Z.to_nat i).
Proof.
  intros [Ha Hb]. unfold py_index.
  apply Z.leb_le in Ha. apply Z.ltb_lt in Hb. now rewrite Ha, Hb.
Qed.

(** The end of the loop body, once [x] has been chosen: for a budget of
    zero, nothing is left assembled. *)
Lemma assemble_tail_zero use_summary sums fuel x base min_message' min_date' :
  positive_summaries sums ->
  0 <= base ->
  0 < _count_message_size x use_summary ->
  (length (all_summaries sums) < fuel)%nat ->
  match
    (do r <- backtrack fuel use_summary sums 0
               (base + _count_message_size x use_summary) [x];
     if 0 <? fst r then
       match snd r with
       | [] => Raise IndexError
       | _ :: _ =>
           Ok {| character_count := fst r; assembled := removelast (snd r);
                 st_min_message := min_message'; st_min_date := min_date' |}
       end
     else
       Ok {| character_count := fst r; assembled := snd r;
             st_min_message := min_message'; st_min_date := min_date' |})
  with
  | Ok st' => assembled st' = [] /\ 0 <= character_count st'
  | Raise e => ~ (wf_summaries sums /\ wf_item x)
  | OutOfFuel => False
  end.
Proof.
  intros Hpos Hbase Hx Hfuel.
  pose proof (backtrack_singleton use_summary sums Hpos fuel x base Hbase Hx)
    as Hb.
  pose proof (below_le_all sums (item_start x)) as Hle.
  specialize (Hb ltac:(lia)).
  destruct (backtrack fuel use_summary sums 0
              (base + _count_message_size x use_summary) [x]) as [r|e|];
    cbn [bind]; [|exact Hb|exact Hb].
  destruct Hb as (y & Hy & Hcount & Hypos).
  assert (Hgt : (0 <? fst r) = true) by (apply Z.ltb_lt; lia).
  rewrite Hgt, Hy. simpl. split; [reflexivity | lia].
Qed.

Lemma assemble_step_zero use_summary sums rank fuel st min_date' msg :
  positive_summaries sums ->
  0 < _count_message_size (Msg msg) use_summary ->
  assembled st = [] ->
  0 <= character_count st ->
  (length (all_summaries sums) < fuel)%nat ->
  match assemble_step fuel sums rank use_summary 0 st min_date' msg with
  | Ok st' => assembled st' = [] /\ 0 <= character_count st'
  | Raise e => ~ (wf_summaries sums /\ 0 <= rank)
  | OutOfFuel => False
  end.
Proof.
  intros Hpos Hmsg Hnil Hcount Hfuel. unfold assemble_step. rewrite Hnil.
  cbn [app].
  destruct (if st_min_message st =? 0 then dict_get (date msg) sums else None)
    as [cands|] eqn:Hcands.
  - assert (Hget : dict_get (date msg) sums = Some cands)
      by (destruct (st_min_message st =? 0); [exact Hcands | discriminate]).
    destruct (py_index cands (Z.min rank (Z.of_nat (length cands) - 1)))
      as [i|] eqn:Hi.
    + pose proof (py_index_lt _ _ _ Hi) as Hlt.
      destruct (cands !! i) as [s|] eqn:Hs;
        [|apply lookup_ge_None in Hs; lia].
      cbn [bind fst snd].
      assert (Hin : In s cands)
        by (apply list_elem_of_In; eapply list_elem_of_lookup_2; eauto).
      assert (Hs_pos : 0 < _count_message_size (Sum s) use_summary).
      { unfold positive_summaries in Hpos. rewrite Forall_forall in Hpos.
        apply (Hpos s). apply list_elem_of_In.
        eapply candidates_in_all; eauto. }
      pose proof (assemble_tail_zero use_summary sums fuel (Sum s)
                    (character_count st) (st_min_message st) min_date'
                    Hpos Hcount Hs_pos Hfuel) as Htail.
      match type of Htail with
      | match ?e with _ => _ end =>
          match goal with
          | |- match ?g with _ => _ end => change g with e
          end
      end.
      destruct (bind _ _) as [st'|e|]; auto.
      intros [Hwf Hrank]. apply Htail. split; [exact Hwf|].
      destruct (wf_summaries_get sums _ _ Hwf Hget) as [_ Hall].
      unfold wf_item. simpl. apply (Hall s Hin).
    + cbn [bind]. intros [Hwf Hrank].
      destruct (wf_summaries_get sums _ _ Hwf Hget) as [Hne _].
      assert (Hlen : (0 < length cands)%nat)
        by (destruct cands; [congruence | simpl; lia]).
      rewrite py_index_in_range in Hi; [discriminate | lia].
  - cbn [bind fst snd].
    pose proof (assemble_tail_zero use_summary sums fuel (Msg msg)
                  (character_count st)
                  (if 0 <? st_min_message st
                   then st_min_message st - 1 else st_min_message st)
                  min_date' Hpos Hcount Hmsg Hfuel) as Htail.
    match type of Htail with
    | match ?e with _ => _ end =>
        match goal with
        | |- match ?g with _ => _ end => change g with e
        end
    end.
    destruct (bind _ _) as [st'|e|]; auto.
    intros [Hwf Hrank]. apply Htail. split; [exact Hwf|].
    unfold wf_item. simpl. lia.
Qed.

Lemma assemble_loop_zero use_summary sums rank fuel max_message max_date :
  positive_summaries sums ->
  (length (all_summaries sums) < fuel)%nat ->
  forall todo st,
    positive_messages use_summary todo ->
    assembled st = [] ->
    0 <= character_count st ->
    match assemble_loop fuel sums rank use_summary 0 max_message max_date
                        todo st with
    | Ok result => result = []
    | Raise e => ~ (wf_summaries sums /\ 0 <= rank)
    | OutOfFuel => False
    end.
Proof.
  intros Hpos Hfuel. induction todo as [|msg todo IH];
    intros st Htodo Hnil Hcount; simpl.
  - exact Hnil.
  - inversion Htodo as [|m l Hmsg Hrest]; subst.
    destruct (gate msg (assembled st) (st_min_message st) max_message
                   (st_min_date st) max_date) as [| |min_date'].
    + now apply IH.
    + exact Hnil.
    + pose proof (assemble_step_zero use_summary sums rank fuel st min_date'
                    msg Hpos Hmsg Hnil Hcount Hfuel) as Hstep.
      destruct (assemble_step fuel sums rank use_summary 0 st min_date' msg)
        as [st'|e|]; cbn [bind]; [|exact Hstep|exact Hstep].
      destruct Hstep as [Hnil' Hcount']. now apply IH.
Qed.

(** C9, amended. When every message counts for at least one character and
    every summary has a text, [assemble_messages] with [max_size = 0] ends
    (within the fuel of one backtracking round per stored summary, plus
    one) and whatever it returns is the empty list, so at most
    [min_message] items for [min_message >= 0]; on summaries stored as the
    reducer stores them and a non-negative [summary_rank_threshold] it
    does return. *)
Theorem assemble_zero_budget_returns_nothing :
  forall fuel msgs sums rank use_summary min_message max_message
         min_date max_date,
    positive_messages use_summary msgs ->
    positive_summaries sums ->
    (length (all_summaries sums) < fuel)%nat ->
    let run := assemble_messages fuel msgs sums rank use_summary 0 min_message
                                 max_message min_date max_date in
    run <> OutOfFuel
    /\ (forall result,
          run = Ok result ->
          result = []
          /\ (0 <= min_message -> Z.of_nat (length result) <= min_message))
    /\ (wf_summaries sums -> 0 <= rank -> run = Ok []).
Proof.
  intros fuel msgs sums rank use_summary min_message max_message
         min_date max_date Hmsgs Hsums Hfuel run.
  assert (Hrev : positive_messages use_summary (rev msgs)).
  { unfold positive_messages in *. rewrite Forall_forall in *.
    intros m Hm. apply Hmsgs. apply list_elem_of_In in Hm.
    apply list_elem_of_In. now apply in_rev. }
  pose proof (assemble_loop_zero use_summary sums rank fuel max_message max_date
                Hsums Hfuel (rev msgs)
                {| character_count := 0; assembled := [];
                   st_min_message := min_message; st_min_date := min_date |}
                Hrev eq_refl ltac:(simpl; lia)) as Hloop.
  subst run. unfold assemble_messages.
  destruct (assemble_loop _ _ _ _ _ _ _ _ _) as [result|e|]; cbn [bind].
  - subst result. simpl. split; [discriminate|]. split.
    + intros result [= <-]. split; [reflexivity | simpl; lia].
    + reflexivity.
  - split; [discriminate|]. split; [discriminate|].
    intros Hwf Hrank. exfalso. apply Hloop. auto.
  - contradiction.
Qed.

Lemma assemble_zero_budget_returns_nothing_witness :
  positive_messages true sample_messages
  /\ positive_summaries sample_summaries
  /\ let run := assemble_messages 2 sample_messages sample_summaries 0 true 0 1
                                  None None None in
     run <> OutOfFuel
     /\ (forall result,
           run = Ok result ->
           result = []
           /\ (0 <= 1 -> Z.of_nat (length result) <= 1))
     /\ (wf_summaries sample_summaries -> 0 <= 0 -> run = Ok []).
Proof.
  assert (Hm : positive_messages true sample_messages)
    by (repeat constructor).
  assert (Hs : positive_summaries sample_summaries)
    by (repeat constructor).
  split; [exact Hm|]. split; [exact Hs|].
  apply (assemble_zero_budget_returns_nothing 2%nat sample_messages
           sample_summaries 0 true 1 None None None Hm Hs).
  simpl. lia.
Defined.

(** The summary is tried in place of the second message, then the first
    message, and each is dropped in turn. *)
Example assemble_zero_budget_sample :
  wf_summaries sample_summaries
  /\ assemble_messages 2 sample_messages sample_summaries 0 true 0 0
                       None None None = Ok []
  /\ assemble_messages 2 sample_messages sample_summaries 0 true 0 1
                       None None None = Ok [].
Proof.
  split; [|split; vm_compute; reflexivity].
  unfold wf_summaries. simpl. repeat constructor; simpl; try lia.
  discriminate.
Qed.

(* ===================================================================== *)
(** * Further properties *)

(** ** The thread of tool requests *)

Lemma existsb_same_request_ids request pending :
  existsb (same_request request) pending = true
  <-> In (tc_id (tool_call request))
         (map (fun q => tc_id (tool_call q)) pending).
Proof.
  rewrite existsb_exists, in_map_iff. unfold same_request. split.
  - intros (q & Hq & Heq). apply String.eqb_eq in Heq. eauto.
  - intros (q & Heq & Hq). exists q. split; [exact Hq|].
    apply String.eqb_eq. congruence.
Qed.

Lemma NoDup_map_filter {A B : Type} (f : A -> B) (p : A -> bool) (l : list A) :
  NoDup (map f l) -> NoDup (map f (List.filter p l)).
Proof.
  induction l as [|x l IH]; simpl; intros Hnd; [exact Hnd|].
  apply NoDup_cons in Hnd as [Hx Hnd].
  destruct (p x); simpl; [|auto].
  apply NoDup_cons. split; [|auto].
  intros Hin. apply Hx. apply list_elem_of_In in Hin. apply list_elem_of_In.
  apply in_map_iff in Hin as (y & Hy & Hin). apply in_map_iff.
  exists y. split; [exact Hy|]. apply filter_In in Hin. tauto.
Qed.

(** X1. The pending requests of a thread have pairwise distinct tool-call
    ids, whatever requests were added, finished or drained: a request whose
    id is already pending does not add a second entry. *)
Theorem pending_requests_distinct :
  forall self, reachable_thread self -> NoDup (pending_ids self).
Proof.
  unfold pending_ids. induction 1; simpl.
  - constructor.
  - destruct (existsb (same_request request) (pending_requests self)) eqn:He;
      [exact IHreachable_thread|].
    rewrite map_app. simpl. apply NoDup_app. split; [exact IHreachable_thread|].
    split; [|apply NoDup_singleton].
    intros x Hx Hx'. apply list_elem_of_singleton in Hx' as ->.
    apply list_elem_of_In in Hx.
    apply existsb_same_request_ids in Hx. congruence.
  - now apply NoDup_map_filter.
  - now apply NoDup_map_filter.
  - exact IHreachable_thread.
Qed.

Lemma pending_requests_distinct_witness :
  reachable_thread sample_thread /\ NoDup (pending_ids sample_thread).
Proof.
  split; [exact sample_thread_reachable|].
  apply (pending_requests_distinct sample_thread sample_thread_reachable).
Defined.

(** X2. Every terminal response of a thread is [completed] with a tool
    message of status [success], or [failed] with one of status [error];
    none is [processing]. *)
Theorem terminal_status_agrees :
  forall self, reachable_thread self ->
               Forall status_agrees (terminal_responses self).
Proof.
  induction 1; simpl; auto.
  - apply Forall_app. split; [exact IHreachable_thread|].
    constructor; [|constructor]. unfold status_agrees. simpl.
    destruct (tm_status result); auto.
  - apply Forall_app. split; [exact IHreachable_thread|].
    constructor; [|constructor]. right. split; reflexivity.
Qed.

Lemma terminal_status_agrees_witness :
  reachable_thread sample_thread
  /\ Forall status_agrees (terminal_responses sample_thread).
Proof.
  split; [exact sample_thread_reachable|].
  apply (terminal_status_agrees sample_thread sample_thread_reachable).
Defined.

(** X3. Adding a request whose id is not pending and then finishing it
    leaves the pending requests as they were and puts its response last
    among the terminal ones. *)
Theorem add_then_finish :
  forall self request response,
    existsb (same_request request) (pending_requests self) = false ->
    pending_requests (finish_request (add_request self request) request response)
    = pending_requests self
    /\ terminal_responses
         (finish_request (add_request self request) request response)
       = terminal_responses self ++ [response].
Proof.
  intros self request response Hfresh. split; [|reflexivity].
  unfold finish_request, add_request. simpl. rewrite Hfresh.
  rewrite List.filter_app. simpl.
  assert (Hself : same_request request request = true)
    by (apply String.eqb_eq; reflexivity).
  rewrite Hself. simpl. rewrite app_nil_r.
  induction (pending_requests self) as [|q l IH]; simpl; [reflexivity|].
  simpl in Hfresh. apply orb_false_iff in Hfresh as [Hq Hl].
  rewrite Hq. simpl. now rewrite IH.
Qed.

Lemma add_then_finish_witness :
  pending_requests
    (finish_request (add_request sample_thread (sample_request "t3" 4))
       (sample_request "t3" 4) (response_for "t3" MCP_completed "ok"))
  = pending_requests sample_thread
  /\ terminal_responses
       (finish_request (add_request sample_thread (sample_request "t3" 4))
          (sample_request "t3" 4) (response_for "t3" MCP_completed "ok"))
     = terminal_responses sample_thread ++ [response_for "t3" MCP_completed "ok"].
Proof.
  apply (add_then_finish sample_thread (sample_request "t3" 4)
           (response_for "t3" MCP_completed "ok")).
  reflexivity.
Defined.

(** ** More on [locate_tool_calls] *)

(** X4. On a history whose channels are stored under their own ids, the
    search returns within one iteration per channel plus one; every
    requested id is a key of the result; every location found is that of
    an Agent message of the history that holds a tool state for the id;
    an id that no channel holds is mapped to [None]. *)
Theorem locate_tool_calls_sound :
  forall clk fuel h ids,
    wf_history h ->
    (length (channels h) < fuel)%nat ->
    exists results,
      locate_tool_calls clk fuel h ids = Ok results
      /\ (forall tid, In tid ids -> dict_get tid results <> None)
      /\ (forall tid channel_id index,
            dict_get tid results = Some (Some (channel_id, index)) ->
            exists channel a,
              dict_get channel_id (channels h) = Some channel
              /\ messages channel !! index = Some (AI a)
              /\ dict_get tid (internal_tool_messages a) <> None)
      /\ (forall tid, In tid ids -> absent tid h ->
                      dict_get tid results = Some None).
Proof.
  intros clk fuel h ids Hwf Hfuel.
  destruct (locate_tool_calls_spec clk fuel h ids Hwf Hfuel)
    as (results & Hres & Hok & Hkeys & Habs).
  exists results. split; [exact Hres|]. split; [exact Hkeys|].
  split; [exact Hok | exact Habs].
Qed.

Lemma locate_tool_calls_sound_witness :
  exists results,
    locate_tool_calls clock0 2 s1_history ["t1"; "t9"] = Ok results
    /\ (forall tid, In tid ["t1"; "t9"] -> dict_get tid results <> None)
    /\ (forall tid channel_id index,
          dict_get tid results = Some (Some (channel_id, index)) ->
          exists channel a,
            dict_get channel_id (channels s1_history) = Some channel
            /\ messages channel !! index = Some (AI a)
            /\ dict_get tid (internal_tool_messages a) <> None)
    /\ (forall tid, In tid ["t1"; "t9"] -> absent tid s1_history ->
                    dict_get tid results = Some None).
Proof.
  apply (locate_tool_calls_sound clock0 2%nat s1_history ["t1"; "t9"]).
  - exact s1_history_wf.
  - simpl. lia.
Defined.

(** *** Every held id is found *)

Lemma In_remove_first_ne (tid k : string) q :
  tid <> k -> In tid q -> In tid (remove_first k q).
Proof.
  intros Hne. induction q as [|x q IH]; simpl; [tauto|].
  destruct (decide (k = x)) as [->|Hx].
  - intros [H|H]; [congruence | exact H].
  - intros [H|H]; [now left | right; auto].
Qed.

Section Found.
Variable tid : string.

Lemma scan_key_found channel_id index st k :
  (located tid (snd st) -> located tid (snd (scan_key channel_id index st k)))
  /\ (pending_or_located tid st ->
      pending_or_located tid (scan_key channel_id index st k))
  /\ (pending_or_located tid st -> k = tid ->
      located tid (snd (scan_key channel_id index st k))).
Proof.
  unfold scan_key, in_queue, pending_or_located, located.
  destruct (bool_decide (k ∈ fst st)) eqn:Hk; simpl.
  - apply bool_decide_eq_true in Hk. repeat split.
    + intros (loc & Hloc). rewrite dict_get_set.
      destruct (decide (k = tid)); eauto.
    + intros [Hin|(loc & Hloc)].
      * destruct (decide (k = tid)) as [->|Hne].
        -- right. rewrite dict_get_set_eq. eauto.
        -- left. apply In_remove_first_ne; auto.
      * right. rewrite dict_get_set. destruct (decide (k = tid)); eauto.
    + intros _ ->. rewrite dict_get_set_eq. eauto.
  - apply bool_decide_eq_false in Hk. repeat split; auto.
    intros [Hin|Hloc] ->; [|exact Hloc].
    exfalso. apply Hk. now apply list_elem_of_In.
Qed.

Lemma fold_scan_key_found channel_id index keys st :
  (located tid (snd st) ->
   located tid (snd (fold_left (scan_key channel_id index) keys st)))
  /\ (pending_or_located tid st ->
      pending_or_located tid (fold_left (scan_key channel_id index) keys st))
  /\ (pending_or_located tid st -> In tid keys ->
      located tid (snd (fold_left (scan_key channel_id index) keys st))).
Proof.
  revert st. induction keys as [|k keys IH]; intros st; simpl.
  - repeat split; auto. intros _ [].
  - destruct (scan_key_found channel_id index st k) as (H1 & H2 & H3).
    destruct (IH (scan_key channel_id index st k)) as (I1 & I2 & I3).
    repeat split; auto.
    intros Hp [->|Hin]; auto.
Qed.

Lemma scan_message_found channel_id index st m :
  (located tid (snd st) -> located tid (snd (scan_message channel_id index st m)))
  /\ (pending_or_located tid st ->
      pending_or_located tid (scan_message channel_id index st m))
  /\ (pending_or_located tid st ->
      (exists a, m = AI a /\ tool_calls a <> []
                 /\ In tid (dict_keys (internal_tool_messages a))) ->
      located tid (snd (scan_message channel_id index st m))).
Proof.
  unfold scan_message. destruct m as [hm|a|sm].
  - repeat split; auto. intros _ (a & Ha & _). discriminate.
  - destruct (tool_calls a) as [|tc tcs] eqn:Htc.
    + repeat split; auto. intros _ (a' & [= <-] & Hne & _). congruence.
    + destruct (fold_scan_key_found channel_id index
                  (dict_keys (internal_tool_messages a)) st) as (H1 & H2 & H3).
      repeat split; auto.
      intros Hp (a' & [= <-] & _ & Hin). auto.
  - repeat split; auto. intros _ (a & Ha & _). discriminate.
Qed.

Lemma scan_messages_found channel_id msgs index st :
  (located tid (snd st) ->
   located tid (snd (scan_messages channel_id index msgs st)))
  /\ (pending_or_located tid st ->
      pending_or_located tid (scan_messages channel_id index msgs st))
  /\ (pending_or_located tid st ->
      (exists j a, msgs !! j = Some (AI a) /\ tool_calls a <> []
                   /\ In tid (dict_keys (internal_tool_messages a))) ->
      located tid (snd (scan_messages channel_id index msgs st))).
Proof.
  revert index st. induction msgs as [|m msgs IH]; intros index st; simpl.
  - repeat split; auto. intros _ (j & a & Hj & _). destruct j; discriminate.
  - destruct (scan_message_found channel_id index st m) as (H1 & H2 & H3).
    destruct (IH (S index) (scan_message channel_id index st m))
      as (I1 & I2 & I3).
    repeat split; auto.
    intros Hp (j & a & Hj & Hne & Hin). destruct j as [|j]; simpl in Hj.
    + apply I1, H3; [exact Hp|]. injection Hj as ->. eauto.
    + apply I3; [auto|]. eauto.
Qed.

Lemma next_channel_None chans checked :
  next_channel chans checked = None ->
  forall k c, In (k, c) chans -> In k checked.
Proof.
  unfold next_channel.
  assert (Hgen : forall cur,
             fold_left
               (fun cur kv =>
                  if bool_decide (fst kv ∈ checked) then cur
                  else match cur with
                       | None => Some (snd kv)
                       | Some c0 =>
                           if last_activity c0 <? last_activity (snd kv)
                           then Some (snd kv) else cur
                       end) chans cur = None ->
             cur = None /\ forall k c, In (k, c) chans -> In k checked).
  { induction chans as [|[k0 c0] chans IH]; intros cur; simpl.
    - intros ->. split; [reflexivity | intros k c []].
    - intros H. apply IH in H as [Hcur Hall].
      destruct (bool_decide (k0 ∈ checked)) eqn:Hk.
      + apply bool_decide_eq_true, list_elem_of_In in Hk.
        split; [exact Hcur|]. intros k c [[= <- <-]|Hin]; eauto.
      + destruct cur as [c1|]; [|discriminate].
        destruct (last_activity c1 <? last_activity c0); discriminate. }
  intros H. now apply Hgen in H as [_ H].
Qed.

Lemma locate_loop_finds h :
  wf_history h ->
  forall fuel cur checked st res,
    (forall c, dict_get (ch_id cur) (channels h) = Some c -> c = cur) ->
    pending_or_located tid st ->
    (forall k c, In k checked -> dict_get k (channels h) = Some c ->
                 holds_tool tid c -> located tid (snd st)) ->
    locate_loop fuel h cur checked st = Ok res ->
    (exists k c, dict_get k (channels h) = Some c /\ holds_tool tid c) ->
    located tid res.
Proof.
  intros Hwf. induction fuel as [|fuel IH];
    intros cur checked st res Hcur Hp Hchecked Hloop Hheld; [discriminate|].
  simpl in Hloop.
  set (st' := scan_messages (ch_id cur) 0 (messages cur) st) in *.
  destruct (scan_messages_found (ch_id cur) (messages cur) 0%nat st)
    as (H1 & H2 & H3). fold st' in H1, H2, H3.
  assert (Hchecked' :
            forall k c, In k (checked ++ [ch_id cur]) ->
                        dict_get k (channels h) = Some c ->
                        holds_tool tid c -> located tid (snd st')).
  { intros k c Hk Hget Hholds. apply in_app_or in Hk as [Hk|[<-|[]]].
    - apply H1. eapply Hchecked; eauto.
    - apply Hcur in Hget. subst c. apply H3; [exact Hp|].
      destruct Hholds as (j & a & Hj & Hne & Hin). eauto. }
  destruct (fst st') as [|q0 q] eqn:Hq.
  - injection Hloop as <-.
    destruct (H2 Hp) as [Hin|Hloc]; [|exact Hloc].
    rewrite Hq in Hin. destruct Hin.
  - destruct (next_channel (channels h) (checked ++ [ch_id cur])) as [c|]
      eqn:Hnext.
    + apply next_channel_In in Hnext as (k & Hin & Hk).
      destruct (wf_history_get h k c Hwf Hin) as [Hid Hget].
      eapply (IH c (checked ++ [ch_id cur]) st' res); eauto.
      intros c' Hc'. rewrite Hid in Hc'. congruence.
    + injection Hloop as <-.
      destruct Hheld as (k & c & Hget & Hholds).
      apply (Hchecked' k c); auto.
      apply (next_channel_None _ _ Hnext k c). now apply dict_get_In.
Qed.
End Found.

(** X5. On a well-formed history with a current channel set (or without a
    channel stored under ["unregistered"]), every requested id that some
    channel holds in an Agent message with tool calls is located. *)
Theorem locate_tool_calls_finds :
  forall clk fuel h ids tid channel_id channel,
    wf_history h ->
    (length (channels h) < fuel)%nat ->
    current_channel h <> None
    \/ dict_get "unregistered" (channels h) = None ->
    In tid ids ->
    dict_get channel_id (channels h) = Some channel ->
    holds_tool tid channel ->
    exists results location,
      locate_tool_calls clk fuel h ids = Ok results
      /\ dict_get tid results = Some (Some location).
Proof.
  intros clk fuel h ids tid channel_id channel Hwf Hfuel Hcur Hin Hget Hholds.
  destruct (locate_tool_calls_spec clk fuel h ids Hwf Hfuel)
    as (results & Hres & _).
  exists results.
  assert (Hloc : located tid results).
  { unfold locate_tool_calls in Hres.
    eapply (locate_loop_finds tid h Hwf); [| | |exact Hres|eauto].
    - unfold get_current_channel.
      destruct (current_channel h) as [cid|] eqn:Hcc.
      + destruct (dict_get cid (channels h)) as [c0|] eqn:Hc0.
        * intros c Hc. apply dict_get_In in Hc0.
          destruct (wf_history_get h cid c0 Hwf Hc0) as [Hid Hg].
          rewrite Hid in Hc. congruence.
        * simpl. intros c Hc. congruence.
      + simpl. intros c Hc. destruct Hcur as [Hc'|Hc']; congruence.
    - left. exact Hin.
    - intros k c []. }
  destruct Hloc as (location & Hloc). exists location. auto.
Qed.

Lemma locate_tool_calls_finds_witness :
  exists results location,
    locate_tool_calls clock0 2 s1_history ["t9"; "t1"] = Ok results
    /\ dict_get "t1" results = Some (Some location).
Proof.
  apply (locate_tool_calls_finds clock0 2%nat s1_history ["t9"; "t1"] "t1" "c1"
           (channel_with "c1"
              [human_at "do x" 0; agent_calling "t1" 1 Unconfirmed] 1)).
  - exact s1_history_wf.
  - simpl. lia.
  - left. discriminate.
  - simpl. auto.
  - reflexivity.
  - exists 1%nat. eexists. split; [reflexivity|]. split; [discriminate|].
    simpl. now left.
Defined.

Lemma locate_loop_unseen (tid : string) h :
  forall fuel cur checked st res,
    no_tool_state tid (messages cur) ->
    (forall k c, In (k, c) (channels h) ->
                 ~ In k (checked ++ [ch_id cur]) ->
                 no_tool_state tid (messages c)) ->
    locate_loop fuel h cur checked st = Ok res ->
    dict_get tid res = dict_get tid (snd st).
Proof.
  induction fuel as [|fuel IH]; intros cur checked st res Hcur Hrest Hloop;
    [discriminate|].
  simpl in Hloop.
  pose proof (scan_messages_absent (ch_id cur) (messages cur) 0%nat st tid Hcur)
    as Hscan.
  destruct (fst (scan_messages (ch_id cur) 0 (messages cur) st));
    [injection Hloop as <-; exact Hscan|].
  destruct (next_channel (channels h) (checked ++ [ch_id cur])) as [c|] eqn:Hn;
    [|injection Hloop as <-; exact Hscan].
  apply next_channel_In in Hn as (k & Hin & Hk).
  rewrite <- Hscan. eapply IH; [| |exact Hloop].
  - eapply Hrest; eauto.
  - intros k' c' Hin' Hk'. eapply Hrest; [exact Hin'|].
    intros Hi. apply Hk'. apply in_or_app. now left.
Qed.

(** X6. Without a current channel the search starts from a fresh channel
    of id ["unregistered"], so a channel stored under that id counts as
    visited and is never scanned: an id that no other channel holds is
    mapped to [None], even when the channel ["unregistered"] holds it. *)
Theorem locate_tool_calls_skips_unregistered :
  forall clk fuel h ids tid,
    wf_history h ->
    (length (channels h) < fuel)%nat ->
    current_channel h = None ->
    In tid ids ->
    (forall k c, In (k, c) (channels h) -> k <> "unregistered" ->
                 no_tool_state tid (messages c)) ->
    exists results,
      locate_tool_calls clk fuel h ids = Ok results
      /\ dict_get tid results = Some None.
Proof.
  intros clk fuel h ids tid Hwf Hfuel Hcur Hin Hothers.
  destruct (locate_tool_calls_spec clk fuel h ids Hwf Hfuel)
    as (results & Hres & _).
  exists results. split; [exact Hres|].
  unfold locate_tool_calls in Hres.
  assert (Hsame : dict_get tid results
                  = dict_get tid
                      (fold_left (fun acc t => dict_set t None acc) ids [])).
  { apply (locate_loop_unseen tid h fuel (get_current_channel clk h) []
             (ids, fold_left (fun acc t => dict_set t None acc) ids [])
             results); [| |exact Hres].
    - unfold get_current_channel. rewrite Hcur. constructor.
    - intros k c Hkc Hk. apply (Hothers k c Hkc).
      intros ->. apply Hk. unfold get_current_channel. rewrite Hcur.
      simpl. now left. }
  rewrite Hsame.
  destruct (dict_get tid (fold_left (fun acc t => dict_set t None acc) ids []))
    as [v|] eqn:Hv.
  - f_equal.
    apply (initial_results_none ids tid [] ltac:(simpl; discriminate) v Hv).
  - exfalso. revert Hv. apply initial_results_keys. now left.
Qed.

Lemma unregistered_history_holds :
  wf_history unregistered_history
  /\ holds_tool "t1"
       (channel_with "unregistered"
          [human_at "do x" 0; agent_calling "t1" 1 Unconfirmed] 1).
Proof.
  split.
  - split; simpl; repeat constructor. intros H. inversion H.
  - exists 1%nat. eexists. split; [reflexivity|]. split; [discriminate|].
    simpl. now left.
Qed.

Lemma locate_tool_calls_skips_unregistered_witness :
  exists results,
    locate_tool_calls clock0 2 unregistered_history ["t1"] = Ok results
    /\ dict_get "t1" results = Some None.
Proof.
  apply (locate_tool_calls_skips_unregistered clock0 2%nat
           unregistered_history ["t1"] "t1").
  - exact (proj1 unregistered_history_holds).
  - simpl. lia.
  - reflexivity.
  - simpl. now left.
  - intros k c [[= <- <-]|[]] Hk. congruence.
Defined.

(** ** The reducer keeps the channels under their ids *)

Lemma apply_tool_update_wf clk positions n left tu left' :
  apply_tool_update clk positions n left tu = Ok left' ->
  wf_history left -> wf_history left'.
Proof.
  unfold apply_tool_update. intros H Hwf.
  destruct (dict_get (tool_call_id tu) positions) as [[[cid idx]|]|];
    try discriminate; [|now inversion H; subst].
  destruct (dict_get cid (channels left)) as [channel|] eqn:Hch;
    try discriminate.
  destruct (messages channel !! idx) as [[hm|a|sm]|]; try discriminate.
  destruct (dict_get (tool_call_id tu) (internal_tool_messages a));
    try discriminate.
  injection H as <-.
  apply wf_history_set; [exact Hwf|]. simpl.
  apply dict_get_In in Hch. now destruct (wf_history_get left _ _ Hwf Hch).
Qed.

Lemma apply_tool_updates_wf clk positions tus n left left' :
  apply_tool_updates clk positions n left tus = Ok left' ->
  wf_history left -> wf_history left'.
Proof.
  revert n left. induction tus as [|tu tus IH]; intros n left; simpl.
  - intros [= <-]. auto.
  - destruct (apply_tool_update clk positions n left tu) as [l1| |] eqn:Hu;
      simpl; try discriminate.
    intros Hrest Hwf. apply (IH _ _ Hrest).
    eapply apply_tool_update_wf; eauto.
Qed.

(** X7. Whenever the reducer returns a history from one whose channels
    are stored under their own ids with distinct keys (and, for a whole
    history as operand, from such an operand), so is the result: channels
    are created under their key and never renamed. *)
Theorem reducer_keeps_channel_ids :
  forall clk fuel left right left',
    wf_history left ->
    (forall h, right = Replace h -> wf_history h) ->
    history_reducer clk fuel left right = Ok left' ->
    wf_history left'.
Proof.
  intros clk fuel left right left' Hwf Hrep Hred.
  destruct right as [|h|u]; simpl in Hred.
  - injection Hred as <-. split; constructor.
  - injection Hred as <-. destruct (is_empty left); auto.
  - unfold apply_internal_updates in Hred.
    destruct (apply_all_channel_updates clk left (channel_updates u))
      as [left1| |] eqn:Hall; simpl in Hred; try discriminate.
    destruct (apply_all_channel_updates_wf _ _ _ _ Hall Hwf) as [Hwf1 _].
    destruct (tool_updates u) as [|tu tus]; [now injection Hred as <-|].
    destruct (locate_tool_calls _ _ _ _) as [positions| |];
      simpl in Hred; try discriminate.
    exact (apply_tool_updates_wf clk positions (tu :: tus) 0%nat _ _
             Hred Hwf1).
Qed.

Lemma reducer_keeps_channel_ids_witness :
  wf_history s1_history
  /\ exists left',
       history_reducer clock0 2 s1_history (Updates c2_updates) = Ok left'
       /\ wf_history left'.
Proof.
  split; [exact s1_history_wf|].
  eexists. split; [vm_compute; reflexivity|].
  apply (reducer_keeps_channel_ids clock0 2%nat s1_history (Updates c2_updates)).
  - exact s1_history_wf.
  - intros h Hh. discriminate.
  - vm_compute. reflexivity.
Defined.

(** ** The reducer keeps the summaries in their place *)

Lemma process_channel_summaries clk channel_id channel u channel' :
  process_channel clk channel_id channel u = Ok channel' ->
  summaries channel'
  = fold_left add_summary (new_summaries u)
      (match delete_before u with
       | Some t => prune_summaries t (summaries channel)
       | None => summaries channel
       end).
Proof.
  unfold process_channel.
  destruct (apply_message_updates _ _ _) as [msgs2| |]; simpl; try discriminate.
  destruct (delete_messages _ _) as [msgs3| |]; simpl; try discriminate.
  intros [= <-]. reflexivity.
Qed.

Lemma summaries_stored_get sums k l :
  summaries_stored sums -> dict_get k sums = Some l ->
  l <> []
  /\ Forall (fun s => max_date s = k /\ min_date s <= max_date s) l
  /\ sorted_by min_date l.
Proof.
  intros [Hwf Hsorted] Hget. apply dict_get_In, list_elem_of_In in Hget.
  unfold wf_summaries in Hwf. rewrite Forall_forall in Hwf, Hsorted.
  destruct (Hwf _ Hget) as [Hne Hall]. specialize (Hsorted _ Hget). auto.
Qed.

Lemma summaries_stored_set sums k l :
  summaries_stored sums ->
  l <> [] ->
  Forall (fun s => max_date s = k /\ min_date s <= max_date s) l ->
  sorted_by min_date l ->
  summaries_stored (dict_set k l sums).
Proof.
  intros [Hwf Hsorted] Hne Hall Hl. split.
  - apply Forall_dict_set; [exact Hwf|]. simpl. auto.
  - apply Forall_dict_set; [exact Hsorted|]. exact Hl.
Qed.

Lemma add_summary_stored sums s :
  summaries_stored sums -> min_date s <= max_date s ->
  summaries_stored (add_summary sums s).
Proof.
  intros Hst Hs. unfold add_summary.
  destruct (dict_get (max_date s) sums) as [l|] eqn:Hget.
  - destruct (summaries_stored_get _ _ _ Hst Hget) as (Hne & Hall & Hsorted).
    apply summaries_stored_set; [exact Hst| | |apply py_sort_sorted].
    + intros Hnil.
      pose proof (py_sort_perm min_date (l ++ [s])) as Hp.
      rewrite Hnil in Hp. apply Permutation_nil in Hp.
      destruct l; discriminate.
    + eapply Permutation_Forall; [symmetry; apply py_sort_perm|].
      apply Forall_app. split; [exact Hall|]. repeat constructor; auto.
  - apply summaries_stored_set; [exact Hst|discriminate| |].
    + repeat constructor; auto.
    + repeat constructor.
Qed.

Lemma fold_add_summary_stored news sums :
  summaries_stored sums ->
  Forall (fun s => min_date s <= max_date s) news ->
  summaries_stored (fold_left add_summary news sums).
Proof.
  revert sums. induction news as [|s news IH]; intros sums Hst Hall; simpl;
    [exact Hst|].
  inversion Hall; subst. apply IH; [|assumption].
  now apply add_summary_stored.
Qed.

Lemma prune_summaries_stored t sums :
  summaries_stored sums -> summaries_stored (prune_summaries t sums).
Proof.
  intros [Hwf Hsorted]. unfold prune_summaries, wf_summaries in *.
  rewrite Forall_forall in Hwf, Hsorted.
  split; apply Forall_forall; intros kv Hkv;
    apply list_elem_of_In, filter_In in Hkv as [Hkv _];
    apply list_elem_of_In in Hkv; auto.
Qed.

Lemma process_channel_stored clk channel_id channel u channel' :
  process_channel clk channel_id channel u = Ok channel' ->
  summaries_stored (summaries channel) ->
  Forall (fun s => min_date s <= max_date s) (new_summaries u) ->
  summaries_stored (summaries channel').
Proof.
  intros H Hst Hnew. rewrite (process_channel_summaries _ _ _ _ _ H).
  apply fold_add_summary_stored; [|exact Hnew].
  destruct (delete_before u); [now apply prune_summaries_stored | exact Hst].
Qed.

Lemma apply_all_channel_updates_stored clk entries left left' :
  apply_all_channel_updates clk left entries = Ok left' ->
  history_summaries_stored left ->
  Forall (fun kv => Forall (fun s => min_date s <= max_date s)
                           (new_summaries (snd kv))) entries ->
  history_summaries_stored left'.
Proof.
  revert left. induction entries as [|e entries IH]; intros left; simpl.
  - intros [= <-]. auto.
  - destruct (apply_channel_updates clk left e) as [l1| |] eqn:He;
      simpl; try discriminate.
    intros Hrest Hst Hnew. inversion Hnew; subst.
    apply (IH _ Hrest); [|assumption].
    apply apply_channel_updates_spec in He as (c & Hc & Hch & _).
    unfold history_summaries_stored. rewrite Hch.
    apply Forall_dict_set; [exact Hst|]. simpl.
    eapply process_channel_stored; [exact Hc| |assumption].
    unfold channel_or_new.
    destruct (dict_get (fst e) (channels left)) as [c0|] eqn:Hc0.
    + apply dict_get_In, list_elem_of_In in Hc0.
      unfold history_summaries_stored in Hst. rewrite Forall_forall in Hst.
      apply (Hst _ Hc0).
    + split; constructor.
Qed.

Lemma apply_tool_updates_summaries clk positions tus n left left' :
  apply_tool_updates clk positions n left tus = Ok left' ->
  history_summaries_stored left -> history_summaries_stored left'.
Proof.
  revert n left. induction tus as [|tu tus IH]; intros n left; simpl.
  - intros [= <-]. auto.
  - destruct (apply_tool_update clk positions n left tu) as [l1| |] eqn:Hu;
      simpl; try discriminate.
    intros Hrest Hst. apply (IH _ _ Hrest). clear Hrest IH.
    unfold apply_tool_update in Hu.
    destruct (dict_get (tool_call_id tu) positions) as [[[cid idx]|]|];
      try discriminate; [|now inversion Hu; subst].
    destruct (dict_get cid (channels left)) as [channel|] eqn:Hch;
      try discriminate.
    destruct (messages channel !! idx) as [[hm|a|sm]|]; try discriminate.
    destruct (dict_get (tool_call_id tu) (internal_tool_messages a));
      try discriminate.
    injection Hu as <-. unfold history_summaries_stored. simpl.
    apply Forall_dict_set; [exact Hst|]. simpl.
    apply dict_get_In, list_elem_of_In in Hch.
    unfold history_summaries_stored in Hst. rewrite Forall_forall in Hst.
    apply (Hst _ Hch).
Qed.

(** X8. The reducer keeps the summaries of every channel as it stores
    them: no key without a summary, every summary under the key of its
    [max_date], the list under a key in ascending order of [min_date], and
    [min_date <= max_date], provided the new summaries it is given satisfy
    [min_date <= max_date] (a whole history as operand, the invariant). *)
Theorem reducer_keeps_summaries_stored :
  forall clk fuel left right left',
    history_summaries_stored left ->
    summaries_admissible right ->
    history_reducer clk fuel left right = Ok left' ->
    history_summaries_stored left'.
Proof.
  intros clk fuel left right left' Hst Hright Hred.
  destruct right as [|h|u]; simpl in Hred, Hright.
  - injection Hred as <-. constructor.
  - injection Hred as <-. destruct (is_empty left); auto.
  - unfold apply_internal_updates in Hred.
    destruct (apply_all_channel_updates clk left (channel_updates u))
      as [left1| |] eqn:Hall; simpl in Hred; try discriminate.
    pose proof (apply_all_channel_updates_stored _ _ _ _ Hall Hst Hright)
      as Hst1.
    destruct (tool_updates u) as [|tu tus]; [now injection Hred as <-|].
    destruct (locate_tool_calls _ _ _ _) as [positions| |];
      simpl in Hred; try discriminate.
    exact (apply_tool_updates_summaries clk positions (tu :: tus) 0%nat _ _
             Hred Hst1).
Qed.

Lemma reducer_keeps_summaries_stored_witness :
  history_summaries_stored s2_history
  /\ summaries_admissible (Updates summary_updates)
  /\ exists left',
       history_reducer clock0 0 s2_history (Updates summary_updates) = Ok left'
       /\ history_summaries_stored left'.
Proof.
  assert (H1 : history_summaries_stored s2_history).
  { repeat constructor. }
  assert (H2 : summaries_admissible (Updates summary_updates)).
  { simpl. repeat constructor; simpl; lia. }
  split; [exact H1|]. split; [exact H2|].
  eexists. split; [vm_compute; reflexivity|].
  apply (reducer_keeps_summaries_stored clock0 0%nat s2_history
           (Updates summary_updates) _ H1 H2).
  vm_compute. reflexivity.
Defined.

Example summaries_after_update :
  exists left' channel,
    history_reducer clock0 0 s2_history (Updates summary_updates) = Ok left'
    /\ dict_get "c1" (channels left') = Some channel
    /\ map (fun kv => (fst kv, map summary (snd kv))) (summaries channel)
       = [(30, ["all"; "late"]); (10, ["first"])]
    /\ max_summary_date channel = 30.
Proof. eexists _, _. split; [vm_compute; reflexivity|]. repeat split. Qed.

(** ** Updates that change nothing *)

Lemma dict_set_same {V : Type} (k : string) (v : V) d :
  dict_get k d = Some v -> dict_set k v d = d.
Proof.
  induction d as [|[k' v'] d IH]; simpl; [discriminate|].
  destruct (decide (k = k')) as [->|Hne].
  - now intros [= ->].
  - intros H. now rewrite IH.
Qed.

(** When every diff leaves its channel as it is, so does the loop. *)
Lemma apply_all_channel_updates_fixed clk entries left :
  (forall k u, In (k, u) entries ->
               exists c, dict_get k (channels left) = Some c
                         /\ process_channel clk k c u = Ok c) ->
  apply_all_channel_updates clk left entries = Ok left.
Proof.
  induction entries as [|[k u] entries IH]; intros Hfix; simpl; [reflexivity|].
  destruct (Hfix k u ltac:(now left)) as (c & Hget & Hproc).
  unfold apply_channel_updates. simpl. rewrite Hget, Hproc. simpl.
  rewrite dict_set_same by exact Hget.
  replace (set_channels left (channels left)) with left
    by (destruct left; reflexivity).
  apply IH. intros k' u' Hin. apply Hfix. now right.
Qed.

Lemma process_channel_empty clk channel_id c u :
  channel_updates_is_empty u = true ->
  process_channel clk channel_id c u = Ok c.
Proof.
  destruct u as [n t w d r tmp nm mu md al ns].
  unfold channel_updates_is_empty. simpl. intros H.
  destruct n; [discriminate|]. destruct t; [discriminate|].
  destruct w; [discriminate|]. destruct d; [discriminate|].
  destruct r; [discriminate|]. destruct tmp; [discriminate|].
  destruct nm; [|discriminate]. destruct mu; [|discriminate].
  destruct md; [|discriminate]. destruct al; [|discriminate].
  destruct ns; [|discriminate].
  destruct c. reflexivity.
Qed.

(** X9. An [InternalUpdates] that [is_empty] leaves a history unchanged
    when the history has every channel that it names. *)
Theorem empty_updates_change_nothing :
  forall clk fuel left u,
    updates_is_empty u = true ->
    (forall k, In k (dict_keys (channel_updates u)) ->
               dict_get k (channels left) <> None) ->
    history_reducer clk fuel left (Updates u) = Ok left.
Proof.
  intros clk fuel left u Hempty Hkeys.
  unfold updates_is_empty in Hempty.
  apply andb_true_iff in Hempty as [Hempty Htools].
  apply andb_true_iff in Hempty as [Hdiffs Hcur].
  simpl. unfold apply_internal_updates.
  rewrite apply_all_channel_updates_fixed.
  - simpl. destruct (upd_current_channel u); [discriminate|].
    destruct (tool_updates u); [|discriminate].
    destruct left; reflexivity.
  - intros k d Hin.
    destruct (dict_get k (channels left)) as [c|] eqn:Hc.
    + exists c. split; [reflexivity|]. apply process_channel_empty.
      rewrite forallb_forall in Hdiffs. apply (Hdiffs (k, d) Hin).
    + exfalso. apply (Hkeys k); [|exact Hc].
      unfold dict_keys. apply in_map_iff. exists (k, d). auto.
Qed.

Lemma empty_updates_change_nothing_witness :
  history_reducer clock7 0 s2_history (Updates s2_nothing) = Ok s2_history.
Proof.
  apply (empty_updates_change_nothing clock7 0%nat s2_history s2_nothing).
  - reflexivity.
  - intros k [<-|[]]. discriminate.
Defined.

(** An empty update still creates the channels that it names. *)
Example empty_updates_create_channels :
  updates_is_empty (channel_diffs [("c3", empty_channel_updates)]) = true
  /\ exists left',
       history_reducer clock7 0 s2_history
         (Updates (channel_diffs [("c3", empty_channel_updates)])) = Ok left'
       /\ dict_keys (channels left') = ["c1"; "c3"].
Proof.
  split; [reflexivity|]. eexists. split; [vm_compute; reflexivity|].
  reflexivity.
Qed.

(** ** Positional updates, twice *)

Lemma py_index_length {A : Type} (l l' : list A) i :
  length l = length l' -> py_index l i = py_index l' i.
Proof. intros H. unfold py_index. now rewrite H. Qed.

Lemma map_date_insert (msgs : list StructuredMessage) (i : nat) x old :
  msgs !! i = Some old -> date x = date old ->
  map date (<[i := x]> msgs) = map date msgs.
Proof.
  revert i. induction msgs as [|m msgs IH]; intros i Hi Hd; [discriminate|].
  destruct i as [|i]; simpl in *.
  - injection Hi as ->. now rewrite Hd.
  - f_equal. eauto.
Qed.

Lemma apply_message_updates_dates channel_id upds msgs msgs' :
  apply_message_updates channel_id msgs upds = Ok msgs' ->
  map date msgs' = map date msgs.
Proof.
  revert msgs. induction upds as [|u upds IH]; intros msgs; simpl.
  - now intros [= <-].
  - destruct (apply_message_update_value channel_id msgs u) as [m1| |] eqn:Hu;
      simpl; try discriminate.
    intros Hrest. rewrite (IH _ Hrest).
    apply apply_message_update_value_spec in Hu as (i & old & Hi & ->).
    eapply map_date_insert; eauto. apply date_set_date.
Qed.

Lemma map_date_lookup (l m : list StructuredMessage) (i : nat) x :
  map date l = map date m -> l !! i = Some x ->
  exists y, m !! i = Some y /\ date y = date x.
Proof.
  revert m i. induction l as [|a l IH]; intros [|b m] i Hmap Hi;
    try discriminate.
  injection Hmap as Hab Hmap. destruct i as [|i]; simpl in *.
  - injection Hi as ->. eauto.
  - eauto.
Qed.

(** Two runs of step 2 from lists with the same dates: at every position
    they end alike, or neither has written there. *)
Lemma apply_message_updates_in_step channel_id upds :
  forall l m l',
    map date m = map date l ->
    apply_message_updates channel_id l upds = Ok l' ->
    exists m',
      apply_message_updates channel_id m upds = Ok m'
      /\ forall p : nat,
           m' !! p = l' !! p \/ (m' !! p = m !! p /\ l' !! p = l !! p).
Proof.
  induction upds as [|u upds IH]; intros l m l' Hdates; simpl.
  - intros [= <-]. exists m. split; [reflexivity|]. auto.
  - destruct (apply_message_update_value channel_id l u) as [l1| |] eqn:Hu;
      simpl; try discriminate.
    intros Hrest.
    assert (Hlen : length m = length l)
      by (rewrite <- (length_map date m), Hdates; apply length_map).
    rewrite apply_message_update_value_eq in Hu.
    destruct (fst u <? Z.of_nat (length l)) eqn:Hlt; [|discriminate].
    destruct (py_index l (fst u)) as [i|] eqn:Hpi; [|discriminate].
    destruct (l !! i) as [old|] eqn:Hi; [|discriminate].
    injection Hu as <-.
    destruct (map_date_lookup l m i old (eq_sym Hdates) Hi) as (old' & Hi' & Hd).
    assert (Hu' : apply_message_update_value channel_id m u
                  = Ok (<[i := set_date (snd u) (date old)]> m)).
    { rewrite apply_message_update_value_eq. rewrite Hlen.
      rewrite (py_index_length m l (fst u) Hlen), Hlt, Hpi, Hi', Hd.
      reflexivity. }
    rewrite Hu'. simpl.
    destruct (IH (<[i := set_date (snd u) (date old)]> l)
                (<[i := set_date (snd u) (date old)]> m) l') as (m' & Hm' & Hpos).
    + rewrite (map_date_insert l i _ old Hi (date_set_date _ _)).
      rewrite (map_date_insert m i _ old' Hi')
        by (rewrite date_set_date; congruence).
      exact Hdates.
    + exact Hrest.
    + exists m'. split; [exact Hm'|]. intros p.
      destruct (Hpos p) as [H|[H1 H2]]; [now left|].
      destruct (decide (i = p)) as [<-|Hne].
      * left. rewrite H1, H2.
        rewrite !list_lookup_insert_eq; [reflexivity| |].
        -- eapply lookup_lt_Some; eauto.
        -- eapply lookup_lt_Some; eauto.
      * right. rewrite H1, H2.
        rewrite !list_lookup_insert_ne by exact Hne. auto.
Qed.

Lemma apply_message_updates_twice channel_id upds msgs msgs' :
  apply_message_updates channel_id msgs upds = Ok msgs' ->
  apply_message_updates channel_id msgs' upds = Ok msgs'.
Proof.
  intros H.
  destruct (apply_message_updates_in_step channel_id upds msgs msgs' msgs'
              (apply_message_updates_dates _ _ _ _ H) H) as (m' & Hm' & Hpos).
  rewrite Hm'. f_equal. apply list_eq. intros p.
  destruct (Hpos p) as [Hp|[Hp _]]; exact Hp.
Qed.

Lemma process_channel_only_positional clk channel_id c u :
  only_positional u ->
  process_channel clk channel_id c u
  = (do msgs <- apply_message_updates channel_id (messages c)
                                      (message_updates u);
     Ok (set_messages c msgs)).
Proof.
  intros Hu. rewrite Hu. unfold process_channel. simpl.
  destruct (apply_message_updates channel_id (messages c) (message_updates u));
    reflexivity.
Qed.

Lemma process_channel_positional_twice clk clk' channel_id c u c' :
  only_positional u ->
  process_channel clk channel_id c u = Ok c' ->
  process_channel clk' channel_id c' u = Ok c'.
Proof.
  intros Hu. rewrite !process_channel_only_positional by exact Hu.
  destruct (apply_message_updates channel_id (messages c) (message_updates u))
    as [msgs| |] eqn:Hm; simpl; try discriminate.
  intros [= <-]. simpl.
  rewrite (apply_message_updates_twice _ _ _ _ Hm). reflexivity.
Qed.

(** X10. Applying the same positional updates a second time changes
    nothing: an [InternalUpdates] whose channel diffs carry only
    [message_updates] (and that has no tool updates), once applied by the
    reducer, is applied again without effect, whatever the clock. *)
Theorem positional_updates_idempotent :
  forall clk clk' fuel left u left',
    tool_updates u = [] ->
    Forall (fun kv => only_positional (snd kv)) (channel_updates u) ->
    NoDup (dict_keys (channel_updates u)) ->
    history_reducer clk fuel left (Updates u) = Ok left' ->
    history_reducer clk' fuel left' (Updates u) = Ok left'.
Proof.
  intros clk clk' fuel left u left' Htools Honly Hnd Hred.
  cbn [history_reducer] in *.
  rewrite apply_internal_updates_no_tools in * by exact Htools.
  destruct (apply_all_channel_updates clk left (channel_updates u))
    as [left1| |] eqn:Hall; simpl in Hred; try discriminate.
  injection Hred as <-.
  rewrite apply_all_channel_updates_fixed.
  - simpl. f_equal. f_equal. destruct (upd_current_channel u); reflexivity.
  - intros k d Hin. simpl.
    destruct (apply_all_channel_updates_at _ _ _ _ _ _ Hall Hnd Hin)
      as (c' & Hproc & Hget).
    exists c'. split; [exact Hget|].
    eapply process_channel_positional_twice; [|exact Hproc].
    rewrite Forall_forall in Honly.
    apply (Honly (k, d)). now apply list_elem_of_In.
Qed.

Lemma positional_updates_idempotent_witness :
  exists left',
    history_reducer clock0 0 s2_history (Updates s2_positional) = Ok left'
    /\ history_reducer clock7 0 left' (Updates s2_positional) = Ok left'.
Proof.
  eexists. split; [vm_compute; reflexivity|].
  apply (positional_updates_idempotent clock0 clock7 0%nat s2_history
           s2_positional).
  - reflexivity.
  - repeat constructor.
  - simpl. repeat constructor. intros H. inversion H.
  - vm_compute. reflexivity.
Defined.

(** The update replaces the message at index 1 and keeps its date. *)
Example positional_update_keeps_date :
  exists left' channel,
    history_reducer clock0 0 s2_history (Updates s2_positional) = Ok left'
    /\ dict_get "c1" (channels left') = Some channel
    /\ messages channel = [human_at "a" 10; human_at "edited" 30].
Proof. eexists _, _. split; [vm_compute; reflexivity|]. split; reflexivity. Qed.

(** ** The cleanup stage and the reducer *)

Lemma dict_set_fresh {V : Type} (k : Z) (v : V) (d : list (Z * V)) :
  Forall (fun kv => fst kv < k) d -> dict_set k v d = d ++ [(k, v)].
Proof.
  induction 1 as [|[k' v'] d Hk Hd IH]; simpl; [reflexivity|].
  simpl in Hk. destruct (decide (k = k')); [lia|]. now rewrite IH.
Qed.

Lemma cleanup_scan_acc msgs :
  forall i mu md w w0,
    Forall (fun kv => fst kv < Z.of_nat i) mu ->
    fst (fst (cleanup_scan i msgs (mu, md, w)))
    = mu ++ fst (fst (cleanup_scan i msgs ([], [], w0)))
    /\ snd (fst (cleanup_scan i msgs (mu, md, w)))
       = md ++ snd (fst (cleanup_scan i msgs ([], [], w0))).
Proof.
  induction msgs as [|m msgs IH]; intros i mu md w w0 Hmu; simpl.
  - now rewrite !app_nil_r.
  - assert (Hmu' : Forall (fun kv => fst kv < Z.of_nat (S i)) mu)
      by (eapply Forall_impl; [exact Hmu|]; simpl; intros; lia).
    unfold cleanup_message.
    destruct m as [hm|a|s]; try (apply IH; exact Hmu').
    destruct (lifespan s) as [n|]; [|apply IH; exact Hmu'].
    simpl. destruct (1 <? n).
    + rewrite dict_set_fresh by exact Hmu. simpl.
      destruct (IH (S i) (mu ++ [(Z.of_nat i, System (with_lifespan s (n - 1)))])
                  md (Z.min w (s_date s - one_second)) 0) as [H1 H2].
      { apply Forall_app. split; [exact Hmu'|].
        repeat constructor. simpl. lia. }
      destruct (IH (S i) [(Z.of_nat i, System (with_lifespan s (n - 1)))]
                  [] (Z.min w0 (s_date s - one_second)) 0) as [H3 H4].
      { repeat constructor. simpl. lia. }
      rewrite H1, H2, H3, H4. simpl. rewrite <- app_assoc. auto.
    + destruct (IH (S i) mu (md ++ [Z.of_nat i])
                  (Z.min w (s_date s - one_second)) 0 Hmu') as [H1 H2].
      destruct (IH (S i) [] [Z.of_nat i]
                  (Z.min w0 (s_date s - one_second)) 0) as [H3 H4];
        [constructor|].
      rewrite H1, H2, H3, H4. simpl. rewrite <- app_assoc. auto.
Qed.

Lemma scan_of_cons i m msgs :
  scan_updates_of i (m :: msgs)
  = match m with
    | System s =>
        match lifespan s with
        | Some n =>
            if 1 <? n
            then [(Z.of_nat i, System (with_lifespan s (n - 1)))] else []
        | None => []
        end
    | _ => []
    end ++ scan_updates_of (S i) msgs
  /\ scan_deletes_of i (m :: msgs)
     = match decay m with [] => [Z.of_nat i] | _ => [] end
       ++ scan_deletes_of (S i) msgs.
Proof.
  unfold scan_updates_of, scan_deletes_of. simpl.
  unfold cleanup_message, decay.
  destruct m as [hm|a|s]; simpl; auto.
  destruct (lifespan s) as [n|] eqn:Hn; simpl; auto.
  destruct (1 <? n) eqn:H1; simpl.
  - destruct (cleanup_scan_acc msgs (S i)
                [(Z.of_nat i, System (with_lifespan s (n - 1)))] []
                (Z.min 0 (s_date s - one_second)) 0) as [H3 H4].
    { repeat constructor. simpl. lia. }
    rewrite H3, H4. auto.
  - destruct (cleanup_scan_acc msgs (S i) [] [Z.of_nat i]
                (Z.min 0 (s_date s - one_second)) 0) as [H3 H4];
      [constructor|].
    rewrite H3, H4. auto.
Qed.

Lemma set_date_same m : set_date m (date m) = m.
Proof. destruct m as [[]|[]|[]]; reflexivity. Qed.

Lemma date_decremented m : date (decremented m) = date m.
Proof.
  destruct m as [hm|a|s]; simpl; auto.
  destruct (lifespan s); auto. destruct (1 <? z); auto.
Qed.

Lemma decay_decremented m :
  decay m = [] \/ decay m = [decremented m].
Proof.
  destruct m as [hm|a|s]; simpl; auto.
  destruct (lifespan s); auto. destruct (1 <? z); auto.
Qed.

Lemma decay_nil_decremented m : decay m = [] -> decremented m = m.
Proof.
  destruct m as [hm|a|s]; simpl; auto.
  destruct (lifespan s); auto. destruct (1 <? z); auto. discriminate.
Qed.

(** Step 2 on the positional updates of the scan. *)
Lemma apply_scan_updates channel_id msgs :
  forall pre,
    apply_message_updates channel_id (pre ++ msgs)
      (scan_updates_of (length pre) msgs)
    = Ok (pre ++ map decremented msgs).
Proof.
  induction msgs as [|m msgs IH]; intros pre.
  - reflexivity.
  - destruct (scan_of_cons (length pre) m msgs) as [-> _].
    assert (Hnext : apply_message_updates channel_id
                      ((pre ++ [decremented m]) ++ msgs)
                      (scan_updates_of (S (length pre)) msgs)
                    = Ok (pre ++ map decremented (m :: msgs))).
    { specialize (IH (pre ++ [decremented m])).
      rewrite length_app in IH. simpl in IH.
      replace (length pre + 1)%nat with (S (length pre)) in IH by lia.
      rewrite IH. simpl. now rewrite <- app_assoc. }
    assert (Hsame : decremented m = m ->
                    apply_message_updates channel_id (pre ++ m :: msgs)
                      (scan_updates_of (S (length pre)) msgs)
                    = Ok (pre ++ map decremented (m :: msgs))).
    { intros Heq. rewrite <- Hnext, Heq. now rewrite <- app_assoc. }
    destruct m as [hm|a|s]; try (apply Hsame; reflexivity).
    destruct (lifespan s) as [n|] eqn:Hn;
      [|apply Hsame; simpl; now rewrite Hn].
    destruct (1 <? n) eqn:H1; [|apply Hsame; simpl; now rewrite Hn, H1].
    assert (Hdec : decremented (System s) = System (with_lifespan s (n - 1)))
      by (simpl; now rewrite Hn, H1).
    rewrite Hdec in Hnext.
    simpl. rewrite apply_message_update_value_eq. simpl.
    assert (Hlt : (Z.of_nat (length pre)
                   <? Z.of_nat (length (pre ++ System s :: msgs))) = true).
    { apply Z.ltb_lt. rewrite length_app. simpl. lia. }
    rewrite Hlt. rewrite py_index_in_range
      by (rewrite length_app; simpl; lia).
    rewrite Nat2Z.id.
    rewrite lookup_app_r by lia. rewrite Nat.sub_diag. simpl.
    rewrite insert_app_r_alt by lia. rewrite Nat.sub_diag. simpl.
    etransitivity; [|exact Hnext]. now rewrite <- app_assoc.
Qed.

Lemma delete_messages_app (msgs : list StructuredMessage) a b :
  delete_messages msgs (a ++ b)
  = (do msgs' <- delete_messages msgs a; delete_messages msgs' b).
Proof.
  revert msgs. induction a as [|i a IH]; intros msgs; simpl; [reflexivity|].
  destruct (delete_message msgs i); simpl; auto.
Qed.

(** Step 3 on the deletes of the scan, taken from the last to the first. *)
Lemma delete_scan_deletes msgs :
  forall pre,
    delete_messages (pre ++ map decremented msgs)
      (rev (scan_deletes_of (length pre) msgs))
    = Ok (pre ++ flat_map decay msgs).
Proof.
  induction msgs as [|m msgs IH]; intros pre.
  - reflexivity.
  - destruct (scan_of_cons (length pre) m msgs) as [_ ->].
    rewrite rev_app_distr, delete_messages_app.
    specialize (IH (pre ++ [decremented m])).
    rewrite length_app in IH. simpl in IH.
    replace (length pre + 1)%nat with (S (length pre)) in IH by lia.
    rewrite <- app_assoc in IH. simpl in IH.
    simpl map. rewrite IH. simpl.
    destruct (decay_decremented m) as [Hd|Hd]; rewrite Hd; simpl.
    + unfold delete_message.
      assert (Hlt : (Z.of_nat (length pre)
                     <? Z.of_nat (length ((pre ++ [decremented m])
                                          ++ flat_map decay msgs))) = true).
      { apply Z.ltb_lt. rewrite !length_app. simpl. lia. }
      rewrite Hlt. rewrite py_index_in_range
        by (rewrite !length_app; simpl; lia).
      rewrite Nat2Z.id. rewrite <- app_assoc. simpl.
      now rewrite delete_middle.
    + now rewrite <- app_assoc.
Qed.

Lemma sort_insert_last (x : Z) (l : list Z) :
  Forall (fun y => x < y) l -> sort_insert Z.opp x l = l ++ [x].
Proof.
  induction 1 as [|y l Hy Hl IH]; simpl; [reflexivity|].
  assert (H : (- x <=? - y) = false) by (apply Z.leb_gt; lia).
  now rewrite H, IH.
Qed.

Lemma sorted_reverse_ascending (l : list Z) :
  StronglySorted Z.lt l -> sorted_reverse l = rev l.
Proof.
  unfold sorted_reverse. induction 1 as [|x l Hs IH Hx]; simpl; [reflexivity|].
  rewrite IH. apply sort_insert_last.
  rewrite Forall_forall in *. intros y Hy. apply Hx.
  apply list_elem_of_In in Hy. apply list_elem_of_In. now apply in_rev.
Qed.

Lemma scan_deletes_ascending msgs :
  forall i,
    Forall (fun d => Z.of_nat i <= d) (scan_deletes_of i msgs)
    /\ StronglySorted Z.lt (scan_deletes_of i msgs).
Proof.
  induction msgs as [|m msgs IH]; intros i.
  - split; constructor.
  - destruct (scan_of_cons i m msgs) as [_ ->].
    destruct (IH (S i)) as [Hge Hs].
    assert (Hge' : Forall (fun d => Z.of_nat i < d) (scan_deletes_of (S i) msgs))
      by (eapply Forall_impl; [exact Hge|]; simpl; intros; lia).
    destruct (decay m); simpl.
    + split; [|constructor; auto].
      constructor; [lia|].
      eapply Forall_impl; [exact Hge'|]. simpl. intros; lia.
    + split; [|exact Hs].
      eapply Forall_impl; [exact Hge'|]. simpl. intros; lia.
Qed.

(** X11. The diff that the cleanup stage builds for a channel, applied by
    the reducer's per-channel steps, succeeds and leaves exactly the
    decayed messages in their order: every [System] message with a
    lifespan above 1 has it decreased by one, every one with a lifespan of
    1 or less is gone, every other message is untouched; nothing else of
    the channel changes but [no_temporary_message_before]. *)
Theorem cleanup_decays_lifespans :
  forall clk channel_id channel,
    exists channel',
      process_channel clk channel_id channel (cleanup_channel_updates channel)
      = Ok channel'
      /\ messages channel' = flat_map decay (messages channel)
      /\ no_temporary_message_before channel'
         = upd_no_temporary_message_before (cleanup_channel_updates channel)
      /\ set_messages channel' (messages channel)
         = {| ch_id := ch_id channel; ch_name := ch_name channel;
              channel_type := channel_type channel;
              wakeup_url := wakeup_url channel;
              messages := messages channel;
              summaries := summaries channel;
              last_activity := last_activity channel;
              max_summary_date := max_summary_date channel;
              no_reactive_tool_call_before :=
                no_reactive_tool_call_before channel;
              no_temporary_message_before :=
                no_temporary_message_before channel' |}.
Proof.
  intros clk channel_id channel.
  unfold process_channel, cleanup_channel_updates. simpl.
  fold (scan_updates_of 0 (messages channel)).
  destruct (cleanup_scan_acc (messages channel) 0%nat [] []
              (last_activity channel) 0 ltac:(constructor)) as [Hmu Hmd].
  simpl in Hmu, Hmd. rewrite Hmu, Hmd.
  fold (scan_updates_of 0 (messages channel)).
  fold (scan_deletes_of 0 (messages channel)).
  pose proof (apply_scan_updates channel_id (messages channel) []) as H2.
  simpl in H2. rewrite H2. simpl.
  destruct (scan_deletes_ascending (messages channel) 0%nat) as [_ Hasc].
  rewrite (sorted_reverse_ascending _ Hasc).
  pose proof (delete_scan_deletes (messages channel) []) as H3.
  simpl in H3. rewrite H3. simpl.
  eexists. split; [reflexivity|]. simpl. repeat split.
Qed.

(** On [temporary_channel]: the message with one unit left goes, the one
    with two stays with one, and the watermark is one second before the
    oldest temporary message. *)
Example cleanup_decays_sample :
  exists channel',
    process_channel clock0 "c1" temporary_channel
      (cleanup_channel_updates temporary_channel) = Ok channel'
    /\ messages channel'
       = [human_at "a" 10000000; temporary_at "note" 30000000 1;
          human_at "b" 40000000]
    /\ no_temporary_message_before channel' = Some 19000000.
Proof. eexists. split; [vm_compute; reflexivity|]. split; reflexivity. Qed.

(** ** Assembling without summaries *)

Lemma tool_contents_size_nonneg tms : 0 <= tool_contents_size tms.
Proof.
  induction tms as [|kv tms IH]; simpl; [lia|].
  unfold len. lia.
Qed.

Lemma message_size_nonneg use_summary m :
  0 <= _count_message_size (Msg m) use_summary.
Proof.
  unfold _count_message_size.
  assert (H : 0 <= (if truthy (msg_summary m) && use_summary
                    then len (default "" (msg_summary m))
                    else len (msg_content m)))
    by (destruct (truthy (msg_summary m) && use_summary); unfold len; lia).
  destruct m as [hm|a|s]; try exact H.
  pose proof (tool_contents_size_nonneg (internal_tool_messages a)). lia.
Qed.

Lemma total_size_app use_summary a b :
  total_size use_summary (a ++ b)
  = total_size use_summary a + total_size use_summary b.
Proof. induction a as [|m a IH]; simpl; lia. Qed.

Lemma total_size_rev use_summary l :
  total_size use_summary (rev l) = total_size use_summary l.
Proof.
  induction l as [|m l IH]; simpl; [reflexivity|].
  rewrite total_size_app, IH. simpl. lia.
Qed.

Lemma sweep_no_summaries use_summary snapshot st :
  sweep use_summary [] snapshot st = Ok st.
Proof. induction snapshot as [|item snapshot IH]; simpl; auto. Qed.

Lemma backtrack_no_summaries fuel use_summary max_size count items :
  backtrack (S fuel) use_summary [] max_size count items = Ok (count, items).
Proof.
  simpl. destruct (max_size <? count); [|reflexivity].
  now rewrite sweep_no_summaries.
Qed.

Lemma assemble_step_no_summaries fuel rank use_summary max_size st min_date' msg :
  let count := character_count st + _count_message_size (Msg msg) use_summary in
  exists min_message',
    assemble_step (S fuel) [] rank use_summary max_size st min_date' msg
    = Ok {| character_count := count;
            assembled := if max_size <? count then assembled st
                         else assembled st ++ [Msg msg];
            st_min_message := min_message';
            st_min_date := min_date' |}.
Proof.
  intros count. unfold assemble_step.
  assert (Hnone : (if st_min_message st =? 0
                   then dict_get (date msg) ([] : list (Z * list Summary))
                   else None) = None)
    by (destruct (st_min_message st =? 0); reflexivity).
  rewrite Hnone. cbn [bind fst snd].
  rewrite backtrack_no_summaries. cbn [bind fst snd].
  fold count. eexists.
  destruct (max_size <? count); [|reflexivity].
  destruct (assembled st ++ [Msg msg]) as [|x l] eqn:E.
  - now destruct (assembled st).
  - rewrite <- E, removelast_last. reflexivity.
Qed.

Lemma assemble_loop_exceeded fuel rank use_summary max_size todo :
  forall st,
    st_min_date st = None ->
    max_size < character_count st ->
    assemble_loop (S fuel) [] rank use_summary max_size None None todo st
    = Ok (assembled st).
Proof.
  induction todo as [|msg todo IH]; intros st Hdate Hover; [reflexivity|].
  cbn [assemble_loop]. unfold gate. rewrite Hdate.
  destruct (assemble_step_no_summaries fuel rank use_summary max_size st
              None msg) as [mm ->].
  cbn [bind].
  pose proof (message_size_nonneg use_summary msg) as Hsize.
  rewrite IH; cbn [character_count assembled st_min_date]; [|reflexivity|lia].
  assert (H : (max_size <? character_count st
                 + _count_message_size (Msg msg) use_summary) = true)
    by (apply Z.ltb_lt; lia).
  now rewrite H.
Qed.

Lemma assemble_loop_within fuel rank use_summary max_size todo :
  forall st taken,
    st_min_date st = None ->
    assembled st = map Msg taken ->
    character_count st = total_size use_summary taken ->
    (taken <> [] -> total_size use_summary taken <= max_size) ->
    exists more rest,
      todo = more ++ rest
      /\ assemble_loop (S fuel) [] rank use_summary max_size None None todo st
         = Ok (map Msg (taken ++ more))
      /\ (taken ++ more <> [] ->
          total_size use_summary (taken ++ more) <= max_size)
      /\ match rest with
         | [] => True
         | m :: _ =>
             max_size < _count_message_size (Msg m) use_summary
                        + total_size use_summary (taken ++ more)
         end.
Proof.
  induction todo as [|msg todo IH]; intros st taken Hdate Hasm Hcount Hfit.
  - exists [], []. rewrite !app_nil_r. simpl.
    rewrite Hasm. repeat split; auto.
  - cbn [assemble_loop]. unfold gate. rewrite Hdate.
    destruct (assemble_step_no_summaries fuel rank use_summary max_size st
                None msg) as [mm Hstep].
    rewrite Hstep. cbn [bind].
    destruct (max_size <? character_count st
                + _count_message_size (Msg msg) use_summary) eqn:Hover.
    + apply Z.ltb_lt in Hover.
      exists [], (msg :: todo). rewrite !app_nil_r.
      rewrite assemble_loop_exceeded;
        cbn [character_count assembled st_min_date]; [|reflexivity|lia].
      rewrite Hasm. repeat split; auto. lia.
    + apply Z.ltb_ge in Hover.
      destruct (IH {| character_count :=
                        character_count st
                        + _count_message_size (Msg msg) use_summary;
                      assembled := assembled st ++ [Msg msg];
                      st_min_message := mm; st_min_date := None |}
                   (taken ++ [msg]))
        as (more & rest & Htodo & Hrun & Hfit' & Hnext);
        cbn [character_count assembled st_min_date].
      * reflexivity.
      * rewrite Hasm, map_app. reflexivity.
      * rewrite total_size_app, Hcount.
        change (total_size use_summary [msg])
          with (_count_message_size (Msg msg) use_summary + 0). lia.
      * intros _. rewrite total_size_app.
        change (total_size use_summary [msg])
          with (_count_message_size (Msg msg) use_summary + 0). lia.
      * exists (msg :: more), rest. rewrite <- app_assoc in *. simpl in *.
        subst todo. auto.
Qed.

(** X12. Without stored summaries and without bounds on dates or on the
    number of messages, [assemble_messages] returns the most recent
    messages that fit [max_size]: the result is a suffix of [messages], in
    their order, whose counted size is within [max_size], and it is the
    longest one, the message just before it would exceed the budget.
    [min_message] has no part in it: the budget wins over the minimum. *)
Theorem assemble_without_summaries :
  forall fuel msgs rank use_summary max_size min_message,
    (0 < fuel)%nat ->
    exists older kept,
      msgs = older ++ kept
      /\ assemble_messages fuel msgs [] rank use_summary max_size min_message
                           None None None = Ok (map Msg kept)
      /\ (kept <> [] -> total_size use_summary kept <= max_size)
      /\ (forall m, last older = Some m ->
            max_size < _count_message_size (Msg m) use_summary
                       + total_size use_summary kept).
Proof.
  intros fuel msgs rank use_summary max_size min_message Hfuel.
  destruct fuel as [|fuel]; [lia|].
  destruct (assemble_loop_within fuel rank use_summary max_size (rev msgs)
              {| character_count := 0; assembled := [];
                 st_min_message := min_message; st_min_date := None |} [])
    as (more & rest & Hsplit & Hrun & Hfit & Hnext); try reflexivity.
  { intros H. now contradiction H. }
  simpl in Hrun, Hfit, Hnext.
  exists (rev rest), (rev more). repeat split.
  - rewrite <- rev_app_distr, <- Hsplit. now rewrite rev_involutive.
  - unfold assemble_messages. rewrite Hrun. cbn [bind].
    now rewrite map_rev.
  - intros Hne. rewrite total_size_rev. apply Hfit.
    intros ->. now apply Hne.
  - intros m Hlast. rewrite total_size_rev.
    destruct rest as [|m' rest']; [discriminate|].
    simpl in Hlast. rewrite last_snoc in Hlast. now injection Hlast as <-.
Qed.

Lemma assemble_without_summaries_witness :
  exists older kept,
    sample_messages = older ++ kept
    /\ assemble_messages 1 sample_messages [] 0 true 5 2 None None None
       = Ok (map Msg kept)
    /\ (kept <> [] -> total_size true kept <= 5)
    /\ (forall m, last older = Some m ->
          5 < _count_message_size (Msg m) true + total_size true kept).
Proof.
  apply (assemble_without_summaries 1 sample_messages 0 true 5 2). lia.
Defined.

(** ** Registering tool calls and finding the reactive ones *)

Lemma In_dict_set {K V : Type} `{EqDecision K} (k k0 : K) (v v0 : V) d :
  In (k, v) (dict_set k0 v0 d) -> (k, v) = (k0, v0) \/ In (k, v) d.
Proof.
  induction d as [|[k' v'] d IH]; simpl.
  - intros [H|[]]; auto.
  - destruct (decide (k0 = k')) as [->|Hne]; simpl.
    + intros [H|H]; auto.
    + intros [H|H]; auto. destruct (IH H); auto.
Qed.

Lemma fold_register_get (calls : list ToolCall) :
  forall tms id,
    dict_get id (fold_left register_tool_call calls tms)
    = if existsb (fun tool_call => String.eqb (tc_id tool_call) id) calls
      then Some (tool_state id Unconfirmed)
      else dict_get id tms.
Proof.
  induction calls as [|c calls IH]; intros tms id;
    cbn [fold_left existsb]; [reflexivity|].
  rewrite IH. unfold register_tool_call. rewrite dict_get_set.
  destruct (existsb _ calls); simpl.
  - now rewrite orb_true_r.
  - rewrite orb_false_r.
    destruct (decide (tc_id c = id)) as [<-|Hne].
    + now rewrite String.eqb_refl.
    + apply String.eqb_neq in Hne. now rewrite Hne.
Qed.

Lemma tool_call_infos_spec tms calls infos :
  tool_call_infos tms calls = Ok infos ->
  map fst infos = calls
  /\ Forall (fun p => dict_get (tc_id (fst p)) tms = Some (snd p)) infos.
Proof.
  revert infos. induction calls as [|c calls IH]; intros infos; simpl.
  - intros [= <-]. split; constructor.
  - destruct (dict_get (tc_id c) tms) as [m|] eqn:Hm; [|discriminate].
    destruct (tool_call_infos tms calls) as [rest| |];
      simpl; try discriminate.
    intros [= <-]. destruct (IH rest eq_refl) as [Hfst Hall].
    simpl. split; [now rewrite Hfst|]. constructor; auto.
Qed.

Lemma tool_call_infos_registered tms calls :
  Forall (fun tool_call => dict_get (tc_id tool_call) tms <> None) calls ->
  exists infos, tool_call_infos tms calls = Ok infos.
Proof.
  induction 1 as [|c calls Hc Hrest [rest IH]]; simpl; [eauto|].
  destruct (dict_get (tc_id c) tms); [|congruence].
  rewrite IH. simpl. eauto.
Qed.

Lemma tool_call_infos_all tms calls (f : ToolCall -> InternalToolMessage) :
  (forall c, In c calls -> dict_get (tc_id c) tms = Some (f c)) ->
  tool_call_infos tms calls = Ok (map (fun c => (c, f c)) calls).
Proof.
  induction calls as [|c calls IH]; intros Hget; simpl; [reflexivity|].
  rewrite (Hget c) by now left.
  rewrite IH by (intros; apply Hget; now right). reflexivity.
Qed.

(** X13. A message built by [from_message] has every tool call
    registered: [all_tool_call_info] yields, without [KeyError], each tool
    call in order with a state that is "unconfirmed" (external status
    "error") and carries the waiting text, and [get_tool_call_info] finds
    an "unconfirmed" tool call for every id of the message; the other
    fields of the message are those of the instance. *)
Theorem from_message_registers :
  forall new_instance,
    let message := from_message new_instance in
    all_tool_call_info message
    = Ok (map (fun tool_call =>
                 (tool_call, tool_state (tc_id tool_call) Unconfirmed))
              (tool_calls new_instance))
    /\ (forall tool_call,
          In tool_call (tool_calls new_instance) ->
          exists first,
            get_tool_call_info message (tc_id tool_call)
            = Some (first, Unconfirmed)
            /\ tc_id first = tc_id tool_call)
    /\ registered (AI message)
    /\ tool_calls message = tool_calls new_instance.
Proof.
  intros new_instance message.
  assert (Hget : forall tool_call,
             In tool_call (tool_calls new_instance) ->
             dict_get (tc_id tool_call) (internal_tool_messages message)
             = Some (tool_state (tc_id tool_call) Unconfirmed)).
  { intros tool_call Hin. unfold message, from_message. simpl.
    rewrite fold_register_get.
    assert (H : existsb (fun c => String.eqb (tc_id c) (tc_id tool_call))
                        (tool_calls new_instance) = true).
    { apply existsb_exists. exists tool_call. split; [exact Hin|].
      apply String.eqb_refl. }
    now rewrite H. }
  repeat split.
  - unfold all_tool_call_info.
    change (tool_calls message) with (tool_calls new_instance).
    now apply (tool_call_infos_all _ _
                 (fun c => tool_state (tc_id c) Unconfirmed)).
  - intros tool_call Hin. unfold get_tool_call_info.
    rewrite (Hget tool_call Hin).
    change (tool_calls message) with (tool_calls new_instance).
    destruct (List.find (fun c => String.eqb (tc_id c) (tc_id tool_call))
                        (tool_calls new_instance)) as [first|] eqn:Hfind.
    + exists first. split; [reflexivity|].
      apply find_some in Hfind as [_ Heq]. now apply String.eqb_eq in Heq.
    + exfalso. apply (find_none _ _ Hfind) in Hin.
      now rewrite String.eqb_refl in Hin.
  - change (Forall (fun c => dict_get (tc_id c)
                                (internal_tool_messages message) <> None)
                   (tool_calls new_instance)).
    rewrite Forall_forall. intros c Hc. apply list_elem_of_In in Hc.
    now rewrite (Hget c Hc).
Qed.

(** What a scan of a channel reports, and that it goes through when the
    tool calls are registered. *)
Lemma scan_reactive_sound watermark todo :
  forall acc w0,
    Forall registered todo ->
    exists calls w,
      scan_reactive watermark todo (acc, w0) = Ok (acc ++ calls, w)
      /\ Forall (fun p =>
                   is_reactive (snd p) = true
                   /\ exists a,
                        In (AI a) todo
                        /\ In (fst p) (tool_calls a)
                        /\ dict_get (tc_id (fst p)) (internal_tool_messages a)
                           = Some (snd p)
                        /\ checked_before watermark (ai_date a) = false)
                calls.
Proof.
  induction todo as [|m todo IH]; intros acc w0 Hreg.
  - exists [], w0. simpl. rewrite app_nil_r. split; [reflexivity|constructor].
  - apply Forall_cons in Hreg as [Hm Hreg].
    assert (Hskip : forall acc' w',
               exists calls w,
                 scan_reactive watermark todo (acc', w')
                 = Ok (acc' ++ calls, w)
                 /\ Forall (fun p =>
                      is_reactive (snd p) = true
                      /\ exists a,
                           In (AI a) (m :: todo)
                           /\ In (fst p) (tool_calls a)
                           /\ dict_get (tc_id (fst p))
                                       (internal_tool_messages a)
                              = Some (snd p)
                           /\ checked_before watermark (ai_date a) = false)
                      calls).
    { intros acc' w'. destruct (IH acc' w' Hreg) as (calls & w & Hrun & Hall).
      exists calls, w. split; [exact Hrun|].
      eapply Forall_impl; [exact Hall|].
      intros p (Hp & a & Hin & Hrest). split; [exact Hp|].
      exists a. split; [now right|exact Hrest]. }
    cbn [scan_reactive].
    destruct (checked_before watermark (date m)) eqn:Hchecked.
    + exists [], w0. rewrite app_nil_r. split; [reflexivity|constructor].
    + destruct m as [hm|a|s]; try apply Hskip.
      destruct (has_tool_calls a); [|apply Hskip].
      simpl in Hm. unfold all_tool_call_info.
      destruct (tool_call_infos_registered _ _ Hm) as [infos Hinfos].
      rewrite Hinfos. cbn [bind fst snd].
      apply tool_call_infos_spec in Hinfos as [Hfst Hstored].
      set (reactive := List.filter (fun p => is_reactive (snd p)) infos).
      destruct (Hskip (acc ++ reactive)
                      match reactive with
                      | [] => w0
                      | _ :: _ => date (AI a) - one_second
                      end) as (calls & w & Hrun & Hall).
      exists (reactive ++ calls), w. rewrite app_assoc.
      split; [exact Hrun|]. apply Forall_app. split; [|exact Hall].
      rewrite Forall_forall. intros p Hp. apply list_elem_of_In in Hp.
      apply filter_In in Hp as [Hp Hreact]. split; [exact Hreact|].
      exists a. split; [now left|]. split.
      * rewrite <- Hfst. now apply in_map.
      * rewrite Forall_forall in Hstored. split; [|exact Hchecked].
        apply Hstored. now apply list_elem_of_In.
Qed.

Lemma find_reactive_loop_sound todo :
  forall acc u,
    Forall (fun c => Forall registered (messages c)) todo ->
    exists calls u',
      find_reactive_loop todo (acc, u) = Ok (acc ++ calls, u')
      /\ Forall (fun p =>
                   is_reactive (snd p) = true
                   /\ exists c, In c todo /\ reported_from c p) calls
      /\ upd_current_channel u' = upd_current_channel u
      /\ tool_updates u' = tool_updates u
      /\ (forall k cu,
            In (k, cu) (channel_updates u') ->
            In (k, cu) (channel_updates u)
            \/ exists c d, In c todo /\ k = ch_id c /\ cu = reactive_checked d).
Proof.
  induction todo as [|c todo IH]; intros acc u Hreg.
  - exists [], u. simpl. rewrite app_nil_r. repeat split; auto.
  - apply Forall_cons in Hreg as [Hc Hreg].
    assert (Hskip : exists calls u',
               find_reactive_loop todo (acc, u) = Ok (acc ++ calls, u')
               /\ Forall (fun p =>
                            is_reactive (snd p) = true
                            /\ exists c', In c' (c :: todo)
                                          /\ reported_from c' p) calls
               /\ upd_current_channel u' = upd_current_channel u
               /\ tool_updates u' = tool_updates u
               /\ (forall k cu,
                     In (k, cu) (channel_updates u') ->
                     In (k, cu) (channel_updates u)
                     \/ exists c' d, In c' (c :: todo) /\ k = ch_id c'
                                     /\ cu = reactive_checked d)).
    { destruct (IH acc u Hreg) as (calls & u' & Hrun & Hall & Hcur & Ht & Hcu).
      exists calls, u'. split; [exact Hrun|]. split.
      - eapply Forall_impl; [exact Hall|].
        intros p (Hp & c' & Hin & Hrep). split; [exact Hp|].
        exists c'. split; [now right|exact Hrep].
      - split; [exact Hcur|]. split; [exact Ht|].
        intros k cu Hin. destruct (Hcu k cu Hin) as [H|(c' & d & H1 & H2)];
          [now left|].
        right. exists c', d. split; [now right|exact H2]. }
    cbn [find_reactive_loop]. unfold find_reactive_in_channel.
    destruct (last (messages c)) as [newest|] eqn:Hlast;
      [|cbn [bind]; exact Hskip].
    destruct (checked_before (no_reactive_tool_call_before c) (date newest));
      [cbn [bind]; exact Hskip|].
    cbn [fst snd].
    assert (Hrev : Forall registered (rev (messages c))).
    { rewrite Forall_forall in *. intros x Hx. apply Hc.
      apply list_elem_of_In in Hx. apply list_elem_of_In.
      now apply in_rev. }
    destruct (scan_reactive_sound (no_reactive_tool_call_before c)
                (rev (messages c)) acc (date newest) Hrev)
      as (calls1 & w & Hscan & Hall1).
    rewrite Hscan. cbn [bind fst snd].
    destruct (IH (acc ++ calls1)
                 {| channel_updates :=
                      dict_set (ch_id c) (reactive_checked w)
                               (channel_updates u);
                    upd_current_channel := upd_current_channel u;
                    tool_updates := tool_updates u |} Hreg)
      as (calls2 & u' & Hrun & Hall2 & Hcur & Ht & Hcu).
    exists (calls1 ++ calls2), u'. rewrite app_assoc.
    split; [exact Hrun|]. split; [|split; [exact Hcur|split; [exact Ht|]]].
    + apply Forall_app. split.
      * eapply Forall_impl; [exact Hall1|].
        intros p (Hp & a & Hin & Hrest). split; [exact Hp|].
        exists c. split; [now left|]. exists a.
        split; [now apply in_rev|exact Hrest].
      * eapply Forall_impl; [exact Hall2|].
        intros p (Hp & c' & Hin & Hrep). split; [exact Hp|].
        exists c'. split; [now right|exact Hrep].
    + intros k cu Hin. destruct (Hcu k cu Hin) as [H|(c' & d & H1 & H2)].
      * simpl in H. apply In_dict_set in H as [[= -> ->]|H]; [|now left].
        right. exists c, w. split; [now left|]. split; reflexivity.
      * right. exists c', d. split; [now right|exact H2].
Qed.

(** X14. On a history whose tool calls are all registered,
    [find_reactive_tool_calls] returns (no [KeyError]); every pair it
    reports is "confirmed" or "unconfirmed", is a tool call of an Agent
    message of some channel with the state stored for it, and that message
    is more recent than the channel's [no_reactive_tool_call_before]; the
    updates it returns carry nothing but one
    [no_reactive_tool_call_before] per channel id. *)
Theorem find_reactive_tool_calls_sound :
  forall h,
    history_registered h ->
    exists calls u,
      find_reactive_tool_calls h = Ok (calls, u)
      /\ Forall (fun p =>
                   is_reactive (snd p) = true
                   /\ exists kv, In kv (channels h)
                                 /\ reported_from (snd kv) p) calls
      /\ upd_current_channel u = None
      /\ tool_updates u = []
      /\ Forall (fun entry =>
                   exists kv d,
                     In kv (channels h)
                     /\ fst entry = ch_id (snd kv)
                     /\ snd entry = reactive_checked d)
                (channel_updates u).
Proof.
  intros h Hreg. unfold find_reactive_tool_calls.
  destruct (find_reactive_loop_sound (map snd (channels h)) [] empty_updates)
    as (calls & u & Hrun & Hall & Hcur & Ht & Hcu).
  { unfold history_registered in Hreg. now rewrite Forall_map. }
  exists calls, u. split; [exact Hrun|]. split; [|split; [exact Hcur|]].
  - eapply Forall_impl; [exact Hall|].
    intros p (Hp & c & Hin & Hrep). split; [exact Hp|].
    apply in_map_iff in Hin as (kv & <- & Hin). eauto.
  - split; [exact Ht|]. rewrite Forall_forall. intros [k cu] Hin.
    apply list_elem_of_In in Hin.
    destruct (Hcu k cu Hin) as [[]|(c & d & Hc & -> & ->)].
    apply in_map_iff in Hc as (kv & <- & Hc). exists kv, d. auto.
Qed.

Lemma s1_followed_registered : history_registered s1_followed.
Proof. repeat constructor. discriminate. Qed.

Lemma find_reactive_tool_calls_sound_witness :
  exists calls u,
    find_reactive_tool_calls s1_followed = Ok (calls, u)
    /\ Forall (fun p =>
                 is_reactive (snd p) = true
                 /\ exists kv, In kv (channels s1_followed)
                               /\ reported_from (snd kv) p) calls
    /\ upd_current_channel u = None
    /\ tool_updates u = []
    /\ Forall (fun entry =>
                 exists kv d,
                   In kv (channels s1_followed)
                   /\ fst entry = ch_id (snd kv)
                   /\ snd entry = reactive_checked d)
              (channel_updates u).
Proof.
  apply (find_reactive_tool_calls_sound s1_followed).
  repeat constructor. discriminate.
Defined.

(** On S1 followed by a message: the unconfirmed call is reported and the
    channel is to be looked at again from one second before its message. *)
Example find_reactive_sample :
  find_reactive_tool_calls s1_followed
  = Ok ([({| tc_id := "t1"; tc_name := "x"; tc_args := [] |},
          tool_state "t1" Unconfirmed)],
        {| channel_updates := [("c1", reactive_checked (1 - one_second))];
           upd_current_channel := None; tool_updates := [] |}).
Proof. reflexivity. Qed.

(** A tool call without an entry in [internal_tool_messages] makes the
    search fail. *)
Example find_reactive_unregistered :
  find_reactive_tool_calls
    {| current_channel := None;
       channels :=
         [("c1", channel_with "c1"
                   [AI {| ai_content := ""; ai_date := 1; ai_summary := None;
                          activity := "conversing";
                          tool_calls := [{| tc_id := "t1"; tc_name := "x";
                                            tc_args := [] |}];
                          internal_tool_messages := [] |}] 1)] |}
  = Raise (KeyError "t1").
Proof. reflexivity. Qed.

(** ** Reactive tool calls are reported until they are dealt with *)

Lemma one_second_pos : 0 < one_second.
Proof. reflexivity. Qed.

Lemma scan_reactive_acc watermark todo :
  forall acc w0,
    scan_reactive watermark todo (acc, w0)
    = (do r <- scan_reactive watermark todo ([], w0);
       Ok (acc ++ fst r, snd r)).
Proof.
  induction todo as [|m todo IH]; intros acc w0; cbn [scan_reactive].
  - simpl. now rewrite app_nil_r.
  - destruct (checked_before watermark (date m)).
    + simpl. now rewrite app_nil_r.
    + destruct m as [hm|a|s]; try apply IH.
      destruct (has_tool_calls a); [|apply IH].
      destruct (all_tool_call_info a) as [infos| |]; cbn [bind fst snd];
        try reflexivity.
      rewrite IH. rewrite (IH ([] ++ _)). simpl.
      destruct (scan_reactive watermark todo ([], _)) as [[calls w]| |];
        simpl; try reflexivity.
      now rewrite app_assoc.
Qed.

Lemma descending_rev (msgs : list StructuredMessage) :
  sorted_by date msgs -> StronglySorted (flip (by_key date)) (rev msgs).
Proof.
  unfold sorted_by. induction msgs as [|m msgs IH]; intros Hs; simpl.
  - constructor.
  - apply StronglySorted_cons in Hs as [Hall Hs].
    apply StronglySorted_app_2.
    + intros x1 x2 H1 H2. apply list_elem_of_singleton in H2 as ->.
      rewrite Forall_forall in Hall. apply Hall.
      apply list_elem_of_In. apply in_rev. now apply list_elem_of_In.
    + auto.
    + repeat constructor.
Qed.

(** The first search: the date it leaves is below the date of every
    message it reported from. *)
Lemma scan_reactive_watermark watermark todo :
  forall acc w0 res w,
    StronglySorted (flip (by_key date)) todo ->
    Forall (fun m => date m - one_second <= w0) todo ->
    scan_reactive watermark todo (acc, w0) = Ok (res, w) ->
    w <= w0
    /\ exists calls,
         res = acc ++ calls
         /\ Forall (fun p =>
                      exists a infos,
                        In (AI a) todo
                        /\ has_tool_calls a = true
                        /\ all_tool_call_info a = Ok infos
                        /\ In p (List.filter (fun p => is_reactive (snd p))
                                             infos)
                        /\ w < ai_date a) calls.
Proof.
  induction todo as [|m todo IH]; intros acc w0 res w Hdesc Hbelow;
    cbn [scan_reactive].
  - intros [= <- <-]. split; [lia|]. exists []. rewrite app_nil_r.
    split; [reflexivity|constructor].
  - apply StronglySorted_cons in Hdesc as [Hall Hdesc].
    apply Forall_cons in Hbelow as [Hm Hbelow].
    assert (Hskip : scan_reactive watermark todo (acc, w0) = Ok (res, w) ->
                    w <= w0
                    /\ exists calls,
                         res = acc ++ calls
                         /\ Forall (fun p =>
                              exists a infos,
                                In (AI a) (m :: todo)
                                /\ has_tool_calls a = true
                                /\ all_tool_call_info a = Ok infos
                                /\ In p (List.filter
                                           (fun p => is_reactive (snd p)) infos)
                                /\ w < ai_date a) calls).
    { intros Hrun.
      destruct (IH _ _ _ _ Hdesc Hbelow Hrun) as (Hw & calls & Hres & Hcalls).
      split; [exact Hw|]. exists calls. split; [exact Hres|].
      eapply Forall_impl; [exact Hcalls|].
      intros p (a & infos & Hin & Hrest). exists a, infos.
      split; [now right|exact Hrest]. }
    destruct (checked_before watermark (date m)).
    + intros [= <- <-]. split; [lia|]. exists []. rewrite app_nil_r.
      split; [reflexivity|constructor].
    + destruct m as [hm|a|s]; try exact Hskip.
      destruct (has_tool_calls a) eqn:Hcalls; [|exact Hskip].
      destruct (all_tool_call_info a) as [infos| |] eqn:Hinfos;
        cbn [bind fst snd]; try discriminate.
      set (reactive := List.filter (fun p => is_reactive (snd p)) infos).
      intros Hrun.
      destruct reactive as [|p0 reactive'] eqn:Hreactive.
      * rewrite app_nil_r in Hrun. apply Hskip, Hrun.
      * assert (Hbelow' : Forall (fun m => date m - one_second
                                           <= date (AI a) - one_second) todo).
        { eapply Forall_impl; [exact Hall|].
          unfold flip, by_key. intros; lia. }
        destruct (IH _ _ _ _ Hdesc Hbelow' Hrun)
          as (Hw & calls & Hres & Hrest).
        simpl in Hm, Hw. split; [lia|].
        exists ((p0 :: reactive') ++ calls). rewrite app_assoc.
        split; [exact Hres|]. apply Forall_app. split.
        -- rewrite Forall_forall. intros p Hp. apply list_elem_of_In in Hp.
           exists a, infos. split; [now left|]. split; [exact Hcalls|].
           split; [exact Hinfos|]. fold reactive. rewrite Hreactive.
           split; [exact Hp|]. pose proof one_second_pos. lia.
        -- eapply Forall_impl; [exact Hrest|].
           intros p (a' & infos' & Hin & Hrest'). exists a', infos'.
           split; [now right|exact Hrest'].
Qed.

(** The next search, from the date the first left, reports them again. *)
Lemma scan_reactive_again w todo a infos p :
  forall acc w0,
    StronglySorted (flip (by_key date)) todo ->
    Forall registered todo ->
    In (AI a) todo ->
    has_tool_calls a = true ->
    all_tool_call_info a = Ok infos ->
    In p (List.filter (fun p => is_reactive (snd p)) infos) ->
    w < ai_date a ->
    exists calls w',
      scan_reactive (Some w) todo (acc, w0) = Ok (acc ++ calls, w')
      /\ In p calls.
Proof.
  induction todo as [|m todo IH];
    intros acc w0 Hdesc Hreg Hin Hcalls Hinfos Hp Hw; [destruct Hin|].
  apply StronglySorted_cons in Hdesc as [Hall Hdesc].
  apply Forall_cons in Hreg as [Hm Hreg].
  assert (Hdate : checked_before (Some w) (date m) = false).
  { apply Z.leb_gt. destruct Hin as [->|Hin]; [exact Hw|].
    rewrite Forall_forall in Hall. apply list_elem_of_In in Hin.
    specialize (Hall _ Hin). unfold flip, by_key in Hall. simpl in Hall.
    lia. }
  cbn [scan_reactive]. rewrite Hdate.
  destruct Hin as [->|Hin].
  - rewrite Hcalls, Hinfos. cbn [bind fst snd].
    destruct (scan_reactive_sound (Some w) todo
                (acc ++ List.filter (fun p => is_reactive (snd p)) infos)
                match List.filter (fun p => is_reactive (snd p)) infos with
                | [] => w0
                | _ :: _ => date (AI a) - one_second
                end Hreg) as (calls & w' & Hrun & _).
    exists (List.filter (fun p => is_reactive (snd p)) infos ++ calls), w'.
    rewrite app_assoc. split; [exact Hrun|]. apply in_or_app. now left.
  - assert (Hskip : forall acc' w1,
               exists calls w',
                 scan_reactive (Some w) todo (acc', w1)
                 = Ok (acc' ++ calls, w') /\ In p calls)
      by (intros; now apply IH).
    destruct m as [hm|a'|s]; try apply Hskip.
    destruct (has_tool_calls a'); [|apply Hskip].
    simpl in Hm. unfold all_tool_call_info at 1.
    destruct (tool_call_infos_registered _ _ Hm) as [infos' Hinfos'].
    rewrite Hinfos'. cbn [bind fst snd].
    destruct (Hskip (acc ++ List.filter (fun p => is_reactive (snd p)) infos')
                    match List.filter (fun p => is_reactive (snd p)) infos' with
                    | [] => w0
                    | _ :: _ => date (AI a') - one_second
                    end) as (calls & w' & Hrun & Hpin).
    exists (List.filter (fun p => is_reactive (snd p)) infos' ++ calls), w'.
    rewrite app_assoc. split; [exact Hrun|]. apply in_or_app. now right.
Qed.

Lemma NoDup_dict_keys_set {V : Type} (k : string) (v : V) d :
  NoDup (dict_keys d) -> NoDup (dict_keys (dict_set k v d)).
Proof.
  intros Hnd. destruct (dict_get k d) eqn:Hget.
  - rewrite dict_keys_set_present; [exact Hnd | congruence].
  - rewrite dict_keys_set_absent by exact Hget.
    apply NoDup_app. split; [exact Hnd|]. split.
    + intros x Hx Hx'. apply list_elem_of_singleton in Hx' as ->.
      apply dict_get_None_keys in Hget. apply Hget. now apply list_elem_of_In.
    + apply NoDup_singleton.
Qed.

(** What the loop over the channels leaves for each channel it searched. *)
Lemma find_reactive_loop_spec todo :
  forall acc u res u',
    NoDup (map ch_id todo) ->
    NoDup (dict_keys (channel_updates u)) ->
    find_reactive_loop todo (acc, u) = Ok (res, u') ->
    NoDup (dict_keys (channel_updates u'))
    /\ (forall k, ~ In k (map ch_id todo) ->
                  dict_get k (channel_updates u')
                  = dict_get k (channel_updates u))
    /\ forall p,
         In p res ->
         In p acc
         \/ exists c newest calls w,
              In c todo
              /\ last (messages c) = Some newest
              /\ checked_before (no_reactive_tool_call_before c) (date newest)
                 = false
              /\ scan_reactive (no_reactive_tool_call_before c)
                               (rev (messages c)) ([], date newest)
                 = Ok (calls, w)
              /\ In p calls
              /\ dict_get (ch_id c) (channel_updates u')
                 = Some (reactive_checked w).
Proof.
  induction todo as [|c todo IH]; intros acc u res u' Hids Hkeys;
    cbn [find_reactive_loop].
  - intros [= <- <-]. split; [exact Hkeys|]. split; [reflexivity|]. auto.
  - simpl in Hids. apply NoDup_cons in Hids as [Hfresh Hids].
    assert (Hfresh' : ~ In (ch_id c) (map ch_id todo))
      by (intros H; apply Hfresh; now apply list_elem_of_In).
    assert (Hskip : find_reactive_loop todo (acc, u) = Ok (res, u') ->
               NoDup (dict_keys (channel_updates u'))
               /\ (forall k, ~ In k (map ch_id (c :: todo)) ->
                             dict_get k (channel_updates u')
                             = dict_get k (channel_updates u))
               /\ forall p,
                    In p res ->
                    In p acc
                    \/ exists c' newest calls w,
                         In c' (c :: todo)
                         /\ last (messages c') = Some newest
                         /\ checked_before (no_reactive_tool_call_before c')
                                           (date newest) = false
                         /\ scan_reactive (no_reactive_tool_call_before c')
                                          (rev (messages c'))
                                          ([], date newest) = Ok (calls, w)
                         /\ In p calls
                         /\ dict_get (ch_id c') (channel_updates u')
                            = Some (reactive_checked w)).
    { intros Hrun.
      destruct (IH _ _ _ _ Hids Hkeys Hrun) as (Hnd & Hframe & Hrep).
      split; [exact Hnd|]. split.
      - intros k Hk. apply Hframe. intros H. apply Hk. now right.
      - intros p Hp.
        destruct (Hrep p Hp) as [H|(c' & n & cs & w & Hc' & Hrest)];
          [now left|].
        right. exists c', n, cs, w. split; [now right|exact Hrest]. }
    unfold find_reactive_in_channel.
    destruct (last (messages c)) as [newest|] eqn:Hlast;
      [|cbn [bind]; exact Hskip].
    destruct (checked_before (no_reactive_tool_call_before c) (date newest))
      eqn:Hchecked; [cbn [bind]; exact Hskip|].
    cbn [fst snd]. rewrite scan_reactive_acc.
    destruct (scan_reactive (no_reactive_tool_call_before c)
                (rev (messages c)) ([], date newest)) as [[calls w]| |]
      eqn:Hscan; cbn [bind fst snd]; try discriminate.
    intros Hrun.
    apply IH in Hrun as (Hnd & Hframe & Hrep);
      [|exact Hids|simpl; now apply NoDup_dict_keys_set].
    split; [exact Hnd|]. split.
    + intros k Hk. rewrite Hframe by (intros H; apply Hk; now right).
      simpl. apply dict_get_set_ne. intros Heq. apply Hk. now left.
    + intros p Hp.
      destruct (Hrep p Hp) as [H|(c' & n & cs & w' & Hc' & Hrest)].
      * apply in_app_or in H as [H|H]; [now left|].
        right. exists c, newest, calls, w. split; [now left|].
        split; [exact Hlast|]. split; [exact Hchecked|].
        split; [exact Hscan|]. split; [exact H|].
        rewrite (Hframe _ Hfresh'). simpl. apply dict_get_set_eq.
      * right. exists c', n, cs, w'. split; [now right|exact Hrest].
Qed.

(** Whatever a channel's search finds is part of the result. *)
Lemma find_reactive_loop_includes todo :
  forall acc u res u',
    find_reactive_loop todo (acc, u) = Ok (res, u') ->
    incl acc res
    /\ forall c newest calls w,
         In c todo ->
         last (messages c) = Some newest ->
         checked_before (no_reactive_tool_call_before c) (date newest) = false ->
         scan_reactive (no_reactive_tool_call_before c) (rev (messages c))
                       ([], date newest) = Ok (calls, w) ->
         incl calls res.
Proof.
  induction todo as [|c todo IH]; intros acc u res u';
    cbn [find_reactive_loop].
  - intros [= <- <-]. split; [apply incl_refl|]. intros ? ? ? ? [].
  - unfold find_reactive_in_channel.
    destruct (last (messages c)) as [newest|] eqn:Hlast.
    + destruct (checked_before (no_reactive_tool_call_before c)
                               (date newest)) eqn:Hchecked.
      * cbn [bind]. intros Hrun. apply IH in Hrun as [Hacc Hall].
        split; [exact Hacc|].
        intros c' n cs w [<-|Hin] Hl Hc Hs; [congruence|eauto].
      * cbn [fst snd]. rewrite scan_reactive_acc.
        destruct (scan_reactive (no_reactive_tool_call_before c)
                    (rev (messages c)) ([], date newest)) as [[calls w]| |]
          eqn:Hscan; cbn [bind fst snd]; try discriminate.
        intros Hrun. apply IH in Hrun as [Hacc Hall]. split.
        -- intros x Hx. apply Hacc, in_or_app. now left.
        -- intros c' n cs w' [<-|Hin] Hl Hc Hs; [|eauto].
           rewrite Hlast in Hl. injection Hl as <-.
           rewrite Hscan in Hs. injection Hs as <- <-.
           intros x Hx. apply Hacc, in_or_app. now right.
    + cbn [bind]. intros Hrun. apply IH in Hrun as [Hacc Hall].
      split; [exact Hacc|].
      intros c' n cs w [<-|Hin] Hl Hc Hs; [congruence|eauto].
Qed.

Lemma process_channel_reactive_checked clk channel_id c d :
  exists c',
    process_channel clk channel_id c (reactive_checked d) = Ok c'
    /\ messages c' = messages c
    /\ ch_id c' = ch_id c
    /\ no_reactive_tool_call_before c' = Some d.
Proof.
  unfold process_channel. simpl. eexists. split; [reflexivity|].
  simpl. auto.
Qed.

(** The updates of a search go through the reducer, which keeps what holds
    of the messages of every channel. *)
Lemma apply_watermarks clk (P : list StructuredMessage -> Prop) entries :
  forall left,
    P [] ->
    Forall (fun entry => exists d, snd entry = reactive_checked d) entries ->
    Forall (fun kv => P (messages (snd kv))) (channels left) ->
    exists left',
      apply_all_channel_updates clk left entries = Ok left'
      /\ Forall (fun kv => P (messages (snd kv))) (channels left').
Proof.
  induction entries as [|[k cu] entries IH]; intros left Hnil Hall Hreg;
    cbn [apply_all_channel_updates].
  - eauto.
  - apply Forall_cons in Hall as [[d Hd] Hall]. simpl in Hd. subst cu.
    unfold apply_channel_updates. cbn [fst snd].
    destruct (process_channel_reactive_checked clk k
                (match dict_get k (channels left) with
                 | Some c => c
                 | None => new_Channel clk k k
                 end) d) as (c' & -> & Hmsgs & _).
    cbn [bind]. apply IH; [exact Hnil|exact Hall|].
    unfold set_channels. simpl.
    apply Forall_dict_set; [exact Hreg|]. simpl. rewrite Hmsgs.
    destruct (dict_get k (channels left)) as [c|] eqn:Hc; [|exact Hnil].
    apply dict_get_In in Hc.
    rewrite Forall_forall in Hreg. apply list_elem_of_In in Hc.
    apply (Hreg _ Hc).
Qed.

Lemma stored_ids (chans : list (string * Channel)) :
  Forall (fun kv => ch_id (snd kv) = fst kv) chans ->
  map ch_id (map snd chans) = dict_keys chans.
Proof.
  induction 1 as [|[k c] chans Hk Hid IH]; [reflexivity|].
  simpl in *. now rewrite Hk, IH.
Qed.

Lemma wf_history_ids h :
  wf_history h -> NoDup (map ch_id (map snd (channels h))).
Proof. intros [Hid Hnd]. now rewrite stored_ids. Qed.

(** X15. A reactive tool call stays reported: on a well-formed history
    with sorted messages and registered tool calls, once the updates that
    [find_reactive_tool_calls] returns are applied by the reducer, the next
    search returns, and reports again every pair that this one
    reported. *)
Theorem reactive_tool_calls_reported_again :
  forall clk fuel h calls u,
    wf_history h ->
    history_sorted h ->
    history_registered h ->
    find_reactive_tool_calls h = Ok (calls, u) ->
    exists h' calls' u',
      history_reducer clk fuel h (Updates u) = Ok h'
      /\ find_reactive_tool_calls h' = Ok (calls', u')
      /\ incl calls calls'.
Proof.
  intros clk fuel h calls u Hwf Hsorted Hreg Hrun.
  unfold find_reactive_tool_calls in Hrun.
  destruct (find_reactive_loop_sound (map snd (channels h)) [] empty_updates)
    as (calls0 & u0 & Hrun0 & _ & _ & Htools & Hcu).
  { unfold history_registered in Hreg. now rewrite Forall_map. }
  rewrite Hrun in Hrun0. injection Hrun0 as <- <-. simpl in Htools.
  assert (Hentries : Forall (fun entry => exists d,
                               snd entry = reactive_checked d)
                            (channel_updates u)).
  { rewrite Forall_forall. intros [k cu] Hin. apply list_elem_of_In in Hin.
    destruct (Hcu k cu Hin) as [[]|(c & d & _ & _ & ->)]. now exists d. }
  apply find_reactive_loop_spec in Hrun as (Hnd & _ & Hrep);
    [|now apply wf_history_ids|constructor].
  destruct (apply_watermarks clk (Forall registered) (channel_updates u) h
              ltac:(constructor) Hentries Hreg) as (h1 & Happly & Hreg1).
  set (h' := {| current_channel :=
                  or_else (upd_current_channel u) (current_channel h1);
                channels := channels h1 |}).
  assert (Hreg' : history_registered h') by exact Hreg1.
  destruct (find_reactive_loop_sound (map snd (channels h')) []
              empty_updates) as (calls' & u' & Hrun' & _).
  { unfold history_registered in Hreg'. now rewrite Forall_map. }
  exists h', calls', u'. split; [|split; [exact Hrun'|]].
  - cbn [history_reducer]. rewrite apply_internal_updates_no_tools by exact Htools.
    now rewrite Happly.
  - intros p Hp.
    destruct (Hrep p Hp) as [[]|(c & newest & cs & w & Hc & Hlast & Hchecked
                                 & Hscan & Hpin & Hget)].
    apply in_map_iff in Hc as ([k c0] & Hc0 & Hin). simpl in Hc0. subst c0.
    destruct (wf_history_get h k c Hwf Hin) as [Hid Hstored].
    rewrite Hid in Hget.
    destruct (apply_all_channel_updates_at clk _ _ _ k (reactive_checked w)
                Happly Hnd (dict_get_In _ _ _ Hget)) as (c' & Hproc & Hc').
    unfold channel_or_new in Hproc. rewrite Hstored in Hproc.
    destruct (process_channel_reactive_checked clk k c w)
      as (c1 & Hproc1 & Hmsgs & _ & Hmark).
    rewrite Hproc in Hproc1. injection Hproc1 as <-.
    assert (Hs : sorted_by date (messages c)).
    { unfold history_sorted in Hsorted. rewrite Forall_forall in Hsorted.
      apply list_elem_of_In in Hin. apply (Hsorted _ Hin). }
    assert (Hregc : Forall registered (rev (messages c))).
    { unfold history_registered in Hreg. rewrite Forall_forall in Hreg.
      apply list_elem_of_In in Hin. specialize (Hreg _ Hin). simpl in Hreg.
      rewrite Forall_forall in *. intros x Hx. apply Hreg.
      apply list_elem_of_In in Hx. apply list_elem_of_In. now apply in_rev. }
    pose proof (sorted_by_below_last _ _ _ Hs Hlast) as Hnewest.
    rewrite Forall_forall in Hnewest.
    assert (Hbelow : Forall (fun m => date m - one_second <= date newest)
                            (rev (messages c))).
    { rewrite Forall_forall. intros x Hx.
      apply list_elem_of_In, in_rev, list_elem_of_In in Hx.
      specialize (Hnewest _ Hx). simpl in Hnewest.
      pose proof one_second_pos. lia. }
    destruct (scan_reactive_watermark _ _ _ _ _ _ (descending_rev _ Hs)
                Hbelow Hscan) as (_ & cs' & Hcs & Hfound).
    simpl in Hcs. subst cs'.
    rewrite Forall_forall in Hfound. apply list_elem_of_In in Hpin.
    destruct (Hfound _ Hpin) as (a & infos & Ha & Hcalls & Hinfos & Hpf & Hw).
    destruct (scan_reactive_again w (rev (messages c)) a infos p []
                (date newest) (descending_rev _ Hs) Hregc Ha Hcalls Hinfos
                Hpf Hw) as (cs2 & w2 & Hscan2 & Hp2).
    simpl in Hscan2.
    apply find_reactive_loop_includes in Hrun' as [_ Hincl].
    apply (Hincl c' newest cs2 w2); [| | |now rewrite Hmsgs, Hmark|exact Hp2].
    + apply in_map_iff. exists (k, c'). split; [reflexivity|].
      now apply dict_get_In.
    + now rewrite Hmsgs.
    + rewrite Hmark. apply Z.leb_gt.
      apply in_rev, list_elem_of_In in Ha. specialize (Hnewest _ Ha).
      simpl in Hnewest. lia.
Qed.

Lemma reactive_tool_calls_reported_again_witness :
  exists h' calls' u',
    history_reducer clock0 0 s1_followed
      (Updates {| channel_updates :=
                    [("c1", reactive_checked (1 - one_second))];
                  upd_current_channel := None; tool_updates := [] |}) = Ok h'
    /\ find_reactive_tool_calls h' = Ok (calls', u')
    /\ incl [({| tc_id := "t1"; tc_name := "x"; tc_args := [] |},
              tool_state "t1" Unconfirmed)] calls'.
Proof.
  apply (reactive_tool_calls_reported_again clock0 0%nat s1_followed).
  - split; simpl; repeat constructor. intros H. inversion H.
  - unfold history_sorted, sorted_by, by_key. simpl.
    repeat constructor; simpl; lia.
  - repeat constructor. discriminate.
  - reflexivity.
Defined.

(** ** A search that finds nothing settles *)

Lemma scan_reactive_nothing watermark todo :
  forall w0 w,
    scan_reactive watermark todo ([], w0) = Ok ([], w) -> w = w0.
Proof.
  induction todo as [|m todo IH]; intros w0 w; cbn [scan_reactive].
  - now intros [= <-].
  - destruct (checked_before watermark (date m)); [now intros [= <-]|].
    destruct m as [hm|a|s]; try apply IH.
    destruct (has_tool_calls a); [|apply IH].
    destruct (all_tool_call_info a) as [infos| |]; cbn [bind fst snd];
      try discriminate.
    destruct (List.filter (fun p => is_reactive (snd p)) infos)
      as [|p reactive]; [apply IH|].
    rewrite scan_reactive_acc.
    destruct (scan_reactive watermark todo ([], _)) as [[calls w']| |];
      simpl; discriminate.
Qed.

Lemma find_reactive_loop_entries todo :
  forall acc u res u',
    find_reactive_loop todo (acc, u) = Ok (res, u') ->
    tool_updates u' = tool_updates u
    /\ forall k cu,
         In (k, cu) (channel_updates u') ->
         In (k, cu) (channel_updates u)
         \/ exists c newest d,
              In c todo /\ k = ch_id c
              /\ last (messages c) = Some newest
              /\ checked_before (no_reactive_tool_call_before c) (date newest)
                 = false
              /\ cu = reactive_checked d.
Proof.
  induction todo as [|c todo IH]; intros acc u res u';
    cbn [find_reactive_loop].
  - intros [= <- <-]. auto.
  - assert (Hskip : find_reactive_loop todo (acc, u) = Ok (res, u') ->
               tool_updates u' = tool_updates u
               /\ forall k cu,
                    In (k, cu) (channel_updates u') ->
                    In (k, cu) (channel_updates u)
                    \/ exists c' newest d,
                         In c' (c :: todo) /\ k = ch_id c'
                         /\ last (messages c') = Some newest
                         /\ checked_before (no_reactive_tool_call_before c')
                                           (date newest) = false
                         /\ cu = reactive_checked d).
    { intros Hrun. apply IH in Hrun as [Ht Hcu]. split; [exact Ht|].
      intros k cu Hin.
      destruct (Hcu k cu Hin) as [H|(c' & n & d & Hc' & Hrest)]; [now left|].
      right. exists c', n, d. split; [now right|exact Hrest]. }
    unfold find_reactive_in_channel.
    destruct (last (messages c)) as [newest|] eqn:Hlast;
      [|cbn [bind]; exact Hskip].
    destruct (checked_before (no_reactive_tool_call_before c) (date newest))
      eqn:Hchecked; [cbn [bind]; exact Hskip|].
    destruct (scan_reactive _ _ _) as [[calls w]| |];
      cbn [bind fst snd]; try discriminate.
    intros Hrun. apply IH in Hrun as [Ht Hcu]. split; [exact Ht|].
    intros k cu Hin.
    destruct (Hcu k cu Hin) as [H|(c' & n & d & Hc' & Hrest)].
    + simpl in H. apply In_dict_set in H as [[= -> ->]|H]; [|now left].
      right. exists c, newest, w. split; [now left|]. auto.
    + right. exists c', n, d. split; [now right|exact Hrest].
Qed.

Lemma find_reactive_loop_frame todo :
  forall acc u res u' k,
    find_reactive_loop todo (acc, u) = Ok (res, u') ->
    ~ In k (map ch_id todo) ->
    dict_get k (channel_updates u') = dict_get k (channel_updates u).
Proof.
  induction todo as [|c todo IH]; intros acc u res u' k;
    cbn [find_reactive_loop].
  - now intros [= <- <-].
  - intros Hrun Hk.
    assert (Hk' : ~ In k (map ch_id todo)) by (intros H; apply Hk; now right).
    unfold find_reactive_in_channel in Hrun.
    destruct (last (messages c)) as [newest|];
      [|cbn [bind] in Hrun; eauto].
    destruct (checked_before _ _); [cbn [bind] in Hrun; eauto|].
    destruct (scan_reactive _ _ _) as [[calls w]| |];
      cbn [bind fst snd] in Hrun; try discriminate.
    rewrite (IH _ _ _ _ _ Hrun Hk'). simpl.
    apply dict_get_set_ne. intros Heq. apply Hk. now left.
Qed.

(** What the loop leaves for a channel that it searched. *)
Lemma find_reactive_loop_marks todo :
  forall acc u res u' c newest,
    NoDup (map ch_id todo) ->
    find_reactive_loop todo (acc, u) = Ok (res, u') ->
    In c todo ->
    last (messages c) = Some newest ->
    checked_before (no_reactive_tool_call_before c) (date newest) = false ->
    exists calls w,
      scan_reactive (no_reactive_tool_call_before c) (rev (messages c))
                    ([], date newest) = Ok (calls, w)
      /\ incl calls res
      /\ dict_get (ch_id c) (channel_updates u') = Some (reactive_checked w).
Proof.
  induction todo as [|c0 todo IH];
    intros acc u res u' c newest Hids Hrun Hin Hlast Hchecked; [destruct Hin|].
  simpl in Hids. apply NoDup_cons in Hids as [Hfresh Hids].
  assert (Hfresh' : ~ In (ch_id c0) (map ch_id todo))
    by (intros H; apply Hfresh; now apply list_elem_of_In).
  cbn [find_reactive_loop] in Hrun.
  destruct Hin as [->|Hin].
  - unfold find_reactive_in_channel in Hrun.
    rewrite Hlast, Hchecked in Hrun. cbn [fst snd] in Hrun.
    rewrite scan_reactive_acc in Hrun.
    destruct (scan_reactive (no_reactive_tool_call_before c)
                (rev (messages c)) ([], date newest)) as [[calls w]| |]
      eqn:Hscan; cbn [bind fst snd] in Hrun; try discriminate.
    exists calls, w. split; [reflexivity|].
    pose proof (find_reactive_loop_frame _ _ _ _ _ _ Hrun Hfresh') as Hframe.
    apply find_reactive_loop_includes in Hrun as [Hacc _].
    split.
    + intros x Hx. apply Hacc, in_or_app. now right.
    + rewrite Hframe. simpl. apply dict_get_set_eq.
  - destruct (find_reactive_in_channel (acc, u) c0) as [[acc1 u1]| |];
      cbn [bind] in Hrun; try discriminate.
    now apply (IH acc1 u1 res u' c newest).
Qed.

Lemma find_reactive_loop_skips todo :
  forall st,
    Forall (fun c =>
              forall newest,
                last (messages c) = Some newest ->
                checked_before (no_reactive_tool_call_before c) (date newest)
                = true) todo ->
    find_reactive_loop todo st = Ok st.
Proof.
  induction 1 as [|c todo Hc Hrest IH]; cbn [find_reactive_loop];
    [reflexivity|].
  unfold find_reactive_in_channel.
  destruct (last (messages c)) as [newest|]; [|exact IH].
  now rewrite (Hc newest eq_refl).
Qed.

(** X16. A search that finds nothing settles: on a well-formed history,
    when [find_reactive_tool_calls] reports no tool call, the reducer
    applies its updates and the next search reports nothing and returns
    empty updates: every channel that has messages is then marked as
    checked up to its latest message. *)
Theorem nothing_reactive_settles :
  forall clk fuel h u,
    wf_history h ->
    find_reactive_tool_calls h = Ok ([], u) ->
    exists h',
      history_reducer clk fuel h (Updates u) = Ok h'
      /\ find_reactive_tool_calls h' = Ok ([], empty_updates)
      /\ Forall (fun kv =>
                   forall newest,
                     last (messages (snd kv)) = Some newest ->
                     exists d,
                       no_reactive_tool_call_before (snd kv) = Some d
                       /\ date newest <= d) (channels h').
Proof.
  intros clk fuel h u Hwf Hrun.
  unfold find_reactive_tool_calls in Hrun.
  pose proof (find_reactive_loop_entries _ _ _ _ _ Hrun) as [Htools Hcu].
  simpl in Htools.
  assert (Hentries : Forall (fun entry => exists d,
                               snd entry = reactive_checked d)
                            (channel_updates u)).
  { rewrite Forall_forall. intros [k cu] Hin. apply list_elem_of_In in Hin.
    destruct (Hcu k cu Hin) as [[]|(c & n & d & _ & _ & _ & _ & ->)].
    now exists d. }
  destruct (find_reactive_loop_spec (map snd (channels h)) [] empty_updates
              [] u (wf_history_ids h Hwf)) as (Hnd & _ & _);
    [constructor|exact Hrun|].
  destruct (apply_watermarks clk (fun _ => True) (channel_updates u) h I
              Hentries) as (h1 & Happly & _).
  { rewrite Forall_forall. auto. }
  destruct (apply_all_channel_updates_wf _ _ _ _ Happly Hwf) as [Hwf1 _].
  set (h' := {| current_channel :=
                  or_else (upd_current_channel u) (current_channel h1);
                channels := channels h1 |}).
  assert (Hchecked : Forall (fun kv =>
              forall newest,
                last (messages (snd kv)) = Some newest ->
                checked_before (no_reactive_tool_call_before (snd kv))
                               (date newest) = true) (channels h1)).
  { rewrite Forall_forall. intros [k c'] Hin newest Hlast.
    apply list_elem_of_In in Hin. simpl in *.
    destruct (wf_history_get h1 k c' Hwf1 Hin) as [Hid' Hget'].
    destruct (dict_get k (channel_updates u)) as [cu|] eqn:Hku.
    - apply dict_get_In in Hku.
      destruct (Hcu k cu Hku)
        as [[]|(c & n & d & Hc & Hk & Hl & Hch & Hcud)].
      apply in_map_iff in Hc as ([k0 c0] & Hc0 & Hc). simpl in Hc0. subst c0.
      destruct (wf_history_get h k0 c Hwf Hc) as [Hid Hget].
      rewrite Hid in Hk. subst k0.
      destruct (find_reactive_loop_marks _ _ _ _ _ c n
                  (wf_history_ids h Hwf) Hrun
                  ltac:(apply in_map_iff; exists (k, c); auto) Hl Hch)
        as (calls & w & Hscan & Hincl & Hmark).
      assert (calls = []) as ->.
      { destruct calls as [|p calls]; [reflexivity|].
        destruct (Hincl p); now left. }
      apply scan_reactive_nothing in Hscan. subst w.
      rewrite Hid in Hmark.
      destruct (apply_all_channel_updates_at clk _ _ _ k
                  (reactive_checked (date n)) Happly Hnd
                  (dict_get_In _ _ _ Hmark)) as (c1 & Hproc & Hc1).
      unfold channel_or_new in Hproc. rewrite Hget in Hproc.
      destruct (process_channel_reactive_checked clk k c (date n))
        as (c2 & Hproc2 & Hmsgs & _ & Hmark2).
      rewrite Hproc in Hproc2. injection Hproc2 as <-.
      rewrite Hget' in Hc1. injection Hc1 as <-.
      rewrite Hmsgs, Hl in Hlast. injection Hlast as <-.
      rewrite Hmark2. simpl. apply Z.leb_refl.
    - apply dict_get_None_keys in Hku.
      rewrite (apply_all_channel_updates_frame _ _ _ _ _ Happly Hku) in Hget'.
      destruct (checked_before (no_reactive_tool_call_before c')
                               (date newest)) eqn:Hch; [reflexivity|].
      exfalso. apply Hku.
      destruct (find_reactive_loop_marks _ _ _ _ _ c' newest
                  (wf_history_ids h Hwf) Hrun
                  ltac:(apply in_map_iff; exists (k, c'); split;
                        [reflexivity|now apply dict_get_In]) Hlast Hch)
        as (calls & w & _ & _ & Hmark).
      apply dict_get_In in Hget'.
      destruct (wf_history_get h k c' Hwf Hget') as [Hid _].
      rewrite Hid in Hmark. apply dict_get_In in Hmark.
      unfold dict_keys. apply in_map_iff. now exists (k, reactive_checked w). }
  exists h'. split; [|split].
  - cbn [history_reducer].
    rewrite apply_internal_updates_no_tools by exact Htools.
    now rewrite Happly.
  - unfold find_reactive_tool_calls. apply find_reactive_loop_skips.
    rewrite Forall_map. exact Hchecked.
  - eapply Forall_impl; [exact Hchecked|].
    intros [k c'] Hc newest Hlast. simpl in *.
    specialize (Hc newest Hlast). unfold checked_before in Hc.
    destruct (no_reactive_tool_call_before c') as [d|]; [|discriminate].
    exists d. split; [reflexivity|]. now apply Z.leb_le.
Qed.

Lemma nothing_reactive_settles_witness :
  exists h',
    history_reducer clock0 0 s2_history
      (Updates {| channel_updates := [("c1", reactive_checked 30)];
                  upd_current_channel := None; tool_updates := [] |}) = Ok h'
    /\ find_reactive_tool_calls h' = Ok ([], empty_updates)
    /\ Forall (fun kv =>
                 forall newest,
                   last (messages (snd kv)) = Some newest ->
                   exists d,
                     no_reactive_tool_call_before (snd kv) = Some d
                     /\ date newest <= d) (channels h').
Proof.
  apply (nothing_reactive_settles clock0 0%nat s2_history).
  - split; simpl; repeat constructor. intros H. inversion H.
  - reflexivity.
Defined.

(** ** Deleting by position *)

Lemma existsb_below (i : Z) (ids : list Z) :
  Forall (fun x => x < i) ids -> existsb (Z.eqb i) ids = false.
Proof.
  induction 1 as [|x ids Hx Hids IH]; simpl; [reflexivity|].
  rewrite IH, orb_false_r. apply Z.eqb_neq. lia.
Qed.

Lemma without_indices_below msgs :
  forall i ids, Forall (fun x => x < i) ids -> without_indices i ids msgs = msgs.
Proof.
  induction msgs as [|m msgs IH]; intros i ids Hids; simpl; [reflexivity|].
  rewrite existsb_below by exact Hids.
  rewrite IH; [reflexivity|].
  eapply Forall_impl; [exact Hids|]. simpl. intros; lia.
Qed.

Lemma without_indices_beyond msgs :
  forall i d ids,
    i + Z.of_nat (length msgs) <= d ->
    without_indices i (d :: ids) msgs = without_indices i ids msgs.
Proof.
  induction msgs as [|m msgs IH]; intros i d ids Hd; simpl; [reflexivity|].
  simpl in Hd. assert (Hne : (i =? d) = false) by (apply Z.eqb_neq; lia).
  rewrite Hne. simpl. rewrite IH by lia. reflexivity.
Qed.

Lemma without_indices_same msgs :
  forall i a b,
    (forall x, In x a <-> In x b) ->
    without_indices i a msgs = without_indices i b msgs.
Proof.
  induction msgs as [|m msgs IH]; intros i a b Hab; simpl; [reflexivity|].
  assert (He : existsb (Z.eqb i) a = existsb (Z.eqb i) b).
  { apply eq_true_iff_eq. rewrite !existsb_exists.
    split; intros (x & Hx & Hi); exists x; split; auto; now apply Hab. }
  rewrite He, (IH (i + 1) a b Hab). reflexivity.
Qed.

Lemma without_indices_delete msgs :
  forall i (n : nat) ids,
    (n < length msgs)%nat ->
    Forall (fun x => x < i + Z.of_nat n) ids ->
    without_indices i ids (delete n msgs)
    = without_indices i ((i + Z.of_nat n) :: ids) msgs.
Proof.
  induction msgs as [|m msgs IH]; intros i n ids Hn Hids; simpl in Hn; [lia|].
  destruct n as [|n]; cbn [delete list_delete without_indices existsb].
  - replace (i + Z.of_nat 0) with i in * by lia.
    rewrite Z.eqb_refl. simpl.
    rewrite without_indices_below by exact Hids.
    rewrite without_indices_below; [reflexivity|].
    constructor; [lia|]. eapply Forall_impl; [exact Hids|]. simpl. intros; lia.
  - assert (Hne : (i =? i + Z.of_nat (S n)) = false)
      by (apply Z.eqb_neq; lia).
    rewrite Hne, orb_false_l.
    replace (i + Z.of_nat (S n)) with (i + 1 + Z.of_nat n) by lia.
    rewrite <- (IH (i + 1) n ids); [reflexivity|lia|].
    eapply Forall_impl; [exact Hids|]. simpl. intros; lia.
Qed.

Lemma delete_descending ids :
  forall msgs,
    StronglySorted (by_key Z.opp) ids ->
    NoDup ids ->
    Forall (fun i => 0 <= i) ids ->
    delete_messages msgs ids = Ok (without_indices 0 ids msgs).
Proof.
  induction ids as [|d ids IH]; intros msgs Hs Hnd Hpos; simpl.
  - now rewrite without_indices_below.
  - apply StronglySorted_cons in Hs as [Hall Hs].
    apply NoDup_cons in Hnd as [Hfresh Hnd].
    apply Forall_cons in Hpos as [Hd Hpos].
    assert (Hbelow : Forall (fun x => x < d) ids).
    { rewrite Forall_forall in *. intros x Hx.
      specialize (Hall x Hx). unfold by_key in Hall.
      assert (x <> d) by (intros ->; contradiction). lia. }
    unfold delete_message.
    destruct (d <? Z.of_nat (length msgs)) eqn:Hlt.
    + apply Z.ltb_lt in Hlt. rewrite py_index_in_range by lia.
      cbn [bind]. rewrite IH by assumption.
      rewrite (without_indices_delete msgs 0 (Z.to_nat d) ids);
        [|lia|eapply Forall_impl; [exact Hbelow|]; simpl; intros; lia].
      now replace (0 + Z.of_nat (Z.to_nat d)) with d by lia.
    + apply Z.ltb_ge in Hlt. cbn [bind]. rewrite IH by assumption.
      now rewrite without_indices_beyond by lia.
Qed.

(** X17. The indices of [message_deletes] are positions in the list as
    it is before any delete: for distinct non-negative indices, in any
    order, the reducer's steps for a channel leave exactly the messages
    at the other positions, in their order; an index at or beyond the
    length is ignored. *)
Theorem message_deletes_remove_positions :
  forall clk channel_id channel ids,
    NoDup ids ->
    Forall (fun i => 0 <= i) ids ->
    exists channel',
      process_channel clk channel_id channel (only_message_deletes ids)
      = Ok channel'
      /\ messages channel' = without_indices 0 ids (messages channel).
Proof.
  intros clk channel_id channel ids Hnd Hpos.
  assert (Hdel : delete_messages (messages channel) (sorted_reverse ids)
                 = Ok (without_indices 0 ids (messages channel))).
  { unfold sorted_reverse.
    pose proof (py_sort_perm Z.opp ids) as Hperm.
    rewrite delete_descending.
    - f_equal. apply without_indices_same. intros x.
      split; intros Hx; [now rewrite <- Hperm|now rewrite Hperm].
    - apply py_sort_sorted.
    - rewrite Hperm. exact Hnd.
    - rewrite Hperm. exact Hpos. }
  unfold process_channel. cbn [message_updates only_message_deletes
                               apply_message_updates bind message_deletes].
  rewrite Hdel. cbn [bind]. eexists. split; reflexivity.
Qed.

Lemma message_deletes_remove_positions_witness :
  exists channel',
    process_channel clock0 "c1"
      (channel_with "c1" [human_at "a" 10; human_at "b" 20; human_at "c" 30] 30)
      (only_message_deletes [0; 2; 7]) = Ok channel'
    /\ messages channel'
       = without_indices 0 [0; 2; 7]
           (messages (channel_with "c1" [human_at "a" 10; human_at "b" 20;
                                         human_at "c" 30] 30)).
Proof.
  apply (message_deletes_remove_positions clock0 "c1"
           (channel_with "c1" [human_at "a" 10; human_at "b" 20;
                               human_at "c" 30] 30) [0; 2; 7]).
  - repeat (constructor;
            [intros H; apply list_elem_of_In in H; simpl in H; lia|]).
    constructor.
  - repeat constructor; lia.
Defined.

(** A repeated index deletes a second message: the one that moved into
    the position. *)
Example repeated_delete_shifts :
  exists channel',
    process_channel clock0 "c1"
      (channel_with "c1" [human_at "a" 10; human_at "b" 20; human_at "c" 30] 30)
      (only_message_deletes [0; 0]) = Ok channel'
    /\ messages channel' = [human_at "c" 30].
Proof. eexists. split; reflexivity. Qed.

(** ** Grouping *)

Lemma pop_max_threshold_nonempty (reference : list (Z * Z)) :
  reference <> [] ->
  exists thr gap,
    pop_max_threshold reference = Grouped (thr, gap, dict_del thr reference)
    /\ In thr (dict_keys reference).
Proof.
  intros Hne. unfold pop_max_threshold.
  destruct reference as [|[k v] d]; [congruence|]. cbn [dict_keys map fst].
  assert (Hin : In (py_max k (dict_keys d)) (dict_keys ((k, v) :: d))).
  { destruct (py_max_attained k (dict_keys d)) as [->|H];
      [now left|now right]. }
  fold (dict_keys d).
  destruct (dict_get (py_max k (dict_keys d)) ((k, v) :: d)) as [gap|] eqn:Hget.
  - eauto.
  - apply dict_get_None_keys in Hget. contradiction.
Qed.

Lemma dict_del_length {V : Type} (k : Z) (d : list (Z * V)) :
  (length d <= S (length (dict_del k d)))%nat.
Proof.
  induction d as [|[k' v] d IH]; simpl; [lia|].
  destruct (decide (k = k')); simpl; lia.
Qed.

Lemma dict_del_only {V : Type} (k : Z) (d : list (Z * V)) :
  length d = 1%nat -> In k (dict_keys d) -> dict_del k d = [].
Proof.
  destruct d as [|[k' v] [|? ?]]; simpl; try discriminate.
  intros _ [->|[]]. now rewrite decide_True.
Qed.

(** The loop keeps the messages it has seen, in their order, in the closed
    groups followed by the current one; no closed group is empty. *)
Lemma group_loop_partitions messages :
  forall st,
    time_gap_reference st = [] \/ Forall is_message messages ->
    Forall (fun g => g <> []) (groups st) ->
    exists st',
      group_loop messages st = Grouped st'
      /\ concat (groups st') ++ current_group st'
         = concat (groups st) ++ current_group st ++ messages
      /\ Forall (fun g => g <> []) (groups st').
Proof.
  induction messages as [|message messages IH]; intros st Hok Hgroups;
    cbn [group_loop].
  - exists st. rewrite app_nil_r. auto.
  - assert (Hnext : exists st1,
               next_threshold st message = Grouped st1
               /\ groups st1 = groups st
               /\ current_group st1 = current_group st
               /\ (time_gap_reference st = [] -> time_gap_reference st1 = [])).
    { unfold next_threshold.
      destruct (time_gap_reference st) as [|e d] eqn:Hd;
        [exists st; repeat split; auto|].
      destruct Hok as [Hok|Hok]; [discriminate|].
      apply Forall_cons in Hok as [Hm _].
      destruct message as [m|s]; [|destruct Hm].
      destruct (date m <? max_threshold st);
        [|exists st; repeat split; discriminate].
      destruct (pop_max_threshold_nonempty (e :: d)) as (thr & gap & -> & _);
        [discriminate|].
      eexists. split; [reflexivity|]. simpl. repeat split. discriminate. }
    destruct Hnext as (st1 & Hnext & Hg & Hc & Hempty).
    unfold group_step. rewrite Hnext.
    match goal with
    | |- context [group_loop messages ?s] =>
        destruct (IH s) as (st' & Hrun & Hcat & Hall)
    end.
    + cbn [time_gap_reference]. destruct Hok as [Hok|Hok]; [left; auto|].
      right. now apply Forall_cons in Hok as [_ Hok].
    + cbn [groups]. destruct (joins_group st1 message) eqn:Hjoin.
      * now rewrite Hg.
      * rewrite Hg. apply Forall_app. split; [exact Hgroups|].
        repeat constructor. unfold joins_group in Hjoin.
        rewrite Hc. intros Hnil. rewrite Hc, Hnil in Hjoin. discriminate.
    + exists st'. split; [exact Hrun|]. split; [|exact Hall].
      rewrite Hcat. cbn [groups current_group]. rewrite Hg, Hc.
      destruct (joins_group st1 message).
      * now rewrite <- !app_assoc.
      * rewrite concat_app. simpl. rewrite app_nil_r.
        now rewrite <- !app_assoc.
Qed.

Lemma group_by_gap_partitions messages reference :
  reference <> [] ->
  Forall is_message messages \/ length reference = 1%nat ->
  exists groups,
    group_by_gap messages reference = Grouped groups
    /\ concat groups = messages
    /\ Forall (fun g => g <> []) groups.
Proof.
  intros Hne Hok. unfold group_by_gap.
  destruct (pop_max_threshold_nonempty reference Hne)
    as (thr & gap & -> & Hthr).
  cbn [fst snd].
  destruct (group_loop_partitions messages
              {| groups := []; current_group := [];
                 last_message_date := None;
                 time_gap_reference := dict_del thr reference;
                 max_threshold := thr; max_time_gap := gap |})
    as (st & -> & Hcat & Hall).
  { cbn [time_gap_reference]. destruct Hok as [Hok|Hok]; [now right|].
    left. now apply dict_del_only. }
  { constructor. }
  simpl in Hcat. destruct (current_group st) as [|x g] eqn:Hg.
  - rewrite app_nil_r in Hcat. eauto.
  - eexists. split; [reflexivity|]. split.
    + rewrite concat_app. simpl. now rewrite app_nil_r.
    + apply Forall_app. split; [exact Hall|]. repeat constructor. discriminate.
Qed.

(** X18. Without size limits, [group_messages] splits the messages and
    loses none: for a [time_gap_reference] with at least one threshold
    and items that are all messages (or any items when there is exactly one
    threshold), it returns groups none of which is empty and whose
    concatenation is the list it was given, in order. *)
Theorem group_messages_partitions :
  forall fuel messages time_gaps,
    time_gaps <> [] ->
    Forall is_message messages \/ length time_gaps = 1%nat ->
    exists groups,
      group_messages fuel messages time_gaps [] = Grouped groups
      /\ concat groups = messages
      /\ Forall (fun g => g <> []) groups.
Proof.
  intros fuel messages time_gaps Hne Hok. unfold group_messages.
  destruct (group_by_gap_partitions messages time_gaps Hne Hok)
    as (groups & -> & Hcat & Hall).
  eauto.
Qed.

Lemma group_messages_partitions_witness :
  exists groups,
    group_messages 0 (map Msg sample_messages) [(100, 5); (50, 10)] []
    = Grouped groups
    /\ concat groups = map Msg sample_messages
    /\ Forall (fun g => g <> []) groups.
Proof.
  apply (group_messages_partitions 0 (map Msg sample_messages)
           [(100, 5); (50, 10)]).
  - discriminate.
  - left. repeat constructor.
Defined.

(** X19. [group_messages] asks a [Summary] for its [date] as long as a
    threshold is left: given at least two thresholds, a list that starts
    with a summary makes it raise [AttributeError], whatever follows. *)
Theorem group_messages_summary_first_raises :
  forall fuel s rest time_gaps size_limits,
    (2 <= length time_gaps)%nat ->
    group_messages fuel (Sum s :: rest) time_gaps size_limits
    = GroupingRaise AttributeError_date.
Proof.
  intros fuel s rest time_gaps size_limits Hlen.
  unfold group_messages, group_by_gap.
  destruct (pop_max_threshold_nonempty time_gaps)
    as (thr & gap & -> & _).
  { intros ->. simpl in Hlen. lia. }
  cbn [fst snd group_loop]. unfold group_step, next_threshold.
  cbn [time_gap_reference].
  pose proof (dict_del_length thr time_gaps) as Hdel.
  destruct (dict_del thr time_gaps); [simpl in Hdel; lia|reflexivity].
Qed.

Lemma group_messages_summary_first_raises_witness :
  group_messages 0
    [Sum {| max_date := 2; min_date := 1; summary := "both" |};
     Msg (human_at "c" 3)]
    [(100, 5); (50, 10); (20, 30)] []
  = GroupingRaise AttributeError_date.
Proof.
  apply (group_messages_summary_first_raises 0
           {| max_date := 2; min_date := 1; summary := "both" |}
           [Msg (human_at "c" 3)] [(100, 5); (50, 10); (20, 30)] []).
  simpl. lia.
Defined.

(** *** The size check *)

Lemma size_reference_key size_limits max_date reference :
  size_reference size_limits max_date = Some reference ->
  dict_get reference size_limits <> None.
Proof.
  unfold size_reference. intros Hfind.
  apply find_some in Hfind as [Hin _].
  apply in_rev in Hin.
  apply (Permutation_in _ (py_sort_perm (fun key => key) _)) in Hin.
  intros Hnone. now apply dict_get_None_keys in Hnone.
Qed.

Lemma largest_gap_range group :
  forall i split gap previous,
    let r := fst (fst (largest_gap i group (split, gap, Some previous))) in
    r = split \/ (i <= r < i + length group)%nat.
Proof.
  induction group as [|message group IH]; intros i split gap previous;
    cbn [largest_gap fst snd].
  - now left.
  - destruct (match gap with
              | Some max_gap => max_gap <? item_end message - previous
              | None => true
              end).
    + destruct (IH (S i) i (Some (item_end message - previous))
                   (item_end message)) as [H|H]; simpl in *; lia.
    + destruct (IH (S i) split gap (item_end message)) as [H|H];
        simpl in *; lia.
Qed.

Lemma split_index_range group :
  (2 <= length group)%nat ->
  (1 <= split_index_of group < length group)%nat.
Proof.
  destruct group as [|message group]; simpl; [lia|]. intros Hlen.
  unfold split_index_of. cbn [largest_gap fst snd].
  destruct (largest_gap_range group 1 1 None (item_end message)) as [H|H];
    simpl in H.
  - rewrite H. simpl. lia.
  - destruct (fst (fst (largest_gap 1 group (1%nat, None,
                                             Some (item_end message)))))
      as [|r]; simpl; lia.
Qed.

Lemma stands_for_same items : Forall2 stands_for items items.
Proof. induction items; constructor; auto. now left. Qed.

Lemma queue_measure_concat queue :
  (queue_measure queue <= 2 * length (concat queue))%nat.
Proof.
  induction queue as [|g queue IH]; simpl; [lia|].
  rewrite length_app. lia.
Qed.

Lemma group_stands_for_same size_limits groups :
  Forall2 (group_stands_for size_limits) groups groups.
Proof. induction groups; constructor; auto. now left. Qed.

Lemma check_sizes_keeps size_limits fuel :
  forall queue final,
    Forall (fun g => g <> []) queue ->
    (queue_measure queue <= fuel)%nat ->
    exists result segments,
      check_sizes fuel size_limits queue final = Grouped (final ++ result)
      /\ Forall (fun g => g <> []) result
      /\ Forall2 stands_for (concat result) (concat queue)
      /\ concat segments = concat queue
      /\ Forall2 (group_stands_for size_limits) result segments.
Proof.
  induction fuel as [|fuel IH]; intros queue final Hne Hfuel.
  - destruct queue as [|group queue].
    + exists [], []. rewrite app_nil_r. repeat split; constructor.
    + apply Forall_cons in Hne as [Hg _]. simpl in Hfuel.
      destruct group; [congruence|]. simpl in Hfuel. lia.
  - destruct queue as [|group queue].
    + exists [], []. rewrite app_nil_r. repeat split; constructor.
    + apply Forall_cons in Hne as [Hg Hne].
      destruct group as [|msg others]; [congruence|].
      assert (Hkeep : exists result segments,
                 check_sizes fuel size_limits queue
                             (final ++ [msg :: others])
                 = Grouped (final ++ result)
                 /\ Forall (fun g => g <> []) result
                 /\ Forall2 stands_for (concat result)
                            (concat ((msg :: others) :: queue))
                 /\ concat segments = concat ((msg :: others) :: queue)
                 /\ Forall2 (group_stands_for size_limits) result segments).
      { destruct (IH queue (final ++ [msg :: others]) Hne)
          as (result & segments & Hrun & Hall & Hrel & Hcat & Hseg).
        { simpl in Hfuel. lia. }
        exists ((msg :: others) :: result), ((msg :: others) :: segments).
        rewrite Hrun, <- app_assoc.
        split; [reflexivity|]. split; [constructor; auto|]. split.
        - cbn [concat]. apply Forall2_app; [apply stands_for_same|exact Hrel].
        - split; [cbn [concat]; now rewrite Hcat|].
          constructor; [now left | exact Hseg]. }
      cbn [check_sizes].
      destruct (size_reference size_limits _) as [reference|] eqn:Href;
        [|exact Hkeep].
      destruct (dict_get reference size_limits) as [[max_group_size|]|] eqn:Hget;
        [|exact Hkeep|now apply size_reference_key in Href].
      destruct others as [|other others].
      * destruct (IH queue (final ++ [[truncated msg max_group_size]]) Hne)
          as (result & segments & Hrun & Hall & Hrel & Hcat & Hseg).
        { simpl in Hfuel. lia. }
        exists ([truncated msg max_group_size] :: result), ([msg] :: segments).
        rewrite Hrun, <- app_assoc.
        split; [reflexivity|]. split; [constructor; [discriminate|auto]|].
        split.
        -- cbn [concat app]. constructor; [|exact Hrel].
           right. now exists max_group_size.
        -- split; [cbn [concat]; now rewrite Hcat|].
           constructor; [|exact Hseg].
           right. exists msg, reference, max_group_size.
           split; [reflexivity|]. split; [exact Href|].
           split; [exact Hget | reflexivity].
      * destruct (max_group_size <? cumulated_size (msg :: other :: others));
          [|exact Hkeep].
        pose proof (split_index_range (msg :: other :: others)
                      ltac:(simpl; lia)) as Hsplit.
        remember (split_index_of (msg :: other :: others)) as split_index
          eqn:Hindex.
        remember (msg :: other :: others) as group eqn:Hgroup.
        assert (Hlen : (2 * length group - 1 + queue_measure queue
                        <= S fuel)%nat) by exact Hfuel.
        assert (Htake : length (take split_index group) = split_index)
          by (rewrite length_take; lia).
        assert (Hdrop : length (drop split_index group)
                        = (length group - split_index)%nat)
          by apply length_drop.
        destruct (IH (take split_index group :: drop split_index group
                      :: queue) final)
          as (result & segments & Hrun & Hall & Hrel & Hcat & Hseg).
        { constructor; [|constructor; [|exact Hne]].
          - intros Hnil. rewrite Hnil in Htake. simpl in Htake. lia.
          - intros Hnil. rewrite Hnil in Hdrop. simpl in Hdrop. lia. }
        { cbn [queue_measure fold_right]. rewrite Htake, Hdrop.
          fold (queue_measure queue). lia. }
        exists result, segments. split; [exact Hrun|]. split; [exact Hall|].
        cbn [concat] in *. rewrite app_assoc, take_drop in Hrel, Hcat.
        split; [exact Hrel|]. split; [exact Hcat | exact Hseg].
Qed.

Lemma truncated_keeps_dates item max_group_size :
  item_end (truncated item max_group_size) = item_end item
  /\ item_start (truncated item max_group_size) = item_start item.
Proof. destruct item as [[h|a|s]|s]; split; reflexivity. Qed.

(** X20. With size limits too, [group_messages] loses no message and
    keeps the order: given at least one time threshold, items that are all
    messages (or any items when there is exactly one threshold) and two
    units of fuel per item, it returns groups none of which is empty, and
    the items of the groups, taken in order, are the items it was given,
    each one either as it was or, when it is alone in its group, as its
    copy cut to the size limit, with the same dates.  Group by group:
    the items given fall into consecutive runs, one per returned group,
    and a group is its run unchanged unless the run is a single item to
    which a size limit applies -- the limit stored under the greatest key
    that the item's date reaches -- and the group is then the copy of that
    item cut to this limit, alone. *)
Theorem group_messages_keeps_messages :
  forall fuel messages time_gaps size_limits,
    time_gaps <> [] ->
    Forall is_message messages \/ length time_gaps = 1%nat ->
    (2 * length messages <= fuel)%nat ->
    exists groups,
      group_messages fuel messages time_gaps size_limits = Grouped groups
      /\ Forall (fun g => g <> []) groups
      /\ Forall2 (fun out item =>
                    stands_for out item
                    /\ item_end out = item_end item
                    /\ item_start out = item_start item)
                 (concat groups) messages
      /\ exists segments,
           concat segments = messages
           /\ Forall2 (group_stands_for size_limits) groups segments.
Proof.
  intros fuel messages time_gaps size_limits Hne Hok Hfuel.
  unfold group_messages.
  destruct (group_by_gap_partitions messages time_gaps Hne Hok)
    as (groups & -> & Hcat & Hall).
  assert (Hdates : forall outs items,
             Forall2 stands_for outs items ->
             Forall2 (fun out item =>
                        stands_for out item
                        /\ item_end out = item_end item
                        /\ item_start out = item_start item) outs items).
  { intros outs items H. eapply Forall2_impl; [exact H|].
    intros out item Hs. split; [exact Hs|].
    destruct Hs as [->|[n ->]]; [auto|apply truncated_keeps_dates]. }
  destruct size_limits as [|limit size_limits].
  - exists groups. split; [reflexivity|]. split; [exact Hall|]. split.
    + rewrite Hcat. apply Hdates, stands_for_same.
    + exists groups. split; [exact Hcat | apply group_stands_for_same].
  - destruct (check_sizes_keeps (limit :: size_limits) fuel groups [] Hall)
      as (result & segments & Hrun & Hall' & Hrel & Hsegs & Hseg).
    { pose proof (queue_measure_concat groups). rewrite Hcat in *. lia. }
    exists result. split; [exact Hrun|]. split; [exact Hall'|]. split.
    + rewrite Hcat in Hrel. now apply Hdates.
    + exists segments. split; [congruence | exact Hseg].
Qed.

Lemma group_messages_keeps_messages_witness :
  exists groups,
    group_messages 4 (map Msg sample_messages) [(100, 5); (50, 10)]
                   [(0, Some 2)] = Grouped groups
    /\ Forall (fun g => g <> []) groups
    /\ Forall2 (fun out item =>
                  stands_for out item
                  /\ item_end out = item_end item
                  /\ item_start out = item_start item)
               (concat groups) (map Msg sample_messages)
    /\ exists segments,
         concat segments = map Msg sample_messages
         /\ Forall2 (group_stands_for [(0, Some 2)]) groups segments.
Proof.
  apply (group_messages_keeps_messages 4 (map Msg sample_messages)
           [(100, 5); (50, 10)] [(0, Some 2)]).
  - discriminate.
  - left. repeat constructor.
  - simpl. lia.
Defined.

(** The two messages of four characters, one unit of time apart, exceed
    the limit of two characters together: the group is split and each
    message is cut to three characters. *)
Example group_messages_splits_and_cuts :
  group_messages 4 (map Msg sample_messages) [(100, 5); (50, 10)]
                 [(0, Some 2)]
  = Grouped [[Msg (human_at "aaa" 1)]; [Msg (human_at "bbb" 2)]].
Proof. reflexivity. Qed.

(** ** What an assembled list is made of *)

Section AssembledItems.
Variable sums : list (Z * list Summary).
Variable P : Item -> Prop.
Hypothesis P_candidate :
  forall item cands c,
    P item -> dict_get (item_end item) sums = Some cands -> In c cands ->
    P (Sum c).

Lemma remove_timeframe_keeps use_summary candidate items :
  Forall P items ->
  Forall P (snd (fst (remove_timeframe use_summary candidate items))).
Proof.
  induction 1 as [|x items Hx Hitems IH]; simpl; [constructor|].
  destruct (in_timeframe candidate x); simpl; [exact IH|].
  constructor; auto.
Qed.

Lemma py_insert_keeps (i : nat) x items :
  P x -> Forall P items -> Forall P (py_insert i x items).
Proof.
  intros Hx Hitems. unfold py_insert. apply Forall_app. split.
  - now apply Forall_take.
  - constructor; [exact Hx|]. now apply Forall_drop.
Qed.

Lemma sweep_item_keeps use_summary st item st' :
  sweep_item use_summary sums st item = Ok st' ->
  P item -> Forall P (snd (fst st)) -> Forall P (snd (fst st')).
Proof.
  unfold sweep_item. intros Hrun Hitem Hst.
  destruct (dict_get (item_end item) sums) as [cands|] eqn:Hget;
    [|now injection Hrun as <-].
  destruct (List.find _ cands) as [c|] eqn:Hfind; [|now injection Hrun as <-].
  destruct (snd (remove_timeframe use_summary c (snd (fst st)))) as [i|];
    [|discriminate].
  injection Hrun as <-. cbn [fst snd].
  apply py_insert_keeps.
  - apply find_some in Hfind as [Hin _]. eapply P_candidate; eauto.
  - now apply remove_timeframe_keeps.
Qed.

Lemma sweep_keeps use_summary snapshot :
  forall st st',
    sweep use_summary sums snapshot st = Ok st' ->
    Forall P snapshot -> Forall P (snd (fst st)) -> Forall P (snd (fst st')).
Proof.
  induction snapshot as [|item snapshot IH]; intros st st'; simpl.
  - now intros [= <-].
  - destruct (sweep_item use_summary sums st item) as [st1| |] eqn:Hitem;
      simpl; try discriminate.
    intros Hrun Hsnap Hst. apply Forall_cons in Hsnap as [Hi Hsnap].
    apply (IH _ _ Hrun Hsnap). eapply sweep_item_keeps; eauto.
Qed.

Lemma Forall_rev_keeps (items : list Item) :
  Forall P items -> Forall P (rev items).
Proof.
  intros H. rewrite Forall_forall in *. intros x Hx. apply H.
  apply list_elem_of_In in Hx. apply list_elem_of_In. now apply in_rev.
Qed.

Lemma backtrack_keeps use_summary max_size fuel :
  forall count items r,
    backtrack fuel use_summary sums max_size count items = Ok r ->
    Forall P items -> Forall P (snd r).
Proof.
  induction fuel as [|fuel IH]; intros count items r; simpl.
  - destruct (max_size <? count); [discriminate|]. now intros [= <-].
  - destruct (max_size <? count); [|now intros [= <-]].
    destruct (sweep use_summary sums (rev items) (count, items, false))
      as [st| |] eqn:Hsweep; simpl; try discriminate.
    intros Hrun Hitems.
    assert (Hst : Forall P (snd (fst st))).
    { apply (sweep_keeps _ _ _ _ Hsweep); [|exact Hitems].
      now apply Forall_rev_keeps. }
    destruct (snd st).
    + apply (IH _ _ _ Hrun Hst).
    + injection Hrun as <-. exact Hst.
Qed.

Lemma removelast_keeps (items : list Item) :
  Forall P items -> Forall P (removelast items).
Proof.
  induction 1 as [|x items Hx Hitems IH]; simpl; [constructor|].
  destruct items; [constructor|]. constructor; auto.
Qed.

Lemma assemble_step_keeps fuel rank use_summary max_size st min_date' msg st' :
  assemble_step fuel sums rank use_summary max_size st min_date' msg = Ok st' ->
  P (Msg msg) -> Forall P (assembled st) -> Forall P (assembled st').
Proof.
  unfold assemble_step. intros Hrun Hmsg Hst.
  destruct (match (if st_min_message st =? 0
                   then dict_get (date msg) sums else None) with
            | Some cands =>
                match py_index cands
                        (Z.min rank (Z.of_nat (length cands) - 1)) with
                | Some i =>
                    match cands !! i with
                    | Some s => Ok (Sum s, st_min_message st)
                    | None => Raise IndexError
                    end
                | None => Raise IndexError
                end
            | None =>
                Ok (Msg msg,
                    if 0 <? st_min_message st
                    then st_min_message st - 1 else st_min_message st)
            end) as [added| |] eqn:Hadded; cbn [bind] in Hrun;
    try discriminate.
  assert (Hadd : P (fst added)).
  { destruct (st_min_message st =? 0).
    - destruct (dict_get (date msg) sums) as [cands|] eqn:Hget.
      + destruct (py_index cands _) as [i|]; [|discriminate].
        destruct (cands !! i) as [s|] eqn:Hs; [|discriminate].
        injection Hadded as <-. simpl.
        apply (P_candidate (Msg msg) cands s Hmsg Hget).
        apply list_elem_of_In. eapply list_elem_of_lookup_2; eauto.
      + now injection Hadded as <-.
    - now injection Hadded as <-. }
  destruct (backtrack fuel use_summary sums max_size _ _) as [r| |] eqn:Hback;
    cbn [bind] in Hrun; try discriminate.
  assert (Hr : Forall P (snd r)).
  { apply (backtrack_keeps _ _ _ _ _ _ Hback).
    apply Forall_app. split; [exact Hst|]. now repeat constructor. }
  destruct (max_size <? fst r).
  - destruct (snd r) as [|x items] eqn:Hitems; [discriminate|].
    injection Hrun as <-. cbn [assembled].
    change (Forall P (removelast (x :: items))).
    now apply removelast_keeps.
  - injection Hrun as <-. exact Hr.
Qed.

Lemma assemble_loop_keeps fuel rank use_summary max_size max_message max_date
    (Q : StructuredMessage -> Prop) todo :
  (forall msg st, Q msg ->
     gate msg (assembled st) (st_min_message st) max_message
          (st_min_date st) max_date <> Skip ->
     gate msg (assembled st) (st_min_message st) max_message
          (st_min_date st) max_date <> Stop ->
     P (Msg msg)) ->
  forall st result,
    assemble_loop fuel sums rank use_summary max_size max_message max_date
                  todo st = Ok result ->
    Forall Q todo -> Forall P (assembled st) -> Forall P result.
Proof.
  intros Hgate. induction todo as [|msg todo IH]; intros st result; simpl.
  - now intros [= <-].
  - intros Hrun Htodo Hst. apply Forall_cons in Htodo as [Hmsg Htodo].
    specialize (Hgate msg st Hmsg).
    destruct (gate msg (assembled st) (st_min_message st) max_message
                   (st_min_date st) max_date) as [| |min_date'].
    + eauto.
    + now injection Hrun as <-.
    + destruct (assemble_step fuel sums rank use_summary max_size st
                              min_date' msg) as [st'| |] eqn:Hstep;
        cbn [bind] in Hrun; try discriminate.
      apply (IH _ _ Hrun Htodo).
      apply (assemble_step_keeps _ _ _ _ _ _ _ _ Hstep); [|exact Hst].
      apply Hgate; discriminate.
Qed.

End AssembledItems.

(** X21. [assemble_messages] returns only what it was given, and respects
    [max_date]: whenever it returns, on summaries stored under their
    [max_date], every item of the result is one of the messages or one of
    the stored summaries, and with a [max_date] every item ends before
    it. *)
Theorem assemble_returns_given :
  forall fuel msgs sums rank use_summary max_size min_message max_message
         min_date max_date result,
    wf_summaries sums ->
    assemble_messages fuel msgs sums rank use_summary max_size min_message
                      max_message min_date max_date = Ok result ->
    Forall (assembled_from msgs sums max_date) result.
Proof.
  intros fuel msgs sums rank use_summary max_size min_message max_message
         min_date max_date result Hwf.
  unfold assemble_messages.
  destruct (assemble_loop _ _ _ _ _ _ _ _ _) as [items| |] eqn:Hloop;
    cbn [bind]; try discriminate.
  intros [= <-].
  assert (Hcand : forall item cands c,
             assembled_from msgs sums max_date item ->
             dict_get (item_end item) sums = Some cands -> In c cands ->
             assembled_from msgs sums max_date (Sum c)).
  { intros item cands c [_ Hdate] Hget Hc. split.
    - eapply candidates_in_all; eauto.
    - destruct max_date as [d|]; [|exact I].
      destruct (wf_summaries_get _ _ _ Hwf Hget) as [_ Hall].
      destruct (Hall c Hc) as [Hkey _]. simpl. lia. }
  assert (Hgate : forall msg st,
             In msg msgs ->
             gate msg (assembled st) (st_min_message st) max_message
                  (st_min_date st) max_date <> Skip ->
             gate msg (assembled st) (st_min_message st) max_message
                  (st_min_date st) max_date <> Stop ->
             assembled_from msgs sums max_date (Msg msg)).
  { intros msg st Hin Hskip _. split; [exact Hin|].
    destruct max_date as [d|]; [|exact I].
    unfold gate in Hskip. simpl.
    destruct (d <=? date msg) eqn:Hd; [congruence|].
    now apply Z.leb_gt in Hd. }
  apply Forall_rev_keeps.
  apply (assemble_loop_keeps sums _ Hcand _ _ _ _ _ _
           (fun m => In m msgs) _ Hgate _ _ Hloop); [|constructor].
  rewrite Forall_forall. intros m Hm. apply in_rev.
  now apply list_elem_of_In.
Qed.

Lemma assemble_returns_given_witness :
  Forall (assembled_from sample_messages sample_summaries (Some 3))
         [Sum {| max_date := 2; min_date := 1; summary := "both" |}].
Proof.
  apply (assemble_returns_given 2 sample_messages sample_summaries 0 true
           4 0 None None (Some 3)).
  - repeat constructor; simpl; try lia. discriminate.
  - vm_compute. reflexivity.
Defined.

(** ** What the updates built from MCP responses hold *)

Lemma push_new_message_notices ids u channel_id tid d :
  In tid ids ->
  notices_only ids u ->
  notices_only ids (push_new_message u channel_id (toolupdated_message tid d)).
Proof.
  intros Hin (Hcur & Htools & Hall). unfold notices_only, push_new_message.
  cbn [upd_current_channel tool_updates channel_updates].
  split; [exact Hcur|]. split; [exact Htools|].
  apply Forall_dict_set; [exact Hall|]. cbn [snd new_messages].
  destruct (dict_get channel_id (channel_updates u)) as [cu|] eqn:Hcu.
  - apply dict_get_In, list_elem_of_In in Hcu.
    rewrite Forall_forall in Hall. destruct (Hall _ Hcu) as [Hshape Hmsgs].
    simpl in Hshape, Hmsgs. split.
    + rewrite Hshape. reflexivity.
    + apply Forall_app. split; [exact Hmsgs|]. repeat constructor. eauto.
  - split; [reflexivity|]. repeat constructor. eauto.
Qed.

Lemma generate_step_notices clk locations ids n st r st' :
  generate_step clk locations [] n st r = Ok st' ->
  In (response_id r) ids ->
  notices_only ids (snd st) -> notices_only ids (snd st').
Proof.
  unfold generate_step. fold (response_id r). intros H Hin Hno.
  destruct (dict_get _ locations) as [[[cid idx]|]|]; try discriminate.
  simpl in H.
  destruct (dict_get cid (channels (fst st))) as [channel|]; try discriminate.
  simpl in H.
  destruct (messages channel !! idx) as [[hm|a|sm]|]; try discriminate.
  simpl in H.
  destruct (dict_get _ (internal_tool_messages a)); try discriminate.
  injection H as <-. cbn [snd].
  destruct (Z.of_nat idx <? _); [|exact Hno].
  now apply push_new_message_notices.
Qed.

Lemma generate_loop_notices clk locations ids responses :
  forall n st u self',
    generate_loop clk locations [] n st responses = (Ok u, self') ->
    (forall r, In r responses -> In (response_id r) ids) ->
    notices_only ids (snd st) -> notices_only ids u.
Proof.
  induction responses as [|r responses IH]; intros n st u self'; simpl.
  - intros [= <- _]. auto.
  - destruct (generate_step clk locations [] n st r) as [st'| |] eqn:Hstep;
      try discriminate.
    intros Hloop Hids Hno. apply (IH _ _ _ _ Hloop).
    + intros r' Hr'. apply Hids. now right.
    + eapply generate_step_notices; eauto.
Qed.

(** X22. The updates that [generate_updates_from_mcp_responses] returns
    never carry a tool state: for responses without updates of their own,
    whenever it returns, the result has no current channel, no tool
    updates, no positional updates, and its channel diffs hold nothing but
    new [#toolupdated#] messages with a lifespan of 1, each for the tool
    call of one of the responses.  The status and the content of the
    responses are written into the history [self] alone. *)
Theorem generate_updates_only_notices :
  forall clk fuel self responses u self',
    (forall r, In r responses -> updates r = None) ->
    generate_updates_from_mcp_responses clk fuel self responses
    = (Ok u, self') ->
    notices_only (map response_id responses) u.
Proof.
  intros clk fuel self responses u self' Hnone.
  unfold generate_updates_from_mcp_responses.
  destruct (locate_tool_calls _ _ _ _) as [locations| |]; try discriminate.
  destruct (generate_loop clk locations [] 0 (self, empty_updates) responses)
    as [[u1| |] self1] eqn:Hloop; try discriminate.
  simpl. rewrite fold_updates_none by exact Hnone. intros [= <- <-].
  apply (generate_loop_notices _ _ _ _ _ _ _ _ Hloop).
  - intros r Hr. now apply in_map.
  - repeat split. constructor.
Qed.

Lemma generate_updates_only_notices_witness :
  notices_only ["t1"]
    (channel_diffs [("c1", only_new_messages [toolupdated_message "t1" 0])]).
Proof.
  eapply (generate_updates_only_notices clock0 2 s1_followed
            [response_for "t1" MCP_completed "ok"]).
  - intros r [<-|[]]. reflexivity.
  - vm_compute. reflexivity.
Defined.

(** ** The cleanup stage on a history *)

Lemma dict_set_absent {K V : Type} `{EqDecision K} (k : K) (v : V) d :
  dict_get k d = None -> dict_set k v d = d ++ [(k, v)].
Proof.
  induction d as [|[k' v'] d IH]; simpl; [reflexivity|].
  destruct (decide (k = k')); [discriminate|]. intros H. now rewrite IH.
Qed.

Lemma NoDup_dict_get {K V : Type} `{EqDecision K} (k : K) (v : V) d :
  NoDup (dict_keys d) -> In (k, v) d -> dict_get k d = Some v.
Proof.
  induction d as [|[k' v'] d IH]; simpl; [intros _ []|].
  intros Hnd Hin. apply NoDup_cons in Hnd as [Hfresh Hnd].
  destruct Hin as [[= -> ->]|Hin].
  - now rewrite decide_True.
  - rewrite decide_False; [auto|].
    intros ->. apply Hfresh. apply list_elem_of_In.
    unfold dict_keys. apply in_map_iff. now exists (k', v).
Qed.

Lemma dict_update_ascending {V : Type} (other : list (Z * V)) :
  forall d,
    StronglySorted Z.lt (dict_keys (d ++ other)) ->
    dict_update d other = d ++ other.
Proof.
  unfold dict_update.
  induction other as [|[k v] other IH]; intros d Hs; simpl.
  - now rewrite app_nil_r.
  - assert (Hfresh : Forall (fun kv => fst kv < k) d).
    { unfold dict_keys in Hs. rewrite map_app in Hs.
      apply StronglySorted_app in Hs as (Hlt & _ & _).
      rewrite Forall_forall. intros kv Hkv. apply Hlt.
      - apply list_elem_of_In, in_map. now apply list_elem_of_In.
      - simpl. apply list_elem_of_In. now left. }
    rewrite dict_set_fresh by exact Hfresh.
    rewrite IH; rewrite <- app_assoc; [reflexivity|exact Hs].
Qed.

Lemma scan_updates_ascending msgs :
  forall i,
    Forall (fun k => Z.of_nat i <= k) (dict_keys (scan_updates_of i msgs))
    /\ StronglySorted Z.lt (dict_keys (scan_updates_of i msgs)).
Proof.
  induction msgs as [|m msgs IH]; intros i.
  - split; constructor.
  - destruct (scan_of_cons i m msgs) as [-> _].
    destruct (IH (S i)) as [Hge Hs].
    assert (Hge' : Forall (fun k => Z.of_nat i < k)
                          (dict_keys (scan_updates_of (S i) msgs)))
      by (eapply Forall_impl; [exact Hge|]; simpl; intros; lia).
    assert (Hskip : Forall (fun k => Z.of_nat i <= k)
                           (dict_keys (scan_updates_of (S i) msgs)))
      by (eapply Forall_impl; [exact Hge'|]; simpl; intros; lia).
    destruct m as [hm|a|s]; simpl; auto.
    destruct (lifespan s) as [n|]; simpl; auto.
    destruct (1 <? n); simpl; auto.
    split; constructor; auto. lia.
Qed.

Lemma cleanup_updates_scan channel :
  message_updates (cleanup_channel_updates channel)
  = scan_updates_of 0 (messages channel).
Proof.
  unfold cleanup_channel_updates. cbn [message_updates].
  destruct (cleanup_scan_acc (messages channel) 0%nat [] []
              (last_activity channel) 0 ltac:(constructor)) as [Hmu _].
  exact Hmu.
Qed.

Lemma merge_empty_left cu :
  StronglySorted Z.lt (dict_keys (message_updates cu)) ->
  merge empty_channel_updates cu = cu.
Proof.
  destruct cu as [n t w d r tmp nm mu md al ns]. unfold merge. simpl.
  intros Hs. rewrite (dict_update_ascending mu []) by exact Hs.
  destruct n, t, w, d, r, tmp; reflexivity.
Qed.

Lemma merge_into_empty channel :
  merge empty_channel_updates (cleanup_channel_updates channel)
  = cleanup_channel_updates channel.
Proof.
  apply merge_empty_left. rewrite cleanup_updates_scan.
  apply scan_updates_ascending.
Qed.

Lemma cleanup_from chans :
  forall u,
    NoDup (dict_keys chans) ->
    (forall k, In k (dict_keys chans) -> dict_get k (channel_updates u) = None) ->
    fold_left cleanup_channel chans u
    = {| channel_updates := channel_updates u ++ cleanup_entries chans;
         upd_current_channel := upd_current_channel u;
         tool_updates := tool_updates u |}.
Proof.
  induction chans as [|[k c] chans IH]; intros u Hnd Hfresh.
  - simpl. rewrite app_nil_r. now destruct u.
  - simpl in Hnd. apply NoDup_cons in Hnd as [Hk Hnd].
    cbn [fold_left cleanup_entries flat_map].
    unfold cleanup_channel at 2. cbn [fst snd].
    fold (cleanup_entries chans).
    destruct (needs_cleanup c).
    + assert (Hne : channel_updates_is_empty (cleanup_channel_updates c)
                    = false) by reflexivity.
      rewrite Hne. cbn [negb].
      rewrite IH; [|exact Hnd|].
      * unfold internal_updates_reducer.
        cbn [channel_updates upd_current_channel tool_updates fold_left
             fst snd or_else].
        rewrite (Hfresh k) by now left.
        rewrite merge_into_empty, app_nil_r.
        rewrite dict_set_absent by (apply Hfresh; now left).
        now rewrite <- app_assoc.
      * intros k' Hk'. unfold internal_updates_reducer.
        cbn [channel_updates fold_left fst snd].
        rewrite dict_get_set_ne.
        -- apply Hfresh. now right.
        -- intros ->. apply Hk. now apply list_elem_of_In.
    + rewrite IH; [reflexivity|exact Hnd|].
      intros k' Hk'. apply Hfresh. now right.
Qed.

Lemma process_cleanup_updates clk channel_id channel :
  exists channel',
    process_channel clk channel_id channel (cleanup_channel_updates channel)
    = Ok channel'
    /\ messages channel' = flat_map decay (messages channel).
Proof.
  unfold process_channel.
  rewrite cleanup_updates_scan.
  pose proof (apply_scan_updates channel_id (messages channel) []) as H2.
  simpl in H2. rewrite H2. cbn [bind].
  assert (Hmd : message_deletes (cleanup_channel_updates channel)
                = scan_deletes_of 0 (messages channel)).
  { unfold cleanup_channel_updates. cbn [message_deletes].
    destruct (cleanup_scan_acc (messages channel) 0%nat [] []
                (last_activity channel) 0 ltac:(constructor)) as [_ Hmd].
    exact Hmd. }
  rewrite Hmd.
  destruct (scan_deletes_ascending (messages channel) 0%nat) as [_ Hasc].
  rewrite (sorted_reverse_ascending _ Hasc).
  pose proof (delete_scan_deletes (messages channel) []) as H3.
  simpl in H3. rewrite H3. cbn [bind].
  eexists. split; reflexivity.
Qed.

Lemma apply_cleanup_entries clk chans :
  forall left,
    NoDup (dict_keys chans) ->
    (forall k c, In (k, c) chans -> dict_get k (channels left) = Some c) ->
    exists left',
      apply_all_channel_updates clk left (cleanup_entries chans) = Ok left'
      /\ dict_keys (channels left') = dict_keys (channels left)
      /\ current_channel left' = current_channel left
      /\ (forall k, ~ In k (dict_keys chans) ->
                    dict_get k (channels left') = dict_get k (channels left))
      /\ (forall k c,
            In (k, c) chans ->
            exists c',
              dict_get k (channels left') = Some c'
              /\ messages c'
                 = if needs_cleanup c then flat_map decay (messages c)
                   else messages c).
Proof.
  induction chans as [|[k c] chans IH]; intros left Hnd Hget.
  - exists left. simpl. repeat split; auto. intros ? ? [].
  - simpl in Hnd. apply NoDup_cons in Hnd as [Hk Hnd].
    assert (Hk' : ~ In k (dict_keys chans))
      by (intros H; apply Hk; now apply list_elem_of_In).
    cbn [cleanup_entries flat_map fst snd]. fold (cleanup_entries chans).
    destruct (needs_cleanup c) eqn:Hneeds.
    + cbn [app apply_all_channel_updates].
      unfold apply_channel_updates. cbn [fst snd].
      rewrite (Hget k c) by now left.
      destruct (process_cleanup_updates clk k c) as (c1 & -> & Hmsgs).
      cbn [bind].
      destruct (IH (set_channels left (dict_set k c1 (channels left))) Hnd)
        as (left' & Hrun & Hkeys & Hcur & Hframe & Hall).
      { intros k2 c2 Hin. simpl. rewrite dict_get_set_ne.
        - apply Hget. now right.
        - intros ->. apply Hk'. unfold dict_keys. apply in_map_iff.
          now exists (k2, c2). }
      exists left'. split; [exact Hrun|]. simpl in Hkeys, Hcur, Hframe.
      split.
      { rewrite Hkeys. apply dict_keys_set_present.
        rewrite (Hget k c) by now left. discriminate. }
      split; [exact Hcur|]. split.
      { intros k2 Hk2. rewrite Hframe by (intros H; apply Hk2; now right).
        apply dict_get_set_ne. intros ->. apply Hk2. now left. }
      intros k2 c2 [[= <- <-]|Hin].
      * exists c1. rewrite (Hframe k Hk'), Hneeds.
        split; [apply dict_get_set_eq|exact Hmsgs].
      * now apply Hall.
    + cbn [app].
      destruct (IH left Hnd) as (left' & Hrun & Hkeys & Hcur & Hframe & Hall).
      { intros k2 c2 Hin. apply Hget. now right. }
      exists left'. split; [exact Hrun|]. split; [exact Hkeys|].
      split; [exact Hcur|]. split.
      { intros k2 Hk2. apply Hframe. intros H. apply Hk2. now right. }
      intros k2 c2 [[= <- <-]|Hin].
      * exists c. rewrite (Hframe k Hk'), Hneeds.
        split; [apply Hget; now left|reflexivity].
      * now apply Hall.
Qed.

(** X23. The cleanup stage on a history, with no update pending: the
    updates it builds go through the reducer, which keeps the channels
    and the current channel; in every channel that needs a cleanup
    ([no_temporary_message_before] unset or older than [last_activity])
    the messages decay, one unit of lifespan less or gone, and the
    messages of the others are as they were. *)
Theorem cleanup_stage_decays :
  forall clk fuel h,
    NoDup (dict_keys (channels h)) ->
    exists h',
      history_reducer clk fuel h (Updates (cleanup empty_updates h)) = Ok h'
      /\ dict_keys (channels h') = dict_keys (channels h)
      /\ current_channel h' = current_channel h
      /\ forall k c,
           In (k, c) (channels h) ->
           exists c',
             dict_get k (channels h') = Some c'
             /\ messages c'
                = if needs_cleanup c then flat_map decay (messages c)
                  else messages c.
Proof.
  intros clk fuel h Hnd. unfold cleanup.
  rewrite cleanup_from by (auto; reflexivity).
  cbn [history_reducer].
  rewrite apply_internal_updates_no_tools by reflexivity.
  cbn [channel_updates empty_updates app upd_current_channel].
  destruct (apply_cleanup_entries clk (channels h) h Hnd)
    as (h1 & -> & Hkeys & Hcur & _ & Hall).
  { intros k c Hin. now apply NoDup_dict_get. }
  cbn [bind or_else]. eexists. split; [reflexivity|].
  cbn [channels current_channel]. auto.
Qed.

Lemma cleanup_stage_decays_witness :
  exists h',
    history_reducer clock0 0 temporary_history
      (Updates (cleanup empty_updates temporary_history)) = Ok h'
    /\ dict_keys (channels h') = dict_keys (channels temporary_history)
    /\ current_channel h' = current_channel temporary_history
    /\ forall k c,
         In (k, c) (channels temporary_history) ->
         exists c',
           dict_get k (channels h') = Some c'
           /\ messages c'
              = if needs_cleanup c then flat_map decay (messages c)
                else messages c.
Proof.
  apply (cleanup_stage_decays clock0 0%nat temporary_history).
  simpl. repeat (constructor;
                 [intros H; apply list_elem_of_In in H; simpl in H;
                  intuition discriminate|]).
  constructor.
Defined.

(** On [temporary_history]: [c1] is cleaned, [c2], checked up to its last
    activity, keeps its message of lifespan 1. *)
Example cleanup_stage_sample :
  exists h' c1 c2,
    history_reducer clock0 0 temporary_history
      (Updates (cleanup empty_updates temporary_history)) = Ok h'
    /\ dict_get "c1" (channels h') = Some c1
    /\ dict_get "c2" (channels h') = Some c2
    /\ messages c1 = [human_at "a" 10000000; temporary_at "note" 30000000 1;
                      human_at "b" 40000000]
    /\ messages c2 = [temporary_at "kept" 5 1].
Proof. eexists _, _, _. split; [vm_compute; reflexivity|]. repeat split. Qed.

(** ** The reducer keeps tool calls registered *)

Lemma registered_set_date m d : registered m -> registered (set_date m d).
Proof. destruct m as [hm|a|s]; simpl; auto. Qed.

Lemma registered_set_tool_message a tid tm :
  registered (AI a) -> registered (AI (set_tool_message a tid tm)).
Proof.
  simpl. intros H. eapply Forall_impl; [exact H|].
  intros tool_call Hc. simpl in *. rewrite dict_get_set.
  destruct (decide (tid = tc_id tool_call)); [discriminate|exact Hc].
Qed.

Lemma apply_message_updates_registered channel_id upds :
  forall msgs msgs',
    apply_message_updates channel_id msgs upds = Ok msgs' ->
    Forall (fun upd => registered (snd upd)) upds ->
    Forall registered msgs -> Forall registered msgs'.
Proof.
  induction upds as [|upd upds IH]; intros msgs msgs'; simpl.
  - now intros [= <-].
  - destruct (apply_message_update_value channel_id msgs upd) as [msgs1| |] eqn:H1;
      simpl; try discriminate.
    intros Hrest Hupds Hmsgs. apply Forall_cons in Hupds as [Hupd Hupds].
    apply (IH _ _ Hrest Hupds).
    rewrite apply_message_update_value_eq in H1.
    destruct (fst upd <? Z.of_nat (length msgs)); [|discriminate].
    destruct (py_index msgs (fst upd)) as [i|]; [|discriminate].
    destruct (msgs !! i) as [old|]; [|discriminate].
    injection H1 as <-. apply Forall_insert; [exact Hmsgs|].
    now apply registered_set_date.
Qed.

Lemma delete_messages_registered indices :
  forall msgs msgs',
    delete_messages msgs indices = Ok msgs' ->
    Forall registered msgs -> Forall registered msgs'.
Proof.
  induction indices as [|i indices IH]; intros msgs msgs'; simpl.
  - now intros [= <-].
  - destruct (delete_message msgs i) as [msgs1| |] eqn:H1;
      simpl; try discriminate.
    intros Hrest Hmsgs. apply (IH _ _ Hrest).
    unfold delete_message in H1.
    destruct (i <? Z.of_nat (length msgs)); [|now injection H1 as <-].
    destruct (py_index msgs i); [|discriminate].
    injection H1 as <-. now apply Forall_delete.
Qed.

Lemma fold_append_left_registered news :
  forall msgs,
    Forall registered news -> Forall registered msgs ->
    Forall registered (fold_left append_left_value news msgs).
Proof.
  induction news as [|n news IH]; intros msgs Hnews Hmsgs; simpl; [exact Hmsgs|].
  apply Forall_cons in Hnews as [Hn Hnews]. apply IH; [exact Hnews|].
  rewrite append_left_value_eq. destruct msgs as [|m0 msgs]; [now repeat constructor|].
  constructor; [|exact Hmsgs].
  destruct (date m0 <? date n); [now apply registered_set_date|exact Hn].
Qed.

Lemma process_channel_registered clk channel_id channel u channel' :
  process_channel clk channel_id channel u = Ok channel' ->
  registered_diff u ->
  Forall registered (messages channel) ->
  Forall registered (messages channel').
Proof.
  intros H (Hnew & Hupd & Hleft) Hmsgs.
  apply process_channel_spec in H as (msgs2 & msgs3 & H2 & H3 & -> & _).
  rewrite add_new_messages_perm. apply Forall_app. split; [|exact Hnew].
  apply fold_append_left_registered; [exact Hleft|].
  pose proof (apply_message_updates_registered _ _ _ _ H2 Hupd Hmsgs) as Hm2.
  pose proof (delete_messages_registered _ _ _ H3 Hm2) as Hm3.
  destruct (delete_before u); [|exact Hm3].
  rewrite Forall_forall in *. intros m Hm. apply Hm3.
  apply list_elem_of_In in Hm. apply filter_In in Hm as [Hm _].
  now apply list_elem_of_In.
Qed.

Lemma apply_all_channel_updates_registered clk entries :
  forall left left',
    apply_all_channel_updates clk left entries = Ok left' ->
    Forall (fun kv => registered_diff (snd kv)) entries ->
    history_registered left -> history_registered left'.
Proof.
  induction entries as [|e entries IH]; intros left left'; simpl.
  - now intros [= <-].
  - destruct (apply_channel_updates clk left e) as [l1| |] eqn:He;
      simpl; try discriminate.
    intros Hrest Hdiffs Hreg. apply Forall_cons in Hdiffs as [Hdiff Hdiffs].
    apply (IH _ _ Hrest Hdiffs).
    apply apply_channel_updates_spec in He as (c & Hc & Hch & _).
    unfold history_registered. rewrite Hch.
    apply Forall_dict_set; [exact Hreg|]. simpl.
    apply (process_channel_registered _ _ _ _ _ Hc Hdiff).
    unfold channel_or_new.
    destruct (dict_get (fst e) (channels left)) as [c0|] eqn:Hc0;
      [|constructor].
    apply dict_get_In, list_elem_of_In in Hc0.
    unfold history_registered in Hreg. rewrite Forall_forall in Hreg.
    apply (Hreg _ Hc0).
Qed.

Lemma apply_tool_updates_registered clk positions tus :
  forall n left left',
    apply_tool_updates clk positions n left tus = Ok left' ->
    history_registered left -> history_registered left'.
Proof.
  induction tus as [|tu tus IH]; intros n left left'; simpl.
  - now intros [= <-].
  - destruct (apply_tool_update clk positions n left tu) as [l1| |] eqn:Hu;
      simpl; try discriminate.
    intros Hrest Hreg. apply (IH _ _ _ Hrest). clear Hrest IH.
    unfold apply_tool_update in Hu.
    destruct (dict_get (tool_call_id tu) positions) as [[[cid idx]|]|];
      try discriminate; [|now inversion Hu; subst].
    destruct (dict_get cid (channels left)) as [channel|] eqn:Hch;
      try discriminate.
    destruct (messages channel !! idx) as [[hm|a|sm]|] eqn:Hidx;
      try discriminate.
    destruct (dict_get (tool_call_id tu) (internal_tool_messages a)) as [tm|];
      try discriminate.
    injection Hu as <-. unfold history_registered. simpl.
    apply Forall_dict_set; [exact Hreg|]. simpl.
    apply dict_get_In, list_elem_of_In in Hch.
    unfold history_registered in Hreg. rewrite Forall_forall in Hreg.
    specialize (Hreg _ Hch). simpl in Hreg.
    assert (Hins : Forall registered
              (<[idx := AI (set_tool_message a (tool_call_id tu)
                   (set_status tm (internal_status tu)
                      (if truthy (content tu) then content tu else None)))]>
                 (messages channel))).
    { apply Forall_insert; [exact Hreg|].
      apply registered_set_tool_message.
      rewrite Forall_forall in Hreg. apply Hreg.
      eapply list_elem_of_lookup_2; eauto. }
    destruct (Z.of_nat idx <? _); [|exact Hins].
    apply Forall_app. split; [exact Hins|]. repeat constructor.
    unfold clamped_toolupdated. now destruct (last _).
Qed.

(** X24. The reducer keeps tool calls registered: when every tool call of
    every Agent message of the history has its entry in
    [internal_tool_messages], and so have the messages that the right
    operand brings (new messages, positional updates, left appends, or the
    channels of a whole history), the same holds of the history that the
    reducer returns. *)
Theorem reducer_keeps_registered :
  forall clk fuel left right left',
    history_registered left ->
    updates_registered right ->
    history_reducer clk fuel left right = Ok left' ->
    history_registered left'.
Proof.
  intros clk fuel left right left' Hreg Hright Hred.
  destruct right as [|h|u]; simpl in Hred, Hright.
  - injection Hred as <-. constructor.
  - injection Hred as <-. destruct (is_empty left); auto.
  - unfold apply_internal_updates in Hred.
    destruct (apply_all_channel_updates clk left (channel_updates u))
      as [left1| |] eqn:Hall; simpl in Hred; try discriminate.
    pose proof (apply_all_channel_updates_registered _ _ _ _ Hall Hright Hreg)
      as Hreg1.
    destruct (tool_updates u) as [|tu tus]; [now injection Hred as <-|].
    destruct (locate_tool_calls _ _ _ _) as [positions| |];
      simpl in Hred; try discriminate.
    exact (apply_tool_updates_registered clk positions (tu :: tus) 0%nat _ _
             Hred Hreg1).
Qed.

Lemma reducer_keeps_registered_witness :
  exists left',
    history_reducer clock0 2 s1_followed (Updates s1_mixed_updates) = Ok left'
    /\ history_registered left'.
Proof.
  eexists. split; [vm_compute; reflexivity|].
  apply (reducer_keeps_registered clock0 2%nat s1_followed
           (Updates s1_mixed_updates)).
  - repeat constructor. discriminate.
  - constructor.
  - vm_compute. reflexivity.
Defined.

(** ** New messages *)

Lemma py_sort_sorted_same (msgs : list StructuredMessage) :
  sorted_by date msgs -> py_sort date msgs = msgs.
Proof.
  unfold sorted_by. induction msgs as [|m msgs IH]; intros Hs; [reflexivity|].
  apply StronglySorted_cons in Hs as [Hall Hs]. simpl. rewrite IH by exact Hs.
  destruct msgs as [|m' msgs]; [reflexivity|]. simpl.
  apply Forall_cons in Hall as [Hm _]. unfold by_key in Hm.
  apply Z.leb_le in Hm. now rewrite Hm.
Qed.

(** X25. New messages are added and none is lost: a diff that carries only
    [new_messages] is applied without error, the messages of the channel
    are then a rearrangement of the old ones followed by the new ones, and
    when these are already in order of date the list is exactly the old
    messages followed by the new ones. *)
Theorem new_messages_are_added :
  forall clk channel_id channel news,
    exists channel',
      process_channel clk channel_id channel (only_new_messages news)
      = Ok channel'
      /\ Permutation (messages channel') (messages channel ++ news)
      /\ (sorted_by date (messages channel ++ news) ->
          messages channel' = messages channel ++ news).
Proof.
  intros clk channel_id channel news.
  unfold process_channel.
  cbn [only_new_messages message_updates message_deletes delete_before
       message_append_left new_messages apply_message_updates bind
       sorted_reverse py_sort delete_messages fold_left].
  eexists. split; [reflexivity|]. cbn [messages]. split.
  - apply add_new_messages_perm.
  - intros Hs. unfold add_new_messages.
    rewrite fold_append_new_fst.
    destruct (snd _); [now apply py_sort_sorted_same|reflexivity].
Qed.

(** On S2: the late message ["b"] finds its place between the two. *)
Example new_message_finds_its_place :
  exists channel',
    process_channel clock0 "c1"
      (channel_with "c1" [human_at "a" 10; human_at "c" 30] 30)
      (only_new_messages [human_at "b" 20]) = Ok channel'
    /\ messages channel'
       = [human_at "a" 10; human_at "b" 20; human_at "c" 30].
Proof. eexists. split; reflexivity. Qed.
